(* ===== verification/_CoqProject ===== *)
-Q . S2P
Prelude.v
GoErrors.v
Topology.v
Kube.v
Naming.v
Peers.v
PpathDir.v
Lookups.v
Webhooks.v
PvcWebhook.v
Predicates.v
KeyLocker.v
Programs.v
Api.v
ContentController.v
Client.v
Builders.v
Ppath.v
ReplicationObjects.v
ReplicationCR.v
ReplicationCRRules.v
StorageClassController.v
VolumeController.v
Mirrors.v
Provisioner.v
ProvisionerRules.v
ProvisionerRuns.v
ProvisionerCleanup.v
Remap.v
Server.v
Cosi.v
Invocations.v
Manager.v
Cli.v
Events.v
VolumeBuilders.v
DeepCopy.v
