(* ===== verification/Prelude.v ===== *)
(** * vast-csi extensions controller: a verification development

    The program under [src/extensions-controller] is a set of Kubernetes
    controllers and webhooks that replicate VAST volumes between clusters.
    Users declare a VastStorageClassReplication (VSCR) or a
    VastVolumeReplication (VVR): a mesh of StorageClasses, one per cluster,
    one of which is primary.  Admission webhooks validate the declarations;
    the top-level controllers resolve replication peers and policies on the
    clusters, create the csi-addons VolumeGroupReplication (VGR) or
    VolumeReplication (VR) objects and one VastReplicationContent (VRC) per
    StorageClass; further controllers keep the contents, the mirror PVCs/PVs
    and the workloads in step with the replication state.  Beside them run
    two controllers for the credentials of COSI buckets and a gRPC server that
    hands tenants and Secrets to the CSI driver.  One binary holds all of them:
    its arguments say which namespaces of controllers, webhooks and servers a
    process runs, and a second set of commands shows and changes VSCRs and VVRs
    by hand.

    ** Files

    - [Prelude] (this file): strings as byte lists, decimal printing, sorting,
      [int64] wrap-around, result monad, tactics and the hint database [vast].
    - [GoErrors]: the error types of [internal/common/errors], their [Error]
      and [Unwrap] methods, [IsNetworkError], the retry policy and backoff of
      [internal/controller/errors.go], [reconciler.go], [backoff.go].
    - [Topology]: the API types of [api/v1alpha1], their validation and the
      queries on the replication mesh.
    - [Kube]: Kubernetes objects and the helpers of
      [internal/common/k8s_client] on labels, annotations, finalizers,
      parameters, parents and the label backfill of existing PVCs.
    - [Naming]: sanitisation, name formats and derived object names
      ([internal/common/utils], [internal/provisioner/utils.go]), and the
      annotation of the VRCs of a constellation.
    - [Peers]: peer discovery, directed edges, policy names and tenants
      ([internal/common/vmsrest]).
    - [PpathDir]: the predicted directories ([internal/common/ppathdir]).
    - [Webhooks]: the VSCR and VVR admission handlers; [PvcWebhook]: the PVC
      and bucket admission handlers ([internal/webhook]).
    - [Predicates]: which events reach which reconciler
      ([internal/controller/predicates.go]).
    - [KeyLocker]: the per-key lock of the reconcilers
      ([internal/controller/key_locker.go]) as a transition system over
      interleaved goroutines.
    - [Lookups]: reads of StorageClasses and Secrets and the construction of
      REST clients ([internal/common/vmsrest/vmsrest.go]) behind the class
      [Lookups.Lookups].
    - [Programs]: code that makes calls as finite trees of calls, all their
      runs for unrestricted answers, and a calculus ([wp]) for what holds at
      every call of every run.  [link] replaces the calls of one program by
      programs of a lower level, and [wp_link] carries its theorems over, which
      is how the interface of the provisioner is filled in; [embed] uses a
      program where more calls are available.  [Api]: the calls to API server, clusters, clock
      and backoff, and the client wrappers with their conflict retries;
      [Client]: the wrappers of the replication objects, polling
      ([vmsrest/wait.go]), the touch of a constellation
      ([internal/common/k8s_client]).
    - [ContentController]: the reconciliation of a VRC with its deletion
      protocol ([internal/controller/vastreplicationcontent_controller.go]).
    - [Builders]: the fluent builders of [internal/provisioner/builder].
    - [Ppath]: protected paths, replication streams and protection policies on
      the clusters ([vmsrest/ppath.go], [discover_policies.go], [folders.go]).
    - [ReplicationObjects]: from VRs and VGRs to contents
      ([internal/controller/replication_object_controller.go]).
    - [ReplicationCR]: the steps the VSCR and VVR controllers have in common,
      over the class [CR] of the two resources, in a monad [M] that threads the
      shared object the Go code mutates, also past errors and recovered panics;
      [ReplicationCRRules]: what each step may do, for every guard that
      satisfies the class [Guard].
    - [StorageClassController], [VolumeController]: the two controllers
      ([internal/controller/vaststorageclassreplication_controller.go],
      [vastvolumereplication_controller.go]), each with the guard its calls
      satisfy, its properties, and concrete runs.
    - [Mirrors]: mirror PVCs and PVs ([internal/provisioner/base.go]).
    - [Provisioner]: the block and file provisioners with their lazy listings,
      [CleanVolumes], and [ReconcileContent], the content controller linked with
      them ([internal/provisioner]: [base.go], [block.go], [file.go],
      [lazy_cache.go], [provisioner.go]); [ProvisionerRules]: what each routine
      may ask of a cluster and knows of the cached listings;
      [ProvisionerRuns]: provisioning; [ProvisionerCleanup]: cleanup, and the
      linked controller.
    - [Remap]: the PVC remap controller
      ([internal/controller/pvcremap_controller.go]).
    - [Server]: the VastExtensions gRPC server, its authentication and its
      handlers ([internal/server]).
    - [Cosi]: the two controllers of COSI credentials
      ([internal/controller/credentials_flattener_controller.go],
      [ba_secret_resync_controller.go], [internal/common/cosi]).
    - [Invocations]: how the arguments of a process are split into root flags
      and namespaces ([internal/cmd/namespace/parse.go]); [Manager]: from the
      arguments over the configuration of each namespace to the started
      manager with all its registrations ([internal/cmd]: [root.go], [manager],
      [namespace], [replication], [webhook], [server], [cosi];
      [internal/common/config], the Setup functions of the controllers and
      webhooks).
    - [Cli]: the commands failover, sync, delete, list and status, with what
      they print ([internal/cmd/cli]).
    - [Events]: recorders and the bound reporters that share them, on a heap
      ([internal/common/events]), and request IDs ([internal/common/logging]).
    - [VolumeBuilders]: the builders of PVs and PVCs with all the fields they
      write and the metadata options ([internal/provisioner/builder]).
    - [DeepCopy]: the hand-written deep copies ([api/v1alpha1/deepcopy.go]) on
      a store of arrays and maps.

    Go values are modelled as they are used: a nil slice is the empty list,
    maps are [gmap]s, strings are byte strings, errors are values of
    [GoErrors.error] and fallible functions return [result].  API server,
    REST clients, clocks and compiled regular expressions are arguments of
    the definitions or calls of a program; wherever Go iterates over a map, the
    order is an explicit list, the class [Ppath.MapOrder], or the result does
    not depend on it.  A nil dereference is the outcome [Panicked], which
    controller-runtime turns into an error of the reconciliation after the
    deferred status update has run.

    ** What is proved

    - Topology: a VVR spec is accepted exactly when it is well formed and its
      entries form a complete mesh; the exact acceptance condition of VSCR
      specs, which does not include completeness; ordering and orientation of
      the mesh queries; parsing of durations including its [int64] overflow.
    - Webhooks: what admission guarantees, that the StorageClasses of stored
      VSCRs stay disjoint along every sequence of admitted requests, that a
      VVR on a VSCR's class blocks the VSCR, that no peer name is persisted by
      the webhook; exactly which PVCs are refused, and that label injection is
      stable.
    - Peers and directories: the narrowed peer queries decide exactly what the
      complete listings would; edges start at the primary; policy names do not
      depend on the primary; directory predictions.
    - Names: shape and length of sanitised names, termination of the collapse
      loop, when derived names determine the class they were derived from.
    - Errors: classification survives wrapping, retry policy, aggregation.
    - Watches: the remap reconciler never misses a change of the confirmed
      membership.
    - Contents: in every run, whatever the API server answers, a content only
      loses its finalizer behind the constellation barrier, cleans up only
      after its VGR or VR is gone, provisions only while both are live, and is
      marked provisioned only after success; the recorded PVC list, however,
      is stored before provisioning succeeds.
    - Mirrors: created only for bound sources that are no mirrors, released or
      deleted only when listed, orphaned and as the parent's policy says.
    - Provisioners: volumes, views and quotas are created at most once, for
      sources read in the run, in order, and only on the content's own cluster;
      cleanup takes a content apart in order, and its success means that all is
      gone.  For the linked controller: a content loses its finalizer only after
      its cluster was cleaned by the provisioner of its type and class, and
      every request to a cluster belongs to the phase the content is in.
    - Remap: workloads are patched only for a confirmed primary, once, towards
      PVCs of the same source; the table is exactly that relation when no two
      primaries share a source; a patched template needs no further patch.
    - Server: no Secret is read for a TCP caller without a reviewed token, an
      allowed identity and an access review for that very Secret; which names
      are allowed; no TCP server without the interceptor.
    - COSI: only copies owned by the access are written or deleted, with the
      credentials just read; a grant is only withdrawn for stale credentials.
    - VSCR and VVR controllers, in every run and whatever API server and
      clusters answer: which states VGRs and VRs are driven to and why, that a
      triggered resync is not undone in its own pass, that created children
      belong to the resource the API server returned, primary first and after
      the protected path, that status mappings are immutable and [SyncStatus]
      truthful, that the finalizer goes last, and that a successful pass has
      seen every child.  The deletion theorems have three disjuncts because a
      conflict retry repeats the finalizers it was answered, and because a
      validation that fails takes back the finalizer just added.
    - Protected paths: order of the streams, what success means, when a
      directory on a peer may be deleted, which policies are created; long
      owner names collapse all streams into one.
    - Replication objects: created contents are complete and follow their VR or
      VGR; deletion only for terminating objects.
    - Client: polling ends within the rounds given; the touch of a
      constellation refines its description on a store.
    - Key lock: two goroutines can hold one key; they cannot outside two
      windows, which are stated; every execution can be completed and then
      leaves no entry behind.
    - Process: well-formed arguments are returned as written and nothing else
      is accepted; a started manager holds exactly the registrations of the
      namespaces it was asked for, in order and under validated
      configurations, with the options of the first namespace only.
    - Command line: list and status write nothing, failover only patches the
      named object after the new primary was checked and keeps a valid
      specification valid, delete only follows a confirmation; the table of
      list is aligned.
    - Events: a reporter has warned exactly when a warning went through it; an
      event reaches every bound object once and is logged once; request IDs
      do not repeat.
    - Objects: the chains of builder calls build the mirrors [Mirrors] reasons
      about; deep copies of specifications are independent of their originals,
      while copies of the VSCR and VVR statuses share their maps.

    ** Bounds and fuel

    [Naming.collapse_loop] and [GoErrors.itoa_loop] take fuel; the theorems
    [collapse_loop_terminates] and [itoa_correct] show that the fuel given is
    enough.  Polling loops run for [Client.polls] rounds, enough by
    [Client.WaitResource_rounds_suffice] for every clock that advances by the
    sleeps.  All other recursion is structural; the conflict retries count down
    from a parameter ([Api.RetrySteps]), and the theorems hold for each value.
    Programs are finite trees, so every run ends.  The key-lock theorems assume
    fewer than 2^31 goroutines, the range of the [int32] counter.

    ** Not modelled

    Generated code (deep copies of whole objects, protocol buffers), log
    lines, the hooks that log REST requests, and the builder methods for fields
    that no caller sets.  The controllers' models do not carry the events they
    emit, so [Events] is a component of its own.  JSON and URL decoding,
    Kubernetes quantities and RFC 3339 times, [CreateOrUpdate] and the
    owner-reference helpers of controller-runtime, flag parsing by pflag, the
    certificate watcher, terminal colours and the VAST client are parameters;
    the hypotheses on them are [Cosi.CosiContract] and [Remap.merges_by_name],
    and the witnesses instantiate them.  Mutexes that guard a cache of one
    reconciliation or the map of reported events are left out. *)

From stdpp Require Export base gmap strings list sorting fin_maps fin_sets.
From Stdlib Require Export Ascii ZArith Lia.
From stdpp Require Import options.

(** ** Scopes, hints and tactics shared by the whole development *)

Declare Scope go_scope.
Delimit Scope go_scope with go.

(** [vast] carries the lemmas that close the routine side conditions of the
    components: memberships, sortedness, string equations. *)
Create HintDb vast.

(** [go_str] rewrites between strings and their byte lists. *)
Create Rewrite HintDb go_str.

(** [go_int] removes the wrap-around of intermediate results. *)
Create Rewrite HintDb go_int.

(** Case analysis on the boolean or option that drives the goal. *)
Ltac split_match :=
  match goal with
  | |- context [match ?x with _ => _ end] =>
      lazymatch x with
      | context [match _ with _ => _ end] => fail
      | _ => destruct x eqn:?
      end
  end.

Ltac split_match_in H :=
  match type of H with
  | context [match ?x with _ => _ end] =>
      lazymatch x with
      | context [match _ with _ => _ end] => fail
      | _ => destruct x eqn:?
      end
  end.

(** [crush_matches]: split every [match] of the goal, discard absurd cases. *)
Ltac crush_matches :=
  repeat (split_match; simplify_eq/=); try done.

Ltac to_props :=
  repeat match goal with
  | H : (_ && _) = true |- _ => apply andb_true_iff in H as [??]
  | H : (_ || _) = false |- _ => apply orb_false_iff in H as [??]
  | H : negb _ = true |- _ => apply negb_true_iff in H
  | H : negb _ = false |- _ => apply negb_false_iff in H
  | H : bool_decide _ = true |- _ => apply bool_decide_eq_true in H
  | H : bool_decide _ = false |- _ => apply bool_decide_eq_false in H
  end.

(** ** Go strings: byte sequences

    A Go [string] is a sequence of bytes, here Stdlib's [string] (a list of
    8-bit [ascii] values).  [chars]/[str] move to and from lists of bytes so
    the list library applies. *)

Fixpoint chars (s : string) : list ascii :=
  match s with
  | EmptyString => []
  | String c s' => c :: chars s'
  end.

Fixpoint str (l : list ascii) : string :=
  match l with
  | [] => EmptyString
  | c :: l' => String c (str l')
  end.

Definition strlen (s : string) : nat := length (chars s).

Definition byte_of (c : ascii) : N := N_of_ascii c.

Definition is_digit (c : ascii) : bool :=
  (48 <=? byte_of c)%N && (byte_of c <=? 57)%N.
Definition is_lower (c : ascii) : bool :=
  (97 <=? byte_of c)%N && (byte_of c <=? 122)%N.
Definition is_upper (c : ascii) : bool :=
  (65 <=? byte_of c)%N && (byte_of c <=? 90)%N.

Definition lower_byte (c : ascii) : ascii :=
  if is_upper c then ascii_of_N (byte_of c + 32) else c.

(** [strings.ToLower].  Two letters outside ASCII have an ASCII lower case,
    U+0130 (i) and U+212A (k); the other letters outside ASCII are kept, their
    case is never looked at. *)
Definition is_byte (n : N) (c : ascii) : bool := (byte_of c =? n)%N.
Fixpoint lower_bytes (l : list ascii) : list ascii :=
  match l with
  | [] => []
  | a :: l1 =>
      match l1 with
      | b :: l2 =>
          if is_byte 196 a && is_byte 176 b then "i"%char :: lower_bytes l2
          else
            match l2 with
            | c :: l3 =>
                if is_byte 226 a && is_byte 132 b && is_byte 170 c
                then "k"%char :: lower_bytes l3
                else lower_byte a :: lower_bytes l1
            | [] => lower_byte a :: lower_bytes l1
            end
      | [] => [lower_byte a]
      end
  end.

Definition to_lower (s : string) : string := str (lower_bytes (chars s)).

(** Bytes of the UTF-8 encoded rune at the head of a string; an invalid
    encoding is one byte long. *)
Definition in_bytes (lo hi : N) (c : ascii) : bool :=
  (lo <=? byte_of c)%N && (byte_of c <=? hi)%N.
Definition cont (c : ascii) : bool := in_bytes 128 191 c.
Definition rune_len (l : list ascii) : nat :=
  match l with
  | a :: b :: l' =>
      if in_bytes 194 223 a && cont b then 2
      else
        match l' with
        | c :: l'' =>
            let b_ok := if is_byte 224 a then in_bytes 160 191 b
                        else if is_byte 237 a then in_bytes 128 159 b else cont b in
            if in_bytes 224 239 a && b_ok && cont c then 3
            else
              match l'' with
              | d :: _ =>
                  let b_ok' := if is_byte 240 a then in_bytes 144 191 b
                               else if is_byte 244 a then in_bytes 128 143 b else cont b in
                  if in_bytes 240 244 a && b_ok' && cont c && cont d then 4 else 1
              | [] => 1
              end
        | [] => 1
        end
  | _ => 1
  end.

(** Replace every rune that is not an accepted ASCII byte by [r], as
    [strings.Map] and [Regexp.ReplaceAllString] with a negated class do. *)
Fixpoint replace_invalid (ok : ascii → bool) (r : ascii) (skip : nat) (l : list ascii)
    : list ascii :=
  match l with
  | [] => []
  | c :: l' =>
      match skip with
      | S k => replace_invalid ok r k l'
      | O => if ok c then c :: replace_invalid ok r 0 l'
             else r :: replace_invalid ok r (rune_len l - 1) l'
      end
  end.

Fixpoint is_prefix (p l : list ascii) : bool :=
  match p, l with
  | [], _ => true
  | a :: p', b :: l' => bool_decide (a = b) && is_prefix p' l'
  | _, [] => false
  end.

Definition has_prefix (s p : string) : bool := is_prefix (chars p) (chars s).
Definition has_suffix (s p : string) : bool :=
  is_prefix (rev (chars p)) (rev (chars s)).

Fixpoint is_infix (p l : list ascii) : bool :=
  is_prefix p l || match l with [] => false | _ :: l' => is_infix p l' end.

Definition contains (s sub : string) : bool := is_infix (chars sub) (chars s).

Definition trim_prefix (s p : string) : string :=
  if has_prefix s p then str (drop (strlen p) (chars s)) else s.

Definition trim_suffix (s p : string) : string :=
  if has_suffix s p then str (take (strlen s - strlen p) (chars s)) else s.

Fixpoint drop_while (f : ascii → bool) (l : list ascii) : list ascii :=
  match l with
  | [] => []
  | c :: l' => if f c then drop_while f l' else l
  end.

Fixpoint take_while (f : ascii → bool) (l : list ascii) : list ascii :=
  match l with
  | c :: l' => if f c then c :: take_while f l' else []
  | [] => []
  end.

Definition drop_while_end (f : ascii → bool) (l : list ascii) : list ascii :=
  rev (drop_while f (rev l)).

(** [strings.Trim], [TrimRight] with a cut set, and [TrimSpace]. *)
Definition trim_set (f : ascii → bool) (s : string) : string :=
  str (drop_while_end f (drop_while f (chars s))).
Definition trim_right_set (f : ascii → bool) (s : string) : string :=
  str (drop_while_end f (chars s)).

Definition is_space (c : ascii) : bool :=
  let n := byte_of c in
  ((9 <=? n)%N && (n <=? 13)%N) || (n =? 32)%N.
Definition trim_space (s : string) : string := trim_set is_space s.

Definition is_char (a : ascii) (c : ascii) : bool := bool_decide (c = a).

(** [strings.ReplaceAll] of one byte by another. *)
Definition replace_char (old new : ascii) (s : string) : string :=
  str (map (fun c => if bool_decide (c = old) then new else c) (chars s)).

(** [strings.Split] on a one-byte separator. *)
Fixpoint split_on (sep : ascii) (cur : list ascii) (l : list ascii) : list string :=
  match l with
  | [] => [str (rev cur)]
  | c :: l' =>
      if bool_decide (c = sep) then str (rev cur) :: split_on sep [] l'
      else split_on sep (c :: cur) l'
  end.
Definition split_str (sep : ascii) (s : string) : list string :=
  split_on sep [] (chars s).

(** [strings.Join]. *)
Fixpoint join (sep : string) (l : list string) : string :=
  match l with
  | [] => ""
  | [s] => s
  | s :: l' => s +:+ sep +:+ join sep l'
  end.

(** [%q] ([strconv.Quote]): quotes, backslashes and control bytes are escaped;
    bytes from 128 on belong to printable UTF-8 text and are kept. *)
Definition dquote : string := String (ascii_of_nat 34) EmptyString.
Definition hex_digit (n : N) : ascii :=
  ascii_of_N (if (n <? 10)%N then 48 + n else 87 + n).
Definition escape_byte (c : ascii) : list ascii :=
  let bs := ascii_of_nat 92 in
  let n := byte_of c in
  if (n =? 34)%N || (n =? 92)%N then [bs; c]
  else if (n =? 7)%N then [bs; "a"%char]
  else if (n =? 8)%N then [bs; "b"%char]
  else if (n =? 9)%N then [bs; "t"%char]
  else if (n =? 10)%N then [bs; "n"%char]
  else if (n =? 11)%N then [bs; "v"%char]
  else if (n =? 12)%N then [bs; "f"%char]
  else if (n =? 13)%N then [bs; "r"%char]
  else if (n <? 32)%N || (n =? 127)%N
  then [bs; "x"%char; hex_digit (n / 16); hex_digit (n mod 16)]
  else [c].
Definition quote (s : string) : string :=
  dquote +:+ str (chars s ≫= escape_byte) +:+ dquote.

(** [sort.Strings] *)
Definition sort_strings (l : list string) : list string := merge_sort String.le l.

(** [a < b] on strings. *)
Definition str_lt (a b : string) : bool :=
  bool_decide (String.le a b) && negb (bool_decide (a = b)).

(** A Go [map[string]string] read with [m[k]]: the zero value when absent. *)
Definition map_get (m : gmap string string) (k : string) : string :=
  default "" (m !! k).

(** Decimal digits of a natural number ([strconv.Itoa], [%d]), most significant first. *)
Definition digit_char (n : nat) : ascii := ascii_of_nat (48 + n).

Fixpoint dec_digits (fuel n : nat) (acc : list ascii) : list ascii :=
  match fuel with
  | O => acc
  | S f =>
      let acc' := digit_char (n mod 10) :: acc in
      if (n <? 10)%nat then acc' else dec_digits f (n / 10) acc'
  end.
Definition show_nat (n : nat) : string := str (dec_digits (S n) n []).

(** [%d] of an integer; a number has at most as many digits as bits. *)
Fixpoint dec_digits_N (fuel : nat) (n : N) (acc : list ascii) : list ascii :=
  match fuel with
  | O => acc
  | S f =>
      let acc' := ascii_of_N (48 + n mod 10) :: acc in
      if (n <? 10)%N then acc' else dec_digits_N f (n / 10) acc'
  end.
Definition show_N (n : N) : string := str (dec_digits_N (S (N.size_nat n)) n []).
Definition show_Z (z : Z) : string :=
  if (z <? 0)%Z then "-" +:+ show_N (Z.to_N (- z)) else show_N (Z.to_N z).

(** ** Machine integers *)

(** Two's-complement wrap-around of Go's [int64]. *)
Definition wrap64 (z : Z) : Z := ((z + 2 ^ 63) mod 2 ^ 64 - 2 ^ 63)%Z.

(** ** Generic lemmas *)

Lemma wrap64_id z : (- 2 ^ 63 ≤ z < 2 ^ 63)%Z → wrap64 z = z.
Proof. intros Hz. unfold wrap64. rewrite Z.mod_small; lia. Qed.

Lemma wrap64_range z : (- 2 ^ 63 ≤ wrap64 z < 2 ^ 63)%Z.
Proof. unfold wrap64. pose proof (Z.mod_pos_bound (z + 2 ^ 63) (2 ^ 64)). lia. Qed.

Lemma wrap64_eq z z' : (z mod 2 ^ 64 = z' mod 2 ^ 64)%Z → wrap64 z = wrap64 z'.
Proof.
  intros H. unfold wrap64. by rewrite Z.add_mod, H, <-Z.add_mod by lia.
Qed.

Lemma wrap64_mod z : (wrap64 z mod 2 ^ 64 = z mod 2 ^ 64)%Z.
Proof.
  unfold wrap64. rewrite Zminus_mod_idemp_l. f_equal. lia.
Qed.

(** Wrapping an intermediate result does not change the final wrap. *)
Lemma wrap64_mul_l a b : wrap64 (wrap64 a * b) = wrap64 (a * b).
Proof. apply wrap64_eq. by rewrite Z.mul_mod, wrap64_mod, <-Z.mul_mod by lia. Qed.

Lemma wrap64_add_l a b : wrap64 (wrap64 a + b) = wrap64 (a + b).
Proof. apply wrap64_eq. by rewrite Z.add_mod, wrap64_mod, <-Z.add_mod by lia. Qed.

#[export] Hint Rewrite wrap64_mul_l wrap64_add_l : go_int.

Lemma str_chars s : str (chars s) = s.
Proof. induction s as [|c s IH]; simpl; [done|by rewrite IH]. Qed.

Lemma chars_str l : chars (str l) = l.
Proof. induction l as [|c l IH]; simpl; [done|by rewrite IH]. Qed.

Lemma chars_app s1 s2 : chars (s1 +:+ s2) = chars s1 ++ chars s2.
Proof.
  induction s1 as [|c s1 IH]; [done|].
  change (chars (String c s1 +:+ s2)) with (c :: chars (s1 +:+ s2)).
  by rewrite IH.
Qed.

Lemma str_app l1 l2 : str (l1 ++ l2) = str l1 +:+ str l2.
Proof.
  induction l1 as [|c l1 IH]; [done|].
  change (str (c :: l1) +:+ str l2) with (String c (str l1 +:+ str l2)).
  simpl. by rewrite IH.
Qed.

#[export] Instance chars_inj : Inj (=) (=) chars.
Proof. intros s1 s2 H. by rewrite <-(str_chars s1), <-(str_chars s2), H. Qed.

Lemma chars_nil s : chars s = [] ↔ s = "".
Proof. destruct s; naive_solver. Qed.

#[export] Hint Rewrite chars_str str_chars chars_app : go_str.

Lemma is_prefix_spec p l : is_prefix p l = true ↔ ∃ k, l = p ++ k.
Proof.
  revert l. induction p as [|a p IH]; intros l; simpl; [naive_solver|].
  destruct l as [|b l]; [naive_solver|].
  rewrite andb_true_iff, bool_decide_eq_true, IH. naive_solver.
Qed.

Lemma has_prefix_spec s p : has_prefix s p = true ↔ ∃ k, s = p +:+ k.
Proof.
  unfold has_prefix. rewrite is_prefix_spec. split; intros [k Hk].
  - exists (str k). apply (inj chars). by rewrite chars_app, chars_str.
  - exists (chars k). by rewrite Hk, chars_app.
Qed.

Lemma has_suffix_spec s p : has_suffix s p = true ↔ ∃ k, s = k +:+ p.
Proof.
  unfold has_suffix. rewrite is_prefix_spec. split; intros [k Hk].
  - exists (str (rev k)). apply (inj chars). rewrite chars_app, chars_str.
    rewrite <-(rev_involutive (chars s)), Hk, rev_app_distr.
    by rewrite rev_involutive.
  - exists (rev (chars k)). by rewrite Hk, chars_app, rev_app_distr.
Qed.

Lemma is_infix_spec p l : is_infix p l = true ↔ ∃ k1 k2, l = k1 ++ p ++ k2.
Proof.
  induction l as [|c l IH]; simpl; rewrite orb_true_iff, is_prefix_spec.
  - split.
    + intros [[k Hk]|?]; [exists [], k; done|done].
    + intros (k1 & k2 & H). left. destruct k1, p; naive_solver.
  - rewrite IH. split.
    + intros [[k Hk]|(k1 & k2 & Hk)]; [by exists [], k|].
      exists (c :: k1), k2. by rewrite Hk.
    + intros (k1 & k2 & H). destruct k1 as [|c' k1]; simplify_eq/=; [left|right]; eauto.
Qed.

Lemma contains_spec s sub :
  contains s sub = true ↔ ∃ k1 k2, s = k1 +:+ sub +:+ k2.
Proof.
  unfold contains. rewrite is_infix_spec. split.
  - intros (k1 & k2 & H). exists (str k1), (str k2). apply (inj chars).
    by rewrite !chars_app, !chars_str.
  - intros (k1 & k2 & ->). exists (chars k1), (chars k2). by rewrite !chars_app.
Qed.

Lemma contains_app_l s t sub : contains s sub = true → contains (s +:+ t) sub = true.
Proof.
  rewrite !contains_spec. intros (k1 & k2 & ->). exists k1, (k2 +:+ t).
  apply (inj chars). by rewrite !chars_app, <-!app_assoc.
Qed.

Lemma contains_app_r s t sub : contains t sub = true → contains (s +:+ t) sub = true.
Proof.
  rewrite !contains_spec. intros (k1 & k2 & ->). exists (s +:+ k1), k2.
  apply (inj chars). by rewrite !chars_app, <-!app_assoc.
Qed.

#[export] Hint Resolve contains_app_l contains_app_r : vast.

Lemma drop_while_suffix f l : ∃ k, l = k ++ drop_while f l.
Proof.
  induction l as [|c l [k Hk]]; simpl; [by exists []|].
  destruct (f c); [exists (c :: k); simpl; congruence|by exists []].
Qed.

Lemma drop_while_head f l c l' : drop_while f l = c :: l' → f c = false.
Proof.
  induction l as [|d l IH]; simpl; [done|].
  destruct (f d) eqn:E; [done|]. intros [= -> ->]. done.
Qed.

Lemma drop_while_id f l :
  (∀ c l', l = c :: l' → f c = false) → drop_while f l = l.
Proof. destruct l as [|c l]; simpl; [done|]. intros H. by rewrite (H c l). Qed.

Lemma drop_while_end_prefix f l : ∃ k, l = drop_while_end f l ++ k.
Proof.
  destruct (drop_while_suffix f (rev l)) as [k Hk].
  exists (rev k). unfold drop_while_end.
  by rewrite <-rev_app_distr, <-Hk, rev_involutive.
Qed.

Lemma drop_while_end_last f l k c : drop_while_end f l = k ++ [c] → f c = false.
Proof.
  unfold drop_while_end. intros H. apply (f_equal (@rev _)) in H.
  rewrite rev_involutive, rev_app_distr in H. eapply drop_while_head, H.
Qed.

Lemma drop_while_end_id f l :
  (∀ k c, l = k ++ [c] → f c = false) → drop_while_end f l = l.
Proof.
  intros H. unfold drop_while_end. rewrite drop_while_id, rev_involutive; [done|].
  intros c l' Hl. apply (H (rev l')).
  by rewrite <-(rev_involutive l), Hl.
Qed.

Lemma elem_of_drop_while f l c : c ∈ drop_while f l → c ∈ l.
Proof.
  destruct (drop_while_suffix f l) as [k Hk]. intros Hc.
  rewrite Hk. set_solver.
Qed.

Lemma elem_of_drop_while_end f l c : c ∈ drop_while_end f l → c ∈ l.
Proof.
  destruct (drop_while_end_prefix f l) as [k Hk]. intros Hc.
  rewrite Hk. set_solver.
Qed.

Lemma Forall2_iff_in {A B} (P Q : A → B → Prop) l k :
  (∀ x y, x ∈ l → P x y ↔ Q x y) → Forall2 P l k ↔ Forall2 Q l k.
Proof.
  revert k. induction l as [|x l IH]; intros k H.
  - by split; intros ->%Forall2_nil_inv_l.
  - destruct k as [|y k]; [by split; intros ?%Forall2_nil_inv_r|].
    rewrite !Forall2_cons. rewrite (IH k), (H x y) by set_solver. done.
Qed.

(** What ends in a byte outside the cut set is kept by trimming. *)
Lemma drop_while_end_keep f l c k :
  f c = false → ∃ k', drop_while_end f (l ++ c :: k) = l ++ c :: k'.
Proof.
  intros Hc. unfold drop_while_end. rewrite rev_app_distr. simpl.
  rewrite <-app_assoc. simpl. generalize (rev k) as r. clear k.
  assert (∀ r, ∃ k', drop_while f (r ++ c :: rev l) = k' ++ c :: rev l) as H.
  { induction r as [|d r [k' IH]]; simpl.
    - exists []. by rewrite Hc.
    - destruct (f d); [eauto|]. by exists (d :: r). }
  intros r. destruct (H r) as [k' ->]. exists (rev k').
  rewrite rev_app_distr. simpl. by rewrite rev_involutive, <-app_assoc.
Qed.

Lemma trim_right_contains f s sub p c :
  sub = p +:+ String c EmptyString → f c = false →
  contains s sub = true → contains (trim_right_set f s) sub = true.
Proof.
  intros -> Hc. rewrite !contains_spec. intros (k1 & k2 & ->).
  unfold trim_right_set. autorewrite with go_str. simpl.
  destruct (drop_while_end_keep f (chars k1 ++ chars p) c (chars k2) Hc) as [k' Hk'].
  exists k1, (str k'). apply (inj chars). autorewrite with go_str.
  rewrite <-app_assoc in Hk'. rewrite <-!app_assoc. simpl. by rewrite Hk', <-app_assoc.
Qed.

Lemma filter_nil_iff {A} (P : A → Prop) `{!∀ x, Decision (P x)} (l : list A) :
  filter P l = [] ↔ ∀ x, x ∈ l → ¬ P x.
Proof.
  split.
  - intros Hl x Hx HP. by eapply (filter_nil_not_elem_of P l x).
  - intros Hn. induction l as [|x l IH]; [done|].
    rewrite filter_cons_False by (apply Hn; set_solver). apply IH. set_solver.
Qed.

(** Sorting a duplicate-free list of names: the result is the unique
    ascending enumeration of its elements. *)
Lemma sort_strings_perm l : sort_strings l ≡ₚ l.
Proof. apply merge_sort_Permutation. Qed.

Lemma sort_strings_sorted l : StronglySorted String.le (sort_strings l).
Proof. apply StronglySorted_merge_sort; apply _. Qed.

Lemma elem_of_sort_strings x l : x ∈ sort_strings l ↔ x ∈ l.
Proof. by rewrite sort_strings_perm. Qed.

Lemma NoDup_sort_strings l : NoDup l → NoDup (sort_strings l).
Proof. by rewrite sort_strings_perm. Qed.

Lemma sort_strings_unique l1 l2 : l1 ≡ₚ l2 → sort_strings l1 = sort_strings l2.
Proof.
  intros H. apply (StronglySorted_unique String.le); auto using sort_strings_sorted.
  by rewrite !sort_strings_perm.
Qed.

#[export] Hint Resolve sort_strings_sorted NoDup_sort_strings : vast.

#[export] Instance sort_strings_proper : Proper ((≡ₚ) ==> (=)) sort_strings.
Proof. intros l1 l2 H. by apply sort_strings_unique. Qed.
