(* ===== verification/GoErrors.v ===== *)
(** * Errors

    The error values the controllers exchange, and the functions that look
    into them.

    - [error]: the concrete error types of [internal/common/errors/errors.go]
      ([RetryAfterError], [ValidationError], [DeferredError]), the errors
      made by [errors.New]/[fmt.Errorf], and the foreign error types the code
      inspects ([context.DeadlineExceeded], [*net.OpError], the Kubernetes
      [StatusError], the HTTP error of the VAST client).
    - [error_msg] is the [Error()] method, [unwrap] the [Unwrap] methods, and
      [as_*] the [errors.As]/[errors.Is] searches over them.
    - [IsNetworkError] ([internal/common/errors.go]), [isValidationError],
      [isPermanentError] ([internal/controller/errors.go]) and
      [maybeBackoffRetry] ([internal/controller/reconciler.go]).

    A Go value of type [error] is an [option error], [None] being [nil]. *)

From S2P Require Import Prelude.
From stdpp Require Import options.

(** Reason of a Kubernetes [StatusError], as far as the code tells them apart. *)
Inductive StatusReason :=
| ReasonNotFound
| ReasonAlreadyExists
| ReasonConflict
| ReasonOther.

#[export] Instance StatusReason_eq_dec : EqDecision StatusReason.
Proof. solve_decision. Defined.

Inductive error :=
| ErrNew (msg : string)                               (* errors.New, Errorf without %w *)
| ErrWrap (pre : string) (cause : error) (post : string) (* Errorf("pre%wpost") *)
| RetryAfterError (cause : error) (delay : Z)
| ValidationError (msg : string)
| DeferredError (errs : list error)
| ErrDeadlineExceeded                                 (* context.DeadlineExceeded *)
| ErrNetOp (msg : string)                             (* *net.OpError *)
| ErrStatus (reason : StatusReason) (msg : string)    (* apierrors.StatusError *)
| ErrRest (code : Z) (msg : string).                  (* VAST client, HTTP status *)

(** [NewRetryAfterError], [NewValidationError] *)
Definition NewRetryAfterError (cause : error) (delay : Z) : error :=
  RetryAfterError cause delay.
Definition NewValidationError (msg : string) : error := ValidationError msg.

(** A Go call returning [(T, error)]: the error, or the value. *)
Definition result (A : Type) : Type := error + A.

#[export] Instance result_ret : MRet result := fun A a => inr a.
#[export] Instance result_bind : MBind result := fun A B f r =>
  match r with
  | inl e => inl e
  | inr a => f a
  end.

Definition Errorf {A} (msg : string) : result A := inl (ErrNew msg).
Definition wrap_err {A} (pre : string) (r : result A) : result A :=
  match r with
  | inl e => inl (ErrWrap pre e "")
  | inr a => inr a
  end.

(** The error component of a result that carries no value ([error]). *)
Definition err_of (r : result unit) : option error :=
  match r with
  | inl e => Some e
  | inr _ => None
  end.

(** ** DeferredError *)

(** The accumulator [var errs cerrors.DeferredError] is its [errs] field. *)
Definition DeferredError_Add (d : list error) (err : option error) : list error :=
  match err with
  | Some e => d ++ [e]
  | None => d
  end.

Definition DeferredError_IsEmpty (d : list error) : bool :=
  bool_decide (length d = 0).

Definition DeferredError_Merge (d other : list error) : list error := d ++ other.

Definition DeferredError_Err (d : list error) : option error :=
  if DeferredError_IsEmpty d then None else Some (DeferredError d).

(** [itoa]: digits are written from the end of a 20-byte buffer.  [pos] counts
    the free bytes; writing with none left is Go's index-out-of-range panic
    ([None]). *)
Fixpoint itoa_loop (pos : nat) (n : Z) (buf : list ascii) : option (list ascii) :=
  if bool_decide (0 < n)%Z then
    match pos with
    | O => None
    | S pos' =>
        itoa_loop pos' (n / 10)%Z (ascii_of_N (48 + Z.to_N (n mod 10)) :: buf)
    end
  else Some buf.

Definition itoa (n : Z) : option string :=
  if bool_decide (n = 0)%Z then Some "0" else str <$> itoa_loop 20 n [].

Definition newline : string := String (ascii_of_nat 10) EmptyString.

Definition deferred_line (msg : string) : string := "  - " +:+ msg +:+ newline.

(** [DeferredError.Error], given the messages of the collected errors. *)
Definition DeferredError_Error (msgs : list string) : string :=
  match msgs with
  | [m] => m
  | _ =>
      trim_right_set (is_char (ascii_of_nat 10))
        (default "" (itoa (Z.of_nat (length msgs))) +:+
         " errors occurred:" +:+ newline +:+
         foldr (fun m s => deferred_line m +:+ s) "" msgs)
  end.

(** The [Error()] method. *)
Fixpoint error_msg (e : error) : string :=
  match e with
  | ErrNew m | ValidationError m | ErrNetOp m | ErrStatus _ m | ErrRest _ m => m
  | ErrWrap pre c post => pre +:+ error_msg c +:+ post
  | RetryAfterError c _ => error_msg c
  | DeferredError es =>
      DeferredError_Error ((fix msgs (l : list error) : list string :=
                              match l with
                              | [] => []
                              | e' :: l' => error_msg e' :: msgs l'
                              end) es)
  | ErrDeadlineExceeded => "context deadline exceeded"
  end.

(** The [Unwrap] methods: what an error directly wraps. *)
Definition unwrap (e : error) : list error :=
  match e with
  | ErrWrap _ c _ | RetryAfterError c _ => [c]
  | DeferredError es => es
  | _ => []
  end.

(** [errors.As]/[errors.Is]: the first match in pre-order. *)
Fixpoint error_as {A} (f : error → option A) (e : error) : option A :=
  match f e with
  | Some a => Some a
  | None =>
      match e with
      | ErrWrap _ c _ | RetryAfterError c _ => error_as f c
      | DeferredError es =>
          (fix go (l : list error) : option A :=
             match l with
             | [] => None
             | e' :: l' =>
                 match error_as f e' with Some a => Some a | None => go l' end
             end) es
      | _ => None
      end
  end.

Definition as_retryable (e : error) : option Z :=
  error_as (fun e => match e with RetryAfterError _ d => Some d | _ => None end) e.
Definition as_validation (e : error) : option string :=
  error_as (fun e => match e with ValidationError m => Some m | _ => None end) e.
Definition is_deadline (e : error) : bool :=
  bool_decide (is_Some (error_as
    (fun e => match e with ErrDeadlineExceeded => Some () | _ => None end) e)).
Definition is_net_op (e : error) : bool :=
  bool_decide (is_Some (error_as
    (fun e => match e with ErrNetOp _ => Some () | _ => None end) e)).

(** [apierrors.IsNotFound] and its siblings look for a [StatusError]. *)
Definition as_status (e : error) : option StatusReason :=
  error_as (fun e => match e with ErrStatus r _ => Some r | _ => None end) e.
Definition is_reason (r : StatusReason) (err : option error) : bool :=
  match err with
  | Some e => bool_decide (as_status e = Some r)
  | None => false
  end.
Definition IsNotFound := is_reason ReasonNotFound.
Definition IsAlreadyExists := is_reason ReasonAlreadyExists.
Definition IsConflict := is_reason ReasonConflict.

(** ** Classification *)

Definition networkErrSubstrings : list string :=
  ["dial tcp"; "i/o timeout"; "connection refused"; "connection reset";
   "no route to host"; "network is unreachable"; "connection timed out";
   "context deadline exceeded"; "timed out after"; "EOF"].

Definition IsNetworkError (err : option error) : bool :=
  match err with
  | None => false
  | Some e =>
      if is_deadline e then true
      else if is_net_op e then true
      else existsb (contains (error_msg e)) networkErrSubstrings
  end.

Definition isValidationError (err : option error) : bool :=
  match err with
  | None => false
  | Some e => bool_decide (is_Some (as_validation e))
  end.

Definition isPermanentError (err : option error) : bool :=
  match err with
  | None => false
  | Some e =>
      if IsNetworkError err then false
      else negb (bool_decide (is_Some (as_retryable e)))
  end.

(** ** maybeBackoffRetry

    [ctrl.Result] with its [RequeueAfter] in nanoseconds; the bound backoff is
    the pair of the rate limiter's next delay and its successor state. *)
Record Result := mkResult { RequeueAfter : Z }.

Section Backoff.

(** client-go's exponential failure rate limiter, keyed by object. *)
Context {Limiter : Type}.
Variable When : string → Limiter → Z * Limiter.
Variable Forget : string → Limiter → Limiter.
Variable NumRequeues : string → Limiter → nat.

Definition Tracker_Next (key : string) (t : Limiter) : Z * Limiter := When key t.
Definition Tracker_Reset (key : string) (t : Limiter) : Limiter := Forget key t.
Definition Tracker_Failures (key : string) (t : Limiter) : nat := NumRequeues key t.

Definition maybeBackoffRetry (bo : option string) (err : option error) (t : Limiter)
    : Result * option error * Limiter :=
  match err ≫= as_retryable with
  | Some delay => (mkResult delay, None, t)
  | None =>
      match err, bo with
      | Some _, Some key =>
          let '(d, t') := Tracker_Next key t in (mkResult d, None, t')
      | _, _ => (mkResult 0, err, t)
      end
  end.

End Backoff.

(** ** Lemmas *)

(** Induction that reaches the errors collected in a [DeferredError]. *)
Fixpoint error_rect_deep (P : error → Prop)
    (Hnew : ∀ m, P (ErrNew m))
    (Hwrap : ∀ a c b, P c → P (ErrWrap a c b))
    (Hretry : ∀ c d, P c → P (RetryAfterError c d))
    (Hval : ∀ m, P (ValidationError m))
    (Hdef : ∀ es, Forall P es → P (DeferredError es))
    (Hdl : P ErrDeadlineExceeded)
    (Hnet : ∀ m, P (ErrNetOp m))
    (Hst : ∀ r m, P (ErrStatus r m))
    (Hrest : ∀ c m, P (ErrRest c m)) (e : error) : P e :=
  let rec := error_rect_deep P Hnew Hwrap Hretry Hval Hdef Hdl Hnet Hst Hrest in
  match e with
  | ErrNew m => Hnew m
  | ErrWrap a c b => Hwrap a c b (rec c)
  | RetryAfterError c d => Hretry c d (rec c)
  | ValidationError m => Hval m
  | DeferredError es =>
      Hdef es ((fix go (l : list error) : Forall P l :=
                  match l with
                  | [] => Forall_nil_2 _
                  | x :: l' => Forall_cons_2 _ _ _ (rec x) (go l')
                  end) es)
  | ErrDeadlineExceeded => Hdl
  | ErrNetOp m => Hnet m
  | ErrStatus r m => Hst r m
  | ErrRest c m => Hrest c m
  end.

(** [occurs e root]: [e] is reached from [root] by [Unwrap]. *)
Inductive occurs (e : error) : error → Prop :=
| occurs_here : occurs e e
| occurs_unwrap c root : c ∈ unwrap root → occurs e c → occurs e root.

#[export] Hint Constructors occurs : vast.

Lemma occurs_inv e root :
  occurs e root ↔ e = root ∨ ∃ c, c ∈ unwrap root ∧ occurs e c.
Proof.
  split; [intros [|c root' ? ?]; naive_solver|].
  intros [->|(c & ? & ?)]; eauto with vast.
Qed.

(** The first success of [f] along a list. *)
Fixpoint first_some {A B} (f : A → option B) (l : list A) : option B :=
  match l with
  | [] => None
  | x :: l' => match f x with Some b => Some b | None => first_some f l' end
  end.

Lemma first_some_is_Some {A B} (f : A → option B) l :
  is_Some (first_some f l) ↔ ∃ x, x ∈ l ∧ is_Some (f x).
Proof.
  induction l as [|x l IH]; simpl.
  - split; [by intros [? ?]|]. intros (? & ?%elem_of_nil & _). done.
  - setoid_rewrite elem_of_cons. destruct (f x) eqn:Hx; [naive_solver|].
    rewrite IH. split; [naive_solver|].
    intros (y & [->|?] & [z Hz]); [congruence|eauto].
Qed.

(** [errors.As] at one node: the node itself, then what it unwraps to. *)
Lemma error_as_step {A} (f : error → option A) e :
  error_as f e = match f e with
                 | Some a => Some a
                 | None => first_some (error_as f) (unwrap e)
                 end.
Proof.
  destruct e as [|a c b|c d| |es| | | |]; simpl; destruct (f _); try done.
  - by destruct (error_as f c).
  - by destruct (error_as f c).
  - by induction es as [|e es IH]; simpl; [|destruct (error_as f e)].
Qed.

Lemma unwrap_ind (P : error → Prop) :
  (∀ e, (∀ c, c ∈ unwrap e → P c) → P e) → ∀ e, P e.
Proof.
  intros Hstep e.
  induction e using error_rect_deep; apply Hstep; simpl; intros c';
    try by intros ?%elem_of_nil.
  - by intros ->%list_elem_of_singleton.
  - by intros ->%list_elem_of_singleton.
  - intros Hc. by eapply Forall_forall in H.
Qed.

(** [errors.As] succeeds exactly when a matching error occurs in the tree. *)
Lemma error_as_occurs {A} (f : error → option A) root :
  is_Some (error_as f root) ↔ ∃ e, occurs e root ∧ is_Some (f e).
Proof.
  induction root as [root IH] using unwrap_ind.
  rewrite error_as_step. setoid_rewrite occurs_inv.
  destruct (f root) as [a|] eqn:Hr; [naive_solver|].
  rewrite first_some_is_Some. split.
  - intros (c & Hc & Hs). apply (IH c Hc) in Hs as (e & ? & ?). eauto 6.
  - intros (e & [->|(c & Hc & Ho)] & Hs); [rewrite Hr in Hs; by destruct Hs|].
    exists c. split; [done|]. apply IH; eauto.
Qed.

Lemma is_deadline_spec e : is_deadline e = true ↔ occurs ErrDeadlineExceeded e.
Proof.
  unfold is_deadline. rewrite bool_decide_eq_true, error_as_occurs. split.
  - intros (e' & Ho & [[] He']). by destruct e'.
  - intros Ho. exists ErrDeadlineExceeded. eauto.
Qed.

Lemma is_net_op_spec e : is_net_op e = true ↔ ∃ m, occurs (ErrNetOp m) e.
Proof.
  unfold is_net_op. rewrite bool_decide_eq_true, error_as_occurs. split.
  - intros (e' & Ho & [[] He']). destruct e'; naive_solver.
  - intros [m Ho]. exists (ErrNetOp m). eauto.
Qed.

Lemma as_retryable_spec e :
  is_Some (as_retryable e) ↔ ∃ c d, occurs (RetryAfterError c d) e.
Proof.
  unfold as_retryable. rewrite error_as_occurs. split.
  - intros (e' & Ho & [d He']). destruct e'; naive_solver.
  - intros (c & d & Ho). exists (RetryAfterError c d). eauto.
Qed.

Lemma occurs_trans e1 e2 e3 : occurs e1 e2 → occurs e2 e3 → occurs e1 e3.
Proof. intros H12 H23. induction H23; eauto with vast. Qed.

(** The messages of a [DeferredError]'s members. *)
Lemma error_msg_deferred es :
  error_msg (DeferredError es) = DeferredError_Error (map error_msg es).
Proof. reflexivity. Qed.

Lemma deferred_lines_contain m ms sub :
  m ∈ ms → contains m sub = true →
  contains (foldr (fun m s => deferred_line m +:+ s) "" ms) sub = true.
Proof.
  intros Hm Hsub. induction Hm as [m ms|m m1 ms Hm IH]; simpl; unfold deferred_line.
  - auto with vast.
  - apply contains_app_r. auto with vast.
Qed.

(** A substring that does not end in a newline survives in the rendering of a
    [DeferredError] that collects an error mentioning it. *)
Lemma DeferredError_Error_contains m ms sub p c :
  sub = p +:+ String c EmptyString → c ≠ ascii_of_nat 10 →
  m ∈ ms → contains m sub = true → contains (DeferredError_Error ms) sub = true.
Proof.
  intros Hsub Hc Hm Hin. unfold DeferredError_Error.
  assert (Htrim : contains (trim_right_set (is_char (ascii_of_nat 10))
        (default "" (itoa (Z.of_nat (length ms))) +:+ " errors occurred:" +:+
         newline +:+ foldr (fun m s => deferred_line m +:+ s) "" ms)) sub = true).
  { eapply trim_right_contains; [exact Hsub|by apply bool_decide_eq_false|].
    do 3 apply contains_app_r. by eapply deferred_lines_contain. }
  destruct ms as [|m1 [|m2 ms]]; [done| |done].
  by apply list_elem_of_singleton in Hm as ->.
Qed.

Lemma network_substring_last sub :
  sub ∈ networkErrSubstrings →
  ∃ p c, sub = p +:+ String c EmptyString ∧ c ≠ ascii_of_nat 10.
Proof.
  intros Hsub.
  exists (str (take (strlen sub - 1) (chars sub))), (default zero (last (chars sub))).
  unfold networkErrSubstrings in Hsub. set_unfold in Hsub.
  by destruct_or?; subst.
Qed.

Lemma error_msg_unwrap c root sub :
  sub ∈ networkErrSubstrings → c ∈ unwrap root →
  contains (error_msg c) sub = true → contains (error_msg root) sub = true.
Proof.
  intros Hsub Hc Hin.
  destruct root as [|a c' b|c' d| |es| | | |]; simpl in Hc;
    rewrite ?list_elem_of_singleton in Hc; try by apply elem_of_nil in Hc.
  - subst. simpl. auto with vast.
  - by subst.
  - destruct (network_substring_last sub Hsub) as (p & b & Hp & Hb).
    rewrite error_msg_deferred.
    eapply DeferredError_Error_contains; [done|done| |exact Hin].
    by apply list_elem_of_fmap_2.
Qed.

Lemma IsNetworkError_spec e :
  IsNetworkError (Some e) = true ↔
    occurs ErrDeadlineExceeded e ∨ (∃ m, occurs (ErrNetOp m) e) ∨
    ∃ sub, sub ∈ networkErrSubstrings ∧ contains (error_msg e) sub = true.
Proof.
  unfold IsNetworkError. rewrite <-is_deadline_spec, <-is_net_op_spec.
  destruct (is_deadline e); [naive_solver|].
  destruct (is_net_op e); [naive_solver|].
  rewrite existsb_exists. setoid_rewrite <-list_elem_of_In. split.
  - intros (sub & ? & ?). eauto.
  - by intros [?|[?|?]].
Qed.

Lemma IsNetworkError_occurs e root :
  occurs e root → IsNetworkError (Some e) = true → IsNetworkError (Some root) = true.
Proof.
  rewrite !IsNetworkError_spec. intros Ho [Hd|[[m Hn]|Hs]].
  - left. by eapply occurs_trans.
  - right. left. exists m. by eapply occurs_trans.
  - right. right. destruct Hs as (sub & Hsub & Hin). exists sub. split; [done|].
    induction Ho as [|c root Hc _ IH]; [done|]. by eapply error_msg_unwrap.
Qed.

(** Value of a list of decimal digits, most significant first. *)
Definition dec_value (l : list ascii) : Z :=
  fold_left (fun acc c => acc * 10 + (Z.of_N (byte_of c) - 48))%Z l 0%Z.

Lemma dec_value_acc l a :
  fold_left (fun acc c => acc * 10 + (Z.of_N (byte_of c) - 48))%Z l a
  = (a * 10 ^ Z.of_nat (length l) + dec_value l)%Z.
Proof.
  unfold dec_value. revert a. induction l as [|c l IH]; intros a; simpl length; simpl fold_left.
  - lia.
  - rewrite (IH (a * 10 + _)%Z), (IH (0 * 10 + _)%Z), Nat2Z.inj_succ, Z.pow_succ_r by lia.
    lia.
Qed.

Lemma dec_value_cons c l :
  dec_value (c :: l) = ((Z.of_N (byte_of c) - 48) * 10 ^ Z.of_nat (length l) + dec_value l)%Z.
Proof. unfold dec_value. simpl. rewrite dec_value_acc. done. Qed.

Lemma itoa_digit n :
  (0 ≤ n)%Z → Z.of_N (byte_of (ascii_of_N (48 + Z.to_N (n mod 10)))) = (48 + n mod 10)%Z.
Proof.
  intros Hn. unfold byte_of. pose proof (Z.mod_pos_bound n 10 ltac:(lia)).
  rewrite N_ascii_embedding by lia. lia.
Qed.

(** Twenty bytes are enough for every [n] below 10^20, in particular for
    every value of a 64-bit [int]. *)
Lemma itoa_loop_value pos n buf :
  (0 ≤ n < 10 ^ Z.of_nat pos)%Z →
  ∃ l, itoa_loop pos n buf = Some l ∧
       dec_value l = (n * 10 ^ Z.of_nat (length buf) + dec_value buf)%Z.
Proof.
  revert n buf. induction pos as [|pos IH]; intros n buf Hn.
  - assert (n = 0)%Z as -> by (simpl in Hn; lia). exists buf. split; [done|lia].
  - simpl itoa_loop. case_bool_decide as Hpos; [|exists buf; split; [done|]].
    + rewrite Nat2Z.inj_succ, Z.pow_succ_r in Hn by lia.
      pose proof (Z.div_mod n 10 ltac:(lia)).
      destruct (IH (n / 10)%Z (ascii_of_N (48 + Z.to_N (n mod 10)) :: buf)) as (l & -> & Hl).
      { split; [apply Z.div_pos; lia|apply Z.div_lt_upper_bound; lia]. }
      exists l. split; [done|]. rewrite Hl, dec_value_cons, itoa_digit by lia.
      simpl length. rewrite Nat2Z.inj_succ, Z.pow_succ_r by lia. nia.
    + assert (n = 0)%Z as -> by lia. lia.
Qed.

Lemma DeferredError_Add_all l acc :
  fold_left DeferredError_Add l acc = acc ++ omap id l.
Proof.
  revert acc. induction l as [|[e|] l IH]; intros acc; simpl; rewrite ?IH.
  - by rewrite app_nil_r.
  - by rewrite <-app_assoc.
  - done.
Qed.

(** ** Properties *)

(** A connectivity failure stays recognisable however deep it is buried:
    if an error reached from [root] by unwrapping is a network error (by type
    or by message), so is [root], through any nesting of [fmt.Errorf],
    [RetryAfterError] and [DeferredError] renderings. *)
Theorem network_error_propagates e root :
  occurs e root → IsNetworkError (Some e) = true → IsNetworkError (Some root) = true.
Proof. apply IsNetworkError_occurs. Qed.

Lemma network_error_propagates_witness :
  let inner := ErrNew "Get /api: dial tcp 10.0.0.1:443: connect" in
  let root := DeferredError [ValidationError "bad spec";
                             ErrWrap "peer " (RetryAfterError inner 5) " failed"] in
  IsNetworkError (Some root) = true.
Proof.
  intros inner root. apply (network_error_propagates inner root).
  - apply (occurs_unwrap _ (ErrWrap "peer " (RetryAfterError inner 5) " failed"));
      [set_solver|].
    apply (occurs_unwrap _ (RetryAfterError inner 5)); [set_solver|].
    apply (occurs_unwrap _ inner); [set_solver|apply occurs_here].
  - vm_compute. reflexivity.
Defined.


(** A loop that [Add]s the outcome of every step to a [DeferredError] and
    returns [Err()] returns nil exactly when every step did, and otherwise the
    collected error unwraps to precisely the failures, in order. *)
Theorem deferred_loop_reports_all (outcomes : list (option error)) :
  match DeferredError_Err (fold_left DeferredError_Add outcomes []) with
  | None => Forall (eq None) outcomes
  | Some e => unwrap e = omap id outcomes ∧ omap id outcomes ≠ []
  end.
Proof.
  rewrite DeferredError_Add_all. simpl.
  unfold DeferredError_Err, DeferredError_IsEmpty.
  case_bool_decide as Hlen; [|by destruct (omap id outcomes)].
  apply length_zero_iff_nil in Hlen.
  induction outcomes as [|[e|] l IH]; simpl in *; [done|done|]. constructor; auto.
Qed.

(** [itoa] never indexes outside its 20-byte buffer and prints the decimal
    digits of its argument, for every non-negative 64-bit [int]. *)
Theorem itoa_correct (n : Z) :
  (0 ≤ n < 2 ^ 63)%Z → ∃ s, itoa n = Some s ∧ dec_value (chars s) = n.
Proof.
  intros Hn. unfold itoa. case_bool_decide as H0; [subst; eauto|].
  destruct (itoa_loop_value 20 n []) as (l & -> & Hl).
  { split; [lia|]. eapply Z.lt_le_trans; [apply Hn|by vm_compute]. }
  exists (str l). split; [done|]. rewrite chars_str, Hl.
  unfold dec_value. simpl. lia.
Qed.

Lemma itoa_correct_witness :
  (0 ≤ 9223372036854775807 < 2 ^ 63)%Z ∧
  ∃ s, itoa 9223372036854775807 = Some s ∧ dec_value (chars s) = 9223372036854775807%Z.
Proof. split; [lia|]. apply (itoa_correct 9223372036854775807). lia. Defined.
