(* ===== verification/Topology.v ===== *)
(** * The replication resources and their topology

    [api/v1alpha1]: the protection-policy template and its durations, the
    undirected replication mesh ([ReplicationTarget]), the specs and statuses
    of VastStorageClassReplication (VSCR), VastVolumeReplication (VVR) and
    VastReplicationContent (VRC), with every method the package defines on
    them.

    A nil slice is the empty list; maps are [gmap]s.  [time.Parse] is modelled
    for the three layouts [validateStartAt] uses; the current time only
    appears in an error message and is an argument ([Clock]). *)

From S2P Require Import Prelude GoErrors.
From stdpp Require Import options.

(** [time.Now().UTC().Format(time.RFC3339)] *)
Class Clock := now_rfc3339 : string.

(** ** Object metadata: the fields of [metav1.ObjectMeta] the controllers use *)

Record OwnerReference := mkOwnerRef {
  or_APIVersion : string;
  or_Kind : string;
  or_Name : string;
  or_UID : string;
  or_Controller : option bool;
  or_BlockOwnerDeletion : option bool;
}.

Record ObjectMeta := mkMeta {
  Name : string;
  Namespace : string;
  UID : string;
  Labels : gmap string string;
  Annotations : gmap string string;
  Finalizers : list string;
  OwnerReferences : list OwnerReference;
  Generation : Z;
  Deleting : bool;                      (* DeletionTimestamp is set *)
}.

#[export] Instance OwnerReference_eq_dec : EqDecision OwnerReference.
Proof. solve_decision. Defined.
#[export] Instance ObjectMeta_eq_dec : EqDecision ObjectMeta.
Proof. solve_decision. Defined.

Definition plain_meta (ns name : string) : ObjectMeta :=
  mkMeta name ns "" ∅ ∅ [] [] 1 false.

(** [common.OwnerByKind] *)
Fixpoint OwnerByKind (refs : list OwnerReference) (kind : string) : option OwnerReference :=
  match refs with
  | [] => None
  | r :: refs' => if bool_decide (or_Kind r = kind) then Some r else OwnerByKind refs' kind
  end.

(** ** time.Parse, for the layouts of [validateStartAt] *)

Inductive std_chunk :=
| stdLongYear | stdZeroMonth | stdZeroDay | stdHour
| stdZeroMinute | stdZeroSecond | stdISO8601ColonTZ.

(** A layout is a sequence of literal text and standard chunks. *)
Inductive layout_item := Lit (s : string) | Std (c : std_chunk).

Definition digit_val (c : ascii) : Z := (Z.of_N (byte_of c) - 48)%Z.

(** [getnum]: one or two digits, two when [fixed]. *)
Definition getnum (fixed : bool) (v : list ascii) : option (Z * list ascii) :=
  match v with
  | a :: b :: v' =>
      if negb (is_digit a) then None
      else if is_digit b then Some (digit_val a * 10 + digit_val b, v')%Z
      else if fixed then None else Some (digit_val a, b :: v')
  | [a] => if is_digit a && negb fixed then Some (digit_val a, []) else None
  | [] => None
  end.

(** [skip]: literal layout text; a run of spaces matches any run of spaces. *)
Definition cutspace := drop_while (is_char " "%char).
Fixpoint skip (fuel : nat) (v prefix : list ascii) : option (list ascii) :=
  match fuel, prefix with
  | _, [] => Some v
  | O, _ => None
  | S f, p :: prefix' =>
      if is_char " "%char p then
        match v with
        | c :: _ => if is_char " "%char c then skip f (cutspace v) (cutspace prefix) else None
        | [] => skip f v (cutspace prefix)
        end
      else
        match v with
        | c :: v' => if bool_decide (c = p) then skip f v' prefix' else None
        | [] => None
        end
  end.

Record date := mkDate { d_year : Z; d_month : Z; d_day : Z }.

Definition in_range (lo hi z : Z) : bool := (lo <=? z)%Z && (z <? hi)%Z.

(** Seconds may carry a fraction the layout does not mention. *)
Definition skip_fraction (v : list ascii) : list ascii :=
  match v with
  | p :: d :: v' =>
      if (is_char "."%char p || is_char ","%char p) && is_digit d
      then drop_while is_digit v' else v
  | _ => v
  end.

Definition parse_zone (v : list ascii) : option (list ascii) :=
  match v with
  | "Z"%char :: v' => Some v'
  | sign :: h1 :: h2 :: colon :: m1 :: m2 :: v' =>
      if negb (is_char ":"%char colon) then None
      else
        match getnum true [h1; h2], getnum true [m1; m2] with
        | Some (hr, _), Some (mm, _) =>
            if (24 <? hr)%Z || (60 <? mm)%Z then None
            else if is_char "+"%char sign || is_char "-"%char sign then Some v' else None
        | _, _ => None
        end
  | _ => None
  end.

Definition parse_chunk (c : std_chunk) (d : date) (v : list ascii)
    : option (date * list ascii) :=
  match c with
  | stdLongYear =>
      match v with
      | a :: b :: c' :: e :: v' =>
          if forallb is_digit [a; b; c'; e]
          then Some (mkDate (dec_value [a; b; c'; e]) (d_month d) (d_day d), v')
          else None
      | _ => None
      end
  | stdZeroMonth =>
      '(n, v') ← getnum true v;
      if in_range 1 13 n then Some (mkDate (d_year d) n (d_day d), v') else None
  | stdZeroDay =>
      '(n, v') ← getnum true v; Some (mkDate (d_year d) (d_month d) n, v')
  | stdHour =>
      '(n, v') ← getnum false v; if in_range 0 24 n then Some (d, v') else None
  | stdZeroMinute =>
      '(n, v') ← getnum true v; if in_range 0 60 n then Some (d, v') else None
  | stdZeroSecond =>
      '(n, v') ← getnum true v;
      if in_range 0 60 n then Some (d, skip_fraction v') else None
  | stdISO8601ColonTZ => v' ← parse_zone v; Some (d, v')
  end.

Fixpoint parse_items (layout : list layout_item) (d : date) (v : list ascii)
    : option date :=
  match layout with
  | [] => match v with [] => Some d | _ => None end
  | Lit s :: layout' => v' ← skip (S (strlen s)) v (chars s); parse_items layout' d v'
  | Std c :: layout' => '(d', v') ← parse_chunk c d v; parse_items layout' d' v'
  end.

Definition is_leap (y : Z) : bool :=
  (y mod 4 =? 0)%Z && (negb (y mod 100 =? 0)%Z || (y mod 400 =? 0)%Z).

Definition daysIn (month year : Z) : Z :=
  if (month =? 2)%Z then (if is_leap year then 29 else 28)%Z
  else if existsb (Z.eqb month) [4; 6; 9; 11]%Z then 30%Z else 31%Z.

(** A layout without a date leaves month and day at their defaults. *)
Definition time_parse (layout : list layout_item) (s : string) : bool :=
  match parse_items layout (mkDate 0 1 1) (chars s) with
  | Some d => in_range 1 (daysIn (d_month d) (d_year d) + 1) (d_day d)
  | None => false
  end.

Definition layout_datetime : list layout_item :=
  [Std stdLongYear; Lit "-"; Std stdZeroMonth; Lit "-"; Std stdZeroDay; Lit " ";
   Std stdHour; Lit ":"; Std stdZeroMinute; Lit ":"; Std stdZeroSecond].
Definition layout_time : list layout_item := [Std stdHour; Lit ":"; Std stdZeroMinute].
Definition layout_rfc3339 : list layout_item :=
  [Std stdLongYear; Lit "-"; Std stdZeroMonth; Lit "-"; Std stdZeroDay; Lit "T";
   Std stdHour; Lit ":"; Std stdZeroMinute; Lit ":"; Std stdZeroSecond;
   Std stdISO8601ColonTZ].

(** ** ProtectionPolicyTemplate *)

Record ProtectionPolicyFrame := mkFrame {
  Every : string;
  KeepLocal : string;
  KeepRemote : string;
  StartAt : string;
}.

Record ProtectionPolicyTemplate := mkTemplate { Params : list ProtectionPolicyFrame }.

Definition is_unit_letter (c : ascii) : bool :=
  existsb (fun u => bool_decide (c = u))
    (chars "sSmMhHdDwWyY").

(** [vastDurationRe.MatchString]: one or more digits and one unit letter. *)
Definition vastDurationRe_match (s : string) : bool :=
  match rev (chars s) with
  | u :: ((_ :: _) as ds) => is_unit_letter u && forallb is_digit ds
  | _ => false
  end.

Definition validateStartAt `{!Clock} (s : string) : result unit :=
  if time_parse layout_datetime s then mret ()
  else if time_parse layout_time s then mret ()
  else if time_parse layout_rfc3339 s then mret ()
  else Errorf
    ("startAt " +:+ quote s +:+ " must be " +:+ quote "YYYY-MM-DD HH:MM:SS" +:+ ", " +:+
     quote "HH:MM" +:+ ", or RFC-3339 (e.g. " +:+ quote "2025-01-01 02:00:00" +:+ ", " +:+
     quote "02:00" +:+ ", or " +:+ quote (trim_suffix now_rfc3339 "Z" +:+ "Z") +:+ ")").

Definition duration_examples (l : list string) : string :=
  "is not a valid VAST duration (expected <number><unit>, e.g. " +:+
  join ", " (map quote l) +:+ ")".

Definition Frame_Validate `{!Clock} (f : ProtectionPolicyFrame) : result unit :=
  if bool_decide (Every f = "") then Errorf "every must not be empty"
  else if negb (vastDurationRe_match (Every f)) then
    Errorf ("every " +:+ quote (Every f) +:+ " " +:+
            duration_examples ["15m"; "1h"; "2d"; "1w"; "1M"; "1y"])
  else if bool_decide (KeepLocal f ≠ "") && negb (vastDurationRe_match (KeepLocal f)) then
    Errorf ("keepLocal " +:+ quote (KeepLocal f) +:+ " " +:+ duration_examples ["2d"; "1w"])
  else if bool_decide (KeepRemote f ≠ "") && negb (vastDurationRe_match (KeepRemote f)) then
    Errorf ("keepRemote " +:+ quote (KeepRemote f) +:+ " " +:+ duration_examples ["7d"; "4w"])
  else if bool_decide (StartAt f ≠ "") then validateStartAt (StartAt f)
  else mret ().

Fixpoint Template_Validate_loop `{!Clock} (i : nat) (fs : list ProtectionPolicyFrame)
    : result unit :=
  match fs with
  | [] => mret ()
  | f :: fs' =>
      match Frame_Validate f with
      | inl e => inl (ErrWrap ("protectionPolicyTemplate.params[" +:+ show_nat i +:+ "]: ") e "")
      | inr _ => Template_Validate_loop (S i) fs'
      end
  end.

Definition Template_Validate `{!Clock} (t : ProtectionPolicyTemplate) : result unit :=
  if bool_decide (length (Params t) = 0)
  then Errorf "protectionPolicyTemplate.params must contain at least one entry"
  else Template_Validate_loop 0 (Params t).

(** The digit loop of [ParseEveryToSeconds], on [int64]. *)
Definition parse_amount (l : list ascii) : Z :=
  fold_left (fun amount ch =>
    if is_digit ch then wrap64 (wrap64 (amount * 10) + digit_val ch) else amount) l 0%Z.

Definition ParseEveryToSeconds (s : string) : result Z :=
  if negb (vastDurationRe_match s) then
    Errorf ("invalid VAST duration " +:+ quote s +:+ ": expected <number><unit> (e.g. " +:+
            join ", " (map quote ["15m"; "1h"; "2d"]) +:+ ")")
  else
    let amount := parse_amount (chars s) in
    match last (chars s) with
    | Some "s"%char | Some "S"%char => mret amount
    | Some "m"%char => mret (wrap64 (amount * 60))
    | Some "h"%char | Some "H"%char => mret (wrap64 (amount * 3600))
    | Some "d"%char | Some "D"%char => mret (wrap64 (amount * 86400))
    | Some "w"%char | Some "W"%char => mret (wrap64 (wrap64 (amount * 7) * 86400))
    | Some "M"%char => mret (wrap64 (wrap64 (amount * 30) * 86400))
    | Some "y"%char | Some "Y"%char => mret (wrap64 (wrap64 (amount * 365) * 86400))
    | Some u => Errorf ("unsupported duration unit " +:+ quote (str [u]) +:+ " in " +:+ quote s)
    | None => Errorf ("unsupported duration unit " +:+ quote "" +:+ " in " +:+ quote s)
    end.

(** ** ReplicationTarget *)

Record ReplicationTarget := mkTarget {
  Source : string;
  Destination : string;
  PeerName : string;
  TargetExportedDir : string;
}.

#[export] Instance ReplicationTarget_eq_dec : EqDecision ReplicationTarget.
Proof. solve_decision. Defined.

Definition ReplicationTarget_Validate (t : ReplicationTarget) : result unit :=
  if bool_decide (Source t = "") then Errorf "source must not be empty"
  else if bool_decide (Destination t = "") then Errorf "destination must not be empty"
  else if bool_decide (Source t = Destination t) then
    Errorf ("source and destination must be different (both are " +:+ quote (Source t) +:+ ")")
  else if bool_decide (TargetExportedDir t ≠ "") && negb (has_prefix (TargetExportedDir t) "/") then
    Errorf ("targetExportedDir must be an absolute path (got " +:+
            quote (TargetExportedDir t) +:+ ")")
  else mret ().

(** ** The mesh, as both specs see it *)

Definition topology_classes (topo : list ReplicationTarget) : gset string :=
  fold_left (fun seen t => {[Destination t]} ∪ ({[Source t]} ∪ seen)) topo ∅.

Definition topology_AllStorageClasses (topo : list ReplicationTarget) : list string :=
  sort_strings (elements (topology_classes topo)).

(** The comparison function given to [sort.Slice]. *)
Definition primary_less (primary a b : string) : bool :=
  if bool_decide (a = primary) then true
  else if bool_decide (b = primary) then false
  else str_lt a b.

(** [sort.Slice] with a comparison [less]: no element is less than another
    one placed before it.  The slices sorted here have no duplicates, so
    [less] is never asked about two equal names. *)
Definition may_precede (less : string → string → bool) (a b : string) : Prop :=
  less b a = false ∨ a = b.
#[export] Instance may_precede_dec less : RelDecision (may_precede less).
Proof. intros a b. unfold may_precede. apply _. Defined.
Definition sort_slice (less : string → string → bool) (l : list string) : list string :=
  merge_sort (may_precede less) l.

Definition primary_first (primary : string) (topo : list ReplicationTarget) : list string :=
  sort_slice (primary_less primary) (topology_AllStorageClasses topo).

Definition orient (scName : string) (t : ReplicationTarget) : option ReplicationTarget :=
  if bool_decide (scName = Source t) then Some t
  else if bool_decide (scName = Destination t)
  then Some (mkTarget (Destination t) (Source t) (PeerName t) "")
  else None.

Definition topology_TargetsFor (topo : list ReplicationTarget) (scName : string)
    : list ReplicationTarget := omap (orient scName) topo.

Definition normPair (a b : string) : string * string :=
  if bool_decide (String.le a b) then (a, b) else (b, a).

(** The entry loop of both [Validate] methods: the classes and the unordered
    pairs seen so far. *)
Definition entry_label (i : nat) : string := "protectionTopology[" +:+ show_nat i +:+ "]".

Fixpoint validate_entries (i : nat) (topo : list ReplicationTarget)
    (scSet : gset string) (seenPairs : gset (string * string))
    : result (gset string * gset (string * string)) :=
  match topo with
  | [] => mret (scSet, seenPairs)
  | t :: topo' =>
      if bool_decide (Source t = "") then
        Errorf (entry_label i +:+ ".source must not be empty")
      else if bool_decide (Destination t = "") then
        Errorf (entry_label i +:+ ".destination must not be empty")
      else if bool_decide (Source t = Destination t) then
        Errorf (entry_label i +:+ ": source and destination must be different (" +:+
                quote (Source t) +:+ ")")
      else
        let p := normPair (Source t) (Destination t) in
        if bool_decide (p ∈ seenPairs) then
          Errorf (entry_label i +:+ ": duplicate entry between " +:+ quote (Source t) +:+
                  " and " +:+ quote (Destination t))
        else
          validate_entries (S i) topo' ({[Destination t]} ∪ ({[Source t]} ∪ scSet))
            ({[p]} ∪ seenPairs)
  end.

(** Every pair [(l_i, l_j)] with [i < j], in the order of the nested loops. *)
Fixpoint index_pairs (l : list string) : list (string * string) :=
  match l with
  | [] => []
  | a :: l' => map (pair a) l' ++ index_pairs l'
  end.

Definition missing_pairs (scSet : gset string) (seenPairs : gset (string * string))
    : list (string * string) :=
  filter (fun p => p ∉ seenPairs)
    (map (fun ab => normPair ab.1 ab.2) (index_pairs (sort_strings (elements scSet)))).

(** ** VastStorageClassReplication *)

Inductive FailoverAction := FailoverTypeUngraceful | FailoverTypeGraceful | FailoverTypeUnset.
Inductive DestVolReclaimPolicy := DestVolReclaimPolicyRetain | DestVolReclaimPolicyDelete.

#[export] Instance FailoverAction_eq_dec : EqDecision FailoverAction.
Proof. solve_decision. Defined.
#[export] Instance DestVolReclaimPolicy_eq_dec : EqDecision DestVolReclaimPolicy.
Proof. solve_decision. Defined.

Definition SyncStatusCompleted := "Completed".
Definition SyncStatusInProgress := "InProgress".
Definition SyncStatusUnreachable := "Unreachable".
Definition SyncStatusError := "Error".
Definition SyncStatusInvalid := "Invalid".
Definition SyncStatusDeleting := "Deleting".
Definition SyncStatusFailed := "Failed".

Record TenantInfo := mkTenant { tenant_Name : string; tenant_Guid : string; tenant_Id : Z }.

#[export] Instance TenantInfo_eq_dec : EqDecision TenantInfo.
Proof. solve_decision. Defined.

Record VSCRSpec := mkVSCRSpec {
  vscr_PrimaryStorageClass : string;
  vscr_ProtectionTopology : list ReplicationTarget;
  vscr_ProtectionPolicyTemplate : ProtectionPolicyTemplate;
  vscr_FailoverType : FailoverAction;
  vscr_Resync : bool;
  vscr_SyncIntervalSeconds : Z;
  vscr_PVCRemap : bool;
  vscr_SyncPVCPV : bool;
  vscr_DestVolReclaimPolicy : DestVolReclaimPolicy;
  vscr_VolumeNamespace : string;
}.

(** The status of both resources has the same fields. *)
Record ReplicationStatus := mkStatus {
  LastFailoverType : FailoverAction;
  CurrentPrimaryStorageClass : string;
  StorageClassesPreview : string;
  PpathDirMapping : gmap string string;
  TenantMapping : gmap string TenantInfo;
  PpathName : string;
  SyncStatus : string;
}.

Definition EffectiveSyncInterval (seconds : Z) (t : ProtectionPolicyTemplate) : result Z :=
  if bool_decide (0 < seconds)%Z then mret seconds
  else
    match Params t with
    | [] => Errorf "syncIntervalSeconds not set and protectionPolicyTemplate has no params"
    | f :: _ => ParseEveryToSeconds (Every f)
    end.

Definition VSCR_EffectiveSyncIntervalSeconds (s : VSCRSpec) : result Z :=
  EffectiveSyncInterval (vscr_SyncIntervalSeconds s) (vscr_ProtectionPolicyTemplate s).
Definition VSCR_AllStorageClasses (s : VSCRSpec) : list string :=
  topology_AllStorageClasses (vscr_ProtectionTopology s).
Definition VSCR_AllStorageClassesPrimaryFirst (s : VSCRSpec) : list string :=
  primary_first (vscr_PrimaryStorageClass s) (vscr_ProtectionTopology s).
Definition VSCR_TargetsFor (s : VSCRSpec) (scName : string) : list ReplicationTarget :=
  topology_TargetsFor (vscr_ProtectionTopology s) scName.

Record VSCR := mkVSCR {
  vscr_Meta : ObjectMeta;
  vscr_Spec : VSCRSpec;
  vscr_Status : ReplicationStatus;
}.

Definition VSCR_PVCNamespace (v : VSCR) : string :=
  let ns := trim_space (vscr_VolumeNamespace (vscr_Spec v)) in
  if bool_decide (ns ≠ "") then ns else Namespace (vscr_Meta v).

Definition primary_not_in_topology {A} (primary : string) : result A :=
  Errorf ("primaryStorageClass " +:+ quote primary +:+ " must appear in protectionTopology").

Definition VSCR_Validate `{!Clock} (s : VSCRSpec) : result unit :=
  if bool_decide (vscr_PrimaryStorageClass s = "") then
    Errorf "primaryStorageClass must not be empty"
  else if bool_decide (length (vscr_ProtectionTopology s) = 0) then
    Errorf "protectionTopology must contain at least one entry"
  else
    _ ← Template_Validate (vscr_ProtectionPolicyTemplate s);
    if vscr_PVCRemap s && negb (vscr_SyncPVCPV s) then
      Errorf "pvcRemap cannot be true when syncPVCPV is false: PVC remap needs mirror PVC/PV pairs on secondaries; set syncPVCPV to true or disable pvcRemap"
    else
      '(scSet, _) ← validate_entries 0 (vscr_ProtectionTopology s) ∅ ∅;
      if bool_decide (vscr_PrimaryStorageClass s ∈ scSet) then mret ()
      else primary_not_in_topology (vscr_PrimaryStorageClass s).

(** ** VastVolumeReplication *)

Record VVRSpec := mkVVRSpec {
  vvr_VolumeName : string;
  vvr_VolumeNamespace : string;
  vvr_PrimaryStorageClass : string;
  vvr_ProtectionTopology : list ReplicationTarget;
  vvr_ProtectionPolicyTemplate : ProtectionPolicyTemplate;
  vvr_FailoverType : FailoverAction;
  vvr_Resync : bool;
  vvr_SyncIntervalSeconds : Z;
  vvr_PVCRemap : bool;
  vvr_DestVolReclaimPolicy : DestVolReclaimPolicy;
}.

Definition VVR_EffectiveSyncIntervalSeconds (s : VVRSpec) : result Z :=
  EffectiveSyncInterval (vvr_SyncIntervalSeconds s) (vvr_ProtectionPolicyTemplate s).
Definition VVR_AllStorageClasses (s : VVRSpec) : list string :=
  topology_AllStorageClasses (vvr_ProtectionTopology s).
Definition VVR_AllStorageClassesPrimaryFirst (s : VVRSpec) : list string :=
  primary_first (vvr_PrimaryStorageClass s) (vvr_ProtectionTopology s).
Definition VVR_TargetsFor (s : VVRSpec) (scName : string) : list ReplicationTarget :=
  topology_TargetsFor (vvr_ProtectionTopology s) scName.

Record VVR := mkVVR {
  vvr_Meta : ObjectMeta;
  vvr_Spec : VVRSpec;
  vvr_Status : ReplicationStatus;
}.

Definition VVR_PVCNamespace (v : VVR) : string :=
  let ns := trim_space (vvr_VolumeNamespace (vvr_Spec v)) in
  if bool_decide (ns ≠ "") then ns else Namespace (vvr_Meta v).

Definition VVR_Validate `{!Clock} (s : VVRSpec) : result unit :=
  if bool_decide (vvr_VolumeName s = "") then
    Errorf "volumeName must not be empty"
  else if bool_decide (vvr_PrimaryStorageClass s = "") then
    Errorf "primaryStorageClass must not be empty"
  else if bool_decide (length (vvr_ProtectionTopology s) = 0) then
    Errorf "protectionTopology must contain at least one entry"
  else
    _ ← Template_Validate (vvr_ProtectionPolicyTemplate s);
    '(scSet, seenPairs) ← validate_entries 0 (vvr_ProtectionTopology s) ∅ ∅;
    if negb (bool_decide (vvr_PrimaryStorageClass s ∈ scSet)) then
      primary_not_in_topology (vvr_PrimaryStorageClass s)
    else
      let missing := missing_pairs scSet seenPairs in
      if bool_decide (0 < length missing) then
        Errorf ("protectionTopology must form a complete mesh: missing " +:+
                show_nat (length missing) +:+ " pair(s): " +:+
                join ", " (map (fun p => p.1 +:+ " ↔ " +:+ p.2) missing))
      else mret ().

(** ** VastReplicationContent *)

Inductive ProvisionerType := ProvisionerTypeBlock | ProvisionerTypeFile.

#[export] Instance ProvisionerType_eq_dec : EqDecision ProvisionerType.
Proof. solve_decision. Defined.

Definition DestinationKindVolumeReplication := "VolumeReplication".
Definition DestinationKindVolumeGroupReplication := "VolumeGroupReplication".
Definition LabelSourceVolumeReplication := "vastdata.com/source-volume-replication".
Definition LabelSourceVolumeGroupReplication := "vastdata.com/source-volume-group-replication".
Definition LabelSourceVSCR := "vastdata.com/source-vscr".
Definition LabelSourceVVR := "vastdata.com/source-vvr".

Record VRCSpec := mkVRCSpec {
  vrc_StorageClass : string;
  vrc_ProvisionerType : ProvisionerType;
  vrc_Kind : string;
  vrc_SyncPVCPV : bool;
  vrc_ReplicationPath : string;
  vrc_ProtectionPolicyNames : list string;
  vrc_ProtectedPathName : string;
  vrc_PVCs : list string;
  vrc_ReplicationState : string;
}.

Record VRCStatus := mkVRCStatus {
  vrcs_Provisioned : bool;
  vrcs_ObservedGeneration : Z;
  vrcs_PVCsPreview : string;
  vrcs_PVCs : list string;
}.

Record VRC := mkVRC {
  vrc_Meta : ObjectMeta;
  vrc_Spec : VRCSpec;
  vrc_Status : VRCStatus;
}.

Definition VRC_String (v : VRC) : string :=
  Namespace (vrc_Meta v) +:+ "/" +:+ Name (vrc_Meta v) +:+ " [StorageClass: " +:+
  vrc_StorageClass (vrc_Spec v) +:+ "]".

Definition VRC_SourceName (v : VRC) : string :=
  if bool_decide (vrc_Kind (vrc_Spec v) = DestinationKindVolumeReplication)
  then map_get (Labels (vrc_Meta v)) LabelSourceVolumeReplication
  else if bool_decide (vrc_Kind (vrc_Spec v) = DestinationKindVolumeGroupReplication)
  then map_get (Labels (vrc_Meta v)) LabelSourceVolumeGroupReplication
  else "".

(** [GetConstellationVRCs], with the lister its caller injects. *)
Definition GetConstellationVRCs
    (lister : string → gmap string string → result (list VRC)) (v : VRC)
    : result (option (list VRC)) :=
  let list_by key val :=
    match lister (Namespace (vrc_Meta v)) {[key := val]} with
    | inl e => inl (ErrWrap "failed to list constellation VRCs: " e "")
    | inr candidates => inr (Some candidates)
    end in
  if bool_decide (map_get (Labels (vrc_Meta v)) LabelSourceVSCR ≠ "")
  then list_by LabelSourceVSCR (map_get (Labels (vrc_Meta v)) LabelSourceVSCR)
  else if bool_decide (map_get (Labels (vrc_Meta v)) LabelSourceVVR ≠ "")
  then list_by LabelSourceVVR (map_get (Labels (vrc_Meta v)) LabelSourceVVR)
  else inr None.

(** ** DisplayableList *)

Definition previewMax : nat := 2.

Definition DisplayableList_First (d : list string) : result string :=
  match d with
  | [] => Errorf "list is empty"
  | x :: _ => mret x
  end.

Definition DisplayableList_Equal (d other : list string) : bool :=
  if negb (bool_decide (length d = length other)) then false
  else forallb (fun xy => bool_decide (xy.1 = xy.2)) (zip d other).

Definition DisplayableList_String (d : list string) : string :=
  if bool_decide (length d = 0) then "[]"
  else
    let n := if bool_decide (previewMax < length d) then previewMax else length d in
    let quoted := map (fun x => dquote +:+ x +:+ dquote) (take n d) in
    if bool_decide (previewMax < length d)
    then "[" +:+ join ", " quoted +:+ " ... +" +:+ show_nat (length d - previewMax) +:+ " more]"
    else "[" +:+ join ", " quoted +:+ "]".

(** ** Lemmas *)

Lemma result_bind_inr {A B} (r : result A) (f : A → result B) b :
  (r ≫= f) = inr b ↔ ∃ a, r = inr a ∧ f a = inr b.
Proof. destruct r; simpl; naive_solver. Qed.

Definition entry_pair (t : ReplicationTarget) : string * string :=
  normPair (Source t) (Destination t).

Definition entry_ok (t : ReplicationTarget) : Prop :=
  Source t ≠ "" ∧ Destination t ≠ "" ∧ Source t ≠ Destination t.

Lemma topology_classes_acc topo acc x :
  x ∈ fold_left (fun seen t => {[Destination t]} ∪ ({[Source t]} ∪ seen)) topo acc ↔
  x ∈ (acc : gset string) ∨ ∃ t, t ∈ topo ∧ (x = Source t ∨ x = Destination t).
Proof.
  revert acc. induction topo as [|t topo IH]; intros acc; simpl.
  - set_solver.
  - rewrite IH. setoid_rewrite elem_of_cons. set_solver.
Qed.

Lemma elem_of_topology_classes topo x :
  x ∈ topology_classes topo ↔ ∃ t, t ∈ topo ∧ (x = Source t ∨ x = Destination t).
Proof. unfold topology_classes. rewrite topology_classes_acc. set_solver. Qed.

Lemma elem_of_AllStorageClasses topo x :
  x ∈ topology_AllStorageClasses topo ↔
  ∃ t, t ∈ topo ∧ (x = Source t ∨ x = Destination t).
Proof.
  unfold topology_AllStorageClasses.
  by rewrite elem_of_sort_strings, elem_of_elements, elem_of_topology_classes.
Qed.

Lemma NoDup_AllStorageClasses topo : NoDup (topology_AllStorageClasses topo).
Proof. apply NoDup_sort_strings, NoDup_elements. Qed.

Lemma sorted_AllStorageClasses topo :
  StronglySorted String.le (topology_AllStorageClasses topo).
Proof. apply sort_strings_sorted. Qed.

#[export] Hint Resolve NoDup_AllStorageClasses sorted_AllStorageClasses : vast.

(** The loop accepts exactly the well-formed, duplicate-free entries, and
    collects their endpoints and pairs. *)
Lemma validate_entries_spec i topo sc0 pr0 sc pr :
  validate_entries i topo sc0 pr0 = inr (sc, pr) ↔
    Forall entry_ok topo ∧ NoDup (map entry_pair topo) ∧
    (∀ t, t ∈ topo → entry_pair t ∉ pr0) ∧
    sc = fold_left (fun seen t => {[Destination t]} ∪ ({[Source t]} ∪ seen)) topo sc0 ∧
    pr = fold_left (fun seen t => {[entry_pair t]} ∪ seen) topo pr0.
Proof.
  revert i sc0 pr0. induction topo as [|t topo IH]; intros i sc0 pr0.
  - simpl. unfold mret, result_ret. split; [|naive_solver].
    intros [= -> ->]. repeat split; [constructor..|set_solver].
  - simpl. rewrite Forall_cons, NoDup_cons. unfold entry_ok at 1.
    repeat case_bool_decide; try (split; [done|]; by intros [[(? & ? & ?) _] _]).
    + split; [done|]. intros (_ & _ & Hp & _). exfalso. eapply Hp; [|done]. set_solver.
    + rewrite IH. setoid_rewrite elem_of_cons. fold (entry_pair t) in *.
      assert (Hex : entry_pair t ∉ map entry_pair topo ↔
                ∀ t', t' ∈ topo → entry_pair t' ∉ ({[entry_pair t]} : gset _)).
      { setoid_rewrite elem_of_singleton. split.
        - intros Hn t' Ht' Heq. apply Hn. rewrite <-Heq. by apply list_elem_of_fmap_2.
        - intros Hn (t' & Heq & Ht')%list_elem_of_fmap_1. by eapply Hn. }
      rewrite Hex. setoid_rewrite not_elem_of_union. split.
      * intros (? & ? & Hn & -> & ->). repeat split; try done.
        { intros t' Ht'. by apply Hn. }
        { intros t' [->|Ht']; [done|by apply Hn]. }
      * intros ((_ & ?) & (Hn1 & ?) & Hn2 & -> & ->). repeat split; try done.
        all: intros; auto.
Qed.

Lemma seen_pairs_acc topo acc p :
  p ∈ fold_left (fun seen t => {[entry_pair t]} ∪ seen) topo acc ↔
  p ∈ (acc : gset (string * string)) ∨ p ∈ map entry_pair topo.
Proof.
  revert acc. induction topo as [|t topo IH]; intros acc; simpl.
  - set_solver.
  - rewrite IH. set_solver.
Qed.

Lemma normPair_comm a b : normPair a b = normPair b a.
Proof.
  unfold normPair. repeat case_bool_decide; try done.
  - by rewrite (anti_symm String.le a b).
  - by destruct (total String.le a b).
Qed.

Lemma normPair_le a b : String.le a b → normPair a b = (a, b).
Proof. intros. unfold normPair. by rewrite bool_decide_true. Qed.

Lemma normPair_eq a b c d :
  normPair a b = normPair c d ↔ (a = c ∧ b = d) ∨ (a = d ∧ b = c).
Proof.
  split; [|intros [[-> ->]|[-> ->]]; [done|apply normPair_comm]].
  unfold normPair. repeat case_bool_decide; naive_solver.
Qed.

Lemma elem_of_index_pairs l a b :
  StronglySorted String.le l → NoDup l →
  (a, b) ∈ index_pairs l ↔ a ∈ l ∧ b ∈ l ∧ a ≠ b ∧ String.le a b.
Proof.
  intros Hs Hd. induction l as [|x l IH]; simpl; [set_solver|].
  apply StronglySorted_inv in Hs as [Hs Hx]. apply NoDup_cons in Hd as [Hnx Hd].
  rewrite Forall_forall in Hx. rewrite elem_of_app, IH by done.
  rewrite list_elem_of_fmap. split.
  - intros [(y & [= -> ->] & Hy)|?]; [|set_solver].
    repeat split; [set_solver..|congruence|by apply Hx].
  - rewrite !elem_of_cons. intros ([->|Ha] & [->|Hb] & Hab & Hle); [done| | |].
    + left. eauto.
    + exfalso. apply Hab. apply (anti_symm String.le); [done|by apply Hx].
    + by right.
Qed.

Lemma NoDup_index_pairs l : NoDup l → NoDup (index_pairs l).
Proof.
  intros Hd. induction l as [|x l IH]; simpl; [constructor|].
  apply NoDup_cons in Hd as [Hnx Hd].
  apply NoDup_app. repeat split; [|intros [a b]|by apply IH].
  - apply NoDup_fmap_2; [intros ?? [=]; done|done].
  - intros (y & [= -> ->] & Hy)%list_elem_of_fmap_1 Hin. apply Hnx.
    clear -Hin. induction l as [|z l IH]; simpl in *; [by apply elem_of_nil in Hin|].
    apply elem_of_app in Hin as [(w & [= -> ->] & ?)%list_elem_of_fmap_1|]; set_solver.
Qed.

Lemma length_index_pairs l :
  2 * length (index_pairs l) = length l * (length l - 1).
Proof.
  induction l as [|x l IH]; simpl; [done|].
  rewrite length_app, length_map. destruct l as [|y l]; [done|]. simpl in *. lia.
Qed.

(** *** Durations *)

(** A VAST duration: digits, at least one, then a unit letter. *)
Definition duration_parts (s : string) (ds : list ascii) (u : ascii) : Prop :=
  s = str (ds ++ [u]) ∧ ds ≠ [] ∧ forallb is_digit ds = true ∧ is_unit_letter u = true.

Lemma vastDurationRe_spec s :
  vastDurationRe_match s = true ↔ ∃ ds u, duration_parts s ds u.
Proof.
  unfold vastDurationRe_match, duration_parts. split.
  - destruct (rev (chars s)) as [|u ds] eqn:Hr; [done|].
    apply (f_equal (@rev _)) in Hr. rewrite rev_involutive in Hr. simpl in Hr.
    destruct ds as [|d ds']; [done|]. intros [Hu Hds]%andb_true_iff.
    exists (rev (d :: ds')), u. repeat split; [|simpl; by destruct (rev ds')| |done].
    + by rewrite <-(str_chars s), Hr.
    + rewrite !forallb_forall in *. intros x Hx. apply Hds. by apply in_rev.
  - intros (ds & u & -> & Hne & Hds & Hu). rewrite chars_str, rev_app_distr. simpl.
    destruct (rev ds) as [|d ds'] eqn:Hr.
    + apply (f_equal (@rev _)) in Hr. rewrite rev_involutive in Hr. done.
    + rewrite Hu, <-Hr. simpl. rewrite !forallb_forall in *.
      intros x Hx. apply Hds. by apply in_rev.
Qed.

Definition unit_seconds (u : ascii) : Z :=
  (match u with
   | "s" | "S" => 1
   | "m" => 60
   | "h" | "H" => 3600
   | "d" | "D" => 86400
   | "w" | "W" => 7 * 86400
   | "M" => 30 * 86400
   | "y" | "Y" => 365 * 86400
   | _ => 0
   end)%char%Z.

Lemma parse_amount_acc ds a :
  forallb is_digit ds = true →
  wrap64 a = a →
  fold_left (fun amount ch =>
    if is_digit ch then wrap64 (wrap64 (amount * 10) + digit_val ch) else amount) ds a
  = wrap64 (fold_left (fun acc c => acc * 10 + (Z.of_N (byte_of c) - 48))%Z ds a).
Proof.
  revert a. induction ds as [|d ds IH]; intros a Hds Ha; simpl; [by rewrite Ha|].
  simpl in Hds. apply andb_true_iff in Hds as [Hd Hds].
  rewrite Hd, IH by (done || by rewrite (wrap64_id (wrap64 _)) by apply wrap64_range).
  rewrite wrap64_add_l. fold (digit_val d). rewrite !dec_value_acc.
  by rewrite <-wrap64_add_l, wrap64_mul_l, wrap64_add_l.
Qed.

Lemma dec_value_nonneg ds : forallb is_digit ds = true → (0 ≤ dec_value ds)%Z.
Proof.
  induction ds as [|d ds IH]; [done|]. simpl. intros [Hd Hds]%andb_true_iff.
  rewrite dec_value_cons. specialize (IH Hds).
  assert (0 ≤ Z.of_N (byte_of d) - 48)%Z.
  { unfold is_digit in Hd. to_props. apply N.leb_le in H. lia. }
  pose proof (Z.pow_nonneg 10 (Z.of_nat (length ds))). nia.
Qed.

Lemma unit_not_digit u : is_unit_letter u = true → is_digit u = false.
Proof.
  unfold is_unit_letter. simpl. intros H.
  repeat (apply orb_true_iff in H as [H|H]; [apply bool_decide_eq_true in H; by subst|]).
  done.
Qed.

Lemma parse_amount_value s ds u :
  duration_parts s ds u → parse_amount (chars s) = wrap64 (dec_value ds).
Proof.
  intros (-> & _ & Hds & Hu). rewrite chars_str. unfold parse_amount.
  rewrite fold_left_app. simpl. rewrite unit_not_digit by done.
  by rewrite parse_amount_acc.
Qed.

Lemma ParseEveryToSeconds_value s ds u :
  duration_parts s ds u →
  ParseEveryToSeconds s = inr (wrap64 (dec_value ds * unit_seconds u)).
Proof.
  intros Hp. unfold ParseEveryToSeconds.
  assert (vastDurationRe_match s = true) as -> by (apply vastDurationRe_spec; eauto). simpl.
  rewrite (parse_amount_value s ds u) by done. destruct Hp as (-> & _ & _ & Hu).
  rewrite chars_str, last_snoc. unfold is_unit_letter in Hu. simpl in Hu.
  repeat (apply orb_true_iff in Hu as [Hu|Hu];
    [apply bool_decide_eq_true in Hu as ->; simpl unit_seconds;
     autorewrite with go_int; rewrite ?Z.mul_1_r, <-?Z.mul_assoc;
     autorewrite with go_int; done|]).
  done.
Qed.

(** *** Validated specs *)

Definition frame_ok `{!Clock} (f : ProtectionPolicyFrame) : Prop :=
  vastDurationRe_match (Every f) = true ∧
  (KeepLocal f = "" ∨ vastDurationRe_match (KeepLocal f) = true) ∧
  (KeepRemote f = "" ∨ vastDurationRe_match (KeepRemote f) = true) ∧
  (StartAt f = "" ∨ existsb (fun l => time_parse l (StartAt f))
                      [layout_datetime; layout_time; layout_rfc3339] = true).

Lemma validateStartAt_spec `{!Clock} s :
  validateStartAt s = inr () ↔
  existsb (fun l => time_parse l s) [layout_datetime; layout_time; layout_rfc3339] = true.
Proof.
  unfold validateStartAt. simpl. rewrite orb_false_r.
  destruct (time_parse layout_datetime s); [done|].
  destruct (time_parse layout_time s); [done|].
  by destruct (time_parse layout_rfc3339 s).
Qed.

Lemma optional_check k m :
  bool_decide (k ≠ "") && negb m = false ↔ k = "" ∨ m = true.
Proof.
  destruct m; simpl; rewrite ?andb_false_r, ?andb_true_r; [naive_solver|].
  rewrite bool_decide_eq_false. split; [intros ?%dec_stable; by left|by intros [->|]; intros ?].
Qed.

Lemma Frame_Validate_spec `{!Clock} f : Frame_Validate f = inr () ↔ frame_ok f.
Proof.
  unfold Frame_Validate, frame_ok. rewrite <-validateStartAt_spec, <-!optional_check.
  case_bool_decide as He; [rewrite He; by split; [|intros [? _]]|].
  destruct (vastDurationRe_match (Every f)); simpl; [|by split; [|intros [? _]]].
  destruct (_ && _); [by split; [|intros (_ & ? & _)]|].
  destruct (_ && _); [by split; [|intros (_ & _ & ? & _)]|].
  case_bool_decide as Hs; [|tauto].
  split; [tauto|by intros (_ & _ & _ & [?|?])].
Qed.

Definition template_ok `{!Clock} (t : ProtectionPolicyTemplate) : Prop :=
  Params t ≠ [] ∧ Forall frame_ok (Params t).

Lemma Template_Validate_loop_spec `{!Clock} i fs :
  Template_Validate_loop i fs = inr () ↔ Forall frame_ok fs.
Proof.
  revert i. induction fs as [|f fs IH]; intros i; simpl; [by split|].
  rewrite Forall_cons, <-Frame_Validate_spec.
  destruct (Frame_Validate f) as [|[]]; [naive_solver|]. rewrite IH. naive_solver.
Qed.

Lemma Template_Validate_spec `{!Clock} t : Template_Validate t = inr () ↔ template_ok t.
Proof.
  unfold Template_Validate, template_ok. rewrite <-(Template_Validate_loop_spec 0).
  destruct (Params t); case_bool_decide; simpl in *; naive_solver.
Qed.

Definition topology_ok (primary : string) (topo : list ReplicationTarget) : Prop :=
  Forall entry_ok topo ∧ NoDup (map entry_pair topo) ∧
  primary ∈ topology_AllStorageClasses topo.

Definition complete_mesh (topo : list ReplicationTarget) : Prop :=
  ∀ a b, a ∈ topology_AllStorageClasses topo → b ∈ topology_AllStorageClasses topo →
    a ≠ b → ∃ t, t ∈ topo ∧ ((Source t = a ∧ Destination t = b) ∨
                             (Source t = b ∧ Destination t = a)).

Lemma entry_pair_elem a b topo :
  normPair a b ∈ map entry_pair topo ↔
  ∃ t, t ∈ topo ∧ ((Source t = a ∧ Destination t = b) ∨ (Source t = b ∧ Destination t = a)).
Proof.
  rewrite list_elem_of_fmap. unfold entry_pair. split.
  - intros (t & Heq & Ht). exists t. split; [done|].
    apply normPair_eq in Heq. naive_solver.
  - intros (t & Ht & H). exists t. split; [|done]. apply normPair_eq. naive_solver.
Qed.

Lemma missing_pairs_complete topo :
  missing_pairs (topology_classes topo)
    (fold_left (fun seen t => {[entry_pair t]} ∪ seen) topo ∅) = [] ↔ complete_mesh topo.
Proof.
  pose proof (elem_of_index_pairs (topology_AllStorageClasses topo)) as Hidx.
  unfold missing_pairs, complete_mesh. fold (topology_AllStorageClasses topo).
  rewrite filter_nil_iff. setoid_rewrite <-entry_pair_elem. split.
  - intros H a b Ha Hb Hab. specialize (H (normPair a b)).
    assert (normPair a b ∈ map (fun ab => normPair ab.1 ab.2)
              (index_pairs (topology_AllStorageClasses topo))) as Hin.
    { apply list_elem_of_fmap. destruct (total String.le a b).
      - exists (a, b). split; [done|]. by apply Hidx; auto with vast.
      - exists (b, a). split; [apply normPair_comm|]. by apply Hidx; auto with vast. }
    specialize (H Hin). apply dec_stable in H. apply seen_pairs_acc in H. set_solver.
  - intros H p (ab & -> & Hab)%list_elem_of_fmap Hn. destruct ab as [a b].
    apply Hidx in Hab as (Ha & Hb & Hne & _); auto with vast.
    apply Hn, seen_pairs_acc. right. by apply H.
Qed.

Lemma validate_entries_topology topo sc pr :
  validate_entries 0 topo ∅ ∅ = inr (sc, pr) ↔
    Forall entry_ok topo ∧ NoDup (map entry_pair topo) ∧ sc = topology_classes topo ∧
    pr = fold_left (fun seen t => {[entry_pair t]} ∪ seen) topo ∅.
Proof. rewrite validate_entries_spec. set_solver. Qed.

Definition vscr_ok `{!Clock} (s : VSCRSpec) : Prop :=
  vscr_PrimaryStorageClass s ≠ "" ∧ vscr_ProtectionTopology s ≠ [] ∧
  template_ok (vscr_ProtectionPolicyTemplate s) ∧
  (vscr_PVCRemap s = true → vscr_SyncPVCPV s = true) ∧
  topology_ok (vscr_PrimaryStorageClass s) (vscr_ProtectionTopology s).

Definition vvr_ok `{!Clock} (s : VVRSpec) : Prop :=
  vvr_VolumeName s ≠ "" ∧ vvr_PrimaryStorageClass s ≠ "" ∧ vvr_ProtectionTopology s ≠ [] ∧
  template_ok (vvr_ProtectionPolicyTemplate s) ∧
  topology_ok (vvr_PrimaryStorageClass s) (vvr_ProtectionTopology s) ∧
  complete_mesh (vvr_ProtectionTopology s).

Lemma elem_of_AllStorageClasses_set topo x :
  x ∈ topology_AllStorageClasses topo ↔ x ∈ topology_classes topo.
Proof. by rewrite elem_of_AllStorageClasses, elem_of_topology_classes. Qed.

Lemma VSCR_Validate_ok `{!Clock} s : VSCR_Validate s = inr () ↔ vscr_ok s.
Proof.
  unfold VSCR_Validate, vscr_ok, topology_ok.
  rewrite <-Template_Validate_spec, elem_of_AllStorageClasses_set.
  case_bool_decide; [naive_solver|].
  destruct (vscr_ProtectionTopology s) as [|t topo] eqn:Ht; simpl length; [naive_solver|].
  rewrite bool_decide_false by done. rewrite <-Ht.
  destruct (Template_Validate _) as [|[]]; simpl; [naive_solver|].
  destruct (vscr_PVCRemap s && negb (vscr_SyncPVCPV s)) eqn:Hr; simpl.
  { apply andb_true_iff in Hr as [-> ?%negb_true_iff]. split; [done|].
    intros (_ & _ & _ & Hs & _). rewrite Hs in *; done. }
  rewrite result_bind_inr. split.
  - intros ([sc pr] & (? & ? & -> & ->)%validate_entries_topology & Hp).
    case_bool_decide; [|done]. repeat split; try done; [congruence|].
    intros Hr'. rewrite Hr' in Hr. by destruct (vscr_SyncPVCPV s).
  - intros (_ & _ & _ & _ & ? & ? & Hp). eexists (_, _). split.
    + apply validate_entries_topology. eauto.
    + by rewrite bool_decide_true.
Qed.

Lemma VVR_Validate_ok `{!Clock} s : VVR_Validate s = inr () ↔ vvr_ok s.
Proof.
  unfold VVR_Validate, vvr_ok, topology_ok.
  rewrite <-Template_Validate_spec, elem_of_AllStorageClasses_set.
  case_bool_decide; [naive_solver|]. case_bool_decide; [naive_solver|].
  destruct (vvr_ProtectionTopology s) as [|t topo] eqn:Ht; simpl length; [naive_solver|].
  rewrite bool_decide_false by done. rewrite <-Ht.
  destruct (Template_Validate _) as [|[]]; simpl; [naive_solver|].
  rewrite result_bind_inr, <-missing_pairs_complete. split.
  - intros ([sc pr] & (? & ? & -> & ->)%validate_entries_topology & Hp).
    case_bool_decide; simpl in Hp; [|done]. case_bool_decide as Hm; [done|].
    repeat split; try done; [congruence|]. by apply length_zero_iff_nil; lia.
  - intros (_ & _ & _ & _ & (? & ? & Hp) & Hm). eexists (_, _). split.
    + apply validate_entries_topology. eauto.
    + rewrite bool_decide_true by done. simpl. by rewrite Hm.
Qed.

(** A complete mesh lists every unordered pair of classes exactly once. *)
Lemma complete_mesh_pairs topo :
  Forall entry_ok topo → NoDup (map entry_pair topo) → complete_mesh topo →
  map entry_pair topo ≡ₚ index_pairs (topology_AllStorageClasses topo).
Proof.
  intros Hok Hnd Hmesh.
  pose proof (elem_of_index_pairs (topology_AllStorageClasses topo)) as Hidx.
  apply NoDup_Permutation; [done|apply NoDup_index_pairs; auto with vast|].
  intros [a b]. rewrite Hidx by auto with vast. split.
  - intros (t & Heq & Ht)%list_elem_of_fmap. rewrite Forall_forall in Hok.
    destruct (Hok t Ht) as (_ & _ & Hne).
    unfold entry_pair, normPair in Heq. rewrite !elem_of_AllStorageClasses.
    case_bool_decide as Hle; simplify_eq.
    + naive_solver.
    + destruct (total String.le (Source t) (Destination t)); naive_solver.
  - intros (Ha & Hb & Hne & Hle). rewrite <-(normPair_le a b) by done.
    apply entry_pair_elem. by apply Hmesh.
Qed.

(** *** The primary-first order *)

Lemma str_lt_spec a b : str_lt a b = true ↔ String.le a b ∧ a ≠ b.
Proof. unfold str_lt. by rewrite andb_true_iff, negb_true_iff, bool_decide_eq_true, bool_decide_eq_false. Qed.

Lemma may_precede_spec p a b :
  may_precede (primary_less p) a b ↔ a = p ∨ (b ≠ p ∧ String.le a b).
Proof.
  unfold may_precede, primary_less.
  destruct (bool_decide_reflect (b = p)) as [->|Hb]; [naive_solver|].
  destruct (bool_decide_reflect (a = p)) as [->|Ha]; [naive_solver|].
  destruct (str_lt b a) eqn:Hlt.
  - apply str_lt_spec in Hlt as [Hle Hne]. split; [naive_solver|].
    intros [?|[_ ?]]; [done|]. right. by apply (anti_symm String.le).
  - split; [|naive_solver]. intros _. right. split; [done|].
    destruct (total String.le a b) as [|Hle]; [done|].
    destruct (decide (a = b)) as [->|Hne]; [done|].
    assert (str_lt b a = true) by (apply str_lt_spec; naive_solver). congruence.
Qed.

(** On names, the order of [primary_less] is total: its sort is unique. *)
#[export] Instance may_precede_trans p : Transitive (may_precede (primary_less p)).
Proof.
  intros x y z. rewrite !may_precede_spec. intros [->|[Hy Hxy]]; [naive_solver|].
  intros [->|[Hz Hyz]]; [done|]. right. split; [done|by etrans].
Qed.

#[export] Instance may_precede_total p : Total (may_precede (primary_less p)).
Proof.
  intros x y. rewrite !may_precede_spec.
  destruct (decide (x = p)), (decide (y = p)); [naive_solver..|].
  destruct (total String.le x y); naive_solver.
Qed.

#[export] Instance may_precede_antisymm p : AntiSymm (=) (may_precede (primary_less p)).
Proof.
  intros x y. rewrite !may_precede_spec. intros [->|[Hy Hxy]] [->|[Hx Hyx]]; try done.
  by apply (anti_symm String.le).
Qed.

Lemma primary_first_list p l :
  StronglySorted String.le l → NoDup l → p ∈ l →
  sort_slice (primary_less p) l = p :: filter (.≠ p) l.
Proof.
  intros Hs Hd Hp.
  assert (Hperm : p :: filter (.≠ p) l ≡ₚ l).
  { apply NoDup_Permutation; [|done|].
    - constructor; [rewrite list_elem_of_filter; naive_solver|by apply NoDup_filter].
    - intros x. rewrite elem_of_cons, list_elem_of_filter.
      destruct (decide (x = p)); naive_solver. }
  apply (StronglySorted_unique (may_precede (primary_less p))).
  - apply StronglySorted_merge_sort; apply _.
  - constructor.
    + clear -Hs. induction Hs as [|x l Hs IH Hx]; [constructor|].
      destruct (decide (x = p)); [rewrite filter_cons_False by naive_solver; done|].
      rewrite filter_cons_True by done. constructor; [done|].
      rewrite Forall_forall in *. intros y [Hy Hyl]%list_elem_of_filter.
      apply may_precede_spec. right. auto.
    + apply Forall_forall. intros y _. apply may_precede_spec. by left.
  - unfold sort_slice. by rewrite merge_sort_Permutation, Hperm.
Qed.

Lemma primary_first_eq p topo :
  p ∈ topology_AllStorageClasses topo →
  primary_first p topo = p :: filter (.≠ p) (topology_AllStorageClasses topo).
Proof. intros. apply primary_first_list; auto with vast. Qed.

Lemma primary_not_in_tail p topo : p ∉ tail (primary_first p topo).
Proof.
  destruct (decide (p ∈ topology_AllStorageClasses topo)) as [Hp|Hp].
  - rewrite primary_first_eq by done. simpl. rewrite list_elem_of_filter. naive_solver.
  - intros Ht. apply Hp. unfold primary_first, sort_slice in Ht.
    rewrite <-(merge_sort_Permutation (may_precede (primary_less p))).
    destruct (merge_sort _ _); [done|]. simpl in Ht. set_solver.
Qed.

Lemma elem_of_primary_first p topo sc : sc ∈ primary_first p topo ↔ sc ∈ topology_AllStorageClasses topo.
Proof. unfold primary_first, sort_slice. by rewrite merge_sort_Permutation. Qed.

(** *** Oriented links *)

Lemma elem_of_TargetsFor topo sc u :
  u ∈ topology_TargetsFor topo sc ↔ ∃ t, t ∈ topo ∧ orient sc t = Some u.
Proof. unfold topology_TargetsFor. by rewrite list_elem_of_omap. Qed.

Lemma orient_spec sc t u :
  orient sc t = Some u →
  Source u = sc ∧ PeerName u = PeerName t ∧
  entry_pair t = normPair sc (Destination u).
Proof.
  unfold orient, entry_pair. repeat case_bool_decide; intros; simplify_eq/=; [done|].
  repeat split. apply normPair_comm.
Qed.

Lemma TargetsFor_destinations topo sc :
  Forall entry_ok topo → NoDup (map entry_pair topo) →
  NoDup (map Destination (topology_TargetsFor topo sc)).
Proof.
  intros Hok Hnd. unfold topology_TargetsFor. induction topo as [|t topo IH]; [constructor|].
  simpl in *. apply NoDup_cons in Hnd as [Hn Hnd]. apply Forall_cons in Hok as [Ht Hok].
  destruct (orient sc t) as [u|] eqn:Hu; [|by apply IH]. simpl.
  constructor; [|by apply IH]. intros (u' & Hd & Hu')%list_elem_of_fmap.
  apply list_elem_of_omap in Hu' as (t' & Ht' & Hu'). apply Hn.
  apply orient_spec in Hu as (_ & _ & ->). apply orient_spec in Hu' as (_ & _ & Hp').
  rewrite Hd, <-Hp'. by apply list_elem_of_fmap_2.
Qed.

Lemma TargetsFor_neighbours topo sc d :
  Forall entry_ok topo →
  d ∈ map Destination (topology_TargetsFor topo sc) ↔
  normPair sc d ∈ map entry_pair topo.
Proof.
  intros Hok. rewrite list_elem_of_fmap. setoid_rewrite elem_of_TargetsFor.
  rewrite entry_pair_elem. split.
  - intros (u & -> & t & Ht & Hu). exists t. split; [done|]. revert Hu.
    unfold orient. repeat case_bool_decide; intros; simplify_eq/=; eauto.
  - intros (t & Ht & Hends). rewrite Forall_forall in Hok.
    destruct (Hok t Ht) as (_ & _ & Hne). unfold orient.
    destruct Hends as [[<- <-]|[<- <-]].
    + exists t. split; [done|]. exists t. by rewrite bool_decide_true.
    + exists (mkTarget (Destination t) (Source t) (PeerName t) "").
      split; [done|]. exists t. rewrite bool_decide_false by congruence.
      by rewrite bool_decide_true.
Qed.

(** ** Properties *)

(** [VastStorageClassReplicationSpec.Validate] accepts a spec exactly when
    it is well formed: non-empty primary, template with valid frames, no PVC
    remap without PVC mirroring, entries with two distinct non-empty ends, no
    unordered pair declared twice, and the primary among the endpoints. *)
Theorem VSCR_Validate_iff `{!Clock} (s : VSCRSpec) :
  VSCR_Validate s = inr () ↔ vscr_ok s.
Proof. apply VSCR_Validate_ok. Qed.

(** C18. [VastVolumeReplicationSpec.Validate] accepts a spec exactly when it is
    well formed and its mesh is complete; the accepted topology is then, up to
    order and orientation, the list of all unordered pairs of its classes, so
    it has n(n-1)/2 entries for n classes. *)
Theorem VVR_Validate_iff_complete `{!Clock} (s : VVRSpec) :
  (VVR_Validate s = inr () ↔ vvr_ok s) ∧
  (VVR_Validate s = inr () →
     map entry_pair (vvr_ProtectionTopology s) ≡ₚ index_pairs (VVR_AllStorageClasses s) ∧
     2 * length (vvr_ProtectionTopology s)
     = length (VVR_AllStorageClasses s) * (length (VVR_AllStorageClasses s) - 1)).
Proof.
  split; [apply VVR_Validate_ok|].
  intros (_ & _ & _ & _ & (Hok & Hnd & _) & Hmesh)%VVR_Validate_ok.
  pose proof (complete_mesh_pairs _ Hok Hnd Hmesh) as Hp. split; [exact Hp|].
  rewrite <-(length_map entry_pair), Hp. apply length_index_pairs.
Qed.

Definition demo_frame : ProtectionPolicyFrame := mkFrame "15m" "2d" "" "02:00".
Definition demo_clock : Clock := "2025-01-01T00:00:00Z".
Definition demo_vvr : VVRSpec :=
  mkVVRSpec "data" "" "b"
    [mkTarget "a" "b" "" ""; mkTarget "c" "a" "" ""; mkTarget "b" "c" "" ""]
    (mkTemplate [demo_frame]) FailoverTypeUngraceful false 0 false DestVolReclaimPolicyRetain.
Definition demo_vscr : VSCRSpec :=
  mkVSCRSpec "b" [mkTarget "a" "b" "" ""; mkTarget "c" "b" "" ""]
    (mkTemplate [demo_frame]) FailoverTypeUngraceful false 0 true true
    DestVolReclaimPolicyRetain "".

Lemma VVR_Validate_iff_complete_witness :
  2 * length (vvr_ProtectionTopology demo_vvr) = 3 * 2.
Proof.
  destruct (@VVR_Validate_iff_complete demo_clock demo_vvr) as [_ H].
  destruct H as [_ ->]; vm_compute; reflexivity.
Defined.

(** The storage-class spec does not require the complete mesh its
    documentation asks for: a spec with three classes and two links is
    accepted. *)
Theorem VSCR_Validate_accepts_partial_mesh :
  ∃ (c : Clock) (s : VSCRSpec),
    VSCR_Validate s = inr () ∧ ¬ complete_mesh (vscr_ProtectionTopology s).
Proof.
  exists demo_clock, demo_vscr. split; [vm_compute; reflexivity|].
  intros H. destruct (H "a" "c") as (t & Ht & Hends).
  - apply elem_of_AllStorageClasses. exists (mkTarget "a" "b" "" ""). set_solver.
  - apply elem_of_AllStorageClasses. exists (mkTarget "c" "b" "" ""). set_solver.
  - done.
  - simpl in Ht. rewrite !elem_of_cons, elem_of_nil in Ht.
    destruct Ht as [->|[->|[]]]; simpl in Hends; naive_solver.
Qed.

(** For an accepted spec, [AllStorageClassesPrimaryFirst] is the primary
    followed by the other classes in ascending order: no class is lost or
    repeated, whatever order the map iteration and the sort produce. *)
Theorem primary_first_order `{!Clock} (s : VSCRSpec) :
  VSCR_Validate s = inr () →
  VSCR_AllStorageClassesPrimaryFirst s
  = vscr_PrimaryStorageClass s ::
    filter (.≠ vscr_PrimaryStorageClass s) (VSCR_AllStorageClasses s) ∧
  StronglySorted String.le (VSCR_AllStorageClasses s) ∧
  NoDup (VSCR_AllStorageClasses s) ∧
  (∀ x, x ∈ VSCR_AllStorageClasses s ↔
     ∃ t, t ∈ vscr_ProtectionTopology s ∧ (x = Source t ∨ x = Destination t)).
Proof.
  intros (_ & _ & _ & _ & _ & _ & Hp)%VSCR_Validate_ok.
  repeat split; [by apply primary_first_eq|apply sorted_AllStorageClasses|
                 apply NoDup_AllStorageClasses|apply elem_of_AllStorageClasses..].
Qed.

Lemma primary_first_order_witness :
  VSCR_AllStorageClassesPrimaryFirst demo_vscr = ["b"; "a"; "c"].
Proof.
  destruct (@primary_first_order demo_clock demo_vscr) as [-> _];
    vm_compute; reflexivity.
Defined.

(** In an accepted volume replication every cluster has exactly one link to
    each other cluster: the destinations of [TargetsFor sc] are the other
    classes, each once, and every returned link starts at [sc]. *)
Theorem TargetsFor_complete `{!Clock} (s : VVRSpec) (sc : string) :
  VVR_Validate s = inr () → sc ∈ VVR_AllStorageClasses s →
  map Destination (VVR_TargetsFor s sc) ≡ₚ filter (.≠ sc) (VVR_AllStorageClasses s) ∧
  Forall (fun u => Source u = sc) (VVR_TargetsFor s sc).
Proof.
  intros (_ & _ & _ & _ & (Hok & Hnd & _) & Hmesh)%VVR_Validate_ok Hsc. split.
  - apply NoDup_Permutation.
    + by apply TargetsFor_destinations.
    + apply NoDup_filter, NoDup_AllStorageClasses.
    + intros d. unfold VVR_TargetsFor. rewrite TargetsFor_neighbours by done.
      rewrite list_elem_of_filter, entry_pair_elem. split.
      * intros (t & Ht & Hends). rewrite Forall_forall in Hok.
        destruct (Hok t Ht) as (_ & _ & Hne). split; [intros ->; naive_solver|].
        apply elem_of_AllStorageClasses. exists t. naive_solver.
      * intros [Hd Hin]. by apply Hmesh.
  - apply Forall_forall. intros u (t & _ & Hu)%elem_of_TargetsFor.
    by apply orient_spec in Hu as [? _].
Qed.

Lemma TargetsFor_complete_witness :
  map Destination (VVR_TargetsFor demo_vvr "c") ≡ₚ ["a"; "b"].
Proof.
  destruct (@TargetsFor_complete demo_clock demo_vvr "c") as [H _].
  - vm_compute. reflexivity.
  - apply elem_of_AllStorageClasses. exists (mkTarget "c" "a" "" ""). set_solver.
  - exact H.
Defined.

(** C39. [ParseEveryToSeconds] succeeds exactly on digits followed by one unit
    letter, and returns the amount times the unit's seconds, on 64 bits; the
    result is exact while the product stays below 2^63. *)
Theorem ParseEveryToSeconds_spec (s : string) (z : Z) :
  ParseEveryToSeconds s = inr z ↔
  ∃ ds u, duration_parts s ds u ∧
    let exact := (dec_value ds * unit_seconds u)%Z in
    z = wrap64 exact ∧ ((exact < 2 ^ 63)%Z → z = exact).
Proof.
  split.
  - intros Hz. assert (vastDurationRe_match s = true) as Hm.
    { unfold ParseEveryToSeconds in Hz. by destruct (vastDurationRe_match s). }
    apply vastDurationRe_spec in Hm as (ds & u & Hp). exists ds, u. split; [done|].
    rewrite (ParseEveryToSeconds_value _ _ _ Hp) in Hz. injection Hz as <-.
    split; [done|]. intros Hlt. apply wrap64_id. split; [|done].
    pose proof (dec_value_nonneg ds) as Hnn. destruct Hp as (_ & _ & Hds & _).
    specialize (Hnn Hds). assert (0 ≤ unit_seconds u)%Z by (unfold unit_seconds; crush_matches).
    nia.
  - intros (ds & u & Hp & -> & _). by apply ParseEveryToSeconds_value.
Qed.

(** A spec accepted by [Validate] always has an effective sync interval:
    the explicit one when positive, else the one of the first frame. *)
Theorem validated_interval_total `{!Clock} (s : VSCRSpec) :
  VSCR_Validate s = inr () →
  ∃ z, VSCR_EffectiveSyncIntervalSeconds s = inr z ∧
       ((0 < vscr_SyncIntervalSeconds s)%Z → z = vscr_SyncIntervalSeconds s).
Proof.
  intros (_ & _ & [Hne Hfr] & _)%VSCR_Validate_ok.
  unfold VSCR_EffectiveSyncIntervalSeconds, EffectiveSyncInterval.
  case_bool_decide; [eauto|].
  destruct (Params _) as [|f fs]; [done|]. apply Forall_cons in Hfr as [(Hev & _) _].
  apply vastDurationRe_spec in Hev as (ds & u & Hp).
  rewrite (ParseEveryToSeconds_value _ _ _ Hp). eauto with lia.
Qed.

Lemma validated_interval_total_witness :
  ∃ z, VSCR_EffectiveSyncIntervalSeconds demo_vscr = inr z ∧
       ((0 < vscr_SyncIntervalSeconds demo_vscr)%Z → z = vscr_SyncIntervalSeconds demo_vscr).
Proof.
  apply (@validated_interval_total demo_clock demo_vscr). vm_compute. reflexivity.
Defined.
