(* ===== verification/Kube.v ===== *)
(** * Kubernetes objects and the client helpers that do not call the API server

    [internal/common/k8s_client]: StorageClass, PersistentVolumeClaim and
    Secret as far as the controllers read them, the label, annotation and
    finalizer helpers, the parent lookup used to route events to the owning
    VSCR/VVR, and the read-only lookups whose API call is an argument.

    [internal/common/constants.go]: the label, annotation and parameter keys. *)

From S2P Require Import Prelude GoErrors Topology.
From stdpp Require Import options.

(** ** Keys *)

Definition Domain := "vastdata.com".
Definition CSIParameterPrefix := "csi.storage.k8s.io/".
Definition LabelSubsystem := Domain +:+ "/subsystem".
Definition LabelStorageClass := Domain +:+ "/storageClass".
Definition LabelManagedBy := "app.kubernetes.io/managed-by".
Definition LabelManagedByValue := "vast-extensions-controller".
Definition LabelSourceVSCRNamespace := Domain +:+ "/source-vscr-namespace".
Definition LabelSourceVVRNamespace := Domain +:+ "/source-vvr-namespace".
Definition StorageClassParameterSubsystem := "subsystem".
Definition StorageClassParameterVolumeGroup := "volume_group".
Definition StorageClassParameterRootExport := "root_export".
Definition DefaultPVCNameFormat := "{pvc_name}-repl-{endpoint}".
Definition DefaultPVNameFormat := "{pv_name}-repl-{endpoint}".
Definition FinalizerVSCR := Domain +:+ "/vscr-protection".
Definition FinalizerVVR := Domain +:+ "/vvr-protection".
Definition FinalizerReplicationContent := Domain +:+ "/replication-content-protection".
Definition AnnotationCleanupDone := Domain +:+ "/cleanup-done".
Definition BetaStorageClassAnnotation := "volume.beta.kubernetes.io/storage-class".

(** ** Objects *)

Record StorageClass := mkSC {
  sc_Name : string;
  sc_Provisioner : string;
  sc_Parameters : gmap string string;
  sc_MountOptions : list string;
}.

(** Access modes, capacity by resource name, and the volume mode. *)
Record VolumeShape := mkShape {
  AccessModes : list string;
  Capacity : gmap string string;
  VolumeMode : option string;
}.

Record PVC := mkPVC {
  pvc_Meta : ObjectMeta;
  pvc_StorageClassName : option string;
  pvc_VolumeName : string;
  pvc_Shape : VolumeShape;
}.

(** The CSI source of a PersistentVolume; all its secret references are built
    from one secret. *)
Record CSISource := mkCSI {
  csi_Driver : string;
  csi_VolumeHandle : string;
  csi_VolumeAttributes : gmap string string;
  csi_SecretRef : option (string * string);      (* name, namespace *)
}.

Record PV := mkPV {
  pv_Meta : ObjectMeta;
  pv_StorageClassName : string;
  pv_CSI : option CSISource;
  pv_ReclaimDelete : bool;
  pv_Shape : VolumeShape;
}.

Record Secret := mkSecret {
  secret_Meta : ObjectMeta;
  secret_Data : gmap string string;
}.

Record ConfigMap := mkConfigMap {
  cm_Meta : ObjectMeta;
  cm_Data : gmap string string;
}.

(** COSI resources, as far as the controllers read or write them. *)
Record BucketAccess := mkBucketAccess {
  ba_Meta : ObjectMeta;
  ba_BucketClaimName : string;           (* spec *)
  ba_CredentialsSecretName : string;     (* spec *)
  ba_AccessGranted : bool;               (* status *)
  ba_AccountID : string;                 (* status *)
}.

Record BucketClaim := mkBucketClaim {
  bc_Meta : ObjectMeta;
  bc_BucketReady : bool;                 (* status *)
  bc_BucketName : string;                (* status *)
}.

Inductive PodPhase := PodPending | PodRunning | PodSucceeded | PodFailed | PodUnknown.
#[export] Instance PodPhase_eq_dec : EqDecision PodPhase.
Proof. solve_decision. Defined.

Record PodVolume := mkPodVolume { pv_name : string; pv_claim : option string }.
Record Pod := mkPod {
  pod_Meta : ObjectMeta;
  pod_Phase : PodPhase;
  pod_Volumes : list PodVolume;
}.

(** csi-addons: desired [ReplicationState] and observed [State]; the other
    values, the empty one included, are not told apart. *)
Inductive ReplicationState := Primary | Secondary | Resync | OtherReplicationState (s : string).
Inductive State := PrimaryState | SecondaryState | OtherState (s : string).
#[export] Instance ReplicationState_eq_dec : EqDecision ReplicationState.
Proof. solve_decision. Defined.
#[export] Instance State_eq_dec : EqDecision State.
Proof. solve_decision. Defined.

Record VolumeReplication := mkVR {
  vr_Meta : ObjectMeta;
  vr_ReplicationState : ReplicationState;     (* spec *)
  vr_VolumeReplicationClass : string;         (* spec *)
  vr_DataSource : string;                     (* spec, name of the PVC *)
  vr_AutoResync : bool;                       (* spec *)
  vr_State : State;                           (* status *)
}.

Record VolumeGroupReplication := mkVGR {
  vgr_Meta : ObjectMeta;
  vgr_ReplicationState : ReplicationState;    (* spec *)
  vgr_VolumeReplicationName : string;         (* spec *)
  vgr_GroupClassName : string;                (* spec.volumeGroupReplicationClassName *)
  vgr_ClassName : string;                     (* spec.volumeReplicationClassName *)
  vgr_AutoResync : bool;                      (* spec *)
  vgr_Selector : option (gmap string string); (* spec.source.selector.matchLabels *)
  vgr_State : State;                          (* status *)
  vgr_PVCs : list string;                     (* status, names of the refs *)
}.

(** VolumeReplicationClass and VolumeGroupReplicationClass have the same
    fields; neither is changed once created. *)
Record ReplicationClass := mkClass {
  class_Meta : ObjectMeta;
  class_Provisioner : string;
  class_Parameters : gmap string string;
}.

Definition IsVRConfirmedPrimary (vr : VolumeReplication) : bool :=
  bool_decide (vr_ReplicationState vr = Primary) && bool_decide (vr_State vr = PrimaryState).
Definition IsVGRConfirmedPrimary (vgr : VolumeGroupReplication) : bool :=
  bool_decide (vgr_ReplicationState vgr = Primary) && bool_decide (vgr_State vgr = PrimaryState).

(** ** Metadata updates: Go mutates the object, here the new metadata *)

Definition set_labels (m : ObjectMeta) (l : gmap string string) : ObjectMeta :=
  mkMeta (Name m) (Namespace m) (UID m) l (Annotations m) (Finalizers m)
    (OwnerReferences m) (Generation m) (Deleting m).
Definition set_annotations (m : ObjectMeta) (a : gmap string string) : ObjectMeta :=
  mkMeta (Name m) (Namespace m) (UID m) (Labels m) a (Finalizers m)
    (OwnerReferences m) (Generation m) (Deleting m).
Definition set_finalizers (m : ObjectMeta) (f : list string) : ObjectMeta :=
  mkMeta (Name m) (Namespace m) (UID m) (Labels m) (Annotations m) f
    (OwnerReferences m) (Generation m) (Deleting m).

Definition HasLabel (m : ObjectMeta) (key : string) : bool :=
  bool_decide (is_Some (Labels m !! key)).
Definition GetLabel (m : ObjectMeta) (key : string) : option string := Labels m !! key.
Definition RemoveLabel (m : ObjectMeta) (key : string) : ObjectMeta :=
  set_labels m (delete key (Labels m)).
Definition SetLabel (m : ObjectMeta) (key value : string) : ObjectMeta :=
  set_labels m (<[key := value]> (Labels m)).

Definition HasAnnotation (m : ObjectMeta) (key : string) : bool :=
  bool_decide (is_Some (Annotations m !! key)).
Definition GetAnnotation (m : ObjectMeta) (key : string) : option string := Annotations m !! key.
Definition RemoveAnnotation (m : ObjectMeta) (key : string) : ObjectMeta :=
  set_annotations m (delete key (Annotations m)).
Definition SetAnnotation (m : ObjectMeta) (key value : string) : ObjectMeta :=
  set_annotations m (<[key := value]> (Annotations m)).

(** [controllerutil.AddFinalizer]/[RemoveFinalizer]: the new metadata and
    whether it changed. *)
Definition HasFinalizer (m : ObjectMeta) (f : string) : bool :=
  bool_decide (f ∈ Finalizers m).
Definition add_finalizer (m : ObjectMeta) (f : string) : ObjectMeta * bool :=
  if HasFinalizer m f then (m, false)
  else (set_finalizers m (Finalizers m ++ [f]), true).
Definition remove_finalizer (m : ObjectMeta) (f : string) : ObjectMeta * bool :=
  let fs := filter (.≠ f) (Finalizers m) in
  (set_finalizers m fs, bool_decide (length fs ≠ length (Finalizers m))).

Section FinalizerUpdates.

(** [updateFinalizerWithRetry]: what the API server answers to the update. *)
Variable update : ObjectMeta → option error.

Definition AddFinalizer (m : ObjectMeta) (f : string) : ObjectMeta * option error :=
  let '(m', added) := add_finalizer m f in
  if added then (m', update m') else (m', None).

Definition EnsureFinalizer (m : ObjectMeta) (f : string)
    : ObjectMeta * (bool * option error) :=
  let '(m', added) := add_finalizer m f in
  if added then (m', (true, update m')) else (m', (false, None)).

Definition RemoveFinalizer (m : ObjectMeta) (f : string) : ObjectMeta * option error :=
  let '(m', removed) := remove_finalizer m f in
  if removed then
    let err := update m' in
    if bool_decide (is_Some err) && negb (IsNotFound err) then (m', err) else (m', None)
  else (m', None).

Definition ClearFinalizers (m : ObjectMeta) : ObjectMeta * option error :=
  if bool_decide (length (Finalizers m) = 0) then (m, None)
  else let m' := set_finalizers m [] in (m', update m').

End FinalizerUpdates.

(** ** StorageClasses *)

Definition GetPVCClass (claim : PVC) : result string :=
  match Annotations (pvc_Meta claim) !! BetaStorageClassAnnotation with
  | Some class => mret class
  | None =>
      match pvc_StorageClassName claim with
      | Some class => mret class
      | None => Errorf ("Failed to get storageClass name from persistentVolumeClaim " +:+
                        Name (pvc_Meta claim))
      end
  end.

Definition ExtractNonPrefixedParams (prefix : string) (params : gmap string string)
    : gmap string string :=
  filter (fun kv => has_prefix kv.1 prefix = false) params.

Definition ExtractPrefixedParams (prefix : string) (params : gmap string string)
    : gmap string string :=
  list_to_map (omap (fun kv => if has_prefix kv.1 prefix
                               then Some (trim_prefix kv.1 prefix, kv.2) else None)
                    (map_to_list params)).

Definition IsBlockStorageClass (sc : StorageClass) : bool :=
  let hasSubsystem := bool_decide (is_Some (sc_Parameters sc !! StorageClassParameterSubsystem)) in
  let hasRootExport := bool_decide (is_Some (sc_Parameters sc !! StorageClassParameterRootExport)) in
  if hasSubsystem && hasRootExport then
    if has_prefix (sc_Provisioner sc) "block" then true else false
  else hasSubsystem.

Section StorageClassLookups.

Variable GetStorageClass : string → result StorageClass.

Fixpoint GetStorageClasses (scNames : list string) (acc : gmap string StorageClass)
    : gmap string StorageClass * option error :=
  match scNames with
  | [] => (acc, None)
  | raw :: scNames' =>
      let scName := trim_space raw in
      if bool_decide (scName = "") then GetStorageClasses scNames' acc
      else
        match GetStorageClass scName with
        | inl e => (acc, Some (ErrWrap ("failed to get StorageClass " +:+ quote scName +:+ ": ") e ""))
        | inr sc => GetStorageClasses scNames' (<[scName := sc]> acc)
        end
  end.

Fixpoint ScsFromStorageClasses (scNames : list string) (acc : gmap string StorageClass)
    : result (gmap string StorageClass) :=
  match scNames with
  | [] => mret acc
  | scName :: scNames' =>
      match GetStorageClass scName with
      | inl e => inl (ErrWrap ("failed to get StorageClass " +:+ scName +:+ ": ") e "")
      | inr sc => ScsFromStorageClasses scNames' (<[scName := sc]> acc)
      end
  end.

End StorageClassLookups.

(** ** Secrets *)

Section SecretLookups.

Variable GetObject_Secret : string → string → result Secret.

Definition GetSecret (name namespace : string) : result Secret :=
  wrap_err ("failed to get secret " +:+ namespace +:+ "/" +:+ name +:+ ": ")
    (GetObject_Secret name namespace).

Definition GetSecretValue (name namespace key : string) : result string :=
  secret ← GetSecret name namespace;
  match secret_Data secret !! key with
  | Some value =>
      if bool_decide (strlen value = 0)
      then Errorf ("secret " +:+ namespace +:+ "/" +:+ name +:+ " is missing key '" +:+ key +:+ "'")
      else mret value
  | None =>
      Errorf ("secret " +:+ namespace +:+ "/" +:+ name +:+ " is missing key '" +:+ key +:+ "'")
  end.

Definition GetSecretCredentials (name namespace : string) : result (gmap string string) :=
  secret ← GetSecret name namespace; mret (secret_Data secret).

End SecretLookups.

(** ** Parents: the VSCR or VVR that owns an object *)

Definition ParentNamespace (labels : gmap string string) (nsKey fallback : string) : string :=
  let ns := trim_space (map_get labels nsKey) in
  if bool_decide (ns ≠ "") then ns else fallback.

Definition ParentCRFromObject (m : ObjectMeta) (nameLabel nsLabel ownerKind : string)
    : string * string :=
  let name := map_get (Labels m) nameLabel in
  let n := ParentNamespace (Labels m) nsLabel "" in
  let ns := if bool_decide (n ≠ "") then n else Namespace m in
  if bool_decide (name = "") then
    match OwnerByKind (OwnerReferences m) ownerKind with
    | Some ref => (or_Name ref, Namespace m)
    | None => (name, ns)
    end
  else (name, ns).

(** The requests [MapToParentCR] enqueues, as (name, namespace). *)
Definition MapToParentCR (nameLabel nsLabel ownerKind : string) (m : ObjectMeta)
    : list (string * string) :=
  let '(name, ns) := ParentCRFromObject m nameLabel nsLabel ownerKind in
  if bool_decide (name = "") then [] else [(name, ns)].

(** ** PVCs in use *)

Definition pod_uses (claim : string) (p : Pod) : bool :=
  negb (bool_decide (pod_Phase p = PodSucceeded ∨ pod_Phase p = PodFailed)) &&
  existsb (fun v => bool_decide (pv_claim v = Some claim)) (pod_Volumes p).

Definition IsPVCUsedByPod (ListPods : string → result (list Pod)) (pvc : PVC)
    : bool * option error :=
  match ListPods (Namespace (pvc_Meta pvc)) with
  | inl e => (true, Some (ErrWrap ("list pods in namespace " +:+
                                   Namespace (pvc_Meta pvc) +:+ ": ") e ""))
  | inr pods => (existsb (pod_uses (Name (pvc_Meta pvc))) pods, None)
  end.

(** ** Label backfill of existing PVCs

    [ApplyExistingPVCs] of [persistentvolumeclaim.go].  The VAST listings and
    the API server are arguments; the outcome is the list of label patches it
    sends.  A failing patch is only logged, so it does not influence the
    others. *)

Section Backfill.

(** [rest.Volumes.List] by subsystem and optional name fragment;
    [rest.Views.List] by path prefix. *)
Variable ListVolumes : string → option string → result (list string).
Variable ListViews : string → result (list string).

Definition is_slash (c : ascii) : bool := is_char "/"%char c.

Definition backfillBlockMapping (params : gmap string string) : result (gset string) :=
  let subsystem := map_get params StorageClassParameterSubsystem in
  let volumeGroup := trim_prefix (map_get params StorageClassParameterVolumeGroup) "/" in
  match ListVolumes subsystem (if bool_decide (volumeGroup ≠ "") then Some volumeGroup else None) with
  | inl e => inl (ErrWrap ("list volumes (subsystem=" +:+ subsystem +:+ "): ") e "")
  | inr vols => mret (list_to_set (map (trim_right_set is_slash) vols))
  end.

Definition backfillFileMapping (params : gmap string string) : result (gset string) :=
  let rootExport := map_get params StorageClassParameterRootExport in
  match ListViews rootExport with
  | inl e => inl (ErrWrap ("list views (root_export=" +:+ rootExport +:+ "): ") e "")
  | inr views => mret (list_to_set (map (trim_right_set is_slash) views))
  end.

Definition backfillVolumeMapping (sc : StorageClass) : result (gset string) :=
  let params := ExtractNonPrefixedParams CSIParameterPrefix (sc_Parameters sc) in
  if IsBlockStorageClass sc then backfillBlockMapping params else backfillFileMapping params.

Definition backfillMappingContainsPV (mapping : gset string) (pvName : string) : bool :=
  existsb (fun key => has_suffix key pvName) (elements mapping).

(** The body of the PVC loop: the patched PVC, or nothing to do. *)
Definition backfill_pvc (scName : string) (sc : StorageClass) (mapping : gset string)
    (pvc : PVC) : option PVC :=
  let subsystem := map_get (sc_Parameters sc) StorageClassParameterSubsystem in
  match pvc_StorageClassName pvc with
  | None => None
  | Some pvcSC =>
      if negb (backfillMappingContainsPV mapping (pvc_VolumeName pvc)) then None
      else if bool_decide (pvcSC ≠ scName) then None
      else
        let needsSCLabel := negb (HasLabel (pvc_Meta pvc) LabelStorageClass) in
        let needsSubsystemLabel :=
          IsBlockStorageClass sc && bool_decide (subsystem ≠ "") &&
          negb (HasLabel (pvc_Meta pvc) LabelSubsystem) in
        if negb needsSCLabel && negb needsSubsystemLabel then None
        else
          let m1 := if needsSCLabel then SetLabel (pvc_Meta pvc) LabelStorageClass scName
                    else pvc_Meta pvc in
          let m2 := if needsSubsystemLabel then SetLabel m1 LabelSubsystem subsystem else m1 in
          Some (mkPVC m2 (pvc_StorageClassName pvc) (pvc_VolumeName pvc) (pvc_Shape pvc))
  end.

Definition ApplyExistingPVCs (ListAllPVCs : result (list PVC)) (scName : string)
    (sc : StorageClass) : result (list PVC) :=
  match backfillVolumeMapping sc with
  | inl e => inl (ErrWrap ("list backend objects for " +:+ scName +:+ ": ") e "")
  | inr mapping =>
      if bool_decide (size mapping = 0) then mret []
      else
        match ListAllPVCs with
        | inl e => inl (ErrWrap "list PVCs: " e "")
        | inr pvcs => mret (omap (backfill_pvc scName sc mapping) pvcs)
        end
  end.

End Backfill.

(** ** Lemmas *)

Lemma trim_prefix_app p k : trim_prefix (p +:+ k) p = k.
Proof.
  unfold trim_prefix. rewrite (proj2 (has_prefix_spec _ _)) by eauto.
  apply (inj chars). rewrite chars_str, chars_app. unfold strlen. by rewrite drop_app_length.
Qed.

Lemma elem_of_ExtractPrefixedParams prefix params k v :
  ExtractPrefixedParams prefix params !! k = Some v ↔ params !! (prefix +:+ k) = Some v.
Proof.
  unfold ExtractPrefixedParams. rewrite <-(elem_of_map_to_list params).
  rewrite <-elem_of_list_to_map.
  - rewrite list_elem_of_omap. split.
    + intros ([k' v'] & Hin & Hkv). simpl in Hkv.
      destruct (has_prefix k' prefix) eqn:Hp; simplify_eq.
      apply has_prefix_spec in Hp as [k0 ->]. by rewrite trim_prefix_app.
    + intros Hin. eexists. split; [exact Hin|]. simpl.
      rewrite (proj2 (has_prefix_spec _ _)) by eauto. by rewrite trim_prefix_app.
  - pose proof (NoDup_fst_map_to_list params) as Hnd. revert Hnd.
    generalize (map_to_list params) as l. induction l as [|[k1 v1] l IH]; [by constructor|].
    simpl. intros [Hn Hnd]%NoDup_cons.
    destruct (has_prefix k1 prefix) eqn:Hp; [|by apply IH]. simpl.
    constructor; [|by apply IH]. apply has_prefix_spec in Hp as [k0 ->].
    rewrite trim_prefix_app. intros ([k2 v2] & Hk & Hin)%list_elem_of_fmap.
    apply list_elem_of_omap in Hin as ([k3 v3] & Hin & Hkv). simpl in *.
    destruct (has_prefix k3 prefix) eqn:Hp3; simplify_eq.
    apply has_prefix_spec in Hp3 as [k4 ->]. rewrite trim_prefix_app in *.
    apply Hn. apply list_elem_of_fmap. by exists (prefix +:+ k4, v2).
Qed.

Lemma HasLabel_SetLabel m k k' v : HasLabel (SetLabel m k v) k' = bool_decide (k = k') || HasLabel m k'.
Proof.
  unfold HasLabel, SetLabel, set_labels. simpl. destruct (decide (k = k')) as [->|Hne].
  - rewrite lookup_insert_eq, (bool_decide_true (k' = k')) by done. by apply bool_decide_true.
  - rewrite lookup_insert_ne by done. by rewrite (bool_decide_false (k = k')).
Qed.

Lemma SetLabel_subseteq m k v :
  HasLabel m k = false → Labels m ⊆ Labels (SetLabel m k v).
Proof.
  unfold HasLabel. intros Hk%bool_decide_eq_false. simpl.
  apply insert_subseteq. by apply eq_None_not_Some.
Qed.

#[export] Hint Resolve SetLabel_subseteq : vast.

(** ** Properties *)

(** The backfill only patches PVCs of its own StorageClass whose volume
    ends a backend key, it adds the two labels without changing any label that
    was already there, and a second run over the patched PVCs sends nothing. *)
Theorem backfill_sound_and_idempotent (scName : string) (sc : StorageClass)
    (mapping : gset string) (pvc pvc' : PVC) :
  backfill_pvc scName sc mapping pvc = Some pvc' →
  pvc_StorageClassName pvc = Some scName ∧
  backfillMappingContainsPV mapping (pvc_VolumeName pvc) = true ∧
  Labels (pvc_Meta pvc) ⊆ Labels (pvc_Meta pvc') ∧
  HasLabel (pvc_Meta pvc') LabelStorageClass = true ∧
  backfill_pvc scName sc mapping pvc' = None.
Proof.
  unfold backfill_pvc.
  destruct (pvc_StorageClassName pvc) as [pvcSC|] eqn:HSC; [|done].
  destruct (backfillMappingContainsPV _ _) eqn:Hmap; [|done]. simpl.
  case_bool_decide as Hsc; [done|]. subst pvcSC.
  set (sub := map_get _ _). set (blk := IsBlockStorageClass sc && bool_decide (sub ≠ "")).
  destruct (HasLabel (pvc_Meta pvc) LabelStorageClass) eqn:H1,
    (HasLabel (pvc_Meta pvc) LabelSubsystem) eqn:H2, blk eqn:Hblk; simpl;
    rewrite ?andb_true_r, ?andb_false_r; intros [= <-]; simpl;
    rewrite ?HSC, ?Hmap, ?bool_decide_false by naive_solver; simpl;
    rewrite ?HasLabel_SetLabel, ?H1, ?H2, ?Hblk; simpl; repeat split; try done.
  all: try by apply (SetLabel_subseteq (pvc_Meta pvc)).
  etrans; [by apply (SetLabel_subseteq (pvc_Meta pvc) LabelStorageClass scName)|].
  apply (SetLabel_subseteq (SetLabel (pvc_Meta pvc) LabelStorageClass scName)).
  by rewrite HasLabel_SetLabel.
Qed.

Lemma backfill_sound_and_idempotent_witness :
  let sc := mkSC "fast" "block.csi.vastdata.com" {["subsystem" := "sub1"]} [] in
  let pvc := mkPVC (plain_meta "apps" "data") (Some "fast") "pvc-abc" (mkShape [] ∅ None) in
  let pvc' := mkPVC (SetLabel (SetLabel (plain_meta "apps" "data") LabelStorageClass "fast")
                       LabelSubsystem "sub1") (Some "fast") "pvc-abc" (mkShape [] ∅ None) in
  backfill_pvc "fast" sc {["group/pvc-abc"]} pvc' = None.
Proof.
  intros sc pvc pvc'.
  apply (backfill_sound_and_idempotent "fast" sc {["group/pvc-abc"]} pvc pvc').
  vm_compute. reflexivity.
Defined.

(** Stripping the CSI prefix loses and invents nothing: a parameter is in
    [ExtractPrefixedParams] under [k] exactly when the StorageClass has it
    under the prefixed key, and every parameter is in exactly one of the two
    extractions. *)
Theorem params_split (prefix : string) (params : gmap string string) (k v : string) :
  (ExtractPrefixedParams prefix params !! k = Some v ↔ params !! (prefix +:+ k) = Some v) ∧
  (ExtractNonPrefixedParams prefix params !! k = Some v ↔
     params !! k = Some v ∧ ∀ k', k ≠ prefix +:+ k').
Proof.
  split; [apply elem_of_ExtractPrefixedParams|].
  unfold ExtractNonPrefixedParams. rewrite map_lookup_filter_Some. simpl.
  destruct (has_prefix k prefix) eqn:Hp.
  - apply has_prefix_spec in Hp. naive_solver.
  - split; [|naive_solver]. intros [? _]. split; [done|]. intros k' ->.
    rewrite (proj2 (has_prefix_spec _ _)) in Hp by eauto. done.
Qed.
