(* ===== verification/Naming.v ===== *)
(** * Object names

    [internal/common/utils/utils.go]: name and label sanitisation, format
    validation.  [internal/provisioner/utils.go]: name-format interpolation,
    slugs, class names, mount options.  The VGR/VR name helpers of the two
    top-level controllers and [truncateName] of [vmsrest/ppath.go].

    Regular expressions are written out as the byte scanners they denote;
    [net.SplitHostPort] is modelled, [url.Parse] is an argument. *)

From S2P Require Import Prelude GoErrors Topology Kube.
From stdpp Require Import options.

(** ** SanitizeK8sName *)

Definition is_dash (c : ascii) : bool := is_char "-"%char c.
Definition is_dash_dot (c : ascii) : bool := is_dash c || is_char "."%char c.
Definition k8s_char (c : ascii) : bool := is_lower c || is_digit c || is_dash_dot c.
Definition two_dashes : list ascii := chars "--".

(** [strings.ReplaceAll(s, "--", "-")] *)
Fixpoint replace_dd (l : list ascii) : list ascii :=
  match l with
  | [] => []
  | a :: l1 =>
      match l1 with
      | b :: l2 => if is_dash a && is_dash b then "-"%char :: replace_dd l2
                   else a :: replace_dd l1
      | [] => [a]
      end
  end.

(** The [for strings.Contains] loop; [SanitizeK8sName] gives it enough fuel. *)
Fixpoint collapse_loop (fuel : nat) (l : list ascii) : list ascii :=
  if is_infix two_dashes l then
    match fuel with
    | O => l
    | S f => collapse_loop f (replace_dd l)
    end
  else l.

Definition maxNameLen : nat := 253.

Definition SanitizeK8sName (name : string) : string :=
  let sanitized := replace_invalid k8s_char "-"%char 0 (chars (to_lower name)) in
  let collapsed := collapse_loop (length sanitized) sanitized in
  let trimmed := chars (trim_set is_dash_dot (str collapsed)) in
  let cut := if bool_decide (maxNameLen < length trimmed)
             then drop_while_end is_dash_dot (take maxNameLen trimmed) else trimmed in
  if bool_decide (str cut = "") then "resource" else str cut.

Definition sanitizeK8sName (name : string) : string := SanitizeK8sName name.

(** ** ParseCommaSeparated, SanitizeLabelValue *)

Definition ParseCommaSeparated (s : string) : list string :=
  filter (.≠ "") (map trim_space (split_str ","%char s)).

Definition is_alnum (c : ascii) : bool := is_lower c || is_upper c || is_digit c.
Definition is_label_sep (c : ascii) : bool :=
  is_dash c || is_char "_"%char c || is_char "."%char c.
Definition label_char (c : ascii) : bool := is_alnum c || is_label_sep c.
Definition maxLabelLen : nat := 63.

Definition SanitizeLabelValue (value : string) : string :=
  if bool_decide (value = "") then ""
  else
    let sanitized := str (replace_invalid label_char "_"%char 0 (chars value)) in
    let trimmed := trim_set is_label_sep sanitized in
    if bool_decide (maxLabelLen < strlen trimmed)
    then str (take maxLabelLen (chars trimmed)) else trimmed.

(** ** Format tokens *)

Definition word_char (c : ascii) : bool := is_alnum c || is_char "_"%char c.

(** [tokenPattern] right after an opening brace: the token, its limit (empty
    when absent) and the number of bytes consumed up to the closing brace. *)
Definition match_token (l : list ascii) : option (list ascii * list ascii * nat) :=
  let tok := take_while word_char l in
  match tok with
  | [] => None
  | _ =>
      match drop (length tok) l with
      | "}"%char :: _ => Some (tok, [], length tok + 1)
      | ":"%char :: rest =>
          let lim := take_while is_digit rest in
          match lim, drop (length lim) rest with
          | _ :: _, "}"%char :: _ => Some (tok, lim, length tok + length lim + 2)
          | _, _ => None
          end
      | _ => None
      end
  end.

Inductive piece :=
| Chr (c : ascii)
| Tok (token limit : list ascii).

(** All matches of [tokenPattern], left to right, with the text between. *)
Fixpoint tokenise (skip : nat) (l : list ascii) : list piece :=
  match l with
  | [] => []
  | c :: l' =>
      match skip with
      | S k => tokenise k l'
      | O =>
          if is_char "{"%char c then
            match match_token l' with
            | Some (tok, lim, n) => Tok tok lim :: tokenise n l'
            | None => Chr c :: tokenise 0 l'
            end
          else Chr c :: tokenise 0 l'
      end
  end.

(** The text a piece was read from. *)
Definition piece_raw (p : piece) : list ascii :=
  match p with
  | Chr c => [c]
  | Tok tok [] => "{"%char :: tok ++ ["}"%char]
  | Tok tok lim => "{"%char :: tok ++ ":"%char :: lim ++ ["}"%char]
  end.

Definition validPVCTokens : list string :=
  ["pvc_name"; "pvc_name_suf"; "pvc_name_pref";
   "endpoint"; "sc_name"; "sc_name_suf"; "sc_name_pref"].
Definition validPVTokens : list string :=
  ["pv_name"; "pv_name_suf"; "pv_name_pref";
   "endpoint"; "sc_name"; "sc_name_suf"; "sc_name_pref"].

Definition validTokensFor (kind : string) : option (list string) :=
  if bool_decide (kind = "pvc") then Some validPVCTokens
  else if bool_decide (kind = "pv") then Some validPVTokens
  else None.

Fixpoint check_tokens (validTokens : list string) (kind format : string) (ps : list piece)
    : result unit :=
  match ps with
  | [] => mret ()
  | Chr _ :: ps' => check_tokens validTokens kind format ps'
  | Tok tok _ :: ps' =>
      if bool_decide (str tok ∈ validTokens) then check_tokens validTokens kind format ps'
      else Errorf ("unknown token {" +:+ str tok +:+ "} in " +:+ kind +:+ " name format " +:+
                   quote format)
  end.

Definition ValidateNameFormat (format kind : string) : result unit :=
  match validTokensFor kind with
  | None => Errorf ("unknown kind " +:+ quote kind +:+ ", expected 'pvc' or 'pv'")
  | Some validTokens => check_tokens validTokens kind format (tokenise 0 (chars format))
  end.

(** ** formatName *)

Record namingValues := mkNaming {
  n_PVCName : string;
  n_PVName : string;
  n_VRName : string;
  n_VGRName : string;
  n_VRNamespace : string;
  n_VGRNamespace : string;
  n_Endpoint : string;
  n_SCName : string;
  n_Provisioner : string;
}.

Definition suffix (s : string) (n : Z) : string :=
  if bool_decide (n ≤ 0 ∨ Z.of_nat (strlen s) ≤ n)%Z then s
  else str (drop (strlen s - Z.to_nat n) (chars s)).

Definition prefix (s : string) (n : Z) : string :=
  if bool_decide (n ≤ 0 ∨ Z.of_nat (strlen s) ≤ n)%Z then s
  else str (take (Z.to_nat n) (chars s)).

Definition slugify (s : string) : string :=
  str (map (fun c => if is_char "."%char c || is_char ":"%char c then "-"%char else c) (chars s)).

(** Index of the last and first occurrence of a byte. *)
Definition index_byte (b : ascii) (l : list ascii) : option nat :=
  fst <$> list_find (fun c => c = b) l.
Definition last_index_byte (b : ascii) (l : list ascii) : option nat :=
  (fun i => length l - 1 - i) <$> index_byte b (rev l).

(** [net.SplitHostPort]: the host, [None] on error. *)
Definition SplitHostPort (hostport : string) : option string :=
  let l := chars hostport in
  i ← last_index_byte ":"%char l;
  '(host, j, k) ←
    (if bool_decide (head l = Some "["%char) then
       e ← index_byte "]"%char l;
       if bool_decide (e + 1 = i) then Some (take (e - 1) (drop 1 l), 1, e + 1) else None
     else
       let host := take i l in
       if bool_decide (is_Some (index_byte ":"%char host)) then None else Some (host, 0, 0));
  if bool_decide (is_Some (index_byte "["%char (drop j l))) then None
  else if bool_decide (is_Some (index_byte "]"%char (drop k l))) then None
  else Some (str host).

Section FormatName.

(** [url.Parse(endpoint).Host], [None] when the URL does not parse. *)
Variable url_host : string → option string.

Definition slugifyEndpoint (endpoint : string) : string :=
  let e1 := if contains endpoint "://" then default endpoint (url_host endpoint) else endpoint in
  let e2 := default e1 (SplitHostPort e1) in
  slugify e2.

(** [strconv.Atoi], which saturates out of range. *)
Definition atoi_limit (lim : list ascii) : Z :=
  match lim with
  | [] => 0%Z
  | _ => Z.min (dec_value lim) (2 ^ 63 - 1)
  end.

Definition token_value (vals : namingValues) (token : string) (limit : Z) : option string :=
  let lim s := if bool_decide (0 < limit)%Z then suffix s limit else s in
  if bool_decide (token = "pvc_name") then Some (n_PVCName vals)
  else if bool_decide (token = "pvc_name_suf") then Some (suffix (n_PVCName vals) limit)
  else if bool_decide (token = "pvc_name_pref") then Some (prefix (n_PVCName vals) limit)
  else if bool_decide (token = "pv_name") then Some (n_PVName vals)
  else if bool_decide (token = "pv_name_suf") then Some (suffix (n_PVName vals) limit)
  else if bool_decide (token = "pv_name_pref") then Some (prefix (n_PVName vals) limit)
  else if bool_decide (token = "vr_name") then Some (lim (n_VRName vals))
  else if bool_decide (token = "vr_name_suf") then Some (suffix (n_VRName vals) limit)
  else if bool_decide (token = "vr_name_pref") then Some (prefix (n_VRName vals) limit)
  else if bool_decide (token = "vgr_name") then Some (lim (n_VGRName vals))
  else if bool_decide (token = "vgr_name_suf") then Some (suffix (n_VGRName vals) limit)
  else if bool_decide (token = "vgr_name_pref") then Some (prefix (n_VGRName vals) limit)
  else if bool_decide (token = "vr_namespace") then Some (n_VRNamespace vals)
  else if bool_decide (token = "vgr_namespace") then Some (n_VGRNamespace vals)
  else if bool_decide (token = "endpoint") then Some (slugifyEndpoint (n_Endpoint vals))
  else if bool_decide (token = "sc_name") then Some (lim (n_SCName vals))
  else if bool_decide (token = "sc_name_suf") then Some (suffix (n_SCName vals) limit)
  else if bool_decide (token = "sc_name_pref") then Some (prefix (n_SCName vals) limit)
  else if bool_decide (token = "provisioner") then Some (n_Provisioner vals)
  else None.

Definition format_piece (vals : namingValues) (p : piece) : list ascii :=
  match p with
  | Chr c => [c]
  | Tok tok lim =>
      match token_value vals (str tok) (atoi_limit lim) with
      | Some s => chars s
      | None => piece_raw p
      end
  end.

Definition formatName (format : string) (vals : namingValues) : string :=
  str (tokenise 0 (chars format) ≫= format_piece vals).

(** ** Names of destination PVCs, PVs and replication classes *)

Variable GetSecretValue : string → string → string → result string.

Definition endpointFromStorageClass (sc : StorageClass) : result string :=
  let csiParams := ExtractPrefixedParams CSIParameterPrefix (sc_Parameters sc) in
  let secretName := map_get csiParams "provisioner-secret-name" in
  let secretNamespace := map_get csiParams "provisioner-secret-namespace" in
  if bool_decide (secretName = "") || bool_decide (secretNamespace = "") then
    Errorf ("StorageClass " +:+ sc_Name sc +:+ " missing provisioner secret parameters")
  else GetSecretValue secretName secretNamespace "endpoint".

Definition endpoint_or_error {A} (sc : StorageClass) (k : string → result A) : result A :=
  endpoint ← wrap_err ("failed to get endpoint for SC " +:+ sc_Name sc +:+ ": ")
               (endpointFromStorageClass sc);
  k endpoint.

Definition FormatPVCName (format : string) (sourcePVC sourcePV : string) (destSC : StorageClass)
    : result string :=
  endpoint_or_error destSC (fun endpoint =>
    mret (sanitizeK8sName (formatName format
      (mkNaming sourcePVC sourcePV "" "" "" "" endpoint (sc_Name destSC) "")))).

Definition FormatPVName (format : string) (sourcePVC sourcePV : string) (destSC : StorageClass)
    : result string :=
  endpoint_or_error destSC (fun endpoint =>
    mret (sanitizeK8sName (formatName format
      (mkNaming sourcePVC sourcePV "" "" "" "" endpoint (sc_Name destSC) "")))).

Definition VSCRReplicationClassFormat := "{sc_name}-{provisioner}-vscr".
Definition VVRReplicationClassFormat := "{sc_name}-{provisioner}-vvr".

Definition FormatReplicationClassName (format : string) (sc : StorageClass) : result string :=
  endpoint_or_error sc (fun endpoint =>
    mret (sanitizeK8sName (formatName format
      (mkNaming "" "" "" "" "" "" endpoint (sc_Name sc) (slugify (sc_Provisioner sc)))))).

End FormatName.

(** ** Roles and mount options *)

Definition isSourceRole (role : string) : bool := bool_decide (to_lower role = "source").
Definition isDestinationRole (role : string) : bool := bool_decide (to_lower role = "destination").

(** key, separator, value, whether there is a value *)
Definition splitMountOption (opt : string) : string * string * string * bool :=
  let l := chars opt in
  match index_byte "="%char l with
  | Some idx => (trim_space (str (take idx l)), "=", trim_space (str (drop (idx + 1) l)), true)
  | None => (trim_space opt, "", "", false)
  end.

Fixpoint nfsProtocols (mountOptions : list string) : list string :=
  match mountOptions with
  | [] => ["NFS"]
  | opt :: opts =>
      let '(key, _, value, ok) := splitMountOption opt in
      if ok && (bool_decide (key = "vers") || bool_decide (key = "nfsvers")) && has_prefix value "4"
      then ["NFS4"] else nfsProtocols opts
  end.

(** ** Derived object names *)

Definition vgrNameForSC (vscrName scName : string) : string :=
  vscrName +:+ "-" +:+ replace_char "."%char "-"%char scName.
Definition vrNameForSC (vvrName scName : string) : string :=
  vvrName +:+ "-" +:+ replace_char "."%char "-"%char scName.

Definition vastNameMaxLen : nat := 64.
Definition truncateName (s : string) : string :=
  if bool_decide (strlen s ≤ vastNameMaxLen) then s else str (take vastNameMaxLen (chars s)).

(** ** Touching the VRCs of a constellation

    [k8s_client/vastreplicationcontent.go].  The API server is a store of VRCs
    keyed by (namespace, name); [fault] injects its other failures. *)

Notation VRCStore := (gmap (string * string) VRC).

Section Touch.

Variable get_fault : string * string → option error.
Variable patch_fault : string * string → option error.
Variable ts : string.

Definition GetVastReplicationContent (st : VRCStore) (name namespace : string) : result VRC :=
  match get_fault (namespace, name) with
  | Some e => inl e
  | None =>
      match st !! (namespace, name) with
      | Some vrc => inr vrc
      | None => inl (ErrStatus ReasonNotFound ("VastReplicationContent " +:+ quote name +:+ " not found"))
      end
  end.

Definition SetAnnotationAndUpdate (st : VRCStore) (vrc : VRC) (key value : string)
    : VRCStore * option error :=
  let m := vrc_Meta vrc in
  match patch_fault (Namespace m, Name m) with
  | Some e => (st, Some (ErrWrap ("failed to patch annotation " +:+ quote key +:+ " on " +:+
                                  Namespace m +:+ "/" +:+ Name m +:+ ": ") e ""))
  | None =>
      (<[(Namespace m, Name m) := mkVRC (SetAnnotation m key value) (vrc_Spec vrc) (vrc_Status vrc)]> st,
       None)
  end.

Fixpoint touchVRCsForStorageClasses (vscr : VSCR) (storageClasses : list string)
    (annotationKey : string) (touched : list string) (st : VRCStore)
    : VRCStore * list string * option error :=
  match storageClasses with
  | [] => (st, touched, None)
  | scName :: scs =>
      let vrcName := Name (vscr_Meta vscr) +:+ "-" +:+ scName in
      let ns := VSCR_PVCNamespace vscr in
      match GetVastReplicationContent st vrcName ns with
      | inl e =>
          if IsNotFound (Some e) then
            touchVRCsForStorageClasses vscr scs annotationKey touched st
          else (st, touched, Some (ErrWrap ("get VRC " +:+ ns +:+ "/" +:+ vrcName +:+ ": ") e ""))
      | inr vrc =>
          match SetAnnotationAndUpdate st vrc annotationKey ts with
          | (st', Some e) =>
              (st', touched, Some (ErrWrap ("touch VRC " +:+ ns +:+ "/" +:+ vrcName +:+ ": ") e ""))
          | (st', None) =>
              touchVRCsForStorageClasses vscr scs annotationKey (touched ++ [vrcName]) st'
          end
      end
  end.

Definition AnnotationMirrorSyncRequestedAt := Domain +:+ "/mirror-sync-requested-at".
Definition AnnotationResyncRequestedAt := Domain +:+ "/resync-requested-at".

Definition TouchConstellationVRCs (vscr : VSCR) (st : VRCStore)
    : VRCStore * list string * option error :=
  touchVRCsForStorageClasses vscr (VSCR_AllStorageClasses (vscr_Spec vscr))
    AnnotationResyncRequestedAt [] st.

Definition TouchSecondaryVRCs (vscr : VSCR) (st : VRCStore)
    : VRCStore * list string * option error :=
  touchVRCsForStorageClasses vscr
    (filter (.≠ vscr_PrimaryStorageClass (vscr_Spec vscr))
            (VSCR_AllStorageClasses (vscr_Spec vscr)))
    AnnotationMirrorSyncRequestedAt [] st.

End Touch.

(** ** Lemmas: collapsing dashes *)

(** The reference: keep the last dash of every run. *)
Fixpoint squeeze (l : list ascii) : list ascii :=
  match l with
  | [] => []
  | a :: l1 =>
      match l1 with
      | b :: _ => if is_dash a && is_dash b then squeeze l1 else a :: squeeze l1
      | [] => [a]
      end
  end.

Lemma is_dash_true c : is_dash c = true → c = "-"%char.
Proof. unfold is_dash, is_char. apply bool_decide_eq_true. Qed.

Lemma head_squeeze l : head (squeeze l) = head l.
Proof.
  induction l as [|a [|b l] IH]; [done..|].
  simpl in *. destruct (is_dash a && is_dash b) eqn:E; [|done].
  apply andb_true_iff in E as [->%is_dash_true ->%is_dash_true]. done.
Qed.

Definition head_dash (l : list ascii) : bool :=
  match l with b :: _ => is_dash b | [] => false end.

Lemma squeeze_cons c l :
  squeeze (c :: l) = if is_dash c && head_dash (squeeze l) then squeeze l else c :: squeeze l.
Proof.
  assert (head_dash (squeeze l) = head_dash l) as ->.
  { pose proof (head_squeeze l). by destruct (squeeze l), l; simplify_eq/=. }
  destruct l as [|b l]; simpl; [by rewrite andb_false_r|done].
Qed.

Lemma squeeze_replace_dd l : squeeze (replace_dd l) = squeeze l.
Proof.
  remember (length l) as n eqn:Hn. revert l Hn.
  induction n as [n IH] using lt_wf_ind. intros [|a [|b l]] ->; [done..|].
  assert (IHl : squeeze (replace_dd l) = squeeze l) by (apply (IH (length l)); simpl; lia).
  assert (IHbl : squeeze (replace_dd (b :: l)) = squeeze (b :: l))
    by (apply (IH (length (b :: l))); simpl; lia).
  change (replace_dd (a :: b :: l)) with
    (if is_dash a && is_dash b then "-"%char :: replace_dd l else a :: replace_dd (b :: l)).
  destruct (is_dash a && is_dash b) eqn:E.
  - apply andb_true_iff in E as [->%is_dash_true ->%is_dash_true].
    rewrite (squeeze_cons _ (replace_dd l)), IHl, <-squeeze_cons. done.
  - by rewrite (squeeze_cons _ (replace_dd _)), IHbl, <-squeeze_cons.
Qed.

Lemma replace_dd_length l : length (replace_dd l) ≤ length l.
Proof.
  remember (length l) as n eqn:Hn. revert l Hn.
  induction n as [n IH] using lt_wf_ind. intros [|a [|b l]] ->; [done..|].
  simpl replace_dd. destruct (is_dash a && is_dash b); simpl.
  - pose proof (IH (length l) ltac:(simpl; lia) l eq_refl). lia.
  - pose proof (IH (length (b :: l)) ltac:(simpl; lia) (b :: l) eq_refl). simpl in *. lia.
Qed.

Lemma is_infix_dd_cons a b l :
  is_infix two_dashes (a :: b :: l) = is_dash a && is_dash b || is_infix two_dashes (b :: l).
Proof.
  unfold is_dash, is_char, two_dashes. simpl. rewrite andb_true_r.
  f_equal. f_equal; apply bool_decide_ext; naive_solver.
Qed.

Lemma replace_dd_shrinks l :
  is_infix two_dashes l = true → length (replace_dd l) < length l.
Proof.
  induction l as [|a [|b l] IH]; [done| |].
  - simpl. by destruct (bool_decide _).
  - rewrite is_infix_dd_cons. simpl replace_dd.
    destruct (is_dash a && is_dash b) eqn:E.
    + intros _. simpl. pose proof (replace_dd_length l). lia.
    + simpl orb. intros H. specialize (IH H). simpl in *. lia.
Qed.

Lemma squeeze_no_dd l : is_infix two_dashes (squeeze l) = false.
Proof.
  induction l as [|a l IH]; [done|]. rewrite squeeze_cons.
  destruct (squeeze l) as [|b k]; simpl head_dash.
  - rewrite andb_false_r. unfold two_dashes. simpl. by destruct (bool_decide _).
  - destruct (is_dash a && is_dash b) eqn:E; [done|]. by rewrite is_infix_dd_cons, E.
Qed.

Lemma squeeze_id l : is_infix two_dashes l = false → squeeze l = l.
Proof.
  induction l as [|a [|b l] IH]; [done..|]. rewrite is_infix_dd_cons.
  intros [E H]%orb_false_iff. simpl in *. rewrite E. by rewrite IH.
Qed.

(** The loop ends within its fuel and leaves one dash of every run. *)
Lemma collapse_loop_squeeze fuel l :
  length l ≤ fuel → collapse_loop fuel l = squeeze l.
Proof.
  revert l. induction fuel as [|f IH]; intros l Hl; simpl.
  - destruct l; [done|simpl in Hl; lia].
  - destruct (is_infix two_dashes l) eqn:E; [|by rewrite squeeze_id].
    rewrite IH, squeeze_replace_dd; [done|].
    pose proof (replace_dd_shrinks l E). lia.
Qed.

Lemma squeeze_subset l c : c ∈ squeeze l → c ∈ l.
Proof.
  induction l as [|a l IH]; [done|]. rewrite squeeze_cons, elem_of_cons.
  destruct (_ && _); [auto|]. rewrite elem_of_cons. naive_solver.
Qed.

Lemma replace_invalid_ok ok r skip l c :
  ok r = true → c ∈ replace_invalid ok r skip l → ok c = true.
Proof.
  intros Hr. revert skip. induction l as [|a l IH]; intros skip; simpl; [by intros ?%elem_of_nil|].
  destruct skip as [|k]; [|apply IH].
  destruct (ok a) eqn:Ha; rewrite elem_of_cons; intros [->|Hc]; eauto.
Qed.

Lemma replace_invalid_id ok r l :
  Forall (fun c => ok c = true) l → replace_invalid ok r 0 l = l.
Proof. induction 1 as [|c l Hc _ IH]; simpl; [done|]. by rewrite Hc, IH. Qed.

(** ** Well-formed names *)

Definition k8s_name_ok (l : list ascii) : Prop :=
  0 < length l ≤ maxNameLen ∧ Forall (fun c => k8s_char c = true) l ∧
  is_infix two_dashes l = false ∧
  (∀ c k, l = c :: k → is_dash_dot c = false) ∧
  (∀ c k, l = k ++ [c] → is_dash_dot c = false).

Lemma no_infix_app p l1 l2 l3 :
  is_infix p (l1 ++ l2 ++ l3) = false → is_infix p l2 = false.
Proof.
  intros H. destruct (is_infix p l2) eqn:E; [|done].
  apply is_infix_spec in E as (k1 & k2 & ->).
  assert (is_infix p (l1 ++ (k1 ++ p ++ k2) ++ l3) = true); [|congruence].
  apply is_infix_spec. exists (l1 ++ k1), (k2 ++ l3). by rewrite <-!app_assoc.
Qed.

Lemma drop_while_end_head f l c k :
  drop_while_end f l = c :: k → ∃ k', l = c :: k'.
Proof.
  intros H. destruct (drop_while_end_prefix f l) as [k' Hk]. rewrite H in Hk.
  rewrite Hk. simpl. eauto.
Qed.

(** Trimming and cutting keep the shape of a collapsed name. *)
Lemma trimmed_shape l (t := drop_while_end is_dash_dot (drop_while is_dash_dot l)) :
  Forall (fun c => k8s_char c = true) l → is_infix two_dashes l = false →
  Forall (fun c => k8s_char c = true) t ∧ is_infix two_dashes t = false ∧
  (∀ c k, t = c :: k → is_dash_dot c = false) ∧
  (∀ c k, t = k ++ [c] → is_dash_dot c = false).
Proof.
  intros Hok Hdd. rewrite Forall_forall in Hok.
  destruct (drop_while_suffix is_dash_dot l) as [k1 H1].
  destruct (drop_while_end_prefix is_dash_dot (drop_while is_dash_dot l)) as [k2 H2].
  repeat split.
  - apply Forall_forall. intros c Hc. apply Hok.
    by eapply elem_of_drop_while, elem_of_drop_while_end.
  - apply (no_infix_app _ k1 _ k2). unfold t. by rewrite <-H2, <-H1.
  - intros c k Ht. destruct (drop_while_end_head _ _ _ _ Ht) as [k' Hk'].
    by eapply drop_while_head.
  - intros c k Ht. by eapply drop_while_end_last.
Qed.

Lemma cut_shape l (t := drop_while_end is_dash_dot (take maxNameLen l)) c0 k0 :
  l = c0 :: k0 → is_dash_dot c0 = false →
  Forall (fun c => k8s_char c = true) l → is_infix two_dashes l = false →
  k8s_name_ok t.
Proof.
  intros Hl Hc0 Hok Hdd.
  destruct (drop_while_end_prefix is_dash_dot (take maxNameLen l)) as [k2 H2].
  assert (Hhead : ∃ k, t = c0 :: k).
  { destruct (drop_while_end_keep is_dash_dot [] c0 (take (maxNameLen - 1) k0) Hc0) as [k' Hk'].
    exists k'. unfold t. by rewrite Hl. }
  destruct Hhead as [kt Hkt]. repeat split.
  - rewrite Hkt. simpl. lia.
  - apply (f_equal length) in H2.
    rewrite length_app in H2. pose proof (length_take l maxNameLen). unfold t. lia.
  - apply Forall_forall. intros c Hc. rewrite Forall_forall in Hok. apply Hok.
    apply elem_of_drop_while_end in Hc. rewrite <-(take_drop maxNameLen l), elem_of_app. by left.
  - apply (no_infix_app _ [] _ (k2 ++ drop maxNameLen l)). simpl. unfold t.
    rewrite app_assoc, <-H2. by rewrite take_drop.
  - intros c k Ht. rewrite Hkt in Ht. by injection Ht as <- _.
  - intros c k Ht. by eapply drop_while_end_last.
Qed.

Lemma lower_bytes_id l : Forall (fun c => k8s_char c = true) l → lower_bytes l = l.
Proof.
  induction 1 as [|a l Ha Hl IH]; [done|].
  assert (is_byte 196 a = false ∧ is_byte 226 a = false ∧ lower_byte a = a) as (H1 & H2 & H3).
  { destruct a as [[] [] [] [] [] [] [] []]; vm_compute in Ha |- *; done. }
  simpl. rewrite H1, H2, H3, IH. simpl. by destruct l as [|b [|c l]].
Qed.

Lemma sanitize_name_ok name : k8s_name_ok (chars (SanitizeK8sName name)).
Proof.
  unfold SanitizeK8sName, trim_set. rewrite collapse_loop_squeeze by lia.
  set (l0 := replace_invalid _ _ _ _). rewrite !chars_str.
  assert (Hok : Forall (fun c => k8s_char c = true) (squeeze l0)).
  { apply Forall_forall. intros c Hc%squeeze_subset. by eapply (replace_invalid_ok k8s_char); [|exact Hc]. }
  destruct (trimmed_shape (squeeze l0) Hok (squeeze_no_dd l0)) as (Hc & Hdd & Hh & Hl).
  set (t := drop_while_end _ _) in *. clearbody t. clear Hok l0.
  destruct t as [|c0 k0] eqn:Ht.
  { change (k8s_name_ok (chars "resource")).
    repeat split; [simpl; unfold maxNameLen; lia..| | |].
    - by repeat constructor.
    - intros c k [= <- <-]. done.
    - intros c k Hk. apply (f_equal (@rev ascii)) in Hk. rewrite rev_app_distr in Hk.
      by injection Hk as <- _. }
  rewrite <-Ht in *. destruct (bool_decide_reflect (maxNameLen < length t)) as [Hlen|Hlen].
  - pose proof (cut_shape t c0 k0 Ht (Hh _ _ Ht) Hc Hdd) as Hcut.
    rewrite bool_decide_false, chars_str; [done|].
    intros Hnil. destruct Hcut as [[Hpos _] _].
    apply (f_equal chars) in Hnil. rewrite chars_str in Hnil. rewrite Hnil in Hpos.
    simpl in Hpos. lia.
  - rewrite bool_decide_false, chars_str by (by rewrite Ht).
    repeat split; try done; [rewrite Ht; simpl; lia|lia].
Qed.

Lemma sanitize_name_id name : k8s_name_ok (chars name) → SanitizeK8sName name = name.
Proof.
  intros ([Hpos Hlen] & Hc & Hdd & Hh & Hl). unfold SanitizeK8sName, to_lower, trim_set.
  rewrite lower_bytes_id, str_chars, replace_invalid_id by done.
  rewrite collapse_loop_squeeze, squeeze_id by (done || lia). rewrite !chars_str.
  rewrite drop_while_id, drop_while_end_id by eauto.
  rewrite (bool_decide_false (maxNameLen < _)) by lia. rewrite str_chars.
  rewrite bool_decide_false; [done|]. intros ->. simpl in Hpos. lia.
Qed.

Lemma k8s_name_ok_check name : SanitizeK8sName name = name → k8s_name_ok (chars name).
Proof. intros <-. apply sanitize_name_ok. Qed.

(** ** Lemmas: tokens *)

Lemma take_while_split f l : l = take_while f l ++ drop (length (take_while f l)) l.
Proof.
  induction l as [|c l IH]; [done|]. simpl. destruct (f c); simpl; [|done]. by f_equal.
Qed.

Lemma match_token_raw l tok lim n :
  match_token l = Some (tok, lim, n) →
  l = drop 1 (piece_raw (Tok tok lim)) ++ drop n l.
Proof.
  unfold match_token. pose proof (take_while_split word_char l) as Hl.
  generalize dependent (take_while word_char l). intros t Hl.
  destruct (drop (length t) l) as [|c rest] eqn:Hd; [by destruct t|].
  destruct (decide (c = "}"%char)) as [->|Hne1].
  { intros Hm. assert (tok = t ∧ lim = [] ∧ n = length t + 1) as (-> & -> & ->)
      by (by destruct t; simplify_eq).
    simpl. rewrite drop_0, <-drop_drop, Hd, <-app_assoc. exact Hl. }
  destruct (decide (c = ":"%char)) as [->|Hne2];
    [|by destruct t, c as [[] [] [] [] [] [] [] []]].
  pose proof (take_while_split is_digit rest) as Hr.
  generalize dependent (take_while is_digit rest). intros d Hr.
  destruct t as [|t0 t'] eqn:Ht; [done|]. rewrite <-Ht in *.
  destruct d as [|d0 d'] eqn:Hdd; [done|]. rewrite <-Hdd in *.
  destruct (drop (length d) rest) as [|c2 rest2] eqn:Hd2; [done|].
  destruct (decide (c2 = "}"%char)) as [->|Hne3];
    [|by destruct c2 as [[] [] [] [] [] [] [] []]].
  intros [= <- <- <-].
  assert (Hraw : piece_raw (Tok t d) = "{"%char :: t ++ ":"%char :: d ++ ["}"%char])
    by (by rewrite Hdd).
  rewrite Hraw. simpl. rewrite drop_0.
  replace (length t + length d + 2) with (length t + (1 + (length d + 1))) by lia.
  rewrite <-!drop_drop, Hd. simpl. rewrite drop_0, Hd2.
  rewrite Hl at 1. rewrite Hr at 1. rewrite <-!app_assoc. simpl. by rewrite <-app_assoc.
Qed.

Lemma tokenise_raw_skip skip l : (tokenise skip l ≫= piece_raw) = drop skip l.
Proof.
  revert skip. induction l as [|c l IH]; intros skip; simpl; [by rewrite drop_nil|].
  destruct skip as [|k]; [|apply IH].
  destruct (is_char "{"%char c) eqn:Hc; [|by rewrite bind_cons, IH, drop_0].
  destruct (match_token l) as [[[tok lim] n]|] eqn:Hm;
    [|by rewrite bind_cons, IH, drop_0].
  rewrite bind_cons, IH. apply match_token_raw in Hm. rewrite Hm at 2.
  unfold is_char in Hc. apply bool_decide_eq_true in Hc as ->.
  by destruct lim.
Qed.

Lemma check_tokens_spec valid kind format ps :
  check_tokens valid kind format ps = inr () ↔
  ∀ tok lim, Tok tok lim ∈ ps → str tok ∈ valid.
Proof.
  induction ps as [|p ps IH]; simpl; [set_solver|].
  setoid_rewrite elem_of_cons. destruct p as [c|tok lim].
  - rewrite IH. naive_solver.
  - case_bool_decide as Hv; [rewrite IH; naive_solver|]. split; [done|].
    intros H. exfalso. apply Hv. eapply H. by left.
Qed.

(** ** Lemmas: class names *)

Definition class_raw (sc : StorageClass) (sfx : string) : string :=
  sc_Name sc +:+ "-" +:+ slugify (sc_Provisioner sc) +:+ sfx.

Lemma format_class_raw url_host endpoint sc :
  let vals := mkNaming "" "" "" "" "" "" endpoint (sc_Name sc) (slugify (sc_Provisioner sc)) in
  formatName url_host VSCRReplicationClassFormat vals = class_raw sc "-vscr" ∧
  formatName url_host VVRReplicationClassFormat vals = class_raw sc "-vvr".
Proof.
  split; apply (inj chars); unfold formatName, class_raw; rewrite chars_str, !chars_app;
    set (t := tokenise _ _); vm_compute in t; subst t;
    repeat (rewrite bind_cons; unfold format_piece, token_value; cbn [str];
            repeat (rewrite bool_decide_false by done); rewrite ?bool_decide_true by done);
    simpl; by rewrite ?app_nil_r.
Qed.

(** The two fixed formats, by their suffix. *)
Inductive class_kind := KindVSCR | KindVVR.
Definition class_format (k : class_kind) : string :=
  match k with KindVSCR => VSCRReplicationClassFormat | KindVVR => VVRReplicationClassFormat end.
Definition class_suffix (k : class_kind) : string :=
  match k with KindVSCR => "-vscr" | KindVVR => "-vvr" end.

Lemma FormatReplicationClassName_ok url_host get k sc name :
  FormatReplicationClassName url_host get (class_format k) sc = inr name →
  k8s_name_ok (chars (class_raw sc (class_suffix k))) →
  name = class_raw sc (class_suffix k).
Proof.
  unfold FormatReplicationClassName, endpoint_or_error. intros Hn Hok.
  destruct (endpointFromStorageClass get sc) as [e|endpoint]; simpl in Hn; [done|].
  injection Hn as <-. destruct (format_class_raw url_host endpoint sc) as [H1 H2].
  unfold sanitizeK8sName. destruct k; simpl class_format; rewrite ?H1, ?H2;
    by apply sanitize_name_id.
Qed.

Lemma class_raw_inj sc1 sc2 k1 k2 :
  slugify (sc_Provisioner sc1) = slugify (sc_Provisioner sc2) →
  class_raw sc1 (class_suffix k1) = class_raw sc2 (class_suffix k2) →
  sc_Name sc1 = sc_Name sc2 ∧ k1 = k2.
Proof.
  unfold class_raw. intros -> Heq. apply (f_equal chars) in Heq.
  rewrite !chars_app, !app_assoc in Heq.
  assert (k1 = k2) as ->.
  { apply (f_equal (@rev ascii)) in Heq. rewrite !(rev_app_distr _ (chars (class_suffix _))) in Heq.
    destruct k1, k2; by simplify_eq/=. }
  apply app_inv_tail in Heq. rewrite <-!app_assoc in Heq. apply app_inv_tail in Heq.
  split; [by apply (inj chars)|done].
Qed.

(** ** Lemmas: derived names *)

Lemma replace_char_id old new s : old ∉ chars s → replace_char old new s = s.
Proof.
  intros H. unfold replace_char. rewrite <-(str_chars s) at 2. f_equal.
  induction (chars s) as [|c l IH]; [done|]. simpl. rewrite not_elem_of_cons in H.
  destruct H as [Hc H]. rewrite bool_decide_false by congruence. by rewrite IH.
Qed.

Lemma replace_char_fixed old new s :
  old ≠ new → replace_char old new s = s → old ∉ chars s.
Proof.
  intros Hne Heq. apply (f_equal chars) in Heq. unfold replace_char in Heq.
  rewrite chars_str in Heq. induction (chars s) as [|c l IH]; [set_solver|].
  simpl in Heq. injection Heq as Hc Hl. rewrite not_elem_of_cons. split; [|auto].
  intros ->. rewrite bool_decide_true in Hc by done. done.
Qed.

Lemma replace_char_fresh old new s : old ≠ new → old ∉ chars (replace_char old new s).
Proof.
  intros Hne. unfold replace_char. rewrite chars_str.
  intros (c & Heq & _)%list_elem_of_fmap. case_bool_decide; congruence.
Qed.

Lemma append_inj_l p s1 s2 : p +:+ s1 = p +:+ s2 → s1 = s2.
Proof.
  intros H. apply (f_equal chars) in H. rewrite !chars_app in H.
  apply app_inv_head in H. by apply (inj chars).
Qed.

(** ** Lemmas: touching VRCs *)

(** Every stored VRC carries the key it is stored under. *)
Definition store_keyed (st : VRCStore) : Prop :=
  ∀ key vrc, st !! key = Some vrc →
    key = (Namespace (vrc_Meta vrc), Name (vrc_Meta vrc)).

Definition no_fault : string * string → option error := fun _ => None.

Lemma touch_no_fault ts vscr scs key touched st :
  store_keyed st →
  ∃ st', touchVRCsForStorageClasses no_fault no_fault ts vscr scs key touched st
         = (st', touched ++ map (fun sc => Name (vscr_Meta vscr) +:+ "-" +:+ sc)
              (filter (fun sc => is_Some (st !! (VSCR_PVCNamespace vscr,
                                    Name (vscr_Meta vscr) +:+ "-" +:+ sc))) scs), None) ∧
       store_keyed st' ∧ dom st' = dom st.
Proof.
  revert touched st. induction scs as [|sc scs IH]; intros touched st Hst.
  { exists st. simpl. by rewrite app_nil_r. }
  simpl. unfold GetVastReplicationContent. simpl.
  destruct (st !! _) as [vrc|] eqn:Hlk.
  - unfold SetAnnotationAndUpdate. simpl.
    set (vrc' := mkVRC _ _ _). set (k := (_, _)). pose proof (Hst _ _ Hlk) as Hk.
    assert (Hst' : store_keyed (<[k := vrc']> st)).
    { intros k0 v0. rewrite lookup_insert_Some. intros [[<- <-]|[_ ?]]; [done|by apply Hst]. }
    assert (Hdom : dom (<[k := vrc']> st) = dom st).
    { apply dom_insert_lookup_L. exists vrc. unfold k. by rewrite <-Hk. }
    destruct (IH (touched ++ [Name (vscr_Meta vscr) +:+ "-" +:+ sc]) _ Hst')
      as (st' & -> & ? & Hd).
    exists st'. split; [|split; [done|congruence]].
    rewrite (filter_cons_True _ sc) by (rewrite Hlk; eauto). simpl. rewrite <-app_assoc.
    do 5 f_equal. apply list_filter_iff. intros sc'.
    rewrite <-!elem_of_dom. by rewrite Hdom.
  - destruct (IH touched st Hst) as (st' & -> & ? & ?). exists st'. split; [|done].
    rewrite (filter_cons_False _ sc); [done|]. rewrite Hlk. by intros [? ?].
Qed.

(** ** Properties *)

(** C35. Whatever the input, [SanitizeK8sName] returns a non-empty name of at
    most 253 bytes over [a-z0-9-.] without "--", beginning and ending with a
    letter or digit; and it is idempotent. *)
Theorem SanitizeK8sName_wellformed (name : string) :
  k8s_name_ok (chars (SanitizeK8sName name)) ∧
  SanitizeK8sName (SanitizeK8sName name) = SanitizeK8sName name.
Proof. split; [|apply sanitize_name_id]; apply sanitize_name_ok. Qed.

(** The dash-collapsing loop of [SanitizeK8sName] terminates: as many
    rounds as the name has bytes suffice, and the result is the one-pass
    reference that keeps one dash of every run. *)
Theorem collapse_loop_terminates (l : list ascii) (fuel : nat) :
  length l ≤ fuel →
  collapse_loop fuel l = squeeze l ∧ is_infix two_dashes (collapse_loop fuel l) = false.
Proof.
  intros Hf. rewrite collapse_loop_squeeze by done. split; [done|apply squeeze_no_dd].
Qed.

Lemma collapse_loop_terminates_witness :
  collapse_loop 6 (chars "a----b") = chars "a-b".
Proof.
  destruct (collapse_loop_terminates (chars "a----b") 6) as [-> _].
  - vm_compute. lia.
  - reflexivity.
Defined.

(** The text [tokenPattern] splits a format into is the format itself, and
    a format accepted by [ValidateNameFormat] only has tokens [formatName]
    knows, so none is left uninterpreted in the generated name. *)
Theorem name_format_tokens (url_host : string → option string) (vals : namingValues)
    (format kind : string) :
  (tokenise 0 (chars format) ≫= piece_raw) = chars format ∧
  (ValidateNameFormat format kind = inr () →
   ∀ tok lim, Tok tok lim ∈ tokenise 0 (chars format) →
     is_Some (token_value url_host vals (str tok) (atoi_limit lim))).
Proof.
  split; [by rewrite tokenise_raw_skip, drop_0|].
  unfold ValidateNameFormat. destruct (validTokensFor kind) as [valid|] eqn:Hv; [|done].
  rewrite check_tokens_spec. intros Hok tok lim Hin. specialize (Hok tok lim Hin).
  assert (str tok ∈ validPVCTokens ++ validPVTokens) as Hkn.
  { unfold validTokensFor in Hv. repeat case_bool_decide; simplify_eq; set_solver. }
  unfold token_value. revert Hkn. generalize (str tok) as s. intros s Hkn.
  repeat (case_bool_decide; [by eexists|]).
  unfold validPVCTokens, validPVTokens in Hkn. simpl in Hkn. set_solver.
Qed.

Lemma name_format_tokens_witness :
  ∃ s, token_value (fun _ => None) (mkNaming "data" "pv" "vr" "vgr" "ns" "ns" "" "gold" "csi")
         "pvc_name" 0 = Some s.
Proof.
  destruct (name_format_tokens (fun _ => None)
              (mkNaming "data" "pv" "vr" "vgr" "ns" "ns" "" "gold" "csi")
              DefaultPVCNameFormat "pvc") as [_ H].
  apply (H ltac:(vm_compute; reflexivity) (chars "pvc_name") []).
  vm_compute. apply list_elem_of_here.
Defined.

(** Replication class names separate StorageClasses and the two resource
    kinds: for classes of one provisioner whose raw names need no
    sanitisation, equal generated names mean the same StorageClass and the
    same kind. *)
Theorem class_names_distinct (url_host : string → option string)
    (get : string → string → string → result string)
    (k1 k2 : class_kind) (sc1 sc2 : StorageClass) (name : string) :
  FormatReplicationClassName url_host get (class_format k1) sc1 = inr name →
  FormatReplicationClassName url_host get (class_format k2) sc2 = inr name →
  slugify (sc_Provisioner sc1) = slugify (sc_Provisioner sc2) →
  k8s_name_ok (chars (class_raw sc1 (class_suffix k1))) →
  k8s_name_ok (chars (class_raw sc2 (class_suffix k2))) →
  sc_Name sc1 = sc_Name sc2 ∧ k1 = k2.
Proof.
  intros H1 H2 Hp Hok1 Hok2.
  apply FormatReplicationClassName_ok in H1; [|done].
  apply FormatReplicationClassName_ok in H2; [|done].
  apply class_raw_inj; [done|]. by rewrite <-H1, <-H2.
Qed.

Lemma class_names_distinct_witness :
  let sc := mkSC "fast" "csi.vastdata.com"
              (<[ "csi.storage.k8s.io/provisioner-secret-name" := "s" ]>
               {["csi.storage.k8s.io/provisioner-secret-namespace" := "ns"]}) [] in
  "fast" = "fast" ∧ KindVSCR = KindVSCR.
Proof.
  intros sc.
  apply (class_names_distinct (fun _ => None) (fun _ _ _ => inr "10.0.0.1")
           KindVSCR KindVSCR sc sc "fast-csi-vastdata-com-vscr").
  - vm_compute. reflexivity.
  - vm_compute. reflexivity.
  - reflexivity.
  - apply k8s_name_ok_check. vm_compute. reflexivity.
  - apply k8s_name_ok_check. vm_compute. reflexivity.
Defined.

(** [SanitizeLabelValue] returns at most 63 bytes over [-_.a-zA-Z0-9] that
    begin with a letter or digit, and end with one whenever nothing had to be
    cut off. *)
Theorem SanitizeLabelValue_shape (value : string) :
  let l := chars (SanitizeLabelValue value) in
  length l ≤ maxLabelLen ∧ Forall (fun c => label_char c = true) l ∧
  (∀ c k, l = c :: k → is_label_sep c = false) ∧
  (length l < maxLabelLen → ∀ c k, l = k ++ [c] → is_label_sep c = false).
Proof.
  unfold SanitizeLabelValue. case_bool_decide as Hv; simpl.
  { repeat split; [unfold maxLabelLen; simpl; lia|constructor|done|by intros ? ? []]. }
  unfold trim_set. rewrite !chars_str. set (l0 := replace_invalid _ _ _ _).
  assert (Hok : ∀ c, c ∈ l0 → label_char c = true).
  { intros c Hc. by eapply (replace_invalid_ok label_char); [|exact Hc]. }
  clearbody l0. set (t := drop_while_end is_label_sep (drop_while is_label_sep l0)).
  assert (Ht : ∀ c, c ∈ t → label_char c = true).
  { intros c Hc. by eapply Hok, elem_of_drop_while, elem_of_drop_while_end. }
  assert (Hh : ∀ c k, t = c :: k → is_label_sep c = false).
  { intros c k Hk. destruct (drop_while_end_head _ _ _ _ Hk) as [k' Hk'].
    by eapply drop_while_head. }
  assert (Hl : ∀ c k, t = k ++ [c] → is_label_sep c = false).
  { intros c k Hk. by eapply drop_while_end_last. }
  clearbody t. unfold strlen. rewrite chars_str.
  case_bool_decide as Hlen; rewrite chars_str.
  - repeat split.
    + rewrite length_take. lia.
    + apply Forall_forall. intros c Hc. apply Ht.
      rewrite <-(take_drop maxLabelLen t), elem_of_app. by left.
    + intros c k Hk. destruct t as [|c0 k0]; [done|]. simpl in Hk.
      injection Hk as <- _. by eapply Hh.
    + rewrite length_take. lia.
  - repeat split; [lia|by apply Forall_forall|done|by intros _].
Qed.

(** Cutting a label at 63 bytes happens after trimming, so the result can
    end in a separator, which the label syntax the function documents (and
    Kubernetes enforces) forbids. *)
Theorem SanitizeLabelValue_can_end_in_separator :
  ∃ value k, chars (SanitizeLabelValue value) = k ++ ["-"%char] ∧
             length (chars (SanitizeLabelValue value)) = maxLabelLen.
Proof.
  exists (str (replicate 62 "a"%char ++ chars "-b")), (replicate 62 "a"%char).
  split; vm_compute; reflexivity.
Qed.

(** The VGR/VR names of one parent identify the StorageClass as long as no
    class name contains a dot, and the name under which a VRC is touched is
    the name it was created under exactly for those classes. *)
Theorem derived_names_identify_class (parent sc1 sc2 : string) :
  ("."%char ∉ chars sc1 → "."%char ∉ chars sc2 →
     vgrNameForSC parent sc1 = vgrNameForSC parent sc2 → sc1 = sc2) ∧
  (parent +:+ "-" +:+ sc1 = vgrNameForSC parent sc1 ↔ "."%char ∉ chars sc1) ∧
  vgrNameForSC parent "a.b" = vgrNameForSC parent "a-b".
Proof.
  unfold vgrNameForSC. repeat split.
  - intros H1 H2 Heq. apply append_inj_l, append_inj_l in Heq.
    by rewrite !replace_char_id in Heq.
  - intros Heq%append_inj_l%append_inj_l. by eapply (replace_char_fixed "."%char "-"%char).
  - intros H1. by rewrite replace_char_id.
Qed.

Lemma derived_names_identify_class_witness :
  vgrNameForSC "p" "fast" = "p-fast" ∧ "fast" = "fast".
Proof.
  split; [reflexivity|].
  destruct (derived_names_identify_class "p" "fast" "fast") as [H _].
  apply H; [set_solver..|reflexivity].
Defined.

(** A resync touches the VRCs of dot-free classes only: when the VRCs of
    the constellation exist under the names the VSCR controller gives them and
    no API call fails, [TouchConstellationVRCs] reports success and the classes
    whose name contains a dot are skipped as if not provisioned yet. *)
Theorem touch_skips_dotted_classes (ts : string) (vscr : VSCR) (st : VRCStore) :
  store_keyed st →
  (∀ name, is_Some (st !! (VSCR_PVCNamespace vscr, name)) ↔
     ∃ sc, sc ∈ VSCR_AllStorageClasses (vscr_Spec vscr) ∧
           name = vgrNameForSC (Name (vscr_Meta vscr)) sc) →
  ∃ st', TouchConstellationVRCs no_fault no_fault ts vscr st
         = (st', map (vgrNameForSC (Name (vscr_Meta vscr)))
              (filter (fun sc => "."%char ∉ chars sc)
                 (VSCR_AllStorageClasses (vscr_Spec vscr))), None).
Proof.
  intros Hst Hnames. unfold TouchConstellationVRCs.
  set (scs := VSCR_AllStorageClasses (vscr_Spec vscr)) in *.
  set (parent := Name (vscr_Meta vscr)) in *.
  destruct (touch_no_fault ts vscr scs AnnotationResyncRequestedAt [] st Hst)
    as (st' & -> & _). exists st'. simpl. do 2 f_equal.
  assert (Hdot : ∀ sc, sc ∈ scs →
    (is_Some (st !! (VSCR_PVCNamespace vscr, parent +:+ "-" +:+ sc)) ↔ "."%char ∉ chars sc)).
  { intros sc Hsc. rewrite Hnames. split.
    - intros (sc' & _ & Heq). unfold vgrNameForSC in Heq.
      apply append_inj_l, append_inj_l in Heq as ->. apply replace_char_fresh; done.
    - intros Hd. exists sc. split; [done|]. unfold vgrNameForSC. by rewrite replace_char_id. }
  fold parent. clear Hnames. induction scs as [|sc scs IH]; [done|].
  assert (IH' := IH (fun x Hx => Hdot x ltac:(set_solver))).
  destruct (decide ("."%char ∈ chars sc)) as [Hd|Hd].
  - rewrite !filter_cons_False; [done|naive_solver|].
    intros Hs. apply Hdot in Hs; [done|set_solver].
  - rewrite !filter_cons_True; [|done|by apply Hdot; [set_solver|]].
    simpl. rewrite IH'. f_equal. unfold vgrNameForSC. by rewrite replace_char_id.
Qed.

Definition demo_touch_vscr : VSCR :=
  mkVSCR (plain_meta "ops" "p")
    (mkVSCRSpec "c" [mkTarget "a.b" "c" "" ""] (mkTemplate [demo_frame])
       FailoverTypeUngraceful false 0 false true DestVolReclaimPolicyRetain "")
    (mkStatus FailoverTypeUnset "" "" ∅ ∅ "" "").
Definition demo_vrc (name : string) : VRC :=
  mkVRC (plain_meta "ops" name)
    (mkVRCSpec "" ProvisionerTypeFile "" true "" [] "" [] "") (mkVRCStatus false 0 "" []).
Definition demo_touch_store : VRCStore :=
  <[("ops", "p-a-b") := demo_vrc "p-a-b"]> {[("ops", "p-c") := demo_vrc "p-c"]}.

Lemma touch_skips_dotted_classes_witness :
  (TouchConstellationVRCs no_fault no_fault "now" demo_touch_vscr demo_touch_store).1.2 = ["p-c"].
Proof.
  destruct (touch_skips_dotted_classes "now" demo_touch_vscr demo_touch_store) as [st' ->].
  - intros key vrc. unfold demo_touch_store.
    rewrite lookup_insert_Some, lookup_singleton_Some.
    intros [[<- <-]|[_ [<- <-]]]; reflexivity.
  - intros name. change (VSCR_PVCNamespace demo_touch_vscr) with "ops".
    unfold VSCR_AllStorageClasses. setoid_rewrite elem_of_AllStorageClasses.
    unfold demo_touch_store, is_Some.
    setoid_rewrite lookup_insert_Some. setoid_rewrite lookup_singleton_Some. split.
    + intros [v [[[= <-] _]|[_ [[= <-] _]]]].
      * exists "a.b". split; [|reflexivity]. exists (mkTarget "a.b" "c" "" ""). simpl. set_solver.
      * exists "c". split; [|reflexivity]. exists (mkTarget "a.b" "c" "" ""). simpl. set_solver.
    + intros (sc & (t & Ht & Hsc) & ->). simpl in Ht. apply list_elem_of_singleton in Ht as ->.
      simpl in Hsc. destruct Hsc as [->| ->].
      * exists (demo_vrc "p-a-b"). left. split; reflexivity.
      * exists (demo_vrc "p-c"). right. split; [discriminate|split; reflexivity].
  - vm_compute. reflexivity.
Defined.
