(* ===== verification/Peers.v ===== *)
(** * Replication peers, edges and policy names

    [internal/common/vmsrest/peer_resolution.go]: the discovery or verification
    of the VAST ReplicationPeer shared by the two clusters of every topology
    entry.  The pure part of [discover_policies.go]: directed edges, template
    parameters, policy names per StorageClass, and the tenant lookup.

    The REST listing of peers is an argument of the section.  The iteration
    order of Go's maps is an explicit list of keys wherever a call is made per
    key, so the theorems hold for every order. *)

From S2P Require Import Prelude GoErrors Topology Kube.
From stdpp Require Import options.

(** ** Queries on the topology *)

Definition involves (scName : string) (t : ReplicationTarget) : bool :=
  bool_decide (Source t = scName) || bool_decide (Destination t = scName).

Fixpoint storageClassNeedsPeerDiscovery (scName : string) (topology : list ReplicationTarget) : bool :=
  match topology with
  | [] => false
  | t :: topology' =>
      if bool_decide (PeerName t ≠ "") then storageClassNeedsPeerDiscovery scName topology'
      else if involves scName t then true
      else storageClassNeedsPeerDiscovery scName topology'
  end.

Definition explicitPeerNamesForSC (scName : string) (topology : list ReplicationTarget)
    : list string :=
  sort_strings (elements (list_to_set (C := gset string) (map PeerName (filter (fun t =>
    PeerName t ≠ "" ∧ ¬ (Source t ≠ scName ∧ Destination t ≠ scName)) topology)))).

(** [seen[sc][peer]] of [topologyPeerNamesBySC]. *)
Definition add_peer (sc peer : string) (m : gmap string (gset string)) : gmap string (gset string) :=
  <[sc := {[peer]} ∪ default ∅ (m !! sc)]> m.

Definition topologyPeerNamesBySC (topology : list ReplicationTarget) : gmap string (list string) :=
  (fun names => sort_strings (elements names)) <$>
  fold_left (fun seen t =>
      if bool_decide (PeerName t = "") then seen
      else add_peer (Destination t) (PeerName t) (add_peer (Source t) (PeerName t) seen))
    topology ∅.

(** ** Resolution of one entry *)

Notation PeerNamesBySC := (gmap string (gset string)).

Definition set_peer (t : ReplicationTarget) (p : string) : ReplicationTarget :=
  mkTarget (Source t) (Destination t) p (TargetExportedDir t).

Definition shared_peers (src dst : gset string) : list string :=
  sort_strings (filter (fun name => name ∈ dst) (elements src)).

Definition ResolvePeerName (t : ReplicationTarget) (peersBySC : PeerNamesBySC)
    : result ReplicationTarget :=
  match peersBySC !! Source t with
  | None => Errorf ("no peer data for StorageClass " +:+ quote (Source t) +:+ " (source)")
  | Some srcNames =>
      match peersBySC !! Destination t with
      | None => Errorf ("no peer data for StorageClass " +:+ quote (Destination t) +:+ " (destination)")
      | Some dstNames =>
          let shared := shared_peers srcNames dstNames in
          if bool_decide (PeerName t ≠ "") then
            if existsb (fun name => bool_decide (name = PeerName t)) shared then mret t
            else Errorf ("peerName " +:+ quote (PeerName t) +:+ " does not exist on both " +:+
                         quote (Source t) +:+ " and " +:+ quote (Destination t) +:+
                         " (shared peers: [" +:+ join ", " shared +:+ "])")
          else
            match shared with
            | [] => Errorf ("no shared ReplicationPeer between " +:+ quote (Source t) +:+
                            " and " +:+ quote (Destination t))
            | [p] => mret (set_peer t p)
            | _ => Errorf ("multiple shared ReplicationPeers between " +:+ quote (Source t) +:+
                           " and " +:+ quote (Destination t) +:+ " (" +:+ join ", " shared +:+
                           "); set peerName explicitly to disambiguate")
            end
      end
  end.

(** The loop of [ResolveAndFetchTopologyPeers]: the entries are updated in
    place up to the first failure. *)
Fixpoint resolve_entries (i : nat) (peersBySC : PeerNamesBySC) (topology : list ReplicationTarget)
    : list ReplicationTarget * option error :=
  match topology with
  | [] => ([], None)
  | t :: rest =>
      match ResolvePeerName t peersBySC with
      | inl e => (t :: rest,
                  Some (NewValidationError ("protectionTopology[" +:+ show_nat i +:+ "]: " +:+
                                            error_msg e)))
      | inr t' =>
          let '(rest', err) := resolve_entries (S i) peersBySC rest in (t' :: rest', err)
      end
  end.

Section PeerListing.

(** [rest.ReplicationPeers.List] on the cluster of a StorageClass, with the
    optional [name__in] filter: the names returned. *)
Variable ListPeers : string → option (list string) → result (list string).

(** The query [BuildPeerNamesBySC] sends for one StorageClass. *)
Definition peer_query (scName : string) (topology : list ReplicationTarget) : option (list string) :=
  if negb (storageClassNeedsPeerDiscovery scName topology) then
    let peerNames := explicitPeerNamesForSC scName topology in
    if bool_decide (0 < length peerNames) then Some peerNames else None
  else None.

Fixpoint BuildPeerNamesBySC (scNames : list string) (topology : list ReplicationTarget)
    (acc : PeerNamesBySC) : result PeerNamesBySC :=
  match scNames with
  | [] => mret acc
  | scName :: scNames' =>
      match ListPeers scName (peer_query scName topology) with
      | inl e => inl (ErrWrap ("list ReplicationPeers on " +:+ quote scName +:+ ": ") e "")
      | inr peers => BuildPeerNamesBySC scNames' topology (<[scName := list_to_set peers]> acc)
      end
  end.

Fixpoint FetchTopologyPeers_loop (clients : gset string) (wanted : list (string * list string))
    : result unit :=
  match wanted with
  | [] => mret ()
  | (scName, peerNames) :: wanted' =>
      if bool_decide (scName ∈ clients) then
        match ListPeers scName (Some peerNames) with
        | inl e => inl (ErrWrap ("fetch topology ReplicationPeers on " +:+ quote scName +:+ ": ") e "")
        | inr _ => FetchTopologyPeers_loop clients wanted'
        end
      else Errorf ("no REST client for StorageClass " +:+ quote scName)
  end.

Definition FetchTopologyPeers (clients : gset string) (topology : list ReplicationTarget)
    : result unit :=
  FetchTopologyPeers_loop clients (map_to_list (topologyPeerNamesBySC topology)).

(** [scNames] enumerates the keys of [restByStorageClass]. *)
Definition ResolveAndFetchTopologyPeers (scNames : list string) (topology : list ReplicationTarget)
    : list ReplicationTarget * option error :=
  match BuildPeerNamesBySC scNames topology ∅ with
  | inl e => (topology, Some e)
  | inr peersBySC =>
      match resolve_entries 0 peersBySC topology with
      | (topology', Some e) => (topology', Some e)
      | (topology', None) =>
          (topology', err_of (FetchTopologyPeers (list_to_set scNames) topology'))
      end
  end.

End PeerListing.

(** ** Directed edges and policies *)

Record ReplicationEdge := mkEdge { SideA : string; SideB : string; edge_PeerName : string }.

Record ReplicationLinkEdge := mkLinkEdge {
  link_edge : ReplicationEdge;
  LocalTenant : TenantInfo;
  RemoteTenant : TenantInfo;
}.

Record ReplicationLink := mkLink {
  PolicyName : string;
  PolicyId : Z;
  LocalPeerTargetName : string;
  RemotePeerTargetName : string;
  LocalPeerName : string;
  RemotePeerName : string;
  Edge : ReplicationLinkEdge;
}.

Definition directed (primarySC : string) (t : ReplicationTarget) : ReplicationEdge :=
  if bool_decide (Destination t = primarySC)
  then mkEdge (Destination t) (Source t) (PeerName t)
  else mkEdge (Source t) (Destination t) (PeerName t).

Definition NewReplicationEdgesList (topology : list ReplicationTarget) (primarySC : string)
    : list ReplicationEdge := map (directed primarySC) topology.

Record PolicyTemplateParams := mkPolicyParams {
  OwnerName : string;
  Frames : list (gmap string string);
}.

Definition set_if (key value : string) (m : gmap string string) : gmap string string :=
  if bool_decide (value ≠ "") then <[key := value]> m else m.

Definition frame_params (f : ProtectionPolicyFrame) : gmap string string :=
  set_if "start-at" (StartAt f)
    (set_if "keep-remote" (KeepRemote f)
       (set_if "keep-local" (KeepLocal f) {["every" := Every f]})).

Definition SpecTemplateToParams (ownerName : string) (tpl : ProtectionPolicyTemplate)
    : PolicyTemplateParams := mkPolicyParams ownerName (map frame_params (Params tpl)).

Definition append_name (sc name : string) (m : gmap string (list string)) : gmap string (list string) :=
  <[sc := default [] (m !! sc) ++ [name]]> m.

Definition ProtectionPolicyNamesByStorageClass (ownerName primarySC : string)
    (topology : list ReplicationTarget) : gmap string (list string) :=
  fold_left (fun acc t =>
      if bool_decide (PeerName t = "") then acc
      else
        let policyName := ownerName +:+ "-" +:+ PeerName t in
        let e := directed primarySC t in
        append_name (SideB e) policyName (append_name (SideA e) policyName acc))
    topology ∅.

Definition TenantFromMapping (m : gmap string TenantInfo) (scName : string) : result TenantInfo :=
  match m !! scName with
  | None => Errorf ("StorageClass " +:+ quote scName +:+ " missing from tenant mapping")
  | Some t =>
      if bool_decide (tenant_Guid t = "") then
        Errorf ("StorageClass " +:+ quote scName +:+ " tenant mapping has empty guid")
      else if bool_decide (tenant_Id t = 0)%Z then
        Errorf ("StorageClass " +:+ quote scName +:+ " tenant mapping has empty id")
      else mret t
  end.

Record PeerModel := mkPeer { peer_Id : Z; peer_Name : string; peer_PeerName : string; peer_Status : string }.

Definition newReplicationLink (policyName : string) (policyId : Z) (peerA peerB : PeerModel)
    (edge : ReplicationEdge) (localTenant remoteTenant : TenantInfo) : ReplicationLink :=
  mkLink policyName policyId (peer_Name peerA) (peer_Name peerB) (peer_PeerName peerA)
    (peer_PeerName peerB) (mkLinkEdge edge localTenant remoteTenant).

(** ** Tenant resolution *)

Section Tenants.

Variable TenantByName : string → result TenantInfo.
Variable TenantById : Z → result TenantInfo.
(** [TenantId] of a view (by name) and of a view policy (by name). *)
Variable ViewTenantId : string → result Z.
Variable ViewPolicyTenantId : string → result Z.

Definition resolveTenantById (id : Z) : result TenantInfo :=
  wrap_err ("failed to get tenant id=" +:+ show_Z id +:+ ": ") (TenantById id).

Definition missing_parameter {A} (sc : StorageClass) (param : string) : result A :=
  Errorf ("StorageClass " +:+ sc_Name sc +:+ " is missing required parameter " +:+ quote param).

Definition resolveBlockTenant (sc : StorageClass) : result TenantInfo :=
  let subsystem := map_get (sc_Parameters sc) StorageClassParameterSubsystem in
  if bool_decide (subsystem = "") then missing_parameter sc StorageClassParameterSubsystem
  else
    let tenantName := map_get (sc_Parameters sc) "tenant_name" in
    if bool_decide (tenantName ≠ "") then
      wrap_err ("failed to get tenant " +:+ quote tenantName +:+ ": ") (TenantByName tenantName)
    else
      tid ← wrap_err ("failed to get view (subsystem) " +:+ quote subsystem +:+ ": ")
              (ViewTenantId subsystem);
      resolveTenantById tid.

Definition resolveFileTenant (sc : StorageClass) : result TenantInfo :=
  let viewPolicy := map_get (sc_Parameters sc) "view_policy" in
  if bool_decide (viewPolicy = "") then missing_parameter sc "view_policy"
  else tid ← ViewPolicyTenantId viewPolicy; resolveTenantById tid.

Definition ResolveTenant (sc : StorageClass) : result TenantInfo :=
  if IsBlockStorageClass sc then resolveBlockTenant sc else resolveFileTenant sc.

End Tenants.

(** ** Lemmas *)

Lemma elem_of_shared_peers src dst p : p ∈ shared_peers src dst ↔ p ∈ src ∧ p ∈ dst.
Proof.
  unfold shared_peers. rewrite elem_of_sort_strings, list_elem_of_filter, elem_of_elements. naive_solver.
Qed.

Lemma shared_peers_singleton src dst p : shared_peers src dst = [p] ↔ src ∩ dst = {[p]}.
Proof.
  split.
  - intros H. apply set_eq. intros x. rewrite elem_of_intersection, <-elem_of_shared_peers, H.
    set_solver.
  - intros H. assert (Hp : shared_peers src dst ≡ₚ [p]).
    { apply NoDup_Permutation; [|apply NoDup_singleton|].
      - apply NoDup_sort_strings, NoDup_filter, NoDup_elements.
      - intros x. rewrite elem_of_shared_peers, <-elem_of_intersection, H. set_solver. }
    by apply Permutation_singleton_r in Hp.
Qed.

Definition resolved (src dst : gset string) (t t' : ReplicationTarget) : Prop :=
  (PeerName t ≠ "" ∧ PeerName t ∈ src ∩ dst ∧ t' = t) ∨
  (PeerName t = "" ∧ ∃ p, src ∩ dst = {[p]} ∧ t' = set_peer t p).

Lemma ResolvePeerName_inr t idx t' :
  ResolvePeerName t idx = inr t' ↔
  ∃ src dst, idx !! Source t = Some src ∧ idx !! Destination t = Some dst ∧
             resolved src dst t t'.
Proof.
  unfold ResolvePeerName, resolved.
  destruct (idx !! Source t) as [src|]; [|naive_solver].
  destruct (idx !! Destination t) as [dst|]; [|naive_solver].
  setoid_rewrite <-shared_peers_singleton. setoid_rewrite elem_of_intersection.
  setoid_rewrite <-elem_of_shared_peers. case_bool_decide as Hp.
  - destruct (existsb _ _) eqn:He.
    + apply existsb_exists in He as (x & Hx & Hxe%bool_decide_eq_true). subst x.
      apply list_elem_of_In in Hx. split; [intros [= <-]|]; naive_solver.
    + split; [done|]. intros (? & ? & [= <-] & [= <-] & [(_ & Hin & _)|[? _]]); [|done].
      assert (existsb (fun name => bool_decide (name = PeerName t)) (shared_peers src dst) = true);
        [|congruence].
      apply existsb_exists. exists (PeerName t). split; [by apply list_elem_of_In|].
      by apply bool_decide_true.
  - destruct (shared_peers src dst) as [|p [|q l]] eqn:Hs.
    + split; [done|]. intros (? & ? & [= <-] & [= <-] & [(? & _)|(_ & p & Hq & _)]); congruence.
    + split.
      * intros [= <-]. exists src, dst. repeat split; [done..|]. right. eauto.
      * intros (? & ? & [= <-] & [= <-] & [(? & _)|(_ & p' & Hq & ->)]); [done|].
        rewrite Hs in Hq. by injection Hq as ->.
    + split; [done|]. intros (? & ? & [= <-] & [= <-] & [(? & _)|(_ & p' & Hq & _)]); congruence.
Qed.

Lemma resolve_entries_none i idx topo topo' :
  resolve_entries i idx topo = (topo', None) ↔
  Forall2 (fun t t' => ResolvePeerName t idx = inr t') topo topo'.
Proof.
  revert i topo'. induction topo as [|t topo IH]; intros i topo'; simpl.
  - split; [intros [= <-]; constructor|by intros ->%Forall2_nil_inv_l].
  - destruct (ResolvePeerName t idx) as [e|t'] eqn:Ht.
    + split; [done|]. intros (? & ? & ? & _)%Forall2_cons_inv_l. congruence.
    + destruct (resolve_entries (S i) idx topo) as [rest' err] eqn:Hr. split.
      * intros [= <- ->]. constructor; [done|]. by apply (IH (S i)).
      * intros (y & l & Hy & Hl & ->)%Forall2_cons_inv_l. rewrite Ht in Hy.
        apply (IH (S i)) in Hl. rewrite Hr in Hl. by simplify_eq.
Qed.

Lemma needs_discovery_spec sc topo :
  storageClassNeedsPeerDiscovery sc topo = true ↔
  ∃ t, t ∈ topo ∧ PeerName t = "" ∧ involves sc t = true.
Proof.
  induction topo as [|t topo IH]; simpl; [set_solver|].
  setoid_rewrite elem_of_cons. case_bool_decide as Hp.
  - rewrite IH. naive_solver.
  - destruct (involves sc t) eqn:Hi; [naive_solver|]. rewrite IH.
    split; [naive_solver|]. intros (t' & [->|?] & ? & ?); [congruence|eauto].
Qed.

Lemma involves_ends t sc : sc = Source t ∨ sc = Destination t → involves sc t = true.
Proof.
  unfold involves. rewrite orb_true_iff, !bool_decide_eq_true. naive_solver.
Qed.

Lemma explicit_peer_listed sc topo t :
  t ∈ topo → PeerName t ≠ "" → involves sc t = true →
  PeerName t ∈ explicitPeerNamesForSC sc topo.
Proof.
  intros Ht Hp Hi. unfold explicitPeerNamesForSC.
  rewrite elem_of_sort_strings, elem_of_elements, elem_of_list_to_set.
  apply list_elem_of_fmap. exists t. split; [done|]. apply list_elem_of_filter.
  split; [|done]. split; [done|]. intros [H1 H2]. unfold involves in Hi.
  rewrite !bool_decide_false in Hi by done. done.
Qed.

Section ExactListing.

(** A listing that never fails, with the documented meaning of [name__in]. *)
Variable all : string → list string.
Variable ListPeers : string → option (list string) → result (list string).
Hypothesis list_all : ∀ sc, ListPeers sc None = inr (all sc).
Hypothesis list_in : ∀ sc names,
  ListPeers sc (Some names) = inr (filter (fun p => p ∈ names) (all sc)).

Definition full_index (sc : string) : gset string := list_to_set (all sc).

(** The peers the narrowed query reveals. *)
Definition narrowed (sc : string) (topo : list ReplicationTarget) : gset string :=
  match peer_query sc topo with
  | None => full_index sc
  | Some names => list_to_set (filter (fun p => p ∈ names) (all sc))
  end.

Lemma BuildPeerNames_lookup scs topo acc :
  ∃ idx, BuildPeerNamesBySC ListPeers scs topo acc = inr idx ∧
    ∀ sc, idx !! sc = if decide (sc ∈ scs) then Some (narrowed sc topo) else acc !! sc.
Proof using list_all list_in.
  revert acc. induction scs as [|sc0 scs IH]; intros acc; simpl; [by exists acc|].
  assert (∃ peers, ListPeers sc0 (peer_query sc0 topo) = inr peers ∧
            list_to_set peers = narrowed sc0 topo) as (peers & -> & Hn).
  { unfold narrowed, full_index. destruct (peer_query sc0 topo);
      rewrite ?list_in, ?list_all; eauto. }
  destruct (IH (<[sc0 := list_to_set peers]> acc)) as (idx & -> & Hidx).
  exists idx. split; [done|]. intros sc. rewrite Hidx.
  destruct (decide (sc ∈ scs)), (decide (sc ∈ sc0 :: scs)); try done; [set_solver| |].
  - assert (sc = sc0) as -> by set_solver. by rewrite lookup_insert_eq, Hn.
  - rewrite lookup_insert_ne by set_solver. done.
Qed.

(** Narrowing the query never hides or adds the peer an entry needs. *)
Lemma narrowed_resolved topo t t' :
  t ∈ topo →
  resolved (narrowed (Source t) topo) (narrowed (Destination t) topo) t t' ↔
  resolved (full_index (Source t)) (full_index (Destination t)) t t'.
Proof.
  intros Ht.
  assert (Hauto : PeerName t = "" → ∀ sc, sc = Source t ∨ sc = Destination t →
            narrowed sc topo = full_index sc).
  { intros Hp sc Hsc. unfold narrowed, peer_query.
    rewrite (proj2 (needs_discovery_spec sc topo)); [done|].
    exists t. auto using involves_ends. }
  assert (Hexp : PeerName t ≠ "" → ∀ sc, sc = Source t ∨ sc = Destination t →
            PeerName t ∈ narrowed sc topo ↔ PeerName t ∈ full_index sc).
  { intros Hp sc Hsc. unfold narrowed, peer_query.
    destruct (storageClassNeedsPeerDiscovery sc topo); simpl; [done|].
    case_bool_decide; [|done]. unfold full_index.
    rewrite !elem_of_list_to_set, list_elem_of_filter. split; [naive_solver|].
    intros. split; [|done]. apply explicit_peer_listed; auto using involves_ends. }
  unfold resolved. destruct (decide (PeerName t = "")) as [Hp|Hp].
  - rewrite !(Hauto Hp) by auto. done.
  - rewrite !elem_of_intersection, !(Hexp Hp) by auto. naive_solver.
Qed.

Lemma topology_peers_dom topo (seen : gmap string (gset string)) sc :
  is_Some (fold_left (fun seen t =>
      if bool_decide (PeerName t = "") then seen
      else add_peer (Destination t) (PeerName t) (add_peer (Source t) (PeerName t) seen))
    topo seen !! sc) →
  is_Some (seen !! sc) ∨ ∃ t, t ∈ topo ∧ (sc = Source t ∨ sc = Destination t).
Proof.
  revert seen. induction topo as [|t topo IH]; intros seen; simpl; [by left|].
  intros Hs%IH. setoid_rewrite elem_of_cons. destruct Hs as [Hs|?]; [|naive_solver].
  revert Hs. case_bool_decide; [auto|]. unfold add_peer.
  rewrite !lookup_insert_is_Some. naive_solver.
Qed.

Lemma FetchTopologyPeers_ok clients topo :
  (∀ t, t ∈ topo → Source t ∈ clients ∧ Destination t ∈ clients) →
  FetchTopologyPeers ListPeers clients topo = inr ().
Proof using list_all list_in.
  intros Hcl. unfold FetchTopologyPeers.
  assert (Hdom : ∀ sc names, (sc, names) ∈ map_to_list (topologyPeerNamesBySC topo) → sc ∈ clients).
  { intros sc names Hin%elem_of_map_to_list. unfold topologyPeerNamesBySC in Hin.
    rewrite lookup_fmap in Hin. apply fmap_Some in Hin as (s & Hs & _).
    assert (is_Some (Some s)) as Hi by eauto. rewrite <-Hs in Hi.
    apply topology_peers_dom in Hi as [[? Hi]|(t & Ht & Hends)]; [by rewrite lookup_empty in Hi|].
    destruct (Hcl t Ht). naive_solver. }
  revert Hdom. generalize (map_to_list (topologyPeerNamesBySC topo)) as l.
  induction l as [|[sc names] l IH]; intros Hdom; simpl; [done|].
  rewrite bool_decide_true by (apply (Hdom sc names); set_solver). rewrite list_in.
  apply IH. intros sc' names' ?. apply (Hdom sc' names'). set_solver.
Qed.

Lemma resolved_ends src dst t t' :
  resolved src dst t t' → Source t' = Source t ∧ Destination t' = Destination t.
Proof. intros [(_ & _ & ->)|(_ & p & _ & ->)]; done. Qed.

(** C27. Peer resolution is exact: when every endpoint has a client and the
    listings succeed, [ResolveAndFetchTopologyPeers] succeeds exactly when each
    entry resolves against the full peer lists of its two clusters (explicit
    name present on both, or exactly one shared name), with that entry's peer
    written back; the narrowed [name__in] queries change nothing. *)
Theorem peer_resolution_exact (scs : list string) (topo topo' : list ReplicationTarget) :
  (∀ t, t ∈ topo → Source t ∈ scs ∧ Destination t ∈ scs) →
  ResolveAndFetchTopologyPeers ListPeers scs topo = (topo', None) ↔
  Forall2 (fun t t' => resolved (full_index (Source t)) (full_index (Destination t)) t t')
    topo topo'.
Proof using list_all list_in.
  intros Hscs. unfold ResolveAndFetchTopologyPeers.
  destruct (BuildPeerNames_lookup scs topo ∅) as (idx & -> & Hidx).
  rewrite <-(Forall2_iff_in (fun t t' => ResolvePeerName t idx = inr t')).
  - rewrite <-(resolve_entries_none 0).
    destruct (resolve_entries 0 idx topo) as [topo'' [e|]] eqn:Hre; [done|].
    rewrite FetchTopologyPeers_ok; [done|]. intros t' Ht'. rewrite !elem_of_list_to_set.
    apply resolve_entries_none in Hre. apply list_elem_of_lookup in Ht' as [i Hi].
    destruct (Forall2_lookup_r _ _ _ _ _ Hre Hi) as (t & Ht & Hr).
    apply ResolvePeerName_inr in Hr as (? & ? & _ & _ & Hr).
    apply resolved_ends in Hr as [-> ->]. apply Hscs. by eapply list_elem_of_lookup_2.
  - intros t t' Ht. rewrite ResolvePeerName_inr, <-(narrowed_resolved topo) by done.
    destruct (Hscs t Ht). rewrite !Hidx, !decide_True by done. naive_solver.
Qed.

End ExactListing.

Definition demo_peers (sc : string) : list string :=
  if bool_decide (sc = "b") then ["ab"; "bc"]
  else if bool_decide (sc = "a") then ["ab"; "ac"] else ["ac"; "bc"; "x"].
Definition demo_ListPeers (sc : string) (q : option (list string)) : result (list string) :=
  match q with
  | None => inr (demo_peers sc)
  | Some names => inr (filter (fun p => p ∈ names) (demo_peers sc))
  end.

Lemma peer_resolution_exact_witness :
  Forall2 (fun t t' => resolved (full_index demo_peers (Source t))
                         (full_index demo_peers (Destination t)) t t')
    [mkTarget "a" "b" "" ""; mkTarget "b" "c" "bc" ""]
    [mkTarget "a" "b" "ab" ""; mkTarget "b" "c" "bc" ""].
Proof.
  apply (peer_resolution_exact demo_peers demo_ListPeers
           ltac:(reflexivity) ltac:(reflexivity) ["a"; "b"; "c"]).
  - intros t. rewrite !elem_of_cons, elem_of_nil.
    intros [->|[->|[]]]; split; simpl; set_solver.
  - vm_compute. reflexivity.
Defined.

(** ** Edges and policies *)

Lemma directed_pair p t : normPair (SideA (directed p t)) (SideB (directed p t)) = entry_pair t.
Proof. unfold directed, entry_pair. case_bool_decide; simpl; [apply normPair_comm|done]. Qed.

(** Orientation of the mesh: every topology entry gives exactly one edge,
    in order, with the same two ends and peer, and the primary is never the
    receiving side, so all policies and streams of the primary start at it. *)
Theorem edges_oriented_from_primary (topo : list ReplicationTarget) (primary : string) :
  Forall entry_ok topo →
  let edges := NewReplicationEdgesList topo primary in
  map (fun e => normPair (SideA e) (SideB e)) edges = map entry_pair topo ∧
  map edge_PeerName edges = map PeerName topo ∧
  Forall (fun e => SideB e ≠ primary) edges.
Proof.
  intros Hok edges. unfold edges, NewReplicationEdgesList. rewrite !map_map. repeat split.
  - apply map_ext. intros t. apply directed_pair.
  - apply map_ext. intros t. unfold directed. by case_bool_decide.
  - apply Forall_fmap. eapply Forall_impl; [exact Hok|].
    intros t (_ & _ & Hne). unfold directed. simpl. case_bool_decide; simpl; congruence.
Qed.

Lemma edges_oriented_from_primary_witness :
  Forall (fun e => SideB e ≠ "b")
    (NewReplicationEdgesList [mkTarget "a" "b" "p" ""; mkTarget "a" "c" "q" ""] "b").
Proof.
  apply (edges_oriented_from_primary [mkTarget "a" "b" "p" ""; mkTarget "a" "c" "q" ""] "b").
  repeat constructor; discriminate.
Defined.

Definition policies_of (owner sc : string) (topo : list ReplicationTarget) : list string :=
  map (fun t => owner +:+ "-" +:+ PeerName t)
      (filter (fun t => PeerName t ≠ "" ∧ (sc = Source t ∨ sc = Destination t)) topo).

Lemma lookup_append_name sc sc' name (m : gmap string (list string)) :
  default [] (append_name sc name m !! sc') =
  default [] (m !! sc') ++ (if decide (sc = sc') then [name] else []).
Proof.
  unfold append_name. destruct (decide (sc = sc')) as [->|Hne].
  - by rewrite lookup_insert_eq.
  - by rewrite lookup_insert_ne, app_nil_r.
Qed.

Lemma policy_names_acc owner primary topo acc sc :
  Forall entry_ok topo →
  default [] (fold_left (fun acc t =>
      if bool_decide (PeerName t = "") then acc
      else
        let policyName := owner +:+ "-" +:+ PeerName t in
        let e := directed primary t in
        append_name (SideB e) policyName (append_name (SideA e) policyName acc))
    topo acc !! sc)
  = default [] (acc !! sc) ++ policies_of owner sc topo.
Proof.
  intros Hok. revert acc. unfold policies_of.
  induction Hok as [|t topo Ht _ IH]; intros acc; simpl; [by rewrite app_nil_r|].
  rewrite IH. case_bool_decide as Hp; [rewrite filter_cons_False by naive_solver; done|].
  rewrite !lookup_append_name. destruct Ht as (_ & _ & Hne).
  assert (Hends : (sc = Source t ∨ sc = Destination t) ↔
                  (SideA (directed primary t) = sc ∨ SideB (directed primary t) = sc)).
  { unfold directed. case_bool_decide; simpl; naive_solver. }
  assert (SideA (directed primary t) ≠ SideB (directed primary t)).
  { unfold directed. case_bool_decide; simpl; congruence. }
  destruct (decide (SideA (directed primary t) = sc)), (decide (SideB (directed primary t) = sc));
    try congruence.
  - rewrite filter_cons_True by naive_solver. simpl. by rewrite app_nil_r, <-app_assoc.
  - rewrite filter_cons_True by naive_solver. simpl. by rewrite app_nil_r, <-app_assoc.
  - rewrite filter_cons_False by naive_solver. by rewrite !app_nil_r.
Qed.

(** The policy names recorded for a StorageClass are those of all resolved
    links it takes part in, in topology order and on either side, whichever
    class is primary: cleanup after a failover looks for the same policies. *)
Theorem policy_names_per_class (owner primary : string) (topo : list ReplicationTarget)
    (sc : string) :
  Forall entry_ok topo →
  default [] (ProtectionPolicyNamesByStorageClass owner primary topo !! sc)
  = policies_of owner sc topo.
Proof.
  intros Hok. unfold ProtectionPolicyNamesByStorageClass.
  by rewrite policy_names_acc, lookup_empty.
Qed.

Lemma policy_names_per_class_witness :
  default [] (ProtectionPolicyNamesByStorageClass "o" "b"
                [mkTarget "a" "b" "p" ""; mkTarget "a" "c" "q" ""] !! "a") = ["o-p"; "o-q"].
Proof.
  rewrite (policy_names_per_class "o" "b" [mkTarget "a" "b" "p" ""; mkTarget "a" "c" "q" ""] "a");
    [reflexivity|repeat constructor; discriminate].
Defined.
