(* ===== verification/PpathDir.v ===== *)
(** * The directory a protected path replicates

    [internal/common/ppathdir/ppathdir.go]: prediction of a ppath's source
    directory from a StorageClass and, for volume replications, the CSI handle
    of the bound PV; with [path.Join], [path.Clean] and [path.Base] of Go's
    standard library.  REST and API-server lookups are arguments. *)

From S2P Require Import Prelude GoErrors Topology Kube.
From stdpp Require Import options.

(** ** Go's package path *)

Definition slash : ascii := "/"%char.

(** One component of a path that is being cleaned; the stack is reversed. *)
Definition clean_step (rooted : bool) (stack : list string) (c : string) : list string :=
  if bool_decide (c = "") || bool_decide (c = ".") then stack
  else if bool_decide (c = "..") then
    match stack with
    | [] => if rooted then [] else [".."]
    | top :: stack' => if bool_decide (top = "..") then ".." :: stack else stack'
    end
  else c :: stack.

Definition clean_components (rooted : bool) (cs : list string) : list string :=
  rev (fold_left (clean_step rooted) cs []).

Definition path_Clean (p : string) : string :=
  if bool_decide (p = "") then "."
  else
    let rooted := has_prefix p "/" in
    let out := join "/" (clean_components rooted (split_str slash p)) in
    if rooted then "/" +:+ out else if bool_decide (out = "") then "." else out.

Definition path_Join (elems : list string) : string :=
  let ne := filter (.≠ "") elems in
  if bool_decide (ne = []) then "" else path_Clean (join "/" ne).

Definition path_Base (p : string) : string :=
  if bool_decide (p = "") then "."
  else
    let trimmed := drop_while_end (is_char slash) (chars p) in
    let last := str (rev (take_while (fun c => negb (is_char slash c)) (rev trimmed))) in
    if bool_decide (last = "") then "/" else last.

(** ** Prediction *)

Definition nonPrefixed (sc : StorageClass) : gmap string string :=
  ExtractNonPrefixedParams CSIParameterPrefix (sc_Parameters sc).

Definition volume_group (params : gmap string string) : string :=
  trim_prefix (map_get params StorageClassParameterVolumeGroup) "/".

Definition IsSubsystemLevel (sc : StorageClass) : bool :=
  if negb (IsBlockStorageClass sc) then false
  else bool_decide (volume_group (nonPrefixed sc) = "").

(** The PV bound to a PVC, as far as the prediction reads it. *)
Record BoundPV := mkBoundPV { bpv_Name : string; bpv_CSIHandle : option string }.

Section Predict.

(** [vmsrest.NewFromStorageClass] and [Views.Get] by name on that cluster. *)
Variable NewFromStorageClass : StorageClass → result unit.
Variable ViewPath : StorageClass → string → result string.
(** [GetPVCandPV]: [inr None] is a PVC that is not bound yet. *)
Variable GetPVCandPV : string → string → result (option BoundPV).

Definition predictSCR (sc : StorageClass) (params : gmap string string) (isBlock : bool)
    : result string :=
  if negb isBlock then
    let rootExport := map_get params StorageClassParameterRootExport in
    if bool_decide (rootExport = "") then
      Errorf ("StorageClass " +:+ sc_Name sc +:+ " is missing " +:+
              quote StorageClassParameterRootExport +:+ " parameter")
    else mret rootExport
  else
    let subsystemName := map_get params StorageClassParameterSubsystem in
    let volumeGroup := volume_group params in
    _ ← wrap_err ("failed to build REST client from StorageClass " +:+ sc_Name sc +:+ ": ")
          (NewFromStorageClass sc);
    subsystemPath ← wrap_err ("failed to get subsystem view " +:+ quote subsystemName +:+
                              " from StorageClass " +:+ sc_Name sc +:+ ": ")
                      (ViewPath sc subsystemName);
    if bool_decide (volumeGroup = "") then mret subsystemPath
    else mret (path_Join [subsystemPath; volumeGroup]).

Definition predictBlockVVR (sc : StorageClass) (params : gmap string string)
    (volumeHandle : string) : result string :=
  let subsystemName := map_get params StorageClassParameterSubsystem in
  if bool_decide (subsystemName = "") then
    Errorf ("StorageClass " +:+ sc_Name sc +:+ " is missing required " +:+
            quote StorageClassParameterSubsystem +:+ " parameter")
  else
    let volumeGroup := volume_group params in
    subsystemPath ← wrap_err ("StorageClass " +:+ sc_Name sc +:+
                              ": failed to get subsystem view " +:+ quote subsystemName +:+ ": ")
                      (ViewPath sc subsystemName);
    mret (path_Join [subsystemPath; volumeGroup; path_Base volumeHandle]).

Definition predictFileVVR (sc : StorageClass) (params : gmap string string)
    (volumeHandle : string) : result string :=
  let rootExport := map_get params StorageClassParameterRootExport in
  if bool_decide (rootExport = "") then
    Errorf ("StorageClass " +:+ sc_Name sc +:+ " is missing required " +:+
            quote StorageClassParameterRootExport +:+ " parameter")
  else mret (path_Join [rootExport; path_Base volumeHandle]).

Definition predictVVR (sc : StorageClass) (params : gmap string string) (isBlock : bool)
    (volumeName namespace : string) : result string :=
  bound ← wrap_err ("failed to get PV for PVC " +:+ namespace +:+ "/" +:+ volumeName +:+ ": ")
            (GetPVCandPV volumeName namespace);
  match bound with
  | None => Errorf ("PVC " +:+ namespace +:+ "/" +:+ volumeName +:+ " not yet bound to a PV")
  | Some pv =>
      match bpv_CSIHandle pv with
      | None => Errorf ("PV " +:+ bpv_Name pv +:+ " has no CSI spec (not a CSI volume?)")
      | Some volumeHandle =>
          if bool_decide (volumeHandle = "") then
            Errorf ("PV " +:+ bpv_Name pv +:+ " has an empty CSI volume handle")
          else if negb isBlock then predictFileVVR sc params volumeHandle
          else
            _ ← wrap_err ("failed to build REST client from StorageClass " +:+ sc_Name sc +:+ ": ")
                  (NewFromStorageClass sc);
            predictBlockVVR sc params volumeHandle
      end
  end.

Definition Predict (sc : StorageClass) (volumeName namespace : string) : result string :=
  if bool_decide (volumeName = "")
  then predictSCR sc (nonPrefixed sc) (IsBlockStorageClass sc)
  else predictVVR sc (nonPrefixed sc) (IsBlockStorageClass sc) volumeName namespace.

End Predict.

(** ** Lemmas *)

Lemma split_on_app sep cur l1 l2 :
  split_on sep cur (l1 ++ sep :: l2) = split_on sep cur l1 ++ split_on sep [] l2.
Proof.
  revert cur. induction l1 as [|c l1 IH]; intros cur; simpl.
  - by rewrite bool_decide_true.
  - case_bool_decide; simpl; by rewrite IH.
Qed.

Lemma split_on_single sep cur l : sep ∉ l → split_on sep cur l = [str (rev cur ++ l)].
Proof.
  revert cur. induction l as [|c l IH]; intros cur Hl; simpl; [by rewrite app_nil_r|].
  rewrite not_elem_of_cons in Hl. destruct Hl as [Hc Hl].
  rewrite bool_decide_false by congruence. rewrite IH by done. simpl.
  by rewrite <-app_assoc.
Qed.

Lemma split_str_join s b :
  slash ∉ chars b → split_str slash (s +:+ "/" +:+ b) = split_str slash s ++ [b].
Proof.
  intros Hb. unfold split_str. rewrite !chars_app. simpl. rewrite split_on_app.
  rewrite (split_on_single _ [] (chars b)) by done. simpl. by rewrite str_chars.
Qed.

(** A file name: not empty, not a dot name, no separator. *)
Definition file_name (b : string) : Prop :=
  b ≠ "" ∧ b ≠ "." ∧ b ≠ ".." ∧ slash ∉ chars b.

Lemma clean_components_snoc rooted cs b :
  file_name b → clean_components rooted (cs ++ [b]) = clean_components rooted cs ++ [b].
Proof.
  intros (H1 & H2 & H3 & _). unfold clean_components. rewrite fold_left_app. simpl.
  unfold clean_step at 1. rewrite !bool_decide_false by done. done.
Qed.

Lemma join_snoc sep l b :
  join sep (l ++ [b]) = (if bool_decide (l = []) then "" else join sep l +:+ sep) +:+ b.
Proof.
  induction l as [|a l IH]; [done|]. rewrite bool_decide_false by done.
  destruct l as [|a' l].
  - simpl. apply (inj chars). by rewrite !chars_app, <-app_assoc.
  - change (join sep ((a :: a' :: l) ++ [b])) with (a +:+ sep +:+ join sep ((a' :: l) ++ [b])).
    rewrite IH, bool_decide_false by done.
    change (join sep (a :: a' :: l)) with (a +:+ sep +:+ join sep (a' :: l)).
    apply (inj chars). rewrite !chars_app, <-!app_assoc. done.
Qed.

(** What [path.Join] puts in front of a file name: the cleaned directory and a
    separator. *)
Definition dir_prefix (dir : string) : string :=
  let comps := clean_components true (split_str slash dir) in
  "/" +:+ (if bool_decide (comps = []) then "" else join "/" comps +:+ "/").

Lemma has_prefix_app s t p : has_prefix s p = true → has_prefix (s +:+ t) p = true.
Proof.
  rewrite !has_prefix_spec. intros [k ->]. exists (k +:+ t).
  apply (inj chars). by rewrite !chars_app, app_assoc.
Qed.

Lemma path_Join_file dir b :
  has_prefix dir "/" = true → file_name b → path_Join [dir; b] = dir_prefix dir +:+ b.
Proof.
  intros Hroot Hb. assert (Hdir : dir ≠ "") by (by intros ->).
  unfold path_Join. rewrite filter_cons_True, filter_cons_True by (done || apply Hb).
  rewrite filter_nil, bool_decide_false by done. simpl join.
  unfold path_Clean. rewrite bool_decide_false.
  2: { intros H. apply (f_equal chars) in H. rewrite chars_app in H. by destruct dir. }
  rewrite has_prefix_app by done. rewrite split_str_join by apply Hb.
  rewrite clean_components_snoc, join_snoc by done. unfold dir_prefix.
  apply (inj chars). rewrite !chars_app. done.
Qed.

Lemma path_Base_no_slash h : path_Base h ≠ "/" → slash ∉ chars (path_Base h).
Proof.
  unfold path_Base. case_bool_decide; [intros _; set_solver|].
  case_bool_decide; [done|]. intros _. rewrite chars_str.
  generalize (rev (drop_while_end (is_char slash) (chars h))) as l.
  intros l Hin.
  assert (∀ l, slash ∉ take_while (fun c => negb (is_char slash c)) l) as Htw.
  { clear. induction l as [|c l IH]; simpl; [set_solver|].
    destruct (is_char slash c) eqn:E; simpl; [set_solver|].
    unfold is_char in E. apply bool_decide_eq_false in E. set_solver. }
  apply (Htw l). apply list_elem_of_In, in_rev, list_elem_of_In. exact Hin.
Qed.

Lemma path_Base_file_name h : path_Base h ∉ ["."; ".."; "/"] → file_name (path_Base h).
Proof.
  rewrite !not_elem_of_cons. intros (H1 & H2 & H3 & _). repeat split; [|done|done|].
  - unfold path_Base. case_bool_decide; [done|]. by case_bool_decide.
  - by apply path_Base_no_slash.
Qed.

(** ** Properties *)

(** The predicted directory of a file volume lies directly under the
    cleaned root export of its StorageClass and is determined by the last
    component of the volume handle: two volumes of a class share a directory
    only if those components are equal. *)
Theorem file_ppath_dir (sc : StorageClass) (params : gmap string string) (h1 h2 : string) :
  let root := map_get params StorageClassParameterRootExport in
  has_prefix root "/" = true →
  path_Base h1 ∉ ["."; ".."; "/"] → path_Base h2 ∉ ["."; ".."; "/"] →
  predictFileVVR sc params h1 = inr (dir_prefix root +:+ path_Base h1) ∧
  (predictFileVVR sc params h1 = predictFileVVR sc params h2 → path_Base h1 = path_Base h2).
Proof.
  intros root Hroot H1%path_Base_file_name H2%path_Base_file_name. unfold predictFileVVR. fold root.
  rewrite bool_decide_false by (by intros ->). rewrite !path_Join_file by done.
  split; [done|]. intros [= Heq]. apply (f_equal chars) in Heq. rewrite !chars_app in Heq.
  apply app_inv_head in Heq. by apply (inj chars).
Qed.

Lemma file_ppath_dir_witness :
  predictFileVVR (mkSC "fs" "csi.vastdata.com" ∅ []) {["root_export" := "/k8s//x/../vols/"]} "pvc-1"
  = inr "/k8s/vols/pvc-1".
Proof.
  destruct (file_ppath_dir (mkSC "fs" "csi.vastdata.com" ∅ [])
              {["root_export" := "/k8s//x/../vols/"]} "pvc-1" "pvc-1") as [-> _].
  - vm_compute. reflexivity.
  - vm_compute. set_solver.
  - vm_compute. set_solver.
  - vm_compute. reflexivity.
Defined.

(** A VSCR on a block StorageClass replicates the whole subsystem exactly
    when the class is subsystem-level: then the predicted directory is the
    subsystem's own path, and otherwise the volume group joined to it. *)
Theorem subsystem_level_prediction (new : StorageClass → result unit)
    (view : StorageClass → string → result string)
    (bound : string → string → result (option BoundPV)) (sc : StorageClass) (p : string) :
  IsBlockStorageClass sc = true → new sc = inr () →
  view sc (map_get (nonPrefixed sc) StorageClassParameterSubsystem) = inr p →
  Predict new view bound sc "" "" =
    inr (if IsSubsystemLevel sc then p else path_Join [p; volume_group (nonPrefixed sc)]).
Proof.
  intros Hb Hn Hv. unfold Predict, predictSCR, IsSubsystemLevel.
  rewrite bool_decide_true, Hb by done. simpl. rewrite Hn. simpl. rewrite Hv. simpl.
  by case_bool_decide.
Qed.

Lemma subsystem_level_prediction_witness :
  Predict (fun _ => inr ()) (fun _ _ => inr "/sub") (fun _ _ => inr None)
    (mkSC "blk" "block.csi" {["subsystem" := "s"]} []) "" "" = inr "/sub".
Proof.
  rewrite (subsystem_level_prediction (fun _ => inr ()) (fun _ _ => inr "/sub")
             (fun _ _ => inr None) (mkSC "blk" "block.csi" {["subsystem" := "s"]} []) "/sub");
    vm_compute; reflexivity.
Defined.
