(* ===== verification/Lookups.v ===== *)
(** * Lookups of objects the controllers never write

    StorageClasses, Secrets and the settings of a VAST cluster (peers,
    tenants, views and volumes by name) are only read by the controllers of
    VSCRs and VVRs.  [Lookups] collects these reads as functions: the same
    question asked twice within one reconciliation gets the same answer, and
    nothing else is assumed of them.  [VastErrors] holds the two error
    inspections of the VAST client library.

    [internal/common/vmsrest/vmsrest.go]: how a REST client is obtained from a
    StorageClass.  A client is identified by the name of the StorageClass it
    was built for, the key under which the controllers keep it. *)

From S2P Require Import Prelude GoErrors Topology Kube Naming Peers PpathDir.
From stdpp Require Import options.

(** What [vast_client.NewTypedVMSRest] is configured with. *)
Record VMSConfig := mkVMSConfig {
  vms_Host : string;
  vms_Username : string;
  vms_Password : string;
  vms_Tenant : string;
  vms_ApiToken : string;
}.

Class Lookups := mkLookups {
  lk_GetStorageClass : string → result StorageClass;
  lk_GetSecret : string → string → result Secret;
  lk_NewTypedVMSRest : VMSConfig → result unit;
  (* [url.Parse], used by the name formats *)
  lk_url_host : string → option string;
  (* by StorageClass name, on its cluster *)
  lk_ListPeers : string → option (list string) → result (list PeerModel);
  lk_TenantByName : string → string → result TenantInfo;
  lk_TenantById : string → Z → result TenantInfo;
  lk_ViewTenantId : string → string → result Z;
  lk_ViewPolicy : string → string → result (Z * Z);          (* id, tenant id *)
  lk_ViewPath : string → string → result string;
  lk_ListVolumes : string → string → option string → result (list string);
  lk_ListViews : string → string → result (list string);
}.

Class VastErrors := mkVastErrors {
  vast_IsNotFoundErr : error → bool;
  vast_ExpectStatusCodes : error → list Z → bool;
}.

(** [IsNotFoundErr] of a possibly nil error. *)
Definition IsNotFoundErr `{VastErrors} (err : option error) : bool :=
  match err with Some e => vast_IsNotFoundErr e | None => false end.

Section Clients.

Context `{Lookups}.

Definition GetSecretValue : string → string → string → result string :=
  Kube.GetSecretValue lk_GetSecret.

Definition NewFromSecretData (secretData : gmap string string) : result unit :=
  let username := map_get secretData "username" in
  let password := map_get secretData "password" in
  let token := map_get secretData "token" in
  let tenant := map_get secretData "tenant" in
  let endpoint := map_get secretData "endpoint" in
  if bool_decide (endpoint = "") then Errorf "secret is missing required key 'endpoint'"
  else
    let hasUserPass := bool_decide (username ≠ "") && bool_decide (password ≠ "") in
    let hasToken := bool_decide (token ≠ "") in
    if negb hasUserPass && negb hasToken then
      Errorf "secret must contain either 'username'+'password' or 'token' for authentication"
    else lk_NewTypedVMSRest (mkVMSConfig endpoint username password tenant token).

Definition NewFromStorageClass (sc : StorageClass) : result unit :=
  let csiParams := ExtractPrefixedParams CSIParameterPrefix (sc_Parameters sc) in
  let secretName := map_get csiParams "provisioner-secret-name" in
  let secretNamespace := map_get csiParams "provisioner-secret-namespace" in
  if bool_decide (secretName = "") then
    Errorf ("StorageClass " +:+ sc_Name sc +:+ " missing parameter provisioner-secret-name")
  else if bool_decide (secretNamespace = "") then
    Errorf ("StorageClass " +:+ sc_Name sc +:+ " missing parameter provisioner-secret-namespace")
  else
    secret ← wrap_err ("failed to get secret " +:+ secretNamespace +:+ "/" +:+ secretName +:+ ": ")
               (GetSecret lk_GetSecret secretName secretNamespace);
    NewFromSecretData (secret_Data secret).

Definition NewFromStorageClassName (scName : string) : result StorageClass :=
  sc ← wrap_err ("failed to get StorageClass " +:+ scName +:+ ": ") (lk_GetStorageClass scName);
  _ ← NewFromStorageClass sc;
  mret sc.

(** The clients built, by the names that key them. *)
Fixpoint RestFromStorageClasses (scNames : list string) (acc : gset string) : result (gset string) :=
  match scNames with
  | [] => mret acc
  | scName :: scNames' =>
      sc ← wrap_err ("failed to get StorageClass " +:+ scName +:+ ": ") (lk_GetStorageClass scName);
      _ ← wrap_err ("failed to build VMS REST client for SC " +:+ scName +:+ ": ") (NewFromStorageClass sc);
      RestFromStorageClasses scNames' ({[scName]} ∪ acc)
  end.

Definition NewFromReplicationClass (class : ReplicationClass) (secretNameParam secretNamespaceParam : string)
    : result unit :=
  let secretName := map_get (class_Parameters class) secretNameParam in
  let secretNamespace := map_get (class_Parameters class) secretNamespaceParam in
  if bool_decide (secretName = "") then
    Errorf ("VolumeReplicationClass " +:+ Name (class_Meta class) +:+ " missing parameter " +:+ secretNameParam)
  else if bool_decide (secretNamespace = "") then
    Errorf ("VolumeReplicationClass " +:+ Name (class_Meta class) +:+ " missing parameter " +:+ secretNamespaceParam)
  else
    secret ← wrap_err ("failed to get secret " +:+ secretNamespace +:+ "/" +:+ secretName +:+
                       " for VolumeReplicationClass " +:+ Name (class_Meta class) +:+ ": ")
               (GetSecret lk_GetSecret secretName secretNamespace);
    NewFromSecretData (secret_Data secret).

Definition NewFromPVC (pvc : PVC) : result StorageClass :=
  scName ← wrap_err ("failed to get PVC class " +:+ Name (pvc_Meta pvc) +:+ ": ") (GetPVCClass pvc);
  destSC ← wrap_err ("failed to get StorageClass " +:+ scName +:+ ": ") (lk_GetStorageClass scName);
  _ ← NewFromStorageClass destSC;
  mret destSC.

(** ** The read-only components with these lookups *)

Definition ScsFromStorageClasses (scNames : list string) : result (gmap string StorageClass) :=
  Kube.ScsFromStorageClasses lk_GetStorageClass scNames ∅.

(** The id and the tenant of a view policy. *)
Definition GetViewPolicyModel (scName policyName : string) : result (Z * Z) :=
  '(id, tenantId) ← wrap_err ("get view policy " +:+ quote policyName +:+ ": ") (lk_ViewPolicy scName policyName);
  if bool_decide (tenantId = 0)%Z then
    Errorf ("view policy " +:+ quote policyName +:+ ": tenant_id missing after decode (id=" +:+ show_Z id +:+
            "); check VMS response")
  else mret (id, tenantId).
Definition GetViewPolicy (scName policyName : string) : result Z :=
  policy ← GetViewPolicyModel scName policyName; mret policy.2.

(** [ResolveTenant] with the client and the StorageClass of [scName]. *)
Definition ResolveTenant (scName : string) (sc : StorageClass) : result TenantInfo :=
  Peers.ResolveTenant (lk_TenantByName scName) (lk_TenantById scName) (lk_ViewTenantId scName)
    (GetViewPolicy scName) sc.

Definition ResolveAndFetchTopologyPeers (scNames : list string) (topology : list ReplicationTarget)
    : list ReplicationTarget * option error :=
  Peers.ResolveAndFetchTopologyPeers
    (fun sc names => peers ← lk_ListPeers sc names; mret (map peer_Name peers)) scNames topology.

Definition FormatReplicationClassName : string → StorageClass → result string :=
  Naming.FormatReplicationClassName lk_url_host GetSecretValue.
Definition FormatPVCName : string → string → string → StorageClass → result string :=
  Naming.FormatPVCName lk_url_host GetSecretValue.

End Clients.

(** ** Clients exist for the classes they were asked for *)

Lemma RestFromStorageClasses_ok `{Lookups} scNames acc clients :
  RestFromStorageClasses scNames acc = inr clients → clients = list_to_set scNames ∪ acc.
Proof.
  revert acc. induction scNames as [|sc scs IH]; intros acc; simpl; [intros [= ->]; set_solver|].
  unfold mbind, result_bind, wrap_err.
  destruct (lk_GetStorageClass sc); simpl; [done|].
  destruct (NewFromStorageClass s); simpl; [done|]. intros ->%IH. set_solver.
Qed.

Lemma ScsFromStorageClasses_dom `{Lookups} scNames scs :
  ScsFromStorageClasses scNames = inr scs → dom scs = list_to_set scNames.
Proof.
  unfold ScsFromStorageClasses.
  assert (Hgen : ∀ acc, Kube.ScsFromStorageClasses lk_GetStorageClass scNames acc = inr scs →
            dom scs = list_to_set scNames ∪ dom acc).
  { induction scNames as [|n ns IH]; intros acc; simpl; [intros [= ->]; set_solver|].
    destruct (lk_GetStorageClass n); [done|]. intros ->%IH. set_solver. }
  intros ->%Hgen. set_solver.
Qed.
