(* ===== verification/Webhooks.v ===== *)
(** * Admission of replication resources

    [internal/webhook/vast_replication_crd_validation_webhook.go]: the
    admission handlers of VastStorageClassReplication and
    VastVolumeReplication with every check they run.

    The API server and the VAST clusters are arguments of the section: what
    they answer while one request is handled.  The raw JSON object is
    represented by the topology it decodes to (an absent, null or empty
    peerName decodes to the empty string), a JSON patch by the topology it
    writes.  A decode failure is the request carrying an error instead of an
    object. *)

From S2P Require Import Prelude GoErrors Topology Kube Peers PpathDir.
From stdpp Require Import options.

(** ** Responses *)

Record Response := mkResponse {
  Allowed : bool;
  Code : Z;
  Message : string;
  Patch : option (list ReplicationTarget);
}.

Definition admission_Allowed (msg : string) : Response := mkResponse true 200 msg None.
Definition admission_Denied (msg : string) : Response := mkResponse false 403 msg None.
Definition admission_Errored (code : Z) (e : error) : Response :=
  mkResponse false code (error_msg e) None.
Definition PatchResponse (modified : list ReplicationTarget) : Response :=
  mkResponse true 200 "" (Some modified).

Definition StatusBadRequest : Z := 400.
Definition StatusInternalServerError : Z := 500.

Inductive Operation := Create | Update | Delete.
#[export] Instance Operation_eq_dec : EqDecision Operation.
Proof. solve_decision. Defined.

(** A request: the decoded object and, on UPDATE, the decoded old one. *)
Record Request (A : Type) := mkRequest {
  req_Operation : Operation;
  req_Object : result A;
  req_OldObject : result A;
}.
Arguments mkRequest {_} _ _ _.
Arguments req_Operation {_} _.
Arguments req_Object {_} _.
Arguments req_OldObject {_} _.

(** ** Checks that need no lookup *)

Fixpoint immutable_entries (i : nat) (olds news : list ReplicationTarget) : Response :=
  match olds, news with
  | o :: olds', n :: news' =>
      if negb (bool_decide (Source o = Source n)) || negb (bool_decide (Destination o = Destination n))
      then admission_Denied
             (entry_label i +:+
              " is immutable: source/destination cannot change after creation (was " +:+
              quote (Source o) +:+ "→" +:+ quote (Destination o) +:+ ", got " +:+
              quote (Source n) +:+ "→" +:+ quote (Destination n) +:+ ")")
      else if negb (bool_decide (TargetExportedDir o = TargetExportedDir n))
      then admission_Denied
             (entry_label i +:+
              " is immutable: targetExportedDir cannot change after creation (was " +:+
              quote (TargetExportedDir o) +:+ ", got " +:+ quote (TargetExportedDir n) +:+ ")")
      else immutable_entries (S i) olds' news'
  | _, _ => admission_Allowed ""
  end.

Definition validateTopologyImmutable (oldTopology newTopology : list ReplicationTarget) : Response :=
  if negb (bool_decide (length oldTopology = length newTopology))
  then admission_Denied "protectionTopology is immutable: the number of entries cannot change after creation"
  else immutable_entries 0 oldTopology newTopology.

(** [applyTopologyDefaults]: the object with the discovered peer names, [None]
    when nothing changed. *)
Definition default_entry (orig t : ReplicationTarget) : ReplicationTarget :=
  if bool_decide (PeerName orig = "") && bool_decide (PeerName t ≠ "")
  then set_peer orig (PeerName t) else orig.

Definition applyTopologyDefaults (original topology : list ReplicationTarget)
    : option (list ReplicationTarget) :=
  let entries := zip_with default_entry original topology ++ drop (length topology) original in
  if existsb (fun ot => bool_decide (PeerName ot.1 = "") && bool_decide (PeerName ot.2 ≠ ""))
       (zip original topology)
  then Some entries else None.

(** ** Checks against the API server and the VAST clusters *)

Section Admission.

Context {clk : Clock}.

Variable GetStorageClass : string → result StorageClass.
(** The REST client of a StorageClass, shown by [%s]; peers and views on it. *)
Variable NewFromStorageClass : StorageClass → result string.
Variable ListPeers : string → option (list string) → result (list string).
Variable ViewExists : string → string → option string → result bool.
Variable GetPVC : string → string → result PVC.
Variable ListVSCRs : result (list VSCR).
Variable ListVVRs : result (list VVR).

(** One REST client per unique StorageClass, in order of first appearance. *)
Fixpoint clients_for (i : nat) (scNames : list string) (acc : list string)
    : Response + list string :=
  match scNames with
  | [] => inr acc
  | scName :: scNames' =>
      if bool_decide (scName ∈ acc) then clients_for i scNames' acc
      else
        match GetStorageClass scName with
        | inl e => inl (admission_Denied (entry_label i +:+ ": StorageClass " +:+ quote scName +:+
                                          " not found: " +:+ error_msg e))
        | inr sc =>
            match NewFromStorageClass sc with
            | inl e => inl (admission_Errored StatusInternalServerError
                              (ErrWrap (entry_label i +:+ ": REST client for " +:+ quote scName +:+ ": ") e ""))
            | inr _ => clients_for i scNames' (acc ++ [scName])
            end
        end
  end.

Fixpoint clients_for_topology (i : nat) (topology : list ReplicationTarget) (acc : list string)
    : Response + list string :=
  match topology with
  | [] => inr acc
  | t :: topology' =>
      match clients_for i [Source t; Destination t] acc with
      | inl r => inl r
      | inr acc' => clients_for_topology (S i) topology' acc'
      end
  end.

(** The response, and the topology of the object after the in-place resolution. *)
Definition validateAndDefaultTopology (raw topology : list ReplicationTarget)
    : Response * list ReplicationTarget :=
  match clients_for_topology 0 topology [] with
  | inl r => (r, topology)
  | inr restByStorageClass =>
      match ResolveAndFetchTopologyPeers ListPeers restByStorageClass topology with
      | (topology', Some e) =>
          (match as_validation e with
           | Some m => admission_Denied m
           | None => admission_Errored StatusInternalServerError
                       (ErrWrap "failed to resolve replication peers: " e "")
           end, topology')
      | (topology', None) =>
          (match applyTopologyDefaults raw topology' with
           | Some modified => PatchResponse modified
           | None => admission_Allowed ""
           end, topology')
      end
  end.

Definition sc_not_found (scName : string) (e : error) : Response :=
  admission_Denied ("StorageClass " +:+ quote scName +:+ " not found: " +:+ error_msg e).

Definition driverType (isBlock : bool) : string := if isBlock then "block" else "file".

Fixpoint consistent_with (first : string) (firstIsBlock : bool) (scNames : list string) : Response :=
  match scNames with
  | [] => admission_Allowed ""
  | scName :: scNames' =>
      match GetStorageClass scName with
      | inl e => sc_not_found scName e
      | inr sc =>
          if negb (bool_decide (IsBlockStorageClass sc = firstIsBlock)) then
            admission_Denied ("StorageClass " +:+ quote scName +:+ " is a " +:+
              driverType (IsBlockStorageClass sc) +:+ " driver but " +:+ quote first +:+ " is a " +:+
              driverType firstIsBlock +:+ " driver; all StorageClasses must use the same driver type")
          else consistent_with first firstIsBlock scNames'
      end
  end.

Definition validateStorageClassConsistency (storageClasses : list string) : Response :=
  if bool_decide (length storageClasses < 2) then admission_Allowed ""
  else
    match storageClasses with
    | [] => admission_Allowed ""
    | first :: rest =>
        match GetStorageClass first with
        | inl e => sc_not_found first e
        | inr firstSC => consistent_with first (IsBlockStorageClass firstSC) rest
        end
    end.

Fixpoint validateSubsystemLevelTenantName (primarySCName : string) (allSCNames : list string)
    : Response :=
  match allSCNames with
  | [] => admission_Allowed ""
  | scName :: rest =>
      if bool_decide (scName = primarySCName) then validateSubsystemLevelTenantName primarySCName rest
      else
        match GetStorageClass scName with
        | inl e => sc_not_found scName e
        | inr sc =>
            if bool_decide (map_get (sc_Parameters sc) "tenant_name" = "") then
              admission_Denied ("StorageClass " +:+ quote scName +:+
                " is missing required parameter " +:+ quote "tenant_name" +:+
                ": subsystem-level block replication cannot resolve the tenant on secondary clusters before the subsystem exists — set " +:+
                quote "tenant_name" +:+ " to the target tenant's name")
            else validateSubsystemLevelTenantName primarySCName rest
        end
  end.

Fixpoint validateSubsystemPresence (scNames : list string) (mustExist : bool) : Response :=
  match scNames with
  | [] => admission_Allowed ""
  | scName :: rest_names =>
      match GetStorageClass scName with
      | inl e => sc_not_found scName e
      | inr sc =>
          if negb (IsBlockStorageClass sc) then validateSubsystemPresence rest_names mustExist
          else
            let subsystemName := map_get (sc_Parameters sc) StorageClassParameterSubsystem in
            if bool_decide (subsystemName = "") then
              admission_Denied ("StorageClass " +:+ quote scName +:+
                " is missing required parameter " +:+ quote StorageClassParameterSubsystem)
            else
              match NewFromStorageClass sc with
              | inl e => admission_Errored StatusInternalServerError
                           (ErrWrap ("StorageClass " +:+ quote scName +:+
                                     ": failed to build REST client: ") e "")
              | inr rest =>
                  let tn := map_get (sc_Parameters sc) "tenant_name" in
                  match ViewExists rest subsystemName (if bool_decide (tn ≠ "") then Some tn else None) with
                  | inl e => admission_Errored StatusInternalServerError
                               (ErrWrap ("StorageClass " +:+ quote scName +:+
                                  ": failed to check subsystem " +:+ quote subsystemName +:+
                                  " on VMS " +:+ rest +:+ ": ") e "")
                  | inr exists_ =>
                      if mustExist && negb exists_ then
                        admission_Denied ("StorageClass " +:+ quote scName +:+ ": subsystem " +:+
                          quote subsystemName +:+ " does not exist on VMS " +:+ rest +:+
                          "; for block replication the subsystem must be pre-created on all clusters")
                      else if negb mustExist && exists_ then
                        admission_Denied ("subsystem-level block replication requires that subsystem " +:+
                          quote subsystemName +:+ " does not pre-exist on VMS " +:+ rest +:+
                          " (StorageClass " +:+ quote scName +:+
                          "): VAST creates it via replication; delete the subsystem from that cluster and retry")
                      else validateSubsystemPresence rest_names mustExist
                  end
              end
      end
  end.

(** *** Each StorageClass in at most one VSCR *)

Definition object_ref (kind : string) (m : ObjectMeta) : string :=
  kind +:+ " " +:+ Namespace m +:+ "/" +:+ Name m.

Definition mark_used (owner : string) (scs : list string) (used : gmap string string)
    : gmap string string := fold_left (fun u sc => <[sc := owner]> u) scs used.

Definition is_self (kind self_kind : string) (m : ObjectMeta) (namespace name : string) : bool :=
  bool_decide (kind = self_kind) && bool_decide (Name m = name) && bool_decide (Namespace m = namespace).

Definition used_by_vscrs (kind namespace name : string) (l : list VSCR) (used : gmap string string)
    : gmap string string :=
  fold_left (fun u v =>
    if is_self kind "VastStorageClassReplication" (vscr_Meta v) namespace name then u
    else mark_used (object_ref "VastStorageClassReplication" (vscr_Meta v))
           (VSCR_AllStorageClasses (vscr_Spec v)) u) l used.

Definition used_by_vvrs (kind namespace name : string) (l : list VVR) (used : gmap string string)
    : gmap string string :=
  fold_left (fun u v =>
    if is_self kind "VastVolumeReplication" (vvr_Meta v) namespace name then u
    else mark_used (object_ref "VastVolumeReplication" (vvr_Meta v))
           (VVR_AllStorageClasses (vvr_Spec v)) u) l used.

Fixpoint first_conflict (incoming : list string) (used : gmap string string) : Response :=
  match incoming with
  | [] => admission_Allowed ""
  | sc :: incoming' =>
      match used !! sc with
      | Some owner =>
          admission_Denied ("StorageClass " +:+ quote sc +:+ " is already used by " +:+ owner +:+
            "; each StorageClass may appear in at most one VastStorageClassReplication or VastVolumeReplication")
      | None => first_conflict incoming' used
      end
  end.

Definition validate (namespace name kind : string) (storageClasses : list string) : Response :=
  match ListVSCRs with
  | inl e => admission_Errored StatusInternalServerError e
  | inr vscrList =>
      match ListVVRs with
      | inl e => admission_Errored StatusInternalServerError e
      | inr vvrList =>
          let used := used_by_vvrs kind namespace name vvrList
                        (used_by_vscrs kind namespace name vscrList ∅) in
          first_conflict storageClasses used
      end
  end.

(** *** The PVC of a volume replication *)

Definition validateVVRPVCStorageClass (obj : VVR) : Response :=
  let pvcNS := VVR_PVCNamespace obj in
  let volume := vvr_VolumeName (vvr_Spec obj) in
  let primary := vvr_PrimaryStorageClass (vvr_Spec obj) in
  match GetPVC volume pvcNS with
  | inl e => admission_Denied ("spec.volumeName: PVC " +:+ pvcNS +:+ "/" +:+ volume +:+
                               " not found: " +:+ error_msg e)
  | inr pvc =>
      let class := default "" (pvc_StorageClassName pvc) in
      if bool_decide (class = "") then
        admission_Denied ("spec.volumeName: PVC " +:+ pvcNS +:+ "/" +:+ volume +:+
                          " has no StorageClass set")
      else if negb (bool_decide (class = primary)) then
        admission_Denied ("spec.primaryStorageClass " +:+ quote primary +:+
          " does not match the StorageClass of PVC " +:+ pvcNS +:+ "/" +:+ volume +:+ " (" +:+
          quote class +:+ "); the PVC must be provisioned by the primary StorageClass")
      else admission_Allowed ""
  end.

(** ** Handlers

    [first_denied]: the [if resp := ...; !resp.Allowed { return resp }] idiom. *)
Definition first_denied (r : Response) (k : Response) : Response :=
  if Allowed r then k else r.

(** The UPDATE guard: decode the old object and compare topologies. *)
Definition immutable_guard {A} (req : Request A) (topology : A → list ReplicationTarget)
    (obj : A) : Response :=
  if bool_decide (req_Operation req = Update) then
    match req_OldObject req with
    | inl e => admission_Errored StatusBadRequest e
    | inr old => validateTopologyImmutable (topology old) (topology obj)
    end
  else admission_Allowed "".

Definition vscr_topology (v : VSCR) : list ReplicationTarget := vscr_ProtectionTopology (vscr_Spec v).
Definition vvr_topology (v : VVR) : list ReplicationTarget := vvr_ProtectionTopology (vvr_Spec v).

(** The CREATE-only checks of a VSCR. *)
Definition vscr_create_checks (obj : VSCR) : Response :=
  let spec := vscr_Spec obj in
  let primary := vscr_PrimaryStorageClass spec in
  first_denied (fst (validateAndDefaultTopology (vscr_topology obj) (vscr_topology obj)))
    (match GetStorageClass primary with
     | inl e => admission_Denied ("primaryStorageClass " +:+ quote primary +:+ " not found: " +:+ error_msg e)
     | inr primarySC =>
         if IsBlockStorageClass primarySC then
           if IsSubsystemLevel primarySC
           then validateSubsystemLevelTenantName primary (VSCR_AllStorageClasses spec)
           else validateSubsystemPresence (VSCR_AllStorageClasses spec) true
         else admission_Allowed ""
     end).

Definition vscr_Handle (req : Request VSCR) : Response :=
  match req_Object req with
  | inl e => admission_Errored StatusBadRequest e
  | inr obj =>
      let spec := vscr_Spec obj in
      first_denied (immutable_guard req vscr_topology obj)
        (match VSCR_Validate spec with
         | inl e => admission_Denied (error_msg e)
         | inr _ =>
             first_denied
               (if bool_decide (req_Operation req = Create) then vscr_create_checks obj
                else admission_Allowed "")
               (first_denied (validateStorageClassConsistency (VSCR_AllStorageClasses spec))
                  (validate (Namespace (vscr_Meta obj)) (Name (vscr_Meta obj))
                     "VastStorageClassReplication" (VSCR_AllStorageClasses spec)))
         end)
  end.

Definition vvr_create_checks (obj : VVR) : Response :=
  first_denied (fst (validateAndDefaultTopology (vvr_topology obj) (vvr_topology obj)))
    (first_denied (validateVVRPVCStorageClass obj)
       (validateSubsystemPresence (VVR_AllStorageClasses (vvr_Spec obj)) true)).

Definition vvr_Handle (req : Request VVR) : Response :=
  match req_Object req with
  | inl e => admission_Errored StatusBadRequest e
  | inr obj =>
      let spec := vvr_Spec obj in
      first_denied (immutable_guard req vvr_topology obj)
        (match VVR_Validate spec with
         | inl e => admission_Denied (error_msg e)
         | inr _ =>
             first_denied
               (if bool_decide (req_Operation req = Create) then vvr_create_checks obj
                else admission_Allowed "")
               (first_denied (validateStorageClassConsistency (VVR_AllStorageClasses spec))
                  (admission_Allowed ""))
         end)
  end.

End Admission.

(** ** Lemmas *)

Lemma first_denied_allowed r k :
  Allowed (first_denied r k) = true ↔ Allowed r = true ∧ Allowed k = true.
Proof. unfold first_denied. destruct (Allowed r) eqn:E; naive_solver congruence. Qed.

Lemma lookup_mark_used owner scs used sc :
  is_Some (mark_used owner scs used !! sc) ↔ is_Some (used !! sc) ∨ sc ∈ scs.
Proof.
  revert used. unfold mark_used. induction scs as [|x scs IH]; intros used; simpl; [set_solver|].
  rewrite IH, lookup_insert_is_Some, elem_of_cons. destruct (decide (x = sc)); naive_solver.
Qed.

Lemma lookup_used_by_vscrs kind ns name l used sc :
  is_Some (used_by_vscrs kind ns name l used !! sc) ↔
  is_Some (used !! sc) ∨ ∃ v, v ∈ l ∧
    is_self kind "VastStorageClassReplication" (vscr_Meta v) ns name = false ∧
    sc ∈ VSCR_AllStorageClasses (vscr_Spec v).
Proof.
  revert used. unfold used_by_vscrs. induction l as [|v l IH]; intros used; simpl; [set_solver|].
  rewrite IH. setoid_rewrite elem_of_cons.
  destruct (is_self _ _ _ _ _) eqn:Hs; [|rewrite lookup_mark_used]; split; try naive_solver.
  - intros [?|(w & [->|?] & ? & ?)]; [naive_solver|congruence|naive_solver].
Qed.

Lemma lookup_used_by_vvrs kind ns name l used sc :
  is_Some (used_by_vvrs kind ns name l used !! sc) ↔
  is_Some (used !! sc) ∨ ∃ v, v ∈ l ∧
    is_self kind "VastVolumeReplication" (vvr_Meta v) ns name = false ∧
    sc ∈ VVR_AllStorageClasses (vvr_Spec v).
Proof.
  revert used. unfold used_by_vvrs. induction l as [|v l IH]; intros used; simpl; [set_solver|].
  rewrite IH. setoid_rewrite elem_of_cons.
  destruct (is_self _ _ _ _ _) eqn:Hs; [|rewrite lookup_mark_used]; split; try naive_solver.
  - intros [?|(w & [->|?] & ? & ?)]; [naive_solver|congruence|naive_solver].
Qed.

Lemma first_conflict_allowed incoming used :
  Allowed (first_conflict incoming used) = true ↔ ∀ sc, sc ∈ incoming → used !! sc = None.
Proof.
  induction incoming as [|sc l IH]; simpl; [set_solver|].
  setoid_rewrite elem_of_cons. destruct (used !! sc) eqn:Hu; simpl.
  - split; [done|]. intros H. rewrite (H sc) in Hu by auto. done.
  - rewrite IH. naive_solver.
Qed.

(** What a VSCR may not share its classes with. *)
Definition vscr_key (v : VSCR) : string * string := (Namespace (vscr_Meta v), Name (vscr_Meta v)).

Definition no_overlap (obj : VSCR) (vscrs : list VSCR) (vvrs : list VVR) : Prop :=
  ∀ sc, sc ∈ VSCR_AllStorageClasses (vscr_Spec obj) →
    (∀ v, v ∈ vscrs → vscr_key v ≠ vscr_key obj → sc ∉ VSCR_AllStorageClasses (vscr_Spec v)) ∧
    (∀ w, w ∈ vvrs → sc ∉ VVR_AllStorageClasses (vvr_Spec w)).

Lemma is_self_vscr v obj :
  is_self "VastStorageClassReplication" "VastStorageClassReplication" (vscr_Meta v)
    (Namespace (vscr_Meta obj)) (Name (vscr_Meta obj)) = false ↔ vscr_key v ≠ vscr_key obj.
Proof.
  unfold is_self, vscr_key. rewrite bool_decide_true by done. simpl.
  rewrite andb_false_iff, !bool_decide_eq_false. split.
  - intros [?|?] [=]; done.
  - intros H. destruct (decide (Name (vscr_Meta v) = Name (vscr_Meta obj))); [right|by left].
    intros ?. apply H. congruence.
Qed.

Lemma validate_allowed lvscr lvvr obj :
  Allowed (validate lvscr lvvr (Namespace (vscr_Meta obj)) (Name (vscr_Meta obj))
             "VastStorageClassReplication" (VSCR_AllStorageClasses (vscr_Spec obj))) = true ↔
  ∃ vscrs vvrs, lvscr = inr vscrs ∧ lvvr = inr vvrs ∧ no_overlap obj vscrs vvrs.
Proof.
  unfold validate. destruct lvscr as [|vscrs]; [naive_solver|].
  destruct lvvr as [|vvrs]; [naive_solver|]. rewrite first_conflict_allowed.
  setoid_rewrite eq_None_not_Some. setoid_rewrite lookup_used_by_vvrs.
  setoid_rewrite lookup_used_by_vscrs. setoid_rewrite is_self_vscr. unfold no_overlap.
  assert (∀ w : VVR, is_self "VastStorageClassReplication" "VastVolumeReplication" (vvr_Meta w)
            (Namespace (vscr_Meta obj)) (Name (vscr_Meta obj)) = false) as Hself by done.
  assert (∀ sc : string, ¬ is_Some ((∅ : gmap string string) !! sc)) as Hemp.
  { intros sc. rewrite lookup_empty. by intros [? ?]. }
  split.
  - intros H. exists vscrs, vvrs. split_and!; [done..|]. intros sc Hsc. specialize (H sc Hsc).
    split; intros x Hx; [intros Hk Hin|intros Hin]; apply H; eauto 8.
  - intros (? & ? & [= <-] & [= <-] & H) sc Hsc [[He|(v & Hv & Hk & Hin)]|(w & Hw & _ & Hin)].
    + by eapply Hemp.
    + by eapply (proj1 (H sc Hsc) v).
    + by eapply (proj2 (H sc Hsc) w).
Qed.

(** *** Immutability *)

Definition same_shape (o n : ReplicationTarget) : Prop :=
  Source o = Source n ∧ Destination o = Destination n ∧ TargetExportedDir o = TargetExportedDir n.

Lemma immutable_entries_allowed i olds news :
  length olds = length news →
  Allowed (immutable_entries i olds news) = true ↔ Forall2 same_shape olds news.
Proof.
  revert i news. induction olds as [|o olds IH]; intros i [|n news] Hlen; simplify_eq/=.
  - split; [by constructor|done].
  - rewrite Forall2_cons. unfold same_shape at 1.
    repeat case_bool_decide; simpl; try (split; [done|naive_solver]).
    rewrite IH by done. naive_solver.
Qed.

Lemma validateTopologyImmutable_allowed olds news :
  Allowed (validateTopologyImmutable olds news) = true ↔ Forall2 same_shape olds news.
Proof.
  unfold validateTopologyImmutable. case_bool_decide as Hlen; simpl.
  - by apply immutable_entries_allowed.
  - split; [done|]. intros H%Forall2_length. done.
Qed.

(** *** Driver types *)

Definition all_of_type (get : string → result StorageClass) (b : bool) (scs : list string) : Prop :=
  ∀ sc, sc ∈ scs → ∃ s, get sc = inr s ∧ IsBlockStorageClass s = b.

Lemma consistent_with_allowed get first b scs :
  Allowed (consistent_with get first b scs) = true ↔ all_of_type get b scs.
Proof.
  unfold all_of_type. induction scs as [|sc scs IH]; simpl; [set_solver|].
  setoid_rewrite elem_of_cons. destruct (get sc) as [e|s] eqn:Hg; simpl.
  - split; [done|]. intros H. destruct (H sc) as (? & ? & _); [by left|congruence].
  - case_bool_decide as Hb; simpl.
    + rewrite IH. split; [|naive_solver]. intros H x [->|?]; eauto.
    + split; [done|]. intros H. destruct (H sc) as (? & ? & ?); [by left|congruence].
Qed.

Lemma validateStorageClassConsistency_allowed get scs :
  2 ≤ length scs →
  Allowed (validateStorageClassConsistency get scs) = true ↔ ∃ b, all_of_type get b scs.
Proof.
  intros Hlen. unfold validateStorageClassConsistency. rewrite bool_decide_false by lia.
  destruct scs as [|first rest]; [simpl in Hlen; lia|].
  destruct (get first) as [e|s] eqn:Hg; simpl.
  - split; [done|]. intros [b H]. destruct (H first) as (? & ? & _); [set_solver|congruence].
  - rewrite consistent_with_allowed. split.
    + intros H. exists (IsBlockStorageClass s). intros x [->|?]%elem_of_cons; eauto.
    + intros [b H]. destruct (H first) as (s' & Hs' & <-); [set_solver|].
      rewrite Hg in Hs'. injection Hs' as <-. intros x Hx. apply H. set_solver.
Qed.

(** A validated topology names at least two classes. *)
Lemma validated_two_classes topo primary :
  topo ≠ [] → topology_ok primary topo → 2 ≤ length (topology_AllStorageClasses topo).
Proof.
  intros Hne (Hok & _ & _). destruct topo as [|t topo]; [done|].
  apply Forall_cons in Hok as [(_ & _ & Hd) _].
  assert (H1 : Source t ∈ topology_AllStorageClasses (t :: topo)).
  { apply elem_of_AllStorageClasses. exists t. set_solver. }
  assert (H2 : Destination t ∈ topology_AllStorageClasses (t :: topo)).
  { apply elem_of_AllStorageClasses. exists t. set_solver. }
  destruct (topology_AllStorageClasses (t :: topo)) as [|a [|b l]]; simpl; [set_solver| |lia].
  exfalso. apply Hd. set_solver.
Qed.

(** *** Responses without patches *)

Definition unpatched (r : Response) : Prop := Allowed r = false → Patch r = None.

Lemma first_denied_no_patch r k : unpatched r → Patch k = None → Patch (first_denied r k) = None.
Proof. unfold first_denied, unpatched. destruct (Allowed r); auto. Qed.

Lemma immutable_entries_no_patch i olds news : Patch (immutable_entries i olds news) = None.
Proof. revert i news. induction olds; intros i [|n news]; simpl; crush_matches. Qed.

Lemma consistent_with_no_patch get first b scs : Patch (consistent_with get first b scs) = None.
Proof. induction scs; simpl; crush_matches. Qed.

Lemma tenant_name_no_patch get primary scs :
  Patch (validateSubsystemLevelTenantName get primary scs) = None.
Proof. induction scs; simpl; crush_matches. Qed.

Lemma presence_no_patch get new view scs must :
  Patch (validateSubsystemPresence get new view scs must) = None.
Proof. induction scs; simpl; crush_matches. Qed.

Lemma first_conflict_no_patch l used : Patch (first_conflict l used) = None.
Proof. induction l; simpl; crush_matches. Qed.

Lemma clients_no_patch get new i topo acc r :
  clients_for_topology get new i topo acc = inl r → Patch r = None.
Proof.
  assert (Hcl : ∀ scs i acc r, clients_for get new i scs acc = inl r → Patch r = None).
  { clear. induction scs as [|sc scs IH]; intros i acc r; simpl; [done|].
    repeat (split_match; simplify_eq/=; try done; try (by intros [= <-])); eauto. }
  revert i acc. induction topo as [|t topo IH]; intros i acc; [done|].
  cbn [clients_for_topology]. destruct (clients_for _ _ _ _ _) eqn:Hc; [|apply IH].
  intros [= <-]. by eapply Hcl.
Qed.

Lemma validateAndDefault_unpatched get new peers raw topo :
  unpatched (fst (validateAndDefaultTopology get new peers raw topo)).
Proof.
  unfold unpatched, validateAndDefaultTopology.
  destruct (clients_for_topology _ _ _ _ _) eqn:Hc; [intros _; by eapply clients_no_patch|].
  destruct (ResolveAndFetchTopologyPeers _ _ _) as [topo' [e|]]; simpl; crush_matches.
Qed.

Lemma no_patch_unpatched r : Patch r = None → unpatched r.
Proof. by unfold unpatched. Qed.

#[export] Hint Resolve first_denied_no_patch immutable_entries_no_patch consistent_with_no_patch
  tenant_name_no_patch presence_no_patch first_conflict_no_patch validateAndDefault_unpatched
  no_patch_unpatched : vast.

Lemma immutable_guard_no_patch {A} (req : Request A) topology obj :
  Patch (immutable_guard req topology obj) = None.
Proof.
  unfold immutable_guard, validateTopologyImmutable. crush_matches. auto with vast.
Qed.

Lemma consistency_no_patch get scs : Patch (validateStorageClassConsistency get scs) = None.
Proof. unfold validateStorageClassConsistency. crush_matches. auto with vast. Qed.

Lemma validate_no_patch lvscr lvvr ns name kind scs :
  Patch (validate lvscr lvvr ns name kind scs) = None.
Proof. unfold validate. crush_matches. auto with vast. Qed.

#[export] Hint Resolve immutable_guard_no_patch consistency_no_patch validate_no_patch : vast.

(** ** Properties *)

Section Properties.

Context {clk : Clock}.
Variable GetStorageClass : string → result StorageClass.
Variable NewFromStorageClass : StorageClass → result string.
Variable ListPeers : string → option (list string) → result (list string).
Variable ViewExists : string → string → option string → result bool.

Notation vscr_handle := (vscr_Handle GetStorageClass NewFromStorageClass ListPeers ViewExists).
Notation vvr_handle := (vvr_Handle GetStorageClass NewFromStorageClass ListPeers ViewExists).

Lemma vscr_Handle_allowed lvscr lvvr req :
  Allowed (vscr_handle lvscr lvvr req) = true →
  ∃ obj, req_Object req = inr obj ∧ VSCR_Validate (vscr_Spec obj) = inr () ∧
    Allowed (immutable_guard req vscr_topology obj) = true ∧
    (req_Operation req = Create →
       Allowed (vscr_create_checks GetStorageClass NewFromStorageClass ListPeers ViewExists obj) = true) ∧
    Allowed (validateStorageClassConsistency GetStorageClass
               (VSCR_AllStorageClasses (vscr_Spec obj))) = true ∧
    ∃ vscrs vvrs, lvscr = inr vscrs ∧ lvvr = inr vvrs ∧ no_overlap obj vscrs vvrs.
Proof.
  unfold vscr_Handle. destruct (req_Object req) as [e|obj]; [done|].
  rewrite first_denied_allowed. intros [Him H].
  destruct (VSCR_Validate (vscr_Spec obj)) as [e|[]] eqn:Hv; [done|].
  rewrite !first_denied_allowed, validate_allowed in H. destruct H as (Hc & Hcons & Hov).
  exists obj. split_and!; try done. intros Hop. by rewrite bool_decide_true in Hc.
Qed.

(** What admission of a VastStorageClassReplication guarantees: the spec is
    valid, all its classes exist and have one driver type, none of them occurs
    in another VSCR or in any VVR, and an UPDATE kept source, destination and
    target directory of every entry. *)
Theorem vscr_admission_sound lvscr lvvr req :
  Allowed (vscr_handle lvscr lvvr req) = true →
  ∃ obj vscrs vvrs, req_Object req = inr obj ∧ lvscr = inr vscrs ∧ lvvr = inr vvrs ∧
    VSCR_Validate (vscr_Spec obj) = inr () ∧
    (∃ b, all_of_type GetStorageClass b (VSCR_AllStorageClasses (vscr_Spec obj))) ∧
    no_overlap obj vscrs vvrs ∧
    (req_Operation req = Update →
       ∃ old, req_OldObject req = inr old ∧ Forall2 same_shape (vscr_topology old) (vscr_topology obj)).
Proof.
  intros (obj & Hobj & Hv & Him & _ & Hcons & vscrs & vvrs & H1 & H2 & Hov)%vscr_Handle_allowed.
  exists obj, vscrs, vvrs. split_and!; try done.
  - apply validateStorageClassConsistency_allowed; [|done].
    pose proof (proj1 (VSCR_Validate_ok _) Hv) as (_ & Hne & _ & _ & Htop).
    by eapply validated_two_classes.
  - intros Hop. unfold immutable_guard in Him. rewrite bool_decide_true in Him by done.
    destruct (req_OldObject req) as [e|old]; [done|]. exists old. split; [done|].
    by apply validateTopologyImmutable_allowed.
Qed.

(** No answer of the two handlers ever carries a patch: the peer names that
    [validateAndDefaultTopology] discovers are computed and then dropped, so
    they are not persisted by the webhook. *)
Theorem admission_never_patches lvscr lvvr (GetPVC : string → string → result PVC)
    (req1 : Request VSCR) (req2 : Request VVR) :
  Patch (vscr_handle lvscr lvvr req1) = None ∧ Patch (vvr_handle GetPVC req2) = None.
Proof.
  split.
  - unfold vscr_Handle. destruct (req_Object req1) as [|obj]; [done|].
    apply first_denied_no_patch; [auto with vast|].
    destruct (VSCR_Validate _); [done|].
    apply first_denied_no_patch; [|auto with vast].
    case_bool_decide; [|done]. apply no_patch_unpatched. unfold vscr_create_checks.
    apply first_denied_no_patch; [auto with vast|]. crush_matches; auto with vast.
  - unfold vvr_Handle. destruct (req_Object req2) as [|obj]; [done|].
    apply first_denied_no_patch; [auto with vast|].
    destruct (VVR_Validate _); [done|].
    apply first_denied_no_patch; [|auto with vast].
    case_bool_decide; [|done]. apply no_patch_unpatched. unfold vvr_create_checks.
    apply first_denied_no_patch; [auto with vast|].
    apply first_denied_no_patch; [|auto with vast].
    apply no_patch_unpatched. unfold validateVVRPVCStorageClass. crush_matches.
Qed.

(** A VVR on a StorageClass of an existing VSCR blocks that VSCR: every
    later request for the VSCR, the controller's own finalizer updates
    included, is refused while the VVR exists. *)
Theorem vvr_blocks_vscr_updates lvscr vvrs (req : Request VSCR) (obj : VSCR) (w : VVR) (sc : string) :
  req_Object req = inr obj → w ∈ vvrs →
  sc ∈ VSCR_AllStorageClasses (vscr_Spec obj) → sc ∈ VVR_AllStorageClasses (vvr_Spec w) →
  Allowed (vscr_handle lvscr (inr vvrs) req) = false.
Proof.
  intros Hobj Hw Hsc Hscw. apply not_true_is_false.
  intros (obj' & Hobj' & _ & _ & _ & _ & vscrs & vvrs' & _ & [= <-] & Hov)%vscr_Handle_allowed.
  rewrite Hobj in Hobj'. injection Hobj' as <-. by eapply (proj2 (Hov sc Hsc) w).
Qed.

(** *** Admission as a transition system

    The stored VSCRs and VVRs; requests are admitted one after the other. *)
Record ClusterState := mkState { st_vscrs : list VSCR; st_vvrs : list VVR }.

Definition admitted (st : ClusterState) (req : Request VSCR) : Prop :=
  Allowed (vscr_handle (inr (st_vscrs st)) (inr (st_vvrs st)) req) = true.

Inductive admission_step (st : ClusterState) : ClusterState → Prop :=
| step_create obj old :
    vscr_key obj ∉ map vscr_key (st_vscrs st) →
    admitted st (mkRequest Create (inr obj) old) →
    admission_step st (mkState (obj :: st_vscrs st) (st_vvrs st))
| step_update l1 l2 old obj :
    st_vscrs st = l1 ++ old :: l2 → vscr_key obj = vscr_key old →
    admitted st (mkRequest Update (inr obj) (inr old)) →
    admission_step st (mkState (l1 ++ obj :: l2) (st_vvrs st))
| step_delete l1 l2 old :
    st_vscrs st = l1 ++ old :: l2 →
    admission_step st (mkState (l1 ++ l2) (st_vvrs st))
| step_vvrs vvrs : admission_step st (mkState (st_vscrs st) vvrs).

Definition exclusive (l : list VSCR) : Prop :=
  NoDup (map vscr_key l) ∧
  ∀ v w sc, v ∈ l → w ∈ l → vscr_key v ≠ vscr_key w →
    sc ∈ VSCR_AllStorageClasses (vscr_Spec v) → sc ∉ VSCR_AllStorageClasses (vscr_Spec w).

Lemma admitted_no_overlap st op obj old :
  admitted st (mkRequest op (inr obj) old) → no_overlap obj (st_vscrs st) (st_vvrs st).
Proof.
  unfold admitted. intros (obj' & [= <-] & _ & _ & _ & _ & ? & ? & [= <-] & [= <-] & H)%vscr_Handle_allowed.
  done.
Qed.

(** Adding an object that overlaps nothing stored under another key. *)
Lemma exclusive_add obj l l' vvrs :
  exclusive l → no_overlap obj l' vvrs → (∀ v, v ∈ l → v ∈ l') →
  vscr_key obj ∉ map vscr_key l → exclusive (obj :: l).
Proof.
  intros [Hnd Hex] Hov Hsub Hkey. split; [by constructor|].
  intros v w sc [->|Hv]%elem_of_cons [->|Hw]%elem_of_cons Hk Hsc; [done| | |by apply (Hex v w sc)].
  - apply (proj1 (Hov sc Hsc) w); [by apply Hsub|congruence].
  - intros Hin. apply (proj1 (Hov sc Hin) v); [by apply Hsub|congruence|done].
Qed.

#[global] Instance exclusive_proper : Proper ((≡ₚ) ==> iff) exclusive.
Proof. intros l1 l2 H. unfold exclusive. by setoid_rewrite H. Qed.

Lemma exclusive_cons_inv obj l : exclusive (obj :: l) → exclusive l.
Proof. intros [[_ Hnd]%NoDup_cons Hex]. split; [done|].
  intros v w sc Hv Hw. apply Hex; by right. Qed.

(** C23. Admitted one request at a time, the stored VSCRs always have pairwise
    disjoint StorageClasses: the invariant holds initially (no VSCR) and is
    preserved by every create, update and delete, whatever happens to VVRs. *)
Theorem vscr_classes_exclusive (st : ClusterState) :
  rtc admission_step (mkState [] []) st → exclusive (st_vscrs st).
Proof.
  intros Hr. assert (Hinit : exclusive (st_vscrs (mkState [] []))).
  { split; [constructor|]. intros. set_solver. }
  revert Hinit. induction Hr as [|s1 s2 s3 Hstep _ IH]; [done|]. intros H1. apply IH. clear IH.
  destruct Hstep as [obj old Hkey Hadm|l1 l2 old obj Hst Hkey Hadm|l1 l2 old Hst|vvrs]; simpl.
  - apply admitted_no_overlap in Hadm. by eapply exclusive_add.
  - apply admitted_no_overlap in Hadm. rewrite Hst in *. rewrite <-Permutation_middle in H1 |- *.
    assert (Hn : vscr_key obj ∉ map vscr_key (l1 ++ l2)).
    { rewrite Hkey. by destruct H1 as [[? _]%NoDup_cons _]. }
    eapply exclusive_add; [by eapply exclusive_cons_inv|exact Hadm| |done].
    intros v. rewrite !elem_of_app, elem_of_cons. tauto.
  - rewrite Hst, <-Permutation_middle in H1. by eapply exclusive_cons_inv.
  - done.
Qed.

End Properties.

(** ** Witnesses *)

Definition demo_get (name : string) : result StorageClass :=
  inr (mkSC name "csi.vastdata.com" {["root_export" := "/k8s"]} []).
Definition demo_new (sc : StorageClass) : result string := inr (sc_Name sc).
Definition demo_list (sc : string) (q : option (list string)) : result (list string) := inr ["p"].
Definition demo_view (rest name : string) (tenant : option string) : result bool := inr true.
Definition demo_status : ReplicationStatus := mkStatus FailoverTypeUnset "" "" ∅ ∅ "" "".
Definition demo_vscr_obj (name : string) (scs : string * string) : VSCR :=
  mkVSCR (plain_meta "ops" name)
    (mkVSCRSpec scs.1 [mkTarget scs.1 scs.2 "" ""] (mkTemplate [demo_frame])
       FailoverTypeUngraceful false 0 false true DestVolReclaimPolicyRetain "") demo_status.
Definition demo_vvr_obj (scs : string * string) : VVR :=
  mkVVR (plain_meta "ops" "w")
    (mkVVRSpec "data" "" scs.1 [mkTarget scs.1 scs.2 "" ""] (mkTemplate [demo_frame])
       FailoverTypeUngraceful false 0 false DestVolReclaimPolicyRetain) demo_status.
Definition demo_pvc (name ns : string) : result PVC :=
  inr (mkPVC (plain_meta ns name) (Some "a") "pv-1" (mkShape [] ∅ None)).

Lemma vscr_admission_sound_witness :
  ∃ obj vscrs vvrs, inr (demo_vscr_obj "x" ("a", "b")) = inr (A := error) obj ∧
    no_overlap obj vscrs vvrs.
Proof.
  destruct (@vscr_admission_sound demo_clock demo_get demo_new demo_list demo_view
              (inr [demo_vscr_obj "y" ("c", "d")]) (inr [])
              (mkRequest Create (inr (demo_vscr_obj "x" ("a", "b"))) (inl ErrDeadlineExceeded)))
    as (obj & vscrs & vvrs & Hobj & _ & _ & _ & _ & Hov & _).
  - vm_compute. reflexivity.
  - exists obj, vscrs, vvrs. split; [exact Hobj|exact Hov].
Defined.

(** A VVR is admitted on the class of an existing VSCR, whose updates are
    refused from then on. *)
Lemma vvr_blocks_vscr_updates_witness :
  let v := demo_vscr_obj "x" ("a", "b") in
  let w := demo_vvr_obj ("a", "b") in
  Allowed (@vvr_Handle demo_clock demo_get demo_new demo_list demo_view demo_pvc
             (mkRequest Create (inr w) (inl ErrDeadlineExceeded))) = true ∧
  Allowed (@vscr_Handle demo_clock demo_get demo_new demo_list demo_view (inr [v]) (inr [w])
             (mkRequest Update (inr v) (inr v))) = false.
Proof.
  intros v w. split; [vm_compute; reflexivity|].
  apply (@vvr_blocks_vscr_updates demo_clock demo_get demo_new demo_list demo_view (inr [v]) [w]
           (mkRequest Update (inr v) (inr v)) v w "a").
  - reflexivity.
  - set_solver.
  - apply elem_of_AllStorageClasses. exists (mkTarget "a" "b" "" ""). simpl. set_solver.
  - apply elem_of_AllStorageClasses. exists (mkTarget "a" "b" "" ""). simpl. set_solver.
Defined.

Lemma vscr_classes_exclusive_witness :
  exclusive [demo_vscr_obj "x" ("a", "b"); demo_vscr_obj "y" ("c", "d")].
Proof.
  apply (@vscr_classes_exclusive demo_clock demo_get demo_new demo_list demo_view
           (mkState [demo_vscr_obj "x" ("a", "b"); demo_vscr_obj "y" ("c", "d")] [])).
  eapply rtc_l; [apply (step_create _ _ _ _ _ (demo_vscr_obj "y" ("c", "d")) (inl ErrDeadlineExceeded));
                 [set_solver|vm_compute; reflexivity]|].
  eapply rtc_l; [apply (step_create _ _ _ _ _ (demo_vscr_obj "x" ("a", "b")) (inl ErrDeadlineExceeded));
                 [simpl; unfold vscr_key; set_solver|vm_compute; reflexivity]|].
  apply rtc_refl.
Defined.
