(* ===== verification/PvcWebhook.v ===== *)
(** * The mutating webhooks

    [internal/webhook/pvc_label_webhook.go]: PVC admission, which refuses PVCs
    on a replication secondary and injects the replication labels; its cache
    of StorageClasses is explicit state.  [internal/webhook/bucket_params_webhook.go]
    with [internal/common/cosi/parameters.go]: merging claim annotations into
    bucket parameters.

    Compiled regular expressions are boolean predicates of the configuration;
    the API server is an argument. *)

From S2P Require Import Prelude GoErrors Topology Kube Naming.
From stdpp Require Import options.

(** An admission answer with the object it writes back, if any. *)
Inductive Answer (A : Type) :=
| AAllowed (msg : string)
| ADenied (msg : string)
| AErrored (code : Z) (e : error)
| APatched (obj : A).
Arguments AAllowed {_} _.
Arguments ADenied {_} _.
Arguments AErrored {_} _ _.
Arguments APatched {_} _.

(** ** PVC labels *)

Record scInfo := mkScInfo { sci_provisioner : string; sci_subsystem : string }.

(** The configuration; a regex field is [None] when its pattern is empty. *)
Record PvcConfig := mkPvcConfig {
  CSIDriverName : string;
  csiDriverNameRegex : option (string → bool);
  StorageClassName : string;
  storageClassNameRegex : option (string → bool);
  pvcNameRegex : option (string → bool);
}.

Definition matchesCSIDriverFilter (cfg : PvcConfig) (provisioner : string) : bool :=
  if bool_decide (CSIDriverName cfg ≠ "") then bool_decide (provisioner = CSIDriverName cfg)
  else match csiDriverNameRegex cfg with Some re => re provisioner | None => false end.

Definition matchesStorageClassFilter (cfg : PvcConfig) (scName : string) : bool :=
  if bool_decide (StorageClassName cfg ≠ "") then bool_decide (scName = StorageClassName cfg)
  else match storageClassNameRegex cfg with Some re => re scName | None => true end.

Definition matchesPVCNameFilter (cfg : PvcConfig) (pvcName : string) : bool :=
  match pvcNameRegex cfg with Some re => re pvcName | None => true end.

(** [sanitizeLabelValue] repeats [utils.SanitizeLabelValue]. *)
Definition sanitizeLabelValue (value : string) : string := SanitizeLabelValue value.

Definition secondary_site {A} (state : A → State) (desired : A → ReplicationState) (x : A) : bool :=
  bool_decide (state x = SecondaryState) && negb (bool_decide (desired x = Resync)).

Definition read_only_message (scName : string) : string :=
  "StorageClass " +:+ quote scName +:+ " is currently a replication secondary (read-only). PVC creation is not allowed on a read-only cluster. Promote this cluster to primary first.".

Section PvcHandler.

Variable cfg : PvcConfig.
Variable GetStorageClass : string → result StorageClass.
(** Listings by the managed-by and storageClass labels in a namespace. *)
Variable ListVGRs : string → string → result (list VolumeGroupReplication).
Variable ListVRs : string → string → result (list VolumeReplication).

(** A listing that fails is logged and skipped. *)
Definition checkReplicationState (namespace scName : string) : bool * string :=
  let vgr_hit := match ListVGRs namespace scName with
                 | inl _ => false
                 | inr vgrs => existsb (secondary_site vgr_State vgr_ReplicationState) vgrs
                 end in
  if vgr_hit then (true, read_only_message scName)
  else
    let vr_hit := match ListVRs namespace scName with
                  | inl _ => false
                  | inr vrs => existsb (secondary_site vr_State vr_ReplicationState) vrs
                  end in
    if vr_hit then (true, read_only_message scName) else (false, "").

Notation Cache := (gmap string scInfo).

Definition cachedSCInfo (cache : Cache) (scName : string) : Cache * result scInfo :=
  match cache !! scName with
  | Some info => (cache, inr info)
  | None =>
      match GetStorageClass scName with
      | inl e => (cache, inl e)
      | inr sc =>
          let info := mkScInfo (sc_Provisioner sc)
                        (map_get (sc_Parameters sc) StorageClassParameterSubsystem) in
          (<[scName := info]> cache, inr info)
      end
  end.

Definition with_pvc_meta (pvc : PVC) (m : ObjectMeta) : PVC :=
  mkPVC m (pvc_StorageClassName pvc) (pvc_VolumeName pvc) (pvc_Shape pvc).

(** [if !HasLabel(pvc, key) { SetLabel(pvc, key, value); modified = true }] *)
Definition set_if_missing (key value : string) (s : ObjectMeta * bool) : ObjectMeta * bool :=
  if HasLabel s.1 key then s else (SetLabel s.1 key value, true).

Definition inject_labels (scName : string) (info : scInfo) (pvc : PVC) : PVC * bool :=
  let s1 := set_if_missing LabelStorageClass scName (pvc_Meta pvc, false) in
  let s2 := if bool_decide (sci_subsystem info ≠ "")
            then set_if_missing LabelSubsystem (sci_subsystem info) s1 else s1 in
  (with_pvc_meta pvc s2.1, s2.2).

Definition pvc_Handle (cache : Cache) (req : result PVC) : Cache * Answer PVC :=
  match req with
  | inl _ => (cache, AAllowed "decode error, skipping")
  | inr pvc =>
      let scName := default "" (pvc_StorageClassName pvc) in
      if bool_decide (scName = "") then (cache, AAllowed "no storageClassName")
      else
        match cachedSCInfo cache scName with
        | (cache', inl e) =>
            if IsNotFound (Some e) then (cache', AAllowed "storageClass not found")
            else (cache', AAllowed "failed to get storageClass")
        | (cache', inr info) =>
            (cache',
             if negb (matchesCSIDriverFilter cfg (sci_provisioner info))
             then AAllowed "provisioner does not match CSI driver filter"
             else
               let managed := bool_decide
                 (map_get (Labels (pvc_Meta pvc)) LabelManagedBy = LabelManagedByValue) in
               let '(denied, msg) :=
                 if managed then (false, "")
                 else checkReplicationState (Namespace (pvc_Meta pvc)) scName in
               if denied then ADenied msg
               else if negb (matchesStorageClassFilter cfg scName)
               then AAllowed "storageClass does not match filter"
               else if negb (matchesPVCNameFilter cfg (Name (pvc_Meta pvc)))
               then AAllowed "PVC name does not match filter"
               else
                 let '(pvc', modified) := inject_labels scName info pvc in
                 if negb modified then AAllowed "labels already present" else APatched pvc')
        end
  end.

End PvcHandler.

(** ** Bucket parameters *)

Definition AnnotationPrefix := "cosi.vastdata.com/".

Definition ParamsFromClaimAnnotations (annotations : gmap string string) : gmap string string :=
  filter (fun kv => has_prefix kv.1 AnnotationPrefix = true ∧ kv.2 ≠ "") annotations.

Definition MergeParameters (classParams claimParams : gmap string string) : gmap string string :=
  claimParams ∪ classParams.

Definition SecretNameParam := "vastdata.com/secret-name".
Definition SecretNamespaceParam := "vastdata.com/secret-namespace".

Definition SecretRefFromParameters (params : gmap string string) : option (string * string) :=
  let name := map_get params SecretNameParam in
  let namespace := map_get params SecretNamespaceParam in
  if bool_decide (name = "") && bool_decide (namespace = "") then None
  else Some (name, namespace).

Record Bucket := mkBucket {
  bucket_DriverName : string;
  bucket_Claim : option (string * string);      (* namespace, name *)
  bucket_Parameters : gmap string string;
}.

Definition bucket_Handle (DriverName req_ns : string)
    (GetClaimAnnotations : string * string → result (gmap string string))
    (req : result Bucket) : Answer Bucket :=
  match req with
  | inl e => AErrored 400 e
  | inr bucket =>
      if bool_decide (bucket_DriverName bucket = "") then AAllowed "no driverName"
      else if negb (bool_decide (bucket_DriverName bucket = DriverName))
      then AAllowed "not a VAST COSI bucket"
      else
        match bucket_Claim bucket with
        | None => AAllowed "no bucketClaim reference"
        | Some (ns, name) =>
            let claimKey := (if bool_decide (ns = "") then req_ns else ns, name) in
            match GetClaimAnnotations claimKey with
            | inl e =>
                if IsNotFound (Some e)
                then ADenied ("BucketClaim " +:+ quote (claimKey.1 +:+ "/" +:+ claimKey.2) +:+ " not found")
                else AErrored 500 e
            | inr annotations =>
                let claimParams := ParamsFromClaimAnnotations annotations in
                if bool_decide (size claimParams = 0) then AAllowed "no cosi claim parameters"
                else
                  let merged := MergeParameters (bucket_Parameters bucket) claimParams in
                  if bool_decide (bucket_Parameters bucket = merged)
                  then AAllowed "parameters unchanged"
                  else APatched (mkBucket (bucket_DriverName bucket) (bucket_Claim bucket) merged)
            end
        end
  end.

(** ** Lemmas *)

Lemma set_if_missing_spec key value s :
  let s' := set_if_missing key value s in
  Labels s.1 ⊆ Labels s'.1 ∧ HasLabel s'.1 key = true ∧
  Name s'.1 = Name s.1 ∧ Namespace s'.1 = Namespace s.1.
Proof.
  unfold set_if_missing. destruct (HasLabel s.1 key) eqn:H; [done|]. simpl.
  split_and!; [by apply (SetLabel_subseteq s.1)| |done|done].
  rewrite HasLabel_SetLabel. by rewrite bool_decide_true.
Qed.

Lemma HasLabel_mono m m' key :
  Labels m ⊆ Labels m' → HasLabel m key = true → HasLabel m' key = true.
Proof.
  unfold HasLabel. rewrite !bool_decide_eq_true. intros Hs [v Hv]. exists v.
  by eapply lookup_weaken.
Qed.

Lemma set_if_missing_present key value s :
  HasLabel s.1 key = true → set_if_missing key value s = s.
Proof. unfold set_if_missing. by intros ->. Qed.

(** Injection adds the labels, keeps every existing one, and is idempotent. *)
Lemma inject_labels_spec scName info pvc :
  let pvc' := (inject_labels scName info pvc).1 in
  Labels (pvc_Meta pvc) ⊆ Labels (pvc_Meta pvc') ∧
  HasLabel (pvc_Meta pvc') LabelStorageClass = true ∧
  (sci_subsystem info ≠ "" → HasLabel (pvc_Meta pvc') LabelSubsystem = true) ∧
  Name (pvc_Meta pvc') = Name (pvc_Meta pvc) ∧
  Namespace (pvc_Meta pvc') = Namespace (pvc_Meta pvc).
Proof.
  cbv zeta. unfold inject_labels.
  destruct (set_if_missing_spec LabelStorageClass scName (pvc_Meta pvc, false)) as (H1 & H2 & H3 & H4).
  set (s1 := set_if_missing LabelStorageClass _ _) in *. clearbody s1.
  destruct (bool_decide_reflect (sci_subsystem info ≠ "")) as [Hs|Hs].
  - destruct (set_if_missing_spec LabelSubsystem (sci_subsystem info) s1) as (K1 & K2 & K3 & K4).
    set (s2 := set_if_missing LabelSubsystem _ _) in *. clearbody s2. cbn [pvc_Meta fst with_pvc_meta] in *.
    split_and!; [by etrans|by eapply HasLabel_mono|done|congruence|congruence].
  - cbn [pvc_Meta fst with_pvc_meta] in *. done.
Qed.

Lemma inject_labels_present scName info pvc :
  HasLabel (pvc_Meta pvc) LabelStorageClass = true →
  (sci_subsystem info ≠ "" → HasLabel (pvc_Meta pvc) LabelSubsystem = true) →
  (inject_labels scName info pvc).2 = false.
Proof.
  intros H1 H2. unfold inject_labels.
  rewrite (set_if_missing_present LabelStorageClass) by done.
  case_bool_decide; [|done]. by rewrite set_if_missing_present by auto.
Qed.

Section PvcProperties.

Variable cfg : PvcConfig.
Variable GetStorageClass : string → result StorageClass.
Variable ListVGRs : string → string → result (list VolumeGroupReplication).
Variable ListVRs : string → string → result (list VolumeReplication).

Notation handle := (pvc_Handle cfg GetStorageClass ListVGRs ListVRs).

Definition info_of (sc : StorageClass) : scInfo :=
  mkScInfo (sc_Provisioner sc) (map_get (sc_Parameters sc) StorageClassParameterSubsystem).

(** The cache only holds what the API server answered. *)
Definition cache_ok (cache : gmap string scInfo) : Prop :=
  ∀ sc info, cache !! sc = Some info → ∃ s, GetStorageClass sc = inr s ∧ info = info_of s.

Lemma cachedSCInfo_ok cache sc :
  cache_ok cache →
  cache_ok (cachedSCInfo GetStorageClass cache sc).1 ∧
  (cachedSCInfo GetStorageClass cache sc).2
  = match GetStorageClass sc with inl e => inl e | inr s => inr (info_of s) end.
Proof.
  intros Hc. unfold cachedSCInfo. destruct (cache !! sc) as [info|] eqn:Hlk.
  - destruct (Hc sc info Hlk) as (s & Hs & ->). split; [done|]. simpl. by rewrite Hs.
  - destruct (GetStorageClass sc) as [e|s] eqn:Hs; [done|]. split; [|done].
    intros sc' info'. simpl. rewrite lookup_insert_Some. intros [[<- <-]|[_ ?]]; [eauto|by apply Hc].
Qed.

(** A site is a read-only secondary for a class as far as the listings tell. *)
Definition on_secondary (ns sc : string) : Prop :=
  (∃ l v, ListVGRs ns sc = inr l ∧ v ∈ l ∧ vgr_State v = SecondaryState ∧ vgr_ReplicationState v ≠ Resync) ∨
  (∃ l v, ListVRs ns sc = inr l ∧ v ∈ l ∧ vr_State v = SecondaryState ∧ vr_ReplicationState v ≠ Resync).

Lemma secondary_site_spec {A} (st : A → State) des (l : list A) :
  existsb (secondary_site st des) l = true ↔
  ∃ x, x ∈ l ∧ st x = SecondaryState ∧ des x ≠ Resync.
Proof.
  rewrite existsb_exists. unfold secondary_site.
  setoid_rewrite andb_true_iff. setoid_rewrite negb_true_iff.
  setoid_rewrite bool_decide_eq_true. setoid_rewrite bool_decide_eq_false.
  by setoid_rewrite list_elem_of_In.
Qed.

Lemma checkReplicationState_spec ns sc :
  (checkReplicationState ListVGRs ListVRs ns sc).1 = true ↔ on_secondary ns sc.
Proof.
  clear cfg GetStorageClass. unfold checkReplicationState, on_secondary.
  set (a := match ListVGRs ns sc with inl _ => false | inr _ => _ end).
  set (b := match ListVRs ns sc with inl _ => false | inr _ => _ end).
  assert (Ha : a = true ↔ ∃ l v, ListVGRs ns sc = inr l ∧ v ∈ l ∧
                 vgr_State v = SecondaryState ∧ vgr_ReplicationState v ≠ Resync).
  { unfold a. destruct (ListVGRs ns sc) as [|l]; [naive_solver|].
    rewrite secondary_site_spec. naive_solver. }
  assert (Hb : b = true ↔ ∃ l v, ListVRs ns sc = inr l ∧ v ∈ l ∧
                 vr_State v = SecondaryState ∧ vr_ReplicationState v ≠ Resync).
  { unfold b. destruct (ListVRs ns sc) as [|l]; [naive_solver|].
    rewrite secondary_site_spec. naive_solver. }
  rewrite <-Ha, <-Hb. destruct a, b; simpl; naive_solver.
Qed.

Definition managed (pvc : PVC) : Prop :=
  map_get (Labels (pvc_Meta pvc)) LabelManagedBy = LabelManagedByValue.

(** C34. A PVC is refused exactly when its StorageClass exists, belongs to the
    configured driver, the PVC is no managed mirror, and some listed VGR or VR
    of that class is secondary and not resyncing; every lookup failure lets it
    through. *)
Theorem pvc_denied_iff (cache : gmap string scInfo) (pvc : PVC) (sc : string) :
  cache_ok cache → pvc_StorageClassName pvc = Some sc → sc ≠ "" →
  (∃ msg, (handle cache (inr pvc)).2 = ADenied msg) ↔
  (∃ s, GetStorageClass sc = inr s ∧ matchesCSIDriverFilter cfg (sc_Provisioner s) = true) ∧
  ¬ managed pvc ∧ on_secondary (Namespace (pvc_Meta pvc)) sc.
Proof.
  intros Hc Hsc Hne. unfold pvc_Handle. rewrite Hsc. simpl default.
  rewrite bool_decide_false by done.
  destruct (cachedSCInfo_ok cache sc Hc) as [_ Hi].
  destruct (cachedSCInfo GetStorageClass cache sc) as [cache' r]. simpl in Hi. subst r.
  destruct (GetStorageClass sc) as [e|s].
  { split; [destruct (IsNotFound (Some e)); by intros [? ?]|]. by intros [(s & [=] & _) _]. }
  simpl. destruct (matchesCSIDriverFilter cfg (sc_Provisioner s)) eqn:Hf; simpl.
  2: { split; [by intros [? ?]|]. intros [(s' & [= <-] & ?) _]. congruence. }
  rewrite <-checkReplicationState_spec. unfold managed.
  destruct (bool_decide_reflect (map_get (Labels (pvc_Meta pvc)) LabelManagedBy = LabelManagedByValue))
    as [Hm|Hm].
  - split; [|by intros (_ & ? & _)]. intros [msg H]. revert H. crush_matches.
  - destruct (checkReplicationState _ _ _ _) as [[] msg] eqn:Hcr; simpl.
    + split; [|eauto]. intros _. split_and!; eauto.
    + split; [|by intros (_ & _ & ?)]. intros [msg' H]. revert H. crush_matches.
Qed.

(** A label patch only adds the two labels, and admitting the patched PVC
    again (with whatever the cache holds by then) changes nothing. *)
Theorem pvc_patch_stable (cache cache' : gmap string scInfo) (pvc pvc' : PVC) (c1 : gmap string scInfo) :
  cache_ok cache → cache_ok cache' →
  handle cache (inr pvc) = (c1, APatched pvc') →
  Labels (pvc_Meta pvc) ⊆ Labels (pvc_Meta pvc') ∧
  (handle cache' (inr pvc')).2 = AAllowed "labels already present".
Proof.
  intros Hc Hc' H. unfold pvc_Handle in H.
  set (sc := default "" (pvc_StorageClassName pvc)) in *.
  case_bool_decide as Hne; [done|].
  destruct (cachedSCInfo_ok cache sc Hc) as [_ Hi].
  destruct (cachedSCInfo GetStorageClass cache sc) as [c r]. simpl in Hi. subst r.
  destruct (GetStorageClass sc) as [e|s] eqn:Hs.
  { destruct (IsNotFound (Some e)); discriminate. }
  apply (f_equal snd) in H; cbn [snd] in H.
  destruct (matchesCSIDriverFilter _ _) eqn:Hf; cbn [negb] in H; [|done].
  destruct (if bool_decide _ then _ else _) as [den msg] eqn:Hden.
  destruct den; [done|].
  destruct (matchesStorageClassFilter cfg sc) eqn:Hsf; cbn [negb] in H; [|done].
  destruct (matchesPVCNameFilter cfg (Name (pvc_Meta pvc))) eqn:Hpf; cbn [negb] in H; [|done].
  pose proof (inject_labels_spec sc (info_of s) pvc) as (Hsub & H1 & H2 & Hn & Hns).
  fold (info_of s) in H.
  destruct (inject_labels sc (info_of s) pvc) as [p' []] eqn:Hinj; cbn [negb] in H; [|done].
  injection H as <-. cbn [fst] in *. split; [done|].
  assert (Hp' : pvc_StorageClassName p' = pvc_StorageClassName pvc).
  { unfold inject_labels in Hinj. by injection Hinj as <- _. }
  unfold pvc_Handle. rewrite Hp'. fold sc. rewrite bool_decide_false by done.
  destruct (cachedSCInfo_ok cache' sc Hc') as [_ Hi'].
  destruct (cachedSCInfo GetStorageClass cache' sc) as [c' r]. simpl in Hi'. subst r.
  rewrite Hs. cbn [snd]. rewrite Hf. cbn [negb]. rewrite Hns, Hn.
  destruct (bool_decide_reflect (map_get (Labels (pvc_Meta pvc)) LabelManagedBy = LabelManagedByValue))
    as [Hm|Hm].
  - rewrite bool_decide_true.
    2: { unfold map_get in *. destruct (Labels (pvc_Meta pvc) !! LabelManagedBy) eqn:Hlk; [|done].
         by rewrite (lookup_weaken _ _ _ _ Hlk Hsub). }
    rewrite Hsf, Hpf. cbn [negb].
    pose proof (inject_labels_present sc (info_of s) p' H1 H2) as Hf2.
    destruct (inject_labels sc (info_of s) p') as [? ?]. simpl in Hf2. by subst.
  - rewrite Hden. pose proof (inject_labels_present sc (info_of s) p' H1 H2) as Hf2.
    destruct (if bool_decide _ then _ else _) as [den' msg'] eqn:Hden'.
    assert (den' = false) as -> by (case_bool_decide; by simplify_eq).
    rewrite Hsf, Hpf. cbn [negb].
    destruct (inject_labels sc (info_of s) p') as [? ?]. simpl in Hf2. by subst.
Qed.

End PvcProperties.

(** ** Witnesses *)

Definition pvc_demo_cfg : PvcConfig := mkPvcConfig "csi.vastdata.com" None "" None None.
Definition pvc_demo_get (name : string) : result StorageClass :=
  inr (mkSC name "csi.vastdata.com" {[StorageClassParameterSubsystem := "sub1"]} []).
Definition pvc_demo_vgrs (ns sc : string) : result (list VolumeGroupReplication) :=
  if bool_decide (sc = "sec")
  then inr [mkVGR (mkMeta "vgr" ns "u" ∅ ∅ [] [] 1 false) Secondary "r" "" "" true None SecondaryState []]
  else inr [].
Definition pvc_demo_vrs (ns sc : string) : result (list VolumeReplication) := inr [].
Definition pvc_demo (sc : string) : PVC :=
  mkPVC (mkMeta "data" "ns" "u" ∅ ∅ [] [] 1 false) (Some sc) "" (mkShape [] ∅ None).

Lemma pvc_denied_iff_witness :
  ∃ msg, (pvc_Handle pvc_demo_cfg pvc_demo_get pvc_demo_vgrs pvc_demo_vrs ∅
            (inr (pvc_demo "sec"))).2 = ADenied msg.
Proof.
  apply (pvc_denied_iff pvc_demo_cfg pvc_demo_get pvc_demo_vgrs pvc_demo_vrs ∅ (pvc_demo "sec") "sec").
  - intros sc info H. by rewrite lookup_empty in H.
  - reflexivity.
  - discriminate.
  - split_and!.
    + eexists. split; [reflexivity|vm_compute; reflexivity].
    + unfold managed. vm_compute. discriminate.
    + left. do 2 eexists. split; [vm_compute; reflexivity|].
      split; [left|]. split; [reflexivity|discriminate].
Defined.

Lemma pvc_patch_stable_witness :
  ∃ pvc', (pvc_Handle pvc_demo_cfg pvc_demo_get pvc_demo_vgrs pvc_demo_vrs ∅
             (inr (pvc_demo "gold"))).2 = APatched pvc' ∧
    (pvc_Handle pvc_demo_cfg pvc_demo_get pvc_demo_vgrs pvc_demo_vrs ∅
       (inr pvc')).2 = AAllowed "labels already present".
Proof.
  eexists. split; [vm_compute; reflexivity|].
  eapply (pvc_patch_stable pvc_demo_cfg pvc_demo_get pvc_demo_vgrs pvc_demo_vrs ∅ ∅ (pvc_demo "gold")).
  - intros sc info H. by rewrite lookup_empty in H.
  - intros sc info H. by rewrite lookup_empty in H.
  - vm_compute. reflexivity.
Defined.
