(* ===== verification/Predicates.v ===== *)
(** * Event predicates of the controllers

    [internal/controller/predicates.go]: which watch events reach which
    reconciler.  A [client.Object] is metadata with the concrete type behind
    the interface ([Kind]); the Go type assertions are matches on it. *)

From S2P Require Import Prelude GoErrors Topology Kube Naming.
From stdpp Require Import options.

(** ** Objects and events *)

Inductive Object :=
| OVR (vr : VolumeReplication)
| OVGR (vgr : VolumeGroupReplication)
| OOther (m : ObjectMeta).

Definition meta_of (o : Object) : ObjectMeta :=
  match o with OVR vr => vr_Meta vr | OVGR vgr => vgr_Meta vgr | OOther m => m end.

Inductive Event :=
| CreateEvent (o : Object)
| UpdateEvent (old new : Object)
| DeleteEvent (o : Object)
| GenericEvent (o : Object).

(** A predicate is the four functions of [predicate.Funcs] as one match. *)
Notation Predicate := (Event → bool).

(** ** The predicates *)

Definition isOwnedByVSCROrVVR (obj : Object) : bool :=
  if bool_decide (is_Some (OwnerByKind (OwnerReferences (meta_of obj)) "VastStorageClassReplication"))
  then true
  else if bool_decide (is_Some (OwnerByKind (OwnerReferences (meta_of obj)) "VastVolumeReplication"))
  then true
  else
    let labels := Labels (meta_of obj) in
    bool_decide (map_get labels LabelSourceVSCR ≠ "") || bool_decide (map_get labels LabelSourceVVR ≠ "").

Definition triggerAnnotationChanged (old new : Object) (key : string) : bool :=
  let oldVal := map_get (Annotations (meta_of old)) key in
  let newVal := map_get (Annotations (meta_of new)) key in
  bool_decide (newVal ≠ "") && bool_decide (newVal ≠ oldVal).

Definition VastReplicationContentPredicate : Predicate := fun e =>
  match e with
  | CreateEvent _ => true
  | UpdateEvent old new =>
      if Deleting (meta_of new) then true
      else if negb (Z.eqb (Generation (meta_of new)) (Generation (meta_of old))) then true
      else triggerAnnotationChanged old new AnnotationResyncRequestedAt
           || triggerAnnotationChanged old new AnnotationMirrorSyncRequestedAt
  | DeleteEvent _ => true
  | GenericEvent _ => false
  end.

Definition volumeReplicationPredicate : Predicate := fun e =>
  match e with
  | CreateEvent o => isOwnedByVSCROrVVR o
  | UpdateEvent old new =>
      if negb (isOwnedByVSCROrVVR new) then false
      else if Deleting (meta_of new) then true
      else match new, old with
           | OVR vrNew, OVR vrOld => negb (bool_decide (vr_State vrNew = vr_State vrOld))
           | _, _ => false
           end
  | DeleteEvent o => isOwnedByVSCROrVVR o
  | GenericEvent _ => false
  end.

(** Reference lists as the names of the references; a Go map used as a set. *)
Definition vgrPVCListChanged (old new : list string) : bool :=
  if negb (Nat.eqb (length old) (length new)) then true
  else
    let oldNames : gset string := foldl (fun s name => {[ name ]} ∪ s) ∅ old in
    existsb (fun name => negb (bool_decide (name ∈ oldNames))) new.

Definition volumeGroupReplicationPredicate : Predicate := fun e =>
  match e with
  | CreateEvent o => isOwnedByVSCROrVVR o
  | UpdateEvent old new =>
      if negb (isOwnedByVSCROrVVR new) then false
      else if Deleting (meta_of new) then true
      else match new, old with
           | OVGR vgrNew, OVGR vgrOld =>
               if vgrPVCListChanged (vgr_PVCs vgrOld) (vgr_PVCs vgrNew) then true
               else if bool_decide (vgr_VolumeReplicationName vgrNew = "") then false
               else negb (bool_decide (vgr_State vgrNew = vgr_State vgrOld))
           | _, _ => false
           end
  | DeleteEvent o => isOwnedByVSCROrVVR o
  | GenericEvent _ => false
  end.

Definition ownedVRPredicate : Predicate := fun e =>
  match e with
  | CreateEvent _ => false
  | UpdateEvent old new =>
      if negb (Deleting (meta_of old)) && Deleting (meta_of new) then true
      else match new, old with
           | OVR vrNew, OVR vrOld => IsVRConfirmedPrimary vrNew && negb (IsVRConfirmedPrimary vrOld)
           | _, _ => false
           end
  | DeleteEvent _ => false
  | GenericEvent _ => false
  end.

Definition ownedVGRPredicate : Predicate := fun e =>
  match e with
  | CreateEvent _ => false
  | UpdateEvent old new =>
      if negb (Deleting (meta_of old)) && Deleting (meta_of new) then true
      else match new, old with
           | OVGR vgrNew, OVGR vgrOld => IsVGRConfirmedPrimary vgrNew && negb (IsVGRConfirmedPrimary vgrOld)
           | _, _ => false
           end
  | DeleteEvent _ => false
  | GenericEvent _ => false
  end.

Definition isConfirmed (obj : Object) : bool :=
  match obj with
  | OVR vr => IsVRConfirmedPrimary vr
  | OVGR vgr => IsVGRConfirmedPrimary vgr
  | OOther _ => false
  end.

Definition confirmedPrimaryTransitionPredicate : Predicate := fun e =>
  match e with
  | CreateEvent o => isOwnedByVSCROrVVR o && isConfirmed o
  | UpdateEvent old new =>
      if negb (isOwnedByVSCROrVVR new) then false
      else if negb (isConfirmed old) && isConfirmed new then true
      else if isConfirmed new then
        match new, old with
        | OVGR vgrNew, OVGR vgrOld => vgrPVCListChanged (vgr_PVCs vgrOld) (vgr_PVCs vgrNew)
        | _, _ => false
        end
      else false
  | DeleteEvent _ => false
  | GenericEvent _ => false
  end.

(** ** Lemmas *)

Lemma elem_of_names (l : list string) (s : gset string) x :
  x ∈ foldl (fun s name => {[ name ]} ∪ s) s l ↔ x ∈ l ∨ x ∈ s.
Proof.
  revert s. induction l as [|y l IH]; intros s; simpl; [set_solver|].
  rewrite IH. set_solver.
Qed.

Lemma vgrPVCListChanged_false old new :
  vgrPVCListChanged old new = false ↔ length old = length new ∧ new ⊆ old.
Proof.
  unfold vgrPVCListChanged. destruct (Nat.eqb_spec (length old) (length new)) as [Hl|Hl]; simpl.
  2: { split; [done|by intros [? _]]. }
  rewrite <-not_true_iff_false, existsb_exists. split.
  - intros H. split; [done|]. intros x Hx. apply dec_stable. intros Hn. apply H.
    exists x. split; [by apply list_elem_of_In|]. rewrite bool_decide_false; [done|].
    rewrite elem_of_names. set_solver.
  - intros [_ Hs] (x & Hx%list_elem_of_In & Hn). rewrite bool_decide_true in Hn; [done|].
    rewrite elem_of_names. left. by apply Hs.
Qed.

(** A list without duplicates that is included in one of the same length is a
    permutation of it. *)
Lemma subset_same_length_perm (l k : list string) :
  NoDup l → l ⊆ k → length l = length k → l ≡ₚ k.
Proof.
  intros Hl Hs Hlen. apply submseteq_length_Permutation; [|lia].
  by apply NoDup_submseteq.
Qed.

(** The membership comparison of two status lists: reported as unchanged
    exactly when the new list is a reordering of the old one, provided the new
    list names no PVC twice. *)
Theorem vgrPVCListChanged_exact (old new : list string) :
  NoDup new → vgrPVCListChanged old new = false ↔ old ≡ₚ new.
Proof.
  intros Hn. rewrite vgrPVCListChanged_false. split.
  - intros [Hl Hs]. symmetry. by apply subset_same_length_perm.
  - intros Hp. split; [by apply Permutation_length|]. intros x. by rewrite Hp.
Qed.

Lemma vgrPVCListChanged_exact_witness :
  vgrPVCListChanged ["a"; "b"; "c"] ["c"; "a"; "b"] = false.
Proof.
  apply (vgrPVCListChanged_exact ["a"; "b"; "c"] ["c"; "a"; "b"]).
  - apply bool_decide_unpack with (dec := NoDup_dec _). vm_compute. reflexivity.
  - apply (Permutation_app_comm ["a"; "b"] ["c"]).
Defined.

(** ** Sequences of updates *)

(** The remap reconciler's view of a VGR: its confirmed membership. *)
Definition remap_view (o : Object) : option (list string) :=
  if isOwnedByVSCROrVVR o && isConfirmed o
  then match o with OVGR v => Some (vgr_PVCs v) | _ => Some [] end
  else None.

(** The API server delivers consecutive snapshots of one object, so the kind
    of the object does not change. *)
Definition same_kind (o1 o2 : Object) : Prop :=
  match o1, o2 with
  | OVR _, OVR _ | OVGR _, OVGR _ | OOther _, OOther _ => True
  | _, _ => False
  end.

(** The views of the events a reconciler saw, newest last. *)
Fixpoint observed (prev : Object) (snapshots : list Object) (last : option (list string)) :
    option (list string) :=
  match snapshots with
  | [] => last
  | o :: rest =>
      observed o rest
        (if confirmedPrimaryTransitionPredicate (UpdateEvent prev o) then remap_view o else last)
  end.

Definition pvcs_of (o : Object) : list string :=
  match o with OVGR v => vgr_PVCs v | _ => [] end.

Definition in_sync (o : Object) (last : option (list string)) : Prop :=
  isConfirmed o = true → ∃ l, last = Some l ∧ l ≡ₚ pvcs_of o.

Lemma last_cons_default {A} (l : list A) (a d : A) : List.last (a :: l) d = List.last l a.
Proof.
  revert a d. induction l as [|b l IH]; intros a d; [done|].
  change (List.last (b :: l) d = List.last (b :: l) a). by rewrite !IH.
Qed.

Lemma remap_view_confirmed o :
  isOwnedByVSCROrVVR o = true → isConfirmed o = true → remap_view o = Some (pvcs_of o).
Proof. unfold remap_view. intros -> ->. by destruct o. Qed.

Lemma update_in_sync prev o last :
  isOwnedByVSCROrVVR o = true → same_kind prev o → NoDup (pvcs_of o) →
  in_sync prev last →
  in_sync o (if confirmedPrimaryTransitionPredicate (UpdateEvent prev o) then remap_view o else last).
Proof.
  intros Ho Hk Hd Hs Hc. rewrite (remap_view_confirmed o) by done.
  destruct (confirmedPrimaryTransitionPredicate _) eqn:Hp; [by eauto|].
  cbn [confirmedPrimaryTransitionPredicate] in Hp. rewrite Ho, Hc in Hp. cbn [negb] in Hp.
  destruct (isConfirmed prev) eqn:Hpc; [|done]. destruct (Hs Hpc) as (l & -> & Hl).
  exists l. split; [done|]. rewrite Hl. cbn [negb andb] in Hp.
  destruct prev as [v|v|m], o as [w|w|n]; try done.
  cbn [pvcs_of] in *. apply vgrPVCListChanged_false in Hp as [Hlen Hsub].
  symmetry. by apply subset_same_length_perm.
Qed.

(** No confirmed membership is lost by the remap watch: after a create
    event and any sequence of updates of one owned object, if the object is
    confirmed primary then the reconciler was last triggered on a snapshot
    with the same PVC membership. *)
Theorem remap_sees_membership (o : Object) (snapshots : list Object) :
  isOwnedByVSCROrVVR o = true →
  Forall (fun s => isOwnedByVSCROrVVR s = true ∧ same_kind o s ∧ NoDup (pvcs_of s)) snapshots →
  isConfirmed (List.last snapshots o) = true →
  ∃ l, observed o snapshots
         (if confirmedPrimaryTransitionPredicate (CreateEvent o) then remap_view o else None) = Some l ∧
       l ≡ₚ pvcs_of (List.last snapshots o).
Proof.
  intros Ho Hall. cbn [confirmedPrimaryTransitionPredicate]. rewrite Ho, andb_true_l.
  assert (Hs : in_sync o (if isConfirmed o then remap_view o else None)).
  { intros Hc. rewrite Hc, remap_view_confirmed by done. eauto. }
  revert Hs. generalize (if isConfirmed o then remap_view o else None) as last. clear Ho.
  revert o Hall. induction snapshots as [|s rest IH]; intros o Hall last Hs; [exact Hs|].
  inversion Hall as [|? ? (Hos & Hk & Hd) Hrest]; subst.
  rewrite last_cons_default.
  apply IH; [|by apply update_in_sync].
  eapply Forall_impl; [exact Hrest|]. cbn beta. intros x (? & Hkx & ?). split_and!; [done| |done].
  destruct o, s, x; done.
Qed.

Definition vgr_demo (st : State) (pvcs : list string) : Object :=
  OVGR (mkVGR (mkMeta "g" "ns" "u" {[LabelSourceVSCR := "v"]} ∅ [] [] 1 false) Primary "r" "" "" true None st pvcs).

Lemma remap_sees_membership_witness :
  ∃ l, observed (vgr_demo SecondaryState [])
         [vgr_demo PrimaryState ["a"]; vgr_demo PrimaryState ["b"; "a"]; vgr_demo PrimaryState ["a"; "b"]]
         None = Some l ∧ l ≡ₚ ["a"; "b"].
Proof.
  apply (remap_sees_membership (vgr_demo SecondaryState [])
           [vgr_demo PrimaryState ["a"]; vgr_demo PrimaryState ["b"; "a"]; vgr_demo PrimaryState ["a"; "b"]]).
  - vm_compute. reflexivity.
  - repeat (apply Forall_cons; split; [split_and!; [vm_compute; reflexivity|exact I|]|]);
      [..|apply Forall_nil; exact I];
      apply bool_decide_unpack with (dec := NoDup_dec _); vm_compute; reflexivity.
  - vm_compute. reflexivity.
Defined.
