(* ===== verification/KeyLocker.v ===== *)
(** * The per-key lock of the reconcilers

    [internal/controller/key_locker.go].  [Lock] and the closure it returns
    are split at their atomic operations ([LoadOrStore], [AddInt32],
    [mu.Lock], [mu.Unlock], [AddInt32(-1)], [Delete]), and an execution is an
    interleaving of these over any number of goroutines, each of which locks
    one key at a time as the reconcilers do ([defer r.Locker.Lock(..)()]). *)

From S2P Require Import Prelude.
From stdpp Require Import options.

Definition sep := ":".

(** The key of [Lock(keys...)], the parts already printed with [%v]. *)
Definition combinedKey (parts : list string) : string := join sep parts.

(** ** State *)

(** A [refLock]: the goroutine holding the mutex, and the [int32] counter. *)
Record refLock := mkRefLock { mu : option nat; ref : Z }.

Definition wrap32 (z : Z) : Z := ((z + 2 ^ 31) mod 2 ^ 32 - 2 ^ 31)%Z.

(** Where a goroutine is inside [Lock] or the closure it returned; [lock] is
    the address of the [refLock] it obtained. *)
Inductive PC :=
| Idle
| Loaded (key : string) (lock : nat)         (* LoadOrStore returned *)
| Waiting (key : string) (lock : nat)        (* AddInt32 done, in mu.Lock *)
| Holding (key : string) (lock : nat)        (* Lock returned *)
| Unlocked (key : string) (lock : nat)       (* mu.Unlock done *)
| Deleting (key : string) (lock : nat).      (* AddInt32 returned 0 *)

#[export] Instance PC_eq_dec : EqDecision PC.
Proof. solve_decision. Defined.

Record LState := mkLState {
  locks : gmap string nat;             (* the sync.Map *)
  heap : gmap nat refLock;             (* the refLocks allocated so far *)
  next : nat;                          (* next free address *)
  gs : list PC;                        (* the goroutines *)
}.

(** ** Steps *)

Inductive Step :=
| SLoadOrStore (g : nat) (key : string)
| SAddRef (g : nat)
| SLock (g : nat)
| SUnlock (g : nat)
| SDecRef (g : nat)
| SDelete (g : nat).

Definition set_pc (st : LState) (g : nat) (pc : PC) : LState :=
  mkLState (locks st) (heap st) (next st) (<[g := pc]> (gs st)).
Definition set_lock (st : LState) (l : nat) (r : refLock) : LState :=
  mkLState (locks st) (<[l := r]> (heap st)) (next st) (gs st).

(** [&refLock{}] is evaluated before [LoadOrStore] decides whether to keep it. *)
Definition LoadOrStore (st : LState) (g : nat) (key : string) : LState :=
  let st' := mkLState (locks st) (<[next st := mkRefLock None 0]> (heap st)) (S (next st)) (gs st) in
  match locks st !! key with
  | Some l => set_pc st' g (Loaded key l)
  | None =>
      set_pc (mkLState (<[key := next st]> (locks st')) (heap st') (next st') (gs st'))
             g (Loaded key (next st))
  end.

(** One atomic operation of one goroutine; [None] when it is not the next
    operation of that goroutine or, for [mu.Lock], when it would block. *)
Definition exec (st : LState) (s : Step) : option LState :=
  match s with
  | SLoadOrStore g key =>
      match gs st !! g with Some Idle => Some (LoadOrStore st g key) | _ => None end
  | SAddRef g =>
      match gs st !! g with
      | Some (Loaded key l) =>
          r ← heap st !! l;
          Some (set_pc (set_lock st l (mkRefLock (mu r) (wrap32 (ref r + 1)))) g (Waiting key l))
      | _ => None
      end
  | SLock g =>
      match gs st !! g with
      | Some (Waiting key l) =>
          r ← heap st !! l;
          match mu r with
          | Some _ => None
          | None => Some (set_pc (set_lock st l (mkRefLock (Some g) (ref r))) g (Holding key l))
          end
      | _ => None
      end
  | SUnlock g =>
      match gs st !! g with
      | Some (Holding key l) =>
          r ← heap st !! l;
          Some (set_pc (set_lock st l (mkRefLock None (ref r))) g (Unlocked key l))
      | _ => None
      end
  | SDecRef g =>
      match gs st !! g with
      | Some (Unlocked key l) =>
          r ← heap st !! l;
          let n := wrap32 (ref r - 1) in
          Some (set_pc (set_lock st l (mkRefLock (mu r) n)) g
                  (if Z.eqb n 0 then Deleting key l else Idle))
      | _ => None
      end
  | SDelete g =>
      match gs st !! g with
      | Some (Deleting key l) =>
          Some (set_pc (mkLState (delete key (locks st)) (heap st) (next st) (gs st)) g Idle)
      | _ => None
      end
  end.

Fixpoint run (st : LState) (trace : list Step) : option LState :=
  match trace with
  | [] => Some st
  | s :: trace' => match exec st s with Some st' => run st' trace' | None => None end
  end.

(** [NewKeyLocker] with [n] goroutines about to use it. *)
Definition NewKeyLocker (n : nat) : LState := mkLState ∅ ∅ 0 (replicate n Idle).

Definition holds (st : LState) (g : nat) (key : string) : Prop :=
  ∃ l, gs st !! g = Some (Holding key l).

(** ** The race *)

(** Goroutine 1 obtains the [refLock] of goroutine 0 and is preempted before
    it counts itself; 0 leaves and deletes the entry; 1 locks the orphaned
    [refLock] while 2 locks a fresh one. *)
Definition race (key : string) : list Step :=
  [SLoadOrStore 0 key; SAddRef 0; SLock 0; SLoadOrStore 1 key; SUnlock 0; SDecRef 0; SDelete 0;
   SAddRef 1; SLock 1; SLoadOrStore 2 key; SAddRef 2; SLock 2].

(** ** Bookkeeping *)

Definition at_lock (pc : PC) : option (string * nat) :=
  match pc with
  | Idle => None
  | Loaded k l | Waiting k l | Holding k l | Unlocked k l | Deleting k l => Some (k, l)
  end.

(** Whether a goroutine is counted in the [ref] of a lock. *)
Definition counts (l : nat) (pc : PC) : nat :=
  match pc with
  | Waiting _ l' | Holding _ l' | Unlocked _ l' => if Nat.eqb l l' then 1 else 0
  | _ => 0
  end.

Definition counted (l : nat) (pcs : list PC) : nat := sum_list_with (counts l) pcs.

Lemma sum_list_insert (f : PC → nat) pcs g pc pc' :
  pcs !! g = Some pc →
  sum_list_with f (<[g := pc']> pcs) + f pc = sum_list_with f pcs + f pc'.
Proof.
  revert g. induction pcs as [|q pcs IH]; intros [|g] H; simplify_eq/=; [lia|].
  specialize (IH g H). simpl in IH. lia.
Qed.

Lemma counted_pos l pcs :
  0 < counted l pcs → ∃ g pc k, pcs !! g = Some pc ∧ counts l pc = 1 ∧ at_lock pc = Some (k, l).
Proof.
  unfold counted. induction pcs as [|q pcs IH]; simpl; [lia|]. intros H.
  destruct (decide (counts l q = 0)) as [Hz|Hz].
  - destruct IH as (g & pc & k & ?); [lia|]. by exists (S g), pc, k.
  - exists 0, q. destruct q; simpl in *; try lia; destruct (Nat.eqb_spec l lock); subst; try lia; eauto.
Qed.

Lemma counted_le l pcs : counted l pcs ≤ length pcs.
Proof.
  unfold counted. induction pcs as [|q pcs IH]; simpl; [lia|].
  assert (counts l q ≤ 1) by (destruct q; simpl; repeat case_match; lia). lia.
Qed.

Lemma counts_other l k l' pc : at_lock pc = Some (k, l') → l ≠ l' → counts l pc = 0.
Proof. destruct pc; simpl; intros [= -> ->] Hn; try done; by destruct (Nat.eqb_spec l l'). Qed.

Lemma counted_two l pcs g g' pc pc' :
  g ≠ g' → pcs !! g = Some pc → pcs !! g' = Some pc' → counts l pc = 1 → counts l pc' = 1 →
  2 ≤ counted l pcs.
Proof.
  intros Hne Hg Hg' H1 H2.
  pose proof (sum_list_insert (counts l) pcs g pc Idle Hg) as E1.
  pose proof (sum_list_insert (counts l) (<[g := Idle]> pcs) g' pc' Idle) as E2.
  rewrite list_lookup_insert_ne in E2 by done. specialize (E2 Hg'). simpl in *. unfold counted. lia.
Qed.

(** ** The invariant of every interleaving *)

Record wf (st : LState) : Prop := {
  wf_small : (Z.of_nat (length (gs st)) < 2 ^ 31)%Z;
  wf_fresh : ∀ l, is_Some (heap st !! l) ↔ l < next st;
  wf_heap : ∀ g pc k l, gs st !! g = Some pc → at_lock pc = Some (k, l) → is_Some (heap st !! l);
  wf_key : ∀ g pc g' pc' k k' l, gs st !! g = Some pc → gs st !! g' = Some pc' →
             at_lock pc = Some (k, l) → at_lock pc' = Some (k', l) → k = k';
  wf_ref : ∀ l r, heap st !! l = Some r → ref r = Z.of_nat (counted l (gs st));
  wf_mu : ∀ l r g, heap st !! l = Some r →
            mu r = Some g ↔ ∃ k, gs st !! g = Some (Holding k l);
  wf_locks : ∀ k l, locks st !! k = Some l →
               ∃ g pc, gs st !! g = Some pc ∧ at_lock pc = Some (k, l);
}.

Lemma NewKeyLocker_wf n : (Z.of_nat n < 2 ^ 31)%Z → wf (NewKeyLocker n).
Proof.
  intros Hn. split; cbn [NewKeyLocker locks heap next gs].
  - by rewrite length_replicate.
  - intros l. rewrite lookup_empty. split; [by intros [? ?]|lia].
  - by intros g pc k l [-> _]%lookup_replicate_1 ?.
  - by intros g pc g' pc' k k' l [-> _]%lookup_replicate_1 _ ?.
  - intros l r. by rewrite lookup_empty.
  - intros l r g. by rewrite lookup_empty.
  - intros k l. by rewrite lookup_empty.
Qed.

Lemma wrap32_id z : (- 2 ^ 31 ≤ z < 2 ^ 31)%Z → wrap32 z = z.
Proof. intros Hz. unfold wrap32. rewrite Z.mod_small; lia. Qed.

(** A goroutine moves between two points of the same lock. *)
Lemma wf_move st g pc pc' k l r r' :
  wf st → gs st !! g = Some pc → at_lock pc = Some (k, l) → at_lock pc' = Some (k, l) →
  heap st !! l = Some r →
  (ref r' + Z.of_nat (counts l pc) = ref r + Z.of_nat (counts l pc'))%Z →
  (∀ g', mu r' = Some g' ↔ ∃ k, <[g := pc']> (gs st) !! g' = Some (Holding k l)) →
  wf (set_pc (set_lock st l r') g pc').
Proof.
  intros W Hg Hl Hl' Hr Href Hmu.
  pose proof (lookup_lt_Some _ _ _ Hg) as Hlt.
  assert (Hat : ∀ g' q k' l', <[g := pc']> (gs st) !! g' = Some q → at_lock q = Some (k', l') →
                ∃ q0, gs st !! g' = Some q0 ∧ at_lock q0 = Some (k', l')).
  { intros g' q k' l'. rewrite list_lookup_insert_Some. intros [(<- & <- & _)|[_ ?]]; [|by eauto].
    intros Hq. rewrite Hl' in Hq. simplify_eq. eauto. }
  split; cbn [set_pc set_lock locks heap next gs].
  - rewrite length_insert. apply W.
  - intros l'. rewrite lookup_insert_is_Some'. rewrite (wf_fresh st W).
    split; [intros [<-|?]; [|done]|auto]. by apply (wf_fresh st W).
  - intros g' q k' l' Hq Hql. destruct (Hat _ _ _ _ Hq Hql) as (q0 & Hq0 & Hql0).
    rewrite lookup_insert_is_Some'. right. by eapply (wf_heap st W).
  - intros g1 q1 g2 q2 k1 k2 l' Hq1 Hq2 Hl1 Hl2.
    destruct (Hat _ _ _ _ Hq1 Hl1) as (p1 & ? & ?), (Hat _ _ _ _ Hq2 Hl2) as (p2 & ? & ?).
    by eapply (wf_key st W g1 p1 g2 p2).
  - intros l' r0. rewrite lookup_insert_Some.
    pose proof (sum_list_insert (counts l') (gs st) g pc pc' Hg) as E. unfold counted.
    intros [[<- <-]|[Hne Hr0]].
    + pose proof (wf_ref st W l r Hr). unfold counted in *. lia.
    + pose proof (wf_ref st W l' r0 Hr0). unfold counted in *.
      rewrite (counts_other l' k l pc), (counts_other l' k l pc') in E by done. lia.
  - intros l' r0 g'. rewrite lookup_insert_Some. intros [[<- <-]|[Hne Hr0]]; [apply Hmu|].
    rewrite (wf_mu st W l' r0 g' Hr0). f_equiv. intros k'. rewrite list_lookup_insert_Some.
    split; [|intros [(<- & -> & _)|[_ ?]]; [by simplify_eq/=|done]].
    intros Hh. right. split; [|done]. intros <-. by simplify_eq/=.
  - intros k' l' Hk. destruct (wf_locks st W k' l' Hk) as (g' & q & Hq & Hql).
    destruct (decide (g = g')) as [<-|Hn].
    + exists g, pc'. rewrite list_lookup_insert_eq by done. split; [done|]. congruence.
    + exists g', q. by rewrite list_lookup_insert_ne.
Qed.

(** A goroutine leaves a lock: every map entry it was attached to is gone, or
    somebody else is attached to it. *)
Lemma wf_leave st g pc k l ms :
  wf st → gs st !! g = Some pc → at_lock pc = Some (k, l) → counts l pc = 0 →
  (∀ k, pc ≠ Holding k l) →
  (∀ k' l', ms !! k' = Some l' → locks st !! k' = Some l' ∧
     ((k', l') = (k, l) → ∃ g' q, g' ≠ g ∧ gs st !! g' = Some q ∧ at_lock q = Some (k, l))) →
  wf (set_pc (mkLState ms (heap st) (next st) (gs st)) g Idle).
Proof.
  intros W Hg Hl Hc Hnh Hms. pose proof (lookup_lt_Some _ _ _ Hg) as Hlt.
  assert (Hat : ∀ g' q k' l', <[g := Idle]> (gs st) !! g' = Some q → at_lock q = Some (k', l') →
                gs st !! g' = Some q).
  { intros g' q k' l'. rewrite list_lookup_insert_Some. by intros [(<- & <- & _)|[_ ?]]. }
  split; cbn [set_pc locks heap next gs].
  - rewrite length_insert. apply W.
  - apply W.
  - intros g' q k' l' Hq Hql. apply (wf_heap st W g' q k' l'); [by eapply Hat|done].
  - intros g1 q1 g2 q2 k1 k2 l' Hq1 Hq2 Hl1 Hl2.
    apply (wf_key st W g1 q1 g2 q2 k1 k2 l'); [by eapply Hat|by eapply Hat|done|done].
  - intros l' r Hr. rewrite (wf_ref st W l' r Hr). unfold counted.
    pose proof (sum_list_insert (counts l') (gs st) g pc Idle Hg) as E. simpl in E.
    destruct (decide (l' = l)) as [->|Hne]; [lia|]. rewrite (counts_other l' k l pc) in E by done. lia.
  - intros l' r g' Hr. rewrite (wf_mu st W l' r g' Hr). f_equiv. intros k'.
    rewrite list_lookup_insert_Some. split; [|by intros [(_ & ? & _)|[_ ?]]].
    intros Hh. right. split; [|done]. intros <-. simplify_eq/=. by eapply Hnh.
  - intros k' l' Hk. destruct (Hms k' l' Hk) as [Hk0 Hself].
    destruct (wf_locks st W k' l' Hk0) as (g' & q & Hq & Hql).
    destruct (decide (g = g')) as [<-|Hn].
    + assert ((k', l') = (k, l)) as E by congruence. destruct (Hself E) as (g2 & q2 & Hn & Hq2 & Hl2).
      exists g2, q2. rewrite list_lookup_insert_ne by done. split; [done|]. congruence.
    + exists g', q. by rewrite list_lookup_insert_ne.
Qed.

(** Allocating a [refLock] nobody knows yet. *)
Lemma wf_alloc st :
  wf st → wf (mkLState (locks st) (<[next st := mkRefLock None 0]> (heap st)) (S (next st)) (gs st)).
Proof.
  intros W.
  assert (Hno : ∀ g pc k, gs st !! g = Some pc → at_lock pc ≠ Some (k, next st)).
  { intros g pc k Hg Hl. apply (wf_heap st W g pc k) in Hl; [|done]. apply (wf_fresh st W) in Hl. lia. }
  split; cbn [locks heap next gs]; try apply W.
  - intros l. rewrite lookup_insert_is_Some', (wf_fresh st W). lia.
  - intros g pc k l Hg Hl. rewrite lookup_insert_is_Some'. right. by eapply (wf_heap st W).
  - intros l r. rewrite lookup_insert_Some. intros [[<- <-]|[_ ?]]; [|by apply W]. simpl.
    destruct (decide (counted (next st) (gs st) = 0)) as [->|Hz]; [done|].
    destruct (counted_pos (next st) (gs st)) as (g & pc & k & Hg & _ & Hl); [lia|]. by destruct (Hno g pc k).
  - intros l r g. rewrite lookup_insert_Some. intros [[<- <-]|[_ ?]]; [|by apply W].
    split; [done|]. intros [k Hk]. by destruct (Hno g _ k Hk).
Qed.

(** An idle goroutine attaches to a lock that is consistent with the key. *)
Lemma wf_attach st g k l ms :
  wf st → gs st !! g = Some Idle → is_Some (heap st !! l) →
  (∀ g' q k', gs st !! g' = Some q → at_lock q = Some (k', l) → k' = k) →
  (∀ k' l', ms !! k' = Some l' → locks st !! k' = Some l' ∨ (k', l') = (k, l)) →
  wf (set_pc (mkLState ms (heap st) (next st) (gs st)) g (Loaded k l)).
Proof.
  intros W Hg Hh Hkey Hms. pose proof (lookup_lt_Some _ _ _ Hg) as Hlt.
  split; cbn [set_pc locks heap next gs].
  - rewrite length_insert. apply W.
  - apply W.
  - intros g' q k' l'. rewrite list_lookup_insert_Some. intros [(_ & <- & _)|[_ Hq]] Hql.
    + by simplify_eq/=.
    + eapply (wf_heap st W); eauto.
  - intros g1 q1 g2 q2 k1 k2 l'. rewrite !list_lookup_insert_Some.
    intros [(_ & <- & _)|[_ Hq1]] [(_ & <- & _)|[_ Hq2]] Hl1 Hl2; simplify_eq/=; try done.
    + symmetry. by eapply Hkey.
    + by eapply Hkey.
    + by eapply (wf_key st W g1 q1 g2 q2).
  - intros l' r Hr. rewrite (wf_ref st W l' r Hr). unfold counted.
    pose proof (sum_list_insert (counts l') (gs st) g Idle (Loaded k l) Hg). simpl in *. lia.
  - intros l' r g' Hr. rewrite (wf_mu st W l' r g' Hr). f_equiv. intros k'.
    rewrite list_lookup_insert_Some. split; [|by intros [(_ & ? & _)|[_ ?]]].
    intros Hq. right. split; [|done]. intros <-. congruence.
  - intros k' l' Hk. destruct (decide ((k', l') = (k, l))) as [[= -> ->]|Hne].
    + exists g, (Loaded k l). by rewrite list_lookup_insert_eq.
    + destruct (Hms k' l' Hk) as [Hk0|?]; [|done].
      destruct (wf_locks st W k' l' Hk0) as (g' & q & Hq & Hql).
      exists g', q. rewrite list_lookup_insert_ne; [done|]. intros <-. by simplify_eq/=.
Qed.

Lemma LoadOrStore_wf st g key :
  wf st → gs st !! g = Some Idle → wf (LoadOrStore st g key).
Proof.
  intros W Hg. pose proof (wf_alloc st W) as W1. unfold LoadOrStore.
  destruct (locks st !! key) as [l|] eqn:Hk.
  - apply (wf_attach _ g key l (locks st) W1); cbn [locks heap next gs]; [done| | |auto].
    + destruct (wf_locks st W key l Hk) as (g' & q & Hq & Hql).
      apply (wf_heap _ W1 g' q key l Hq Hql).
    + intros g' q k' Hq Hql. destruct (wf_locks st W key l Hk) as (g2 & q2 & Hq2 & Hql2).
      by eapply (wf_key st W g' q g2 q2).
  - apply (wf_attach _ g key (next st) (<[key := next st]> (locks st)) W1); cbn [locks heap next gs]; [done| | |].
    + rewrite lookup_insert_eq. eauto.
    + intros g' q k' Hq Hql. apply (wf_heap st W g' q k') in Hql; [|done].
      apply (wf_fresh st W) in Hql. lia.
    + intros k' l'. rewrite lookup_insert_Some. intros [[<- <-]|[_ ?]]; auto.
Qed.

(** The [ref] of a lock one goroutine is counted in, and its successors, stay
    inside [int32]. *)
Lemma wf_ref_range st l r :
  wf st → heap st !! l = Some r → (0 ≤ ref r < 2 ^ 31)%Z.
Proof.
  intros W Hr. rewrite (wf_ref st W l r Hr). pose proof (counted_le l (gs st)).
  pose proof (wf_small st W). lia.
Qed.

Lemma counted_ge l pcs g pc : pcs !! g = Some pc → counts l pc ≤ counted l pcs.
Proof.
  intros H. pose proof (sum_list_insert (counts l) pcs g pc Idle H) as E. simpl in E. unfold counted. lia.
Qed.

Lemma counted_lt l pcs g pc : pcs !! g = Some pc → counts l pc = 0 → counted l pcs < length pcs.
Proof.
  intros H Hc. pose proof (sum_list_insert (counts l) pcs g pc (Waiting "" l) H) as E.
  pose proof (counted_le l (<[g := Waiting "" l]> pcs)) as B. rewrite length_insert in B.
  unfold counted in *. simpl in E. rewrite Nat.eqb_refl in E. lia.
Qed.

Lemma mu_other st g pc pc' l r :
  wf st → gs st !! g = Some pc → heap st !! l = Some r →
  (∀ k, pc ≠ Holding k l) → (∀ k, pc' ≠ Holding k l) →
  ∀ g', mu r = Some g' ↔ ∃ k, <[g := pc']> (gs st) !! g' = Some (Holding k l).
Proof.
  intros W Hg Hr H1 H2 g'. rewrite (wf_mu st W l r g' Hr). f_equiv. intros k.
  rewrite list_lookup_insert_Some. split.
  - intros Hh. right. split; [|done]. intros <-. simplify_eq. by eapply H1.
  - intros [(_ & Hh & _)|[_ ?]]; [|done]. by destruct (H2 k).
Qed.

(** Leaving [SDecRef]: always to [Deleting], and on to [Idle] unless last. *)
Lemma DecRef_Deleting_wf st g k l r :
  wf st → gs st !! g = Some (Unlocked k l) → heap st !! l = Some r →
  wrap32 (ref r - 1) = (ref r - 1)%Z ∧ (0 < ref r)%Z ∧
  wf (set_pc (set_lock st l (mkRefLock (mu r) (wrap32 (ref r - 1)))) g (Deleting k l)).
Proof.
  intros W Hg Hr. pose proof (wf_ref_range st l r W Hr) as Hb.
  assert (Hpos : (0 < ref r)%Z).
  { rewrite (wf_ref st W l r Hr). pose proof (counted_ge l _ _ _ Hg) as E.
    simpl in E. rewrite Nat.eqb_refl in E. lia. }
  assert (Hw : wrap32 (ref r - 1) = (ref r - 1)%Z) by (apply wrap32_id; lia).
  split_and!; [done|done|]. rewrite Hw.
  apply (wf_move st g (Unlocked k l) (Deleting k l) k l r); try done.
  - simpl. rewrite Nat.eqb_refl. lia.
  - by apply (mu_other st g (Unlocked k l) (Deleting k l) l r).
Qed.

Lemma exec_wf st s st' : wf st → exec st s = Some st' → wf st'.
Proof.
  intros W. destruct s as [g key|g|g|g|g|g]; simpl;
    destruct (gs st !! g) as [[]|] eqn:Hg; try done; intros H.
  - simplify_eq. by apply LoadOrStore_wf.
  - destruct (heap st !! lock) as [r|] eqn:Hr; simplify_eq/=.
    apply (wf_move st g (Loaded key lock) (Waiting key lock) key lock r); try done.
    + simpl. rewrite Nat.eqb_refl. pose proof (counted_lt lock _ _ _ Hg eq_refl).
      pose proof (wf_small st W). pose proof (wf_ref st W lock r Hr).
      rewrite wrap32_id; lia.
    + by apply (mu_other st g (Loaded key lock) (Waiting key lock) lock r).
  - destruct (heap st !! lock) as [r|] eqn:Hr; simplify_eq/=.
    destruct (mu r) eqn:Hm; simplify_eq/=.
    apply (wf_move st g (Waiting key lock) (Holding key lock) key lock r); try done.
    intros g'. cbn [mu].
    split; [intros [= <-]; exists key; apply list_lookup_insert_eq; by eapply lookup_lt_Some|].
    intros [k Hk]. apply list_lookup_insert_Some in Hk as [(<- & _)|[_ Hk]]; [done|].
    assert (mu r = Some g') by (apply (wf_mu st W lock r g' Hr); eauto). congruence.
  - destruct (heap st !! lock) as [r|] eqn:Hr; simplify_eq/=.
    apply (wf_move st g (Holding key lock) (Unlocked key lock) key lock r); try done.
    assert (Hm : mu r = Some g) by (apply (wf_mu st W lock r g Hr); eauto).
    intros g'. cbn [mu]. split; [done|]. intros [k Hk].
    apply list_lookup_insert_Some in Hk as [(_ & ? & _)|[Hne Hk]]; [done|].
    assert (mu r = Some g') by (apply (wf_mu st W lock r g' Hr); eauto). congruence.
  - destruct (heap st !! lock) as [r|] eqn:Hr; simplify_eq/=.
    destruct (DecRef_Deleting_wf st g key lock r W Hg Hr) as (Hw & Hp & Wd).
    destruct (Z.eqb_spec (wrap32 (ref r - 1)) 0) as [Hz|Hz]; [exact Wd|].
    set (st1 := set_pc _ _ (Deleting key lock)) in Wd.
    assert (Hg1 : gs st1 !! g = Some (Deleting key lock)).
    { apply list_lookup_insert_eq. by eapply lookup_lt_Some. }
    pose proof (wf_leave st1 g (Deleting key lock) key lock (locks st) Wd Hg1 eq_refl eq_refl) as L.
    unfold set_pc, st1 in L. cbn [set_lock set_pc locks heap next gs] in L.
    rewrite list_insert_insert_eq in L. apply L; [done|]. clear L.
    intros k' l' Hk. split; [done|]. intros [= -> ->].
    destruct (counted_pos lock (gs st1)) as (g' & q & k2 & Hq & Hc & Hl2).
    { pose proof (wf_ref st1 Wd lock (mkRefLock (mu r) (wrap32 (ref r - 1)))) as E.
      cbn [st1 set_pc set_lock heap ref] in E. rewrite lookup_insert_eq in E. specialize (E eq_refl). lia. }
    assert (g' ≠ g) as Hne by (intros ->; simplify_eq/=).
    assert (k2 = key) as -> by (eapply (wf_key st1 Wd g' q g _ k2 key lock); eauto).
    exists g', q. split_and!; [done| |done]. exact Hq.
  - simplify_eq. apply (wf_leave st g (Deleting key lock) key lock); try done.
    intros k' l'. rewrite lookup_delete_Some. intros [Hne ?]. split; [done|]. by intros [= -> _].
Qed.

Lemma run_wf st trace st' : wf st → run st trace = Some st' → wf st'.
Proof.
  revert st. induction trace as [|s trace IH]; simpl; intros st W H; [by simplify_eq|].
  destruct (exec st s) as [st1|] eqn:Hs; [|done]. eauto using exec_wf.
Qed.

(** ** Interleavings that avoid the two windows *)

Definition is_deleting (key : string) (pc : PC) : bool :=
  match pc with Deleting k _ => bool_decide (k = key) | _ => false end.
Definition is_loaded (key : string) (pc : PC) : bool :=
  match pc with Loaded k _ => bool_decide (k = key) | _ => false end.

(** A step that does not run into a window: [LoadOrStore] between somebody
    else's [AddInt32 == 0] and [Delete] of the key, or the last [AddInt32(-1)]
    between somebody else's [LoadOrStore] and [AddInt32]. *)
Definition quiet (st : LState) (s : Step) : bool :=
  match s with
  | SLoadOrStore _ key => negb (existsb (is_deleting key) (gs st))
  | SDecRef g =>
      match gs st !! g with
      | Some (Unlocked key l) =>
          match heap st !! l with
          | Some r => negb (Z.eqb (ref r) 1 && existsb (is_loaded key) (gs st))
          | None => true
          end
      | _ => true
      end
  | _ => true
  end.

Fixpoint run_quiet (st : LState) (trace : list Step) : option LState :=
  match trace with
  | [] => Some st
  | s :: trace' =>
      if quiet st s
      then match exec st s with Some st' => run_quiet st' trace' | None => None end
      else None
  end.

Record good (st : LState) : Prop := {
  good_wf : wf st;
  good_mapped : ∀ g pc k l, gs st !! g = Some pc → at_lock pc = Some (k, l) → locks st !! k = Some l;
  good_alone : ∀ g k l g' q l', gs st !! g = Some (Deleting k l) → g' ≠ g →
                 gs st !! g' = Some q → at_lock q ≠ Some (k, l');
}.

Lemma existsb_false_lookup (f : PC → bool) pcs g pc :
  existsb f pcs = false → pcs !! g = Some pc → f pc = false.
Proof.
  intros H Hg. apply not_true_iff_false. intros Hf. apply not_true_iff_false in H. apply H.
  apply existsb_exists. exists pc. split; [|done]. apply list_elem_of_In. by eapply list_elem_of_lookup_2.
Qed.

(** A goroutine moves between two points of a lock without reaching
    [Deleting], or reaches it as the only goroutine of its key. *)
Lemma good_move st g pc pc' k l r' :
  good st → gs st !! g = Some pc → at_lock pc = Some (k, l) → at_lock pc' = Some (k, l) →
  wf (set_pc (set_lock st l r') g pc') →
  (∀ k0 l0, pc' = Deleting k0 l0 → ∀ g' q l', g' ≠ g → gs st !! g' = Some q → at_lock q ≠ Some (k, l')) →
  (∀ g' l', g' ≠ g → gs st !! g' ≠ Some (Deleting k l')) →
  good (set_pc (set_lock st l r') g pc').
Proof.
  intros G Hg Hl Hl' W Hal Hother. split; cbn [set_pc set_lock locks gs]; [done| |].
  - intros g' q k' l2. rewrite list_lookup_insert_Some. intros [(_ & <- & _)|[_ Hq]] Hql.
    + eapply (good_mapped st G g pc); [done|]. congruence.
    + by eapply (good_mapped st G g' q).
  - intros g1 k1 l1 g2 q l2. rewrite !list_lookup_insert_Some.
    intros [(<- & Hd & _)|[Hn1 Hg1]] Hne [(<- & <- & _)|[Hn2 Hg2]]; try done.
    + rewrite Hd in Hl'. simplify_eq/=. by eapply Hal.
    + rewrite Hl'. intros [= <- <-]. by eapply (Hother g1).
    + by eapply (good_alone st G g1).
Qed.

Lemma good_not_deleting st g pc k l g' l' :
  good st → gs st !! g = Some pc → at_lock pc = Some (k, l) → g' ≠ g →
  gs st !! g' ≠ Some (Deleting k l').
Proof. intros G Hg Hl Hne Hd. by eapply (good_alone st G g' k l' g pc l). Qed.

(** Dropping to [Idle] keeps what was known of the others. *)
Lemma good_leave st g ms hp nx :
  good st → wf (set_pc (mkLState ms hp nx (gs st)) g Idle) →
  (∀ g' q k' l', g' ≠ g → gs st !! g' = Some q → at_lock q = Some (k', l') →
     locks st !! k' = Some l' → ms !! k' = Some l') →
  good (set_pc (mkLState ms hp nx (gs st)) g Idle).
Proof.
  intros G W Hms. split; cbn [set_pc locks gs]; [done| |].
  - intros g' q k' l'. rewrite list_lookup_insert_Some. intros [(_ & <- & _)|[Hne Hq]] Hql; [done|].
    eapply Hms; eauto. by eapply (good_mapped st G).
  - intros g1 k1 l1 g2 q l2. rewrite !list_lookup_insert_Some.
    intros [(_ & ? & _)|[_ Hg1]] Hne [(_ & <- & _)|[_ Hg2]]; try done. by eapply (good_alone st G g1).
Qed.

Lemma good_attach st g k l ms hp nx :
  good st → gs st !! g = Some Idle →
  wf (set_pc (mkLState ms hp nx (gs st)) g (Loaded k l)) →
  existsb (is_deleting k) (gs st) = false →
  ms !! k = Some l → locks st ⊆ ms →
  good (set_pc (mkLState ms hp nx (gs st)) g (Loaded k l)).
Proof.
  intros G Hg W Hq Hk Hms. split; cbn [set_pc locks gs]; [done| |].
  - intros g' q k' l'. rewrite list_lookup_insert_Some.
    intros [(_ & <- & _)|[Hne Hg']] Hql; [by simplify_eq/=|].
    eapply lookup_weaken; [|done]. by eapply (good_mapped st G).
  - intros g1 k1 l1 g2 q l2. rewrite !list_lookup_insert_Some.
    intros [(_ & ? & _)|[_ Hg1]] Hne [(_ & <- & _)|[_ Hg2]]; try done.
    + intros [= <- _]. pose proof (existsb_false_lookup _ _ _ _ Hq Hg1) as E. simpl in E.
      by rewrite bool_decide_true in E.
    + by eapply (good_alone st G g1).
Qed.

(** The last reference: nobody else is at the key. *)
Lemma last_ref_alone st g k l r g' q l' :
  good st → gs st !! g = Some (Unlocked k l) → heap st !! l = Some r → ref r = 1%Z →
  existsb (is_loaded k) (gs st) = false →
  g' ≠ g → gs st !! g' = Some q → at_lock q ≠ Some (k, l').
Proof.
  intros G Hg Hr H1 Hld Hne Hq Hat.
  assert (l' = l) as ->.
  { pose proof (good_mapped st G g' q k l' Hq Hat).
    pose proof (good_mapped st G g _ k l Hg eq_refl). congruence. }
  assert (Hc : counts l q ≠ 1).
  { intros Hc. pose proof (counted_two l (gs st) g g' _ q (not_eq_sym Hne) Hg Hq) as H2.
    simpl in H2. rewrite Nat.eqb_refl in H2. specialize (H2 eq_refl Hc).
    pose proof (wf_ref st (good_wf st G) l r Hr). lia. }
  destruct q; simplify_eq/=; rewrite ?Nat.eqb_refl in Hc; try done.
  - pose proof (existsb_false_lookup _ _ _ _ Hld Hq) as E. simpl in E. by rewrite bool_decide_true in E.
  - by eapply (good_not_deleting st g _ k l g' l).
Qed.

Lemma quiet_good st s st' : good st → quiet st s = true → exec st s = Some st' → good st'.
Proof.
  intros G Hqt Hs. pose proof (exec_wf st s st' (good_wf st G) Hs) as W'. revert Hqt Hs W'.
  destruct s as [g key|g|g|g|g|g]; simpl;
    destruct (gs st !! g) as [[]|] eqn:Hg; try done; intros Hqt H W'.
  - apply negb_true_iff in Hqt. simplify_eq. unfold LoadOrStore in *.
    destruct (locks st !! key) as [l|] eqn:Hk.
    + by apply good_attach.
    + cbn [locks heap next gs] in *.
      apply good_attach; try done; [by rewrite lookup_insert_eq|by apply insert_subseteq].
  - destruct (heap st !! lock) as [r|] eqn:Hr; simplify_eq/=.
    apply (good_move st g (Loaded key lock) _ key); try done. intros g' l' Hne.
    by apply (good_not_deleting st g (Loaded key lock) key lock).
  - destruct (heap st !! lock) as [r|] eqn:Hr; simplify_eq/=. destruct (mu r); simplify_eq/=.
    apply (good_move st g (Waiting key lock) _ key); try done. intros g' l' Hne.
    by apply (good_not_deleting st g (Waiting key lock) key lock).
  - destruct (heap st !! lock) as [r|] eqn:Hr; simplify_eq/=.
    apply (good_move st g (Holding key lock) _ key); try done. intros g' l' Hne.
    by apply (good_not_deleting st g (Holding key lock) key lock).
  - destruct (heap st !! lock) as [r|] eqn:Hr; simplify_eq/=.
    destruct (DecRef_Deleting_wf st g key lock r (good_wf st G) Hg Hr) as (Hw & Hp & _).
    rewrite Hw in *. destruct (Z.eqb_spec (ref r - 1) 0) as [Hz|Hz].
    + apply (good_move st g (Unlocked key lock) _ key); try done.
      * intros k0 l0 _ g' q l' Hne Hq. apply negb_true_iff, andb_false_iff in Hqt as [Hqt|Hqt].
        { apply Z.eqb_neq in Hqt. lia. }
        apply (last_ref_alone st g key lock r g' q l' G Hg Hr); [lia|done..].
      * intros g' l' Hne. by apply (good_not_deleting st g (Unlocked key lock) key lock).
    + by apply good_leave.
  - simplify_eq. apply good_leave; [done..|]. intros g' q k' l' Hne Hq Hql Hk.
    rewrite lookup_delete_ne; [done|]. intros <-. by eapply (good_alone st G g key lock g' q l').
Qed.

Lemma run_quiet_good st trace st' : good st → run_quiet st trace = Some st' → good st'.
Proof.
  revert st. induction trace as [|s trace IH]; simpl; intros st G H; [by simplify_eq|].
  destruct (quiet st s) eqn:Hq; [|done]. destruct (exec st s) as [st1|] eqn:Hs; [|done].
  eauto using quiet_good.
Qed.

Lemma NewKeyLocker_good n : (Z.of_nat n < 2 ^ 31)%Z → good (NewKeyLocker n).
Proof.
  intros Hn. split; [by apply NewKeyLocker_wf|..]; cbn [NewKeyLocker gs locks].
  - by intros g pc k l [-> _]%lookup_replicate_1 ?.
  - by intros g k l g' q l' [? _]%lookup_replicate_1.
Qed.

(** ** Progress *)

(** Operations a goroutine still has to do to leave. *)
Definition remaining (pc : PC) : nat :=
  match pc with
  | Idle => 0 | Deleting _ _ => 1 | Unlocked _ _ => 2 | Holding _ _ => 3 | Waiting _ _ => 4 | Loaded _ _ => 5
  end.

Definition is_load (s : Step) : bool := match s with SLoadOrStore _ _ => true | _ => false end.

Lemma set_pc_remaining st g pc pc' :
  gs st !! g = Some pc → remaining pc' < remaining pc →
  sum_list_with remaining (<[g := pc']> (gs st)) < sum_list_with remaining (gs st).
Proof. intros Hg H. pose proof (sum_list_insert remaining (gs st) g pc pc' Hg). lia. Qed.

Lemma exec_remaining st s st' :
  exec st s = Some st' → is_load s = false →
  sum_list_with remaining (gs st') < sum_list_with remaining (gs st).
Proof.
  destruct s as [g key|g|g|g|g|g]; simpl; try done;
    destruct (gs st !! g) as [[]|] eqn:Hg; try done; intros H _;
    try (destruct (heap st !! lock) as [r|]; simplify_eq/=);
    try (destruct (mu r); simplify_eq/=); simplify_eq/=;
    eapply set_pc_remaining; eauto; simpl; repeat case_match; simpl; lia.
Qed.

(** Some goroutine inside [Lock] or an unlock can always proceed. *)
Lemma progress st g pc :
  wf st → gs st !! g = Some pc → pc ≠ Idle →
  ∃ s st', is_load s = false ∧ exec st s = Some st'.
Proof.
  intros W Hg Hpc. destruct pc as [|k l|k l|k l|k l|k l]; [done|..].
  - destruct (wf_heap st W g _ k l Hg eq_refl) as [r Hr].
    exists (SAddRef g). eexists. split; [done|]. simpl. by rewrite Hg, Hr.
  - destruct (wf_heap st W g _ k l Hg eq_refl) as [r Hr]. destruct (mu r) as [g'|] eqn:Hm.
    + apply (wf_mu st W l r g' Hr) in Hm as [k' Hk].
      exists (SUnlock g'). eexists. split; [done|]. simpl. by rewrite Hk, Hr.
    + exists (SLock g). eexists. split; [done|]. simpl. rewrite Hg, Hr. simpl. by rewrite Hm.
  - destruct (wf_heap st W g _ k l Hg eq_refl) as [r Hr].
    exists (SUnlock g). eexists. split; [done|]. simpl. by rewrite Hg, Hr.
  - destruct (wf_heap st W g _ k l Hg eq_refl) as [r Hr].
    exists (SDecRef g). eexists. split; [done|]. simpl. by rewrite Hg, Hr.
  - exists (SDelete g). eexists. split; [done|]. simpl. by rewrite Hg.
Qed.

Lemma wf_all_idle st : wf st → Forall (eq Idle) (gs st) → locks st = ∅.
Proof.
  intros W Hall. apply map_empty. intros k. destruct (locks st !! k) as [l|] eqn:Hk; [|done].
  destruct (wf_locks st W k l Hk) as (g & pc & Hg & Hl).
  rewrite Forall_lookup in Hall. by rewrite <-(Hall g pc Hg) in Hl.
Qed.

Lemma idle_dec (pcs : list PC) : Forall (eq Idle) pcs ∨ ∃ g pc, pcs !! g = Some pc ∧ pc ≠ Idle.
Proof.
  induction pcs as [|pc pcs [IH|(g & q & ? & ?)]]; [by left| |right; by exists (S g), q].
  destruct (decide (pc = Idle)) as [->|Hn]; [left; by constructor|right; by exists 0, pc].
Qed.

Lemma sum_remaining_le pcs : sum_list_with remaining pcs ≤ 5 * length pcs.
Proof. induction pcs as [|pc pcs IH]; simpl; [lia|]. destruct pc; simpl; lia. Qed.

Lemma exec_length st s st' : exec st s = Some st' → length (gs st') = length (gs st).
Proof.
  destruct s as [g key|g|g|g|g|g]; simpl; destruct (gs st !! g) as [[]|]; try done; intros H;
    try (destruct (heap st !! lock) as [r|]; simplify_eq/=);
    try (destruct (mu r); simplify_eq/=); simplify_eq/=; try apply length_insert.
  unfold LoadOrStore. case_match; apply length_insert.
Qed.

(** From a well-formed state, any goroutines that stop taking new locks leave. *)
Lemma drain st m :
  wf st → sum_list_with remaining (gs st) ≤ m →
  ∃ trace st', run st trace = Some st' ∧ length trace ≤ m ∧
    Forall (eq Idle) (gs st') ∧ locks st' = ∅ ∧ forallb (negb ∘ is_load) trace = true.
Proof.
  revert st. induction m as [m IH] using lt_wf_ind. intros st W Hm.
  destruct (idle_dec (gs st)) as [Hall|(g & pc & Hg & Hpc)].
  { exists [], st. simpl. split_and!; [done|lia|done|by apply wf_all_idle|done]. }
  destruct (progress st g pc W Hg Hpc) as (s & st1 & Hl & Hs).
  pose proof (exec_remaining st s st1 Hs Hl) as Hlt.
  destruct (IH (m - 1)) with (st := st1) as (trace & st' & Hr & Hlen & Hi & Hk & Hnl);
    [lia|by eapply exec_wf|lia|].
  exists (s :: trace), st'. simpl. rewrite Hs, Hl. split_and!; [done|lia|done..].
Qed.

(** ** Properties *)

Lemma run_cons st s st1 trace st' :
  exec st s = Some st1 → run st1 trace = Some st' → run st (s :: trace) = Some st'.
Proof. simpl. by intros ->. Qed.

(** Runs one step from an explicit state with a symbolic key. *)
Ltac lock_step :=
  eapply run_cons;
  [unfold exec, LoadOrStore; simpl; rewrite ?lookup_empty, ?lookup_insert_eq, ?lookup_delete_eq;
   reflexivity|].

(** C32. The per-key lock does not exclude: on every key there is an
    interleaving of three goroutines after which two of them have returned
    from [Lock] with that key and neither has released it. *)
Theorem key_locker_race (key : string) :
  ∃ st, run (NewKeyLocker 3) (race key) = Some st ∧ holds st 1 key ∧ holds st 2 key.
Proof.
  eexists. split.
  - unfold race, NewKeyLocker. simpl replicate. do 12 lock_step. reflexivity.
  - split; eexists; reflexivity.
Qed.

(** C31. Outside the two windows the lock does exclude: in every interleaving
    of fewer than 2^31 goroutines in which no [LoadOrStore] of a key falls
    between a last [AddInt32(-1)] and its [Delete], and no last
    [AddInt32(-1)] between a [LoadOrStore] and its [AddInt32], at most one
    goroutine holds a key. *)
Theorem key_locker_exclusive (n : nat) (trace : list Step) (st : LState) (g g' : nat) (key : string) :
  (Z.of_nat n < 2 ^ 31)%Z → run_quiet (NewKeyLocker n) trace = Some st →
  holds st g key → holds st g' key → g = g'.
Proof.
  intros Hn Hr [l Hg] [l' Hg'].
  pose proof (run_quiet_good _ _ _ (NewKeyLocker_good n Hn) Hr) as G.
  pose proof (good_mapped st G _ _ _ _ Hg eq_refl) as Hk.
  pose proof (good_mapped st G _ _ _ _ Hg' eq_refl) as Hk'.
  assert (l' = l) as -> by congruence. destruct G as [W _ _].
  destruct (wf_heap st W g _ key l Hg eq_refl) as [r Hh].
  assert (mu r = Some g) by (apply (wf_mu st W l r g Hh); eauto).
  assert (mu r = Some g') by (apply (wf_mu st W l r g' Hh); eauto). congruence.
Qed.

(** C33. The lock neither deadlocks nor leaks: after any interleaving of fewer
    than 2^31 goroutines, the race included, letting the goroutines finish
    without new [Lock] calls takes at most five operations each and leaves
    every goroutine out and the map empty. *)
Theorem key_locker_drains (n : nat) (trace : list Step) (st : LState) :
  (Z.of_nat n < 2 ^ 31)%Z → run (NewKeyLocker n) trace = Some st →
  ∃ rest st', run st rest = Some st' ∧ length rest ≤ 5 * n ∧
    Forall (eq Idle) (gs st') ∧ locks st' = ∅ ∧ forallb (negb ∘ is_load) rest = true.
Proof.
  intros Hn Hr. pose proof (run_wf _ _ _ (NewKeyLocker_wf n Hn) Hr) as W.
  assert (Hlen : length (gs st) = n).
  { clear W. revert Hr. generalize (length_replicate n Idle : length (gs (NewKeyLocker n)) = n).
    generalize (NewKeyLocker n) as st0. induction trace as [|s trace IH]; simpl; intros st0 H0 Hr; [by simplify_eq|].
    destruct (exec st0 s) as [st1|] eqn:Hs; [|done]. apply (IH st1); [|done]. by rewrite (exec_length _ _ _ Hs). }
  apply drain; [done|]. rewrite <-Hlen. apply sum_remaining_le.
Qed.

Lemma key_locker_exclusive_witness :
  ∃ st, run_quiet (NewKeyLocker 2)
          [SLoadOrStore 0 "k"; SLoadOrStore 1 "k"; SAddRef 0; SAddRef 1; SLock 0; SUnlock 0; SDecRef 0; SLock 1]
        = Some st ∧ holds st 1 "k" ∧ ¬ holds st 0 "k".
Proof.
  eexists. split; [vm_compute; reflexivity|]. split; [eexists; reflexivity|].
  intros H0.
  enough (0 = 1) by discriminate.
  eapply (key_locker_exclusive 2
    [SLoadOrStore 0 "k"; SLoadOrStore 1 "k"; SAddRef 0; SAddRef 1; SLock 0; SUnlock 0; SDecRef 0; SLock 1]
    _ 0 1 "k"); [lia|vm_compute; reflexivity|exact H0|eexists; reflexivity].
Defined.

Lemma key_locker_drains_witness :
  ∃ st rest st', run (NewKeyLocker 3) (race "k") = Some st ∧ run st rest = Some st' ∧ locks st' = ∅.
Proof.
  eexists.
  edestruct (key_locker_drains 3 (race "k")) as (rest & st' & Hr & _ & _ & Hk & _);
    [lia|vm_compute; reflexivity|].
  exists rest, st'. split; [vm_compute; reflexivity|]. split; [exact Hr|exact Hk].
Defined.
