(* ===== verification/Programs.v ===== *)
(** * Programs over API calls

    Code that talks to the API server, to VAST clusters or to in-memory
    services is a finite tree of calls: [Vis c k] makes call [c] and continues
    with its answer.  Nothing is assumed of the answers, so a statement about
    all [runs] covers failures, stale reads and changes made by other clients
    between two calls.  A handler with a state turns a program into a function
    ([exec]).

    [wp G p h Q]: started after the calls [h], program [p] makes only calls
    allowed by [G] (which sees the calls made before), and its result
    satisfies [Q]. *)

From S2P Require Import Prelude.
From stdpp Require Import options.

Section Programs.

Context {Call : Type} {resp : Call → Type}.

Inductive prog (A : Type) : Type :=
| Ret (a : A)
| Vis (c : Call) (k : resp c → prog A).
Arguments Ret {_} _.
Arguments Vis {_} _ _.

Definition call (c : Call) : prog (resp c) := Vis c Ret.

#[global] Instance prog_ret : MRet prog := @Ret.
#[global] Instance prog_bind : MBind prog := fun A B f =>
  fix go p := match p with Ret a => f a | Vis c k => Vis c (fun r => go (k r)) end.

(** A call with its answer. *)
Record event := Ev { ev_call : Call; ev_resp : resp ev_call }.

Inductive runs {A} : prog A → list event → A → Prop :=
| runs_ret a : runs (Ret a) [] a
| runs_vis c k r t a : runs (k r) t a → runs (Vis c k) (Ev c r :: t) a.

Fixpoint wp {A} (G : list event → Call → Prop) (p : prog A) (h : list event)
    (Q : list event → A → Prop) : Prop :=
  match p with
  | Ret a => Q h a
  | Vis c k => G h c ∧ ∀ r, wp G (k r) (h ++ [Ev c r]) Q
  end.

(** ** Rules *)

Lemma wp_ret {A} G (a : A) h (Q : list event → A → Prop) : Q h a → wp G (mret a) h Q.
Proof. done. Qed.

Lemma wp_call G c h (Q : list event → resp c → Prop) :
  G h c → (∀ r, Q (h ++ [Ev c r]) r) → wp G (call c) h Q.
Proof. by split. Qed.

Lemma wp_bind {A B} G (p : prog A) (f : A → prog B) h Q :
  wp G p h (fun h' a => wp G (f a) h' Q) → wp G (p ≫= f) h Q.
Proof.
  revert h. induction p as [a|c k IH]; intros h; [done|]. intros [Hg Hk]. split; [done|].
  intros r. by apply IH.
Qed.

Lemma wp_mono {A} (G G' : list event → Call → Prop) (p : prog A) h Q Q' :
  (∀ h c, G h c → G' h c) → (∀ h a, Q h a → Q' h a) → wp G p h Q → wp G' p h Q'.
Proof.
  intros HG HQ. revert h. induction p as [a|c k IH]; intros h; simpl; [apply HQ|].
  intros [? ?]. split; [auto|]. auto.
Qed.

Lemma wp_post {A} G (p : prog A) h Q Q' :
  wp G p h Q → (∀ h a, Q h a → Q' h a) → wp G p h Q'.
Proof. intros. by eapply wp_mono. Qed.

Lemma wp_bind_call {B} G c (f : resp c → prog B) h Q :
  G h c → (∀ r, wp G (f r) (h ++ [Ev c r]) Q) → wp G (call c ≫= f) h Q.
Proof. by split. Qed.

(** What [wp] says of every run. *)
Lemma wp_sound {A} G (p : prog A) h Q t a :
  wp G p h Q → runs p t a →
  Q (h ++ t) a ∧ (∀ t1 c r t2, t = t1 ++ Ev c r :: t2 → G (h ++ t1) c).
Proof.
  intros Hw Hr. revert h Hw. induction Hr as [a|c k r t a Hr IH]; intros h Hw; simpl in Hw.
  - rewrite app_nil_r. split; [done|]. intros [|] ? ? ?; discriminate.
  - destruct Hw as [Hg Hk]. destruct (IH _ (Hk r)) as [HQ HG]. rewrite <-app_assoc in HQ.
    split; [done|]. intros [|e t1] c' r' t2 [=].
    + subst. by rewrite app_nil_r.
    + subst. rewrite cons_middle, app_assoc. by eapply HG.
Qed.

Lemma runs_bind {A B} (p : prog A) (f : A → prog B) t1 a t2 b :
  runs p t1 a → runs (f a) t2 b → runs (p ≫= f) (t1 ++ t2) b.
Proof.
  intros Hp Hf. induction Hp as [a|c k r t a Hr IH]; [done|].
  change (runs (Vis c (fun r => k r ≫= f)) (Ev c r :: t ++ t2) b). constructor. by apply IH.
Qed.

(** Inversion of [runs]. *)
Definition runs_inv {A} (p : prog A) (t : list event) (b : A) : Prop :=
  match p with
  | Ret a => t = [] ∧ a = b
  | Vis c k => ∃ r t', t = Ev c r :: t' ∧ runs (k r) t' b
  end.

Lemma runs_invert {A} (p : prog A) t b : runs p t b → runs_inv p t b.
Proof. intros [a|c k r t' a Hr]; simpl; eauto. Qed.

Lemma runs_bind_inv {A B} (p : prog A) (f : A → prog B) t b :
  runs (p ≫= f) t b → ∃ t1 a t2, runs p t1 a ∧ runs (f a) t2 b ∧ t = t1 ++ t2.
Proof.
  revert t. induction p as [a|c k IH]; intros t Hr; [by exists [], a, t; split; [constructor|]|].
  apply runs_invert in Hr as (r & t' & -> & Hr). apply IH in Hr as (t1 & a & t2 & ? & ? & ->).
  exists (Ev c r :: t1), a, t2. split; [by constructor|done].
Qed.

Lemma runs_call c r : runs (call c) [Ev c r] r.
Proof. constructor. constructor. Qed.

(** The history only grows. *)
Lemma wp_prefix {A} G (p : prog A) h Q :
  wp G p h Q → wp G p h (fun h' a => h `prefix_of` h' ∧ Q h' a).
Proof.
  assert (Hgen : ∀ h0, h0 `prefix_of` h → wp G p h Q → wp G p h (fun h' a => h0 `prefix_of` h' ∧ Q h' a)).
  { revert h. induction p as [a|c k IH]; intros h h0 Hh; simpl; [done|].
    intros [Hg Hk]. split; [done|]. intros r. apply IH; [|done]. by apply prefix_app_r. }
  by apply Hgen.
Qed.

Lemma wp_true {A} G (p : prog A) h Q :
  (∀ h' c, h `prefix_of` h' → G h' c) → (∀ h' a, h `prefix_of` h' → Q h' a) → wp G p h Q.
Proof.
  revert h. induction p as [a|c k IH]; intros h HG HQ; simpl; [by apply HQ|].
  split; [by apply HG|]. intros r.
  apply IH; intros h' x Hh; [apply HG|apply HQ]; (etrans; [|exact Hh]; by apply prefix_app_r).
Qed.

(** ** Programs that make only certain calls, whatever the answers *)

Fixpoint calls_in {A} (P : Call → Prop) (p : prog A) : Prop :=
  match p with
  | Ret _ => True
  | Vis c k => P c ∧ ∀ r, calls_in P (k r)
  end.

Lemma calls_in_ret {A} P (a : A) : calls_in P (mret a).
Proof. done. Qed.

Lemma calls_in_call P c : P c → calls_in P (call c).
Proof. by split. Qed.

Lemma calls_in_bind {A B} P (p : prog A) (f : A → prog B) :
  calls_in P p → (∀ a, calls_in P (f a)) → calls_in P (p ≫= f).
Proof. intros Hp Hf. induction p as [a|c k IH]; [by apply Hf|]. destruct Hp. split; [done|]. auto. Qed.

Lemma calls_in_mono {A} (P P' : Call → Prop) (p : prog A) :
  (∀ c, P c → P' c) → calls_in P p → calls_in P' p.
Proof. intros HP. induction p as [a|c k IH]; [done|]. intros [? ?]. split; auto. Qed.

Lemma wp_calls_in {A} P G (p : prog A) h Q :
  calls_in P p → (∀ h' c, h `prefix_of` h' → P c → G h' c) →
  (∀ h' a, h `prefix_of` h' → Q h' a) → wp G p h Q.
Proof.
  revert h. induction p as [a|c k IH]; intros h Hc HG HQ; simpl; [by apply HQ|].
  destruct Hc as [Hc Hk]. split; [by apply HG|]. intros r.
  apply IH; [done|..]; intros h' x Hh; [apply HG|apply HQ]; (etrans; [|exact Hh]; by apply prefix_app_r).
Qed.

(** What a program may do can be proved apart from what it establishes. *)
Lemma wp_swap {A} P (G G' : list event → Call → Prop) (p : prog A) h Q :
  calls_in P p → (∀ h' c, h `prefix_of` h' → P c → G h' c) → wp G' p h Q → wp G p h Q.
Proof.
  revert h. induction p as [a|c k IH]; intros h Hc HG; simpl; [done|].
  destruct Hc as [Hc Hk]. intros [_ Hw]. split; [by apply HG|]. intros r.
  apply IH; [done| |done]. intros h' c' Hh. apply HG. etrans; [|exact Hh]. by apply prefix_app_r.
Qed.

(** A guard that restricts the calls themselves says which calls were added,
    and may rely on it. *)
Lemma wp_guard_trace {A} P (G : list event → Call → Prop) (p : prog A) h Q :
  wp (fun h' c => (∀ e, e ∈ h' → e ∈ h ∨ P (ev_call e)) → G h' c ∧ P c) p h Q →
  wp G p h (fun h' a => Q h' a ∧ ∀ e, e ∈ h' → e ∈ h ∨ P (ev_call e)).
Proof.
  assert (Hgen : ∀ h0 : list event, (∀ e, e ∈ h → e ∈ h0 ∨ P (ev_call e)) →
            wp (fun h' c => (∀ e, e ∈ h' → e ∈ h0 ∨ P (ev_call e)) → G h' c ∧ P c) p h Q →
            wp G p h (fun h' a => Q h' a ∧ ∀ e, e ∈ h' → e ∈ h0 ∨ P (ev_call e))).
  { revert h. induction p as [a|c k IH]; intros h h0 Hh; simpl; [done|].
    intros [Hg Hk]. destruct (Hg Hh) as [Hg' Hp]. split; [done|]. intros r. apply IH; [|done].
    intros e. rewrite elem_of_app, list_elem_of_singleton. intros [He| ->]; [by apply Hh|by right]. }
  apply Hgen. auto.
Qed.

Lemma runs_calls_in {A} P (p : prog A) t a c r :
  calls_in P p → runs p t a → Ev c r ∈ t → P c.
Proof.
  intros Hc Hr. revert Hc. induction Hr as [|c' k r' t a Hr IH]; [by intros _ ?%elem_of_nil|].
  intros [Hp Hk]. rewrite elem_of_cons. intros [Heq|Hin]; [|by eapply IH].
  apply (f_equal ev_call) in Heq. simpl in Heq. by subst.
Qed.

(** ** Execution *)

Fixpoint exec {S A} (handler : ∀ c, S → S * resp c) (p : prog A) (s : S) : S * list event * A :=
  match p with
  | Ret a => (s, [], a)
  | Vis c k =>
      let '(s1, r) := handler c s in
      let '(s2, t, a) := exec handler (k r) s1 in
      (s2, Ev c r :: t, a)
  end.

(** Execution is one of the runs, so every program has one for every handler:
    programs terminate. *)
Lemma exec_runs {S A} (handler : ∀ c, S → S * resp c) (p : prog A) (s : S) :
  runs p (exec handler p s).1.2 (exec handler p s).2.
Proof.
  revert s. induction p as [a|c k IH]; intros s; simpl; [constructor|].
  destruct (handler c s) as [s1 r]. specialize (IH r s1).
  destruct (exec handler (k r) s1) as [[s2 t] a]. by constructor.
Qed.

Lemma exec_bind {S A B} (handler : ∀ c, S → S * resp c) (p : prog A) (f : A → prog B) s :
  exec handler (p ≫= f) s =
    let '(s1, t1, a) := exec handler p s in
    let '(s2, t2, b) := exec handler (f a) s1 in (s2, t1 ++ t2, b).
Proof.
  revert s. induction p as [a|c k IH]; intros s; simpl.
  - by destruct (exec handler (f a) s) as [[??]?].
  - destruct (handler c s) as [s1 r]. change (mbind f) with (prog_bind A B f) in *.
    rewrite IH. destruct (exec handler (k r) s1) as [[??]?].
    by destruct (exec handler (f _) _) as [[??]?].
Qed.

End Programs.

Arguments prog {Call} resp A.
Arguments Ret {Call resp A} a.
Arguments Vis {Call resp A} c k.
Arguments Ev {Call resp} ev_call ev_resp.
Arguments event {Call} resp.

(** ** Linking: the calls of one program are programs of a lower level

    [h] implements the calls of [p]; the state [S] is kept between them.
    [wp_link] carries what was proved of [p], with its calls unanswered, over
    to the linked program: [R] relates the calls [p] believes it made to those
    that were really made. *)

Section Link.

Context {Call1 : Type} {resp1 : Call1 → Type} {Call2 : Type} {resp2 : Call2 → Type} {S : Type}.

Fixpoint link {A} (h : ∀ c : Call1, S → prog resp2 (S * resp1 c)) (p : prog resp1 A) (s : S)
    : prog resp2 (S * A) :=
  match p with
  | Ret a => Ret (s, a)
  | Vis c k => h c s ≫= fun x => link h (k x.2) x.1
  end.

Lemma wp_link {A} (G1 : list (event resp1) → Call1 → Prop) (G2 : list (event resp2) → Call2 → Prop)
    (R : list (event resp2) → list (event resp1) → S → Prop)
    (h : ∀ c : Call1, S → prog resp2 (S * resp1 c)) (p : prog resp1 A) s t1 t2 Q :
  (∀ u1 u2 s c, R u2 u1 s → G1 u1 c → wp G2 (h c s) u2 (fun u2' x => R u2' (u1 ++ [Ev c x.2]) x.1)) →
  R t2 t1 s → wp G1 p t1 Q →
  wp G2 (link h p s) t2 (fun t2' x => ∃ t1', R t2' t1' x.1 ∧ Q t1' x.2).
Proof.
  intros Hh. revert s t1 t2. induction p as [a|c k IH]; intros s t1 t2 HR Hw; simpl in *; [eauto|].
  destruct Hw as [Hg Hk]. apply wp_bind. eapply wp_post; [by apply Hh|].
  intros u2 [s' r] HR'. by eapply IH.
Qed.

End Link.

(** ** Programs among programs with more calls *)

Section Embed.

Context {Call1 : Type} {resp1 : Call1 → Type} {Call2 : Type} {resp2 : Call2 → Type}.
Context (inj : Call1 → Call2) (outr : ∀ c, resp2 (inj c) → resp1 c) (inr' : ∀ c, resp1 c → resp2 (inj c)).

Fixpoint embed {A} (p : prog resp1 A) : prog resp2 A :=
  match p with
  | Ret a => Ret a
  | Vis c k => Vis (inj c) (fun r => embed (k (outr c r)))
  end.

Lemma calls_in_embed {A} P (p : prog resp1 A) : calls_in (fun c => P (inj c)) p → calls_in P (embed p).
Proof. induction p as [a|c k IH]; [done|]. intros [? ?]. split; [done|]. auto. Qed.

Definition embed_event (e : event resp1) : event resp2 := Ev (inj (ev_call e)) (inr' (ev_call e) (ev_resp e)).

Lemma wp_embed {A} (G : list (event resp2) → Call2 → Prop) (p : prog resp1 A) h Q :
  (∀ c r, inr' c (outr c r) = r) →
  wp (fun u c => G (h ++ map embed_event u) (inj c)) p [] (fun u a => Q (h ++ map embed_event u) a) →
  wp G (embed p) h Q.
Proof.
  intros Hinv.
  assert (Hgen : ∀ u, wp (fun u c => G (h ++ map embed_event u) (inj c)) p u
                        (fun u a => Q (h ++ map embed_event u) a) → wp G (embed p) (h ++ map embed_event u) Q).
  { induction p as [a|c k IH]; intros u; [done|]. intros [Hg Hk]. split; [done|]. intros r.
    specialize (IH (outr c r) (u ++ [Ev c (outr c r)]) (Hk _)).
    rewrite map_app, app_assoc in IH. cbn [map] in IH. unfold embed_event at 2 in IH. cbn in IH.
    by rewrite Hinv in IH. }
  intros Hp. specialize (Hgen [] Hp). by rewrite app_nil_r in Hgen.
Qed.

End Embed.

Lemma in_snoc {A} (l : list A) (x : A) : x ∈ l ++ [x].
Proof. set_solver. Qed.

(** Both sides evaluate to the same: the kernel compares them with its virtual
    machine when the proof is closed. *)
Ltac evaluates := match goal with |- ?l = _ => vm_cast_no_check (eq_refl l) end.

(** A call, a bind or a branch of a program with [calls_in] to prove. *)
Ltac calls_step :=
  match goal with
  | |- calls_in _ (mret _) => exact I
  | |- calls_in _ (Ret _) => exact I
  | |- calls_in _ (_ ≫= _) => apply calls_in_bind; [|intros ?]
  | |- calls_in _ (call _) => apply calls_in_call
  | |- calls_in _ (match ?x with _ => _ end) => destruct x
  | |- calls_in _ (let _ := _ in _) => cbv zeta
  | |- ∀ _, calls_in _ _ => intros ?
  end.
