(* ===== verification/Api.v ===== *)
(** * The calls of the controllers and the client wrappers around them

    [Call] lists what a reconciler can ask of its environment: the typed
    operations of controller-runtime's client on the object kinds the
    controllers use, the in-memory backoff tracker, the clock, the interfaces
    of [internal/provisioner/provisioner.go], and the requests to VAST
    clusters ([VmsCall]) whose answers the controllers' own requests change.
    Objects that are only read are functions of [Lookups].

    The wrappers of [internal/common/k8s_client] ([client.go],
    [finalizers.go], [annotations.go], the getters) are programs over these
    calls.  Resource versions are not represented: whether a write conflicts
    is part of its answer.  A Go method that changes the object behind a
    pointer returns the object. *)

From S2P Require Import Prelude GoErrors Topology Kube Programs.
From stdpp Require Import options.

(** ** Object kinds *)

Inductive kind := kVRC | kVGR | kVR | kVSCR | kVVR | kPVC | kPV | kPod | kVRClass | kVGRClass
| kSecret | kConfigMap | kBucketAccess | kBucketClaim.

Definition kobj (k : kind) : Type :=
  match k with
  | kVRC => VRC | kVGR => VolumeGroupReplication | kVR => VolumeReplication
  | kVSCR => VSCR | kVVR => VVR | kPVC => PVC | kPV => PV | kPod => Pod
  | kVRClass | kVGRClass => ReplicationClass
  | kSecret => Secret | kConfigMap => ConfigMap | kBucketAccess => BucketAccess | kBucketClaim => BucketClaim
  end.

Definition meta (k : kind) : kobj k → ObjectMeta :=
  match k return kobj k → ObjectMeta with
  | kVRC => vrc_Meta | kVGR => vgr_Meta | kVR => vr_Meta | kVSCR => vscr_Meta
  | kVVR => vvr_Meta | kPVC => pvc_Meta | kPV => pv_Meta | kPod => pod_Meta
  | kVRClass | kVGRClass => class_Meta
  | kSecret => secret_Meta | kConfigMap => cm_Meta | kBucketAccess => ba_Meta | kBucketClaim => bc_Meta
  end.

Definition set_meta (k : kind) : kobj k → ObjectMeta → kobj k :=
  match k return kobj k → ObjectMeta → kobj k with
  | kVRC => fun o m => mkVRC m (vrc_Spec o) (vrc_Status o)
  | kVGR => fun o m => mkVGR m (vgr_ReplicationState o) (vgr_VolumeReplicationName o) (vgr_GroupClassName o)
      (vgr_ClassName o) (vgr_AutoResync o) (vgr_Selector o) (vgr_State o) (vgr_PVCs o)
  | kVR => fun o m => mkVR m (vr_ReplicationState o) (vr_VolumeReplicationClass o) (vr_DataSource o)
      (vr_AutoResync o) (vr_State o)
  | kVSCR => fun o m => mkVSCR m (vscr_Spec o) (vscr_Status o)
  | kVVR => fun o m => mkVVR m (vvr_Spec o) (vvr_Status o)
  | kPVC => fun o m => mkPVC m (pvc_StorageClassName o) (pvc_VolumeName o) (pvc_Shape o)
  | kPV => fun o m => mkPV m (pv_StorageClassName o) (pv_CSI o) (pv_ReclaimDelete o) (pv_Shape o)
  | kPod => fun o m => mkPod m (pod_Phase o) (pod_Volumes o)
  | kVRClass | kVGRClass => fun o m => mkClass m (class_Provisioner o) (class_Parameters o)
  | kSecret => fun o m => mkSecret m (secret_Data o)
  | kConfigMap => fun o m => mkConfigMap m (cm_Data o)
  | kBucketAccess => fun o m => mkBucketAccess m (ba_BucketClaimName o) (ba_CredentialsSecretName o)
      (ba_AccessGranted o) (ba_AccountID o)
  | kBucketClaim => fun o m => mkBucketClaim m (bc_BucketReady o) (bc_BucketName o)
  end.

Lemma meta_set_meta k (o : kobj k) m : meta k (set_meta k o m) = m.
Proof. by destruct k. Qed.
Lemma set_meta_meta k (o : kobj k) : set_meta k o (meta k o) = o.
Proof. by destruct k, o. Qed.
Lemma set_meta_twice k (o : kobj k) m m' : set_meta k (set_meta k o m) m' = set_meta k o m'.
Proof. by destruct k. Qed.

(** ** Requests to a VAST cluster *)

Record Stream := mkStream { stream_Name : string; stream_State : string }.

(** A protected path as the code decodes it; [ppathStreams] is [pp_Streams]. *)
Record Ppath := mkPpath {
  pp_Id : Z;
  pp_Name : string;
  pp_Enabled : bool;
  pp_State : string;
  pp_FailureReason : string;
  pp_Role : string;
  pp_SourceDir : string;
  pp_Streams : list Stream;
  pp_TenantId : Z;
}.

Record FolderStat := mkFolderStat { IsDirectory : bool; Children : Z }.

Record PpathParams := mkPpathParams {
  ppp_name : string;
  ppp_source_dir : string;
  ppp_target_exported_dir : string;
  ppp_tenant_id : Z;
  ppp_remote_tenant_guid : string;
  ppp_protection_policy_id : Z;
}.

Record StreamParams := mkStreamParams {
  sp_name : string;
  sp_target_exported_dir : string;
  sp_protection_policy_id : Z;
  sp_remote_tenant_guid : string;
  sp_is_standby : bool;
}.

Record PolicyParams := mkPolicy {
  pol_name : string;
  pol_target_object_id : Z;
  pol_prefix : string;
  pol_frames : list (gmap string string);
  pol_tenant_id : Z;
  pol_remote_tenant_guid : string;
}.

(** Block volumes, views and quotas; [fields] in a request limits what is read. *)
Record VolumeModel := mkVolume { volume_Id : Z; volume_Name : string }.
Record VolumeParams := mkVolumeParams {
  vol_name : string;
  vol_view_id : Z;
  vol_size : Z;
  vol_qos_policy_id : option Z;
}.

Record ViewModel := mkView { view_Id : Z; view_Path : string; view_TenantId : Z }.
Record ViewParams := mkViewParams {
  vw_path : string;
  vw_policy_id : Z;
  vw_tenant_id : Z;
  vw_protocols : list string;
  vw_qos_policy : option string;
  vw_qos_policy_id : option Z;
}.

Record QuotaModel := mkQuota { quota_Id : Z; quota_Path : string }.
Record QuotaParams := mkQuotaParams {
  quo_name : string;
  quo_path : string;
  quo_tenant_id : Z;
  quo_hard_limit : Z;
}.

Record SnapshotModel := mkSnapshot { snapshot_Id : Z; snapshot_Name : string }.

Inductive VmsCall :=
| ViewExists (name : string) (tenant : option string)
| PpathExists (name : string)
| PpathGet (name : string)
| PpathCreate (params : PpathParams)
| PpathSetEnabled (id : Z) (enabled : bool)
| PpathDeleteById (id : Z)
| PpathAddStream (id : Z) (params : StreamParams)
| FolderStatPath (path : string) (tenantId : Z)
| FolderDelete (path : string) (tenantId : Z)
| PolicyGet (name : string)
| PolicyExists (name : string)
| PolicyCreate (params : PolicyParams)
| PolicyDeleteById (id : Z)
| VolumeList (subsystem : string) (nameContains : option string)
| VolumeCreate (params : VolumeParams)
| VolumeDeleteById (id : Z)
| ViewGet (name : string) (tenantId : Z)
| ViewListUnder (path : string)
| ViewCreate (params : ViewParams)
| ViewDeleteById (id : Z)
| QuotaListUnder (path : string)
| QuotaCreate (params : QuotaParams)
| QuotaDeleteById (id : Z)
| SnapshotList (path policy : string)
| SnapshotDeleteById (id : Z).

Definition vms_resp (q : VmsCall) : Type :=
  match q with
  | ViewExists _ _ | PpathExists _ | PolicyExists _ => result bool
  | PpathGet _ => result Ppath
  | FolderStatPath _ _ => result FolderStat
  | PolicyGet _ | PolicyCreate _ => result (string * Z)     (* name, id *)
  | VolumeList _ _ => result (list VolumeModel)
  | VolumeCreate _ => result VolumeModel
  | ViewGet _ _ | ViewCreate _ => result ViewModel
  | ViewListUnder _ => result (list ViewModel)
  | QuotaListUnder _ => result (list QuotaModel)
  | QuotaCreate _ => result QuotaModel
  | SnapshotList _ _ => result (list SnapshotModel)
  | _ => result unit
  end.

(** ** Calls *)

Inductive Call :=
| Get (k : kind) (name namespace : string)
| List (k : kind) (namespace : string) (selector : gmap string string)
| Create (k : kind) (o : kobj k)
| Update (k : kind) (o : kobj k)
| UpdateStatus (k : kind) (o : kobj k)
| Patch (k : kind) (base o : kobj k)
| Delete (k : kind) (o : kobj k)
| BackoffNext (key : string * string)
| BackoffReset (key : string * string)
(* the provisioner of a VastReplicationContent *)
| NewProvisioner (v : VRC)
| ProvisionVolumes (v : VRC)
| CleanVolumes (v : VRC)
(* the cluster-specific half of a provisioner *)
| ProvisionVolumeCb (v : VRC) (toEnsure : list (PVC * PV)) (toDelete : list string)
| VolumeMapping (sc : StorageClass)
(* a request to the cluster of a StorageClass *)
| Vms (sc : string) (q : VmsCall)
(* the clock, in nanoseconds, and as an RFC 3339 string *)
| Now
| Sleep (duration : Z)
| SleepOrDone (duration : Z)
| Timestamp.

Definition resp (c : Call) : Type :=
  match c with
  | Get k _ _ => result (kobj k)
  | List k _ _ => result (list (kobj k))
  | Create k _ | Update k _ | UpdateStatus k _ | Patch k _ _ => result (kobj k)
  | Delete _ _ => result unit
  | BackoffNext _ => Z
  | BackoffReset _ => unit
  | NewProvisioner _ => result unit
  (* both may re-read the content they were given *)
  | ProvisionVolumes _ | CleanVolumes _ => VRC * option error
  | ProvisionVolumeCb _ _ _ => option error
  (* the keys of the mapping *)
  | VolumeMapping _ => result (gset string)
  | Vms _ q => vms_resp q
  | Now => Z
  | Sleep _ => unit
  (* the error of a cancelled context *)
  | SleepOrDone _ => option error
  | Timestamp => string
  end.

(** The answers of an environment that holds nothing and accepts every write. *)
Definition vms_quiet (q : VmsCall) : vms_resp q :=
  match q return vms_resp q with
  | ViewExists _ _ | PpathExists _ | PolicyExists _ => inr false
  | PpathGet _ => inl (ErrRest 404 "not found")
  | FolderStatPath _ _ => inl (ErrRest 503 "no such path")
  | PolicyGet _ => inl (ErrRest 404 "not found")
  | PolicyCreate params => inr (pol_name params, 1%Z)
  | PpathCreate _ | PpathSetEnabled _ _ | PpathDeleteById _ | PpathAddStream _ _
  | FolderDelete _ _ | PolicyDeleteById _ => inr tt
  | VolumeList _ _ => inr []
  | VolumeCreate params => inr (mkVolume 1 (vol_name params))
  | ViewGet _ _ => inl (ErrRest 404 "not found")
  | ViewListUnder _ => inr []
  | ViewCreate params => inr (mkView 1 (vw_path params) (vw_tenant_id params))
  | QuotaListUnder _ => inr []
  | QuotaCreate params => inr (mkQuota 1 (quo_path params))
  | SnapshotList _ _ => inr []
  | VolumeDeleteById _ | ViewDeleteById _ | QuotaDeleteById _ | SnapshotDeleteById _ => inr tt
  end.

Definition quiet (c : Call) : resp c :=
  match c return resp c with
  | Get _ _ _ => inl (ErrStatus ReasonNotFound "not found")
  | List _ _ _ => inr []
  | Create _ o | Update _ o | UpdateStatus _ o | Patch _ _ o => inr o
  | Delete _ _ => inr tt
  | BackoffNext _ => 1%Z
  | BackoffReset _ => tt
  | NewProvisioner _ => inr tt
  | ProvisionVolumes v | CleanVolumes v => (v, None)
  | ProvisionVolumeCb _ _ _ => None
  | VolumeMapping _ => inr ∅
  | Vms _ q => vms_quiet q
  | Now => 0%Z
  | Sleep _ => tt
  | SleepOrDone _ => None
  | Timestamp => "2026-01-01T00:00:00Z"
  end.

Notation Prog := (prog resp).
Notation Trace := (list (event resp)).

(** ** client.go *)

(** The attempts of [retry.DefaultRetry] after the first one. *)
Class RetrySteps := retry_steps : nat.

Fixpoint RetryOnConflict {S} (n : nat) (fn : S → Prog (S * option error)) (s : S)
    : Prog (S * option error) :=
  '(s', err) ← fn s;
  if IsConflict err
  then match n with 0 => mret (s', err) | S n' => RetryOnConflict n' fn s' end
  else mret (s', err).

Section Client.

Context {steps : RetrySteps}.

Definition GetObject (k : kind) (name namespace : string) : Prog (result (kobj k)) :=
  call (Get k name namespace).

(** [refreshObjectMetadata]: takes over generation and UID. *)
Definition refreshObjectMetadata (k : kind) (o : kobj k) : Prog (kobj k * option error) :=
  r ← call (Get k (Name (meta k o)) (Namespace (meta k o)));
  match r with
  | inl e => mret (o, Some e)
  | inr fresh =>
      let m := meta k o in
      mret (set_meta k o (mkMeta (Name m) (Namespace m) (UID (meta k fresh)) (Labels m) (Annotations m)
                            (Finalizers m) (OwnerReferences m) (Generation (meta k fresh)) (Deleting m)),
            None)
  end.

(** A write, and after a conflict the refresh; the conflict is still returned. *)
Definition write_or_refresh (k : kind) (write : kobj k → Prog (result (kobj k))) (o : kobj k)
    : Prog (kobj k * option error) :=
  r ← write o;
  match r with
  | inr o' => mret (o', None)
  | inl e =>
      if IsConflict (Some e) then
        '(o', refreshErr) ← refreshObjectMetadata k o;
        match refreshErr with
        | Some e' => mret (o', Some e')
        | None => mret (o', Some e)
        end
      else mret (o, Some e)
  end.

Definition UpdateStatusWithRetry (k : kind) (o : kobj k) : Prog (kobj k * option error) :=
  RetryOnConflict retry_steps (write_or_refresh k (fun o => call (UpdateStatus k o))) o.

(** [PatchWithRetry]; [X] are the variables the closure [mutateFn] assigns. *)
Definition PatchWithRetry_capturing {X} (k : kind) (o : kobj k) (x : X) (mutateFn : kobj k → kobj k * X)
    : Prog (kobj k * X * option error) :=
  let name := Name (meta k o) in
  let namespace := Namespace (meta k o) in
  RetryOnConflict retry_steps
    (fun s =>
       r ← call (Get k name namespace);
       match r with
       | inl e => mret (s, Some e)
       | inr base =>
           let '(o', x') := mutateFn base in
           r ← call (Patch k base o');
           match r with inl e => mret ((o', x'), Some e) | inr o'' => mret ((o'', x'), None) end
       end) (o, x).

Definition PatchWithRetry (k : kind) (o : kobj k) (mutateFn : kobj k → kobj k)
    : Prog (kobj k * option error) :=
  '((o', _), err) ← PatchWithRetry_capturing k o tt (fun o => (mutateFn o, tt));
  mret (o', err).

(** ** annotations.go, finalizers.go *)

Definition SetAnnotationAndUpdate (k : kind) (o : kobj k) (key value : string)
    : Prog (kobj k * option error) :=
  '(o', err) ← PatchWithRetry k o (fun o => set_meta k o (SetAnnotation (meta k o) key value));
  mret (o', match err with
            | None => None
            | Some e => Some (ErrWrap ("failed to patch annotation " +:+ quote key +:+ " on " +:+
                                       Namespace (meta k o') +:+ "/" +:+ Name (meta k o') +:+ ": ") e "")
            end).

Definition updateFinalizerWithRetry (k : kind) (o : kobj k) : Prog (kobj k * option error) :=
  RetryOnConflict retry_steps (write_or_refresh k (fun o => call (Update k o))) o.

Definition RemoveFinalizer (k : kind) (o : kobj k) (finalizer : string)
    : Prog (kobj k * option error) :=
  let '(m, removed) := remove_finalizer (meta k o) finalizer in
  let o' := set_meta k o m in
  if removed then
    '(o'', err) ← updateFinalizerWithRetry k o';
    mret (o'', if IsNotFound err then None else err)
  else mret (o', None).

(** ** The getters and listings of VastReplicationContents *)

Definition ListVastReplicationContentsByLabelSelector (namespace : string)
    (selector : gmap string string) : Prog (result (list VRC)) :=
  r ← call (List kVRC namespace selector);
  mret (match r with
        | inl e => inl (ErrWrap ("failed to list VastReplicationContents in " +:+ namespace +:+ ": ") e "")
        | inr items => inr items
        end).

Definition UpdateVastReplicationContentStatus (v : VRC) : Prog (VRC * option error) :=
  '(v', err) ← UpdateStatusWithRetry kVRC v;
  mret (v', match err with
            | None => None
            | Some e => Some (ErrWrap ("failed to update VastReplicationContent status " +:+
                                       Namespace (vrc_Meta v') +:+ "/" +:+ Name (vrc_Meta v') +:+ ": ") e "")
            end).

Definition DeleteVastReplicationContent (v : VRC) : Prog (option error) :=
  r ← call (Delete kVRC v);
  mret (match r with
        | inr _ => None
        | inl e =>
            if IsNotFound (Some e) then None
            else Some (ErrWrap ("failed to delete VastReplicationContent " +:+
                                Namespace (vrc_Meta v) +:+ "/" +:+ Name (vrc_Meta v) +:+ ": ") e "")
        end).

(** [wrapGetError]: a missing CRD is reported as such, without the cause. *)
Definition wrapGetError (kindName name namespace : string) (e : error) : error :=
  if contains (error_msg e) "no matches for"
     || contains (error_msg e) "unable to retrieve the complete list of server APIs"
  then ErrNew (kindName +:+ " " +:+ quote name +:+ " not found in namespace " +:+ quote namespace +:+
               " — are the VAST CRDs installed? (kubectl get crd | grep vastdata.com)")
  else e.

Definition GetVastStorageClassReplication (name namespace : string) : Prog (result VSCR) :=
  r ← call (Get kVSCR name namespace);
  mret (match r with
        | inl e => inl (wrapGetError "VastStorageClassReplication" name namespace e)
        | inr o => inr o
        end).

Definition GetVastVolumeReplication (name namespace : string) : Prog (result VVR) :=
  r ← call (Get kVVR name namespace);
  mret (match r with
        | inl e => inl (wrapGetError "VastVolumeReplication" name namespace e)
        | inr o => inr o
        end).

(** ** PVCs and PVs ([persistentvolumeclaim.go], [persistentvolume.go]) *)

Definition GetPVFromPVC (pvc : PVC) : Prog (result (option PV)) :=
  if bool_decide (pvc_VolumeName pvc = "") then mret (inr None)
  else
    r ← call (Get kPV (pvc_VolumeName pvc) "");
    mret (match r with
          | inl e =>
              if IsNotFound (Some e)
              then inl (ErrWrap ("PV " +:+ pvc_VolumeName pvc +:+ " does not exist for PVC " +:+
                                 Namespace (pvc_Meta pvc) +:+ "/" +:+ Name (pvc_Meta pvc) +:+ ": ") e "")
              else inl e
          | inr pv => inr (Some pv)
          end).

(** [None] for a PVC that is not bound. *)
Definition GetPVCandPV (pvcName namespace : string) : Prog (result (PVC * option PV)) :=
  r ← call (Get kPVC pvcName namespace);
  match r with
  | inl e => mret (inl e)
  | inr pvc =>
      r ← GetPVFromPVC pvc;
      mret (match r with inl e => inl e | inr pv => inr (pvc, pv) end)
  end.

Definition ListPVCsByLabelSelector (namespace : string) (selector : gmap string string)
    : Prog (result (list PVC)) := call (List kPVC namespace selector).

(** [EnsurePV] and [EnsurePVC]: whether the object was created. *)
Definition ensure (k : kind) (what : string) (o : kobj k) : Prog (result bool) :=
  r ← call (Get k (Name (meta k o)) (Namespace (meta k o)));
  match r with
  | inr _ => mret (inr false)
  | inl e =>
      if negb (IsNotFound (Some e))
      then mret (inl (ErrWrap ("failed to check for existing " +:+ what +:+ ": ") e ""))
      else
        r ← call (Create k o);
        mret (match r with
              | inr _ => inr true
              | inl e =>
                  if IsAlreadyExists (Some e) then inr false
                  else inl (ErrWrap ("failed to create " +:+ what +:+ ": ") e "")
              end)
  end.

Definition EnsurePV (pv : PV) : Prog (result bool) :=
  ensure kPV ("PersistentVolume " +:+ Name (pv_Meta pv)) pv.
Definition EnsurePVC (pvc : PVC) : Prog (result bool) :=
  ensure kPVC ("PersistentVolumeClaim " +:+ Namespace (pvc_Meta pvc) +:+ "/" +:+ Name (pvc_Meta pvc)) pvc.

Definition PatchPVCLabels (pvc : PVC) : Prog (PVC * option error) :=
  let desiredLabels := Labels (pvc_Meta pvc) in
  '(pvc', err) ← PatchWithRetry kPVC pvc (fun o => set_meta kPVC o (set_labels (pvc_Meta o) desiredLabels));
  mret (pvc', match err with
              | None => None
              | Some e => Some (ErrWrap ("failed to patch labels on PVC " +:+ Namespace (pvc_Meta pvc') +:+
                                         "/" +:+ Name (pvc_Meta pvc') +:+ ": ") e "")
              end).

Definition PatchPVLabels (pv : PV) : Prog (PV * option error) :=
  let desiredLabels := Labels (pv_Meta pv) in
  '(pv', err) ← PatchWithRetry kPV pv (fun o => set_meta kPV o (set_labels (pv_Meta o) desiredLabels));
  mret (pv', match err with
             | None => None
             | Some e => Some (ErrWrap ("failed to patch labels on PV " +:+ Name (pv_Meta pv') +:+ ": ") e "")
             end).

Definition IsPVCUsedByPod (pvc : PVC) : Prog (bool * option error) :=
  r ← call (List kPod (Namespace (pvc_Meta pvc)) ∅);
  mret (Kube.IsPVCUsedByPod (fun _ => r) pvc).

End Client.

(** ** Rules for the wrappers *)

Section Rules.

Context {steps : RetrySteps}.

Implicit Types (G : Trace → Call → Prop) (h : Trace).

Lemma wp_RetryOnConflict {S} G n (fn : S → Prog (S * option error)) s h
    (I : Trace → S → Prop) (Q : Trace → S * option error → Prop) :
  I h s →
  (∀ h s, I h s → wp G (fn s) h (fun h' x => Q h' x ∧ (IsConflict x.2 = true → I h' x.1))) →
  wp G (RetryOnConflict n fn s) h Q.
Proof.
  revert h s. induction n as [|n IH]; intros h s Hi Hfn; simpl; apply wp_bind;
    (eapply wp_post; [by apply Hfn|]); intros h' [s' err] [HQ HI]; simpl in *;
    destruct (IsConflict err); try done.
  apply IH; auto.
Qed.

Lemma runs_retry {S} n (fn : S → Prog (S * option error)) s t s' err :
  runs (fn s) t (s', err) → IsConflict err = false → runs (RetryOnConflict n fn s) t (s', err).
Proof.
  intros Hr Hc. rewrite <-(app_nil_r t). destruct n; simpl;
    (eapply runs_bind; [exact Hr|]; cbv beta iota; rewrite Hc; constructor).
Qed.

(** A patch of [o]: it ends with an answer or, with an error, with [o] or
    what it tried to write. *)
Lemma wp_patched {X} G k (o : kobj k) (x : X) f h (Q : Trace → kobj k * X * option error → Prop) :
  let Read := Get k (Name (meta k o)) (Namespace (meta k o)) in
  (∀ h' c, h `prefix_of` h' → (c = Read ∨ ∃ b, c = Patch k b (f b).1) → G h' c) →
  (∀ h' o' x' e, h `prefix_of` h' → o' = o ∨ (∃ b, @Ev Call resp Read (inr b) ∈ h' ∧ o' = (f b).1) →
     Q h' ((o', x'), Some e)) →
  (∀ h' b o', h `prefix_of` h' → Ev (Patch k b (f b).1) (inr o') ∈ h' → Q h' ((o', (f b).2), None)) →
  wp G (PatchWithRetry_capturing k o x f) h Q.
Proof.
  intros Read HG He Ho. unfold PatchWithRetry_capturing.
  apply (wp_RetryOnConflict _ _ _ _ _ (fun h' s => h `prefix_of` h' ∧
    (s.1 = o ∨ ∃ b, @Ev Call resp Read (inr b) ∈ h' ∧ s.1 = (f b).1))); [auto|].
  intros h' [o1 x1] [Hh Ho1]. apply wp_bind_call; [apply HG; auto|]. intros [e|b].
  - assert (Hp : h `prefix_of` h' ++ [@Ev Call resp Read (inl e)]) by (by apply prefix_app_r).
    assert (Ho1' : o1 = o ∨ ∃ b, @Ev Call resp Read (inr b) ∈ h' ++ [@Ev Call resp Read (inl e)] ∧ o1 = (f b).1).
    { destruct Ho1 as [?|(b & ? & ?)]; [by left|right; exists b; set_solver]. }
    split; [by apply He|intros _; by split].
  - destruct (f b) as [o2 x2] eqn:Hf. apply wp_bind_call.
    { apply HG; [by apply prefix_app_r|]. right. exists b. by rewrite Hf. }
    intros [e|o3].
    + match goal with |- wp _ _ ?h2 _ => assert (Hp : h `prefix_of` h2) by (by do 2 apply prefix_app_r);
        assert (Ho2 : o2 = o ∨ ∃ b, @Ev Call resp Read (inr b) ∈ h2 ∧ o2 = (f b).1) end.
      { right. exists b. rewrite Hf. split; [|done]. apply elem_of_app. left. apply in_snoc. }
      split; [by apply He|intros _; by split].
    + split; [|done]. replace x2 with (f b).2 by (by rewrite Hf).
      apply Ho; [by do 2 apply prefix_app_r|]. rewrite Hf. set_solver.
Qed.

(** The same when the object does not matter. *)
Lemma wp_PatchWithRetry_capturing {X} G k (o : kobj k) (x : X) f h
    (Q : Trace → kobj k * X * option error → Prop) :
  (∀ h' c, h `prefix_of` h' →
     (c = Get k (Name (meta k o)) (Namespace (meta k o)) ∨ ∃ b, c = Patch k b (f b).1) → G h' c) →
  (∀ h' o' x' e, h `prefix_of` h' → Q h' ((o', x'), Some e)) →
  (∀ h' b o', h `prefix_of` h' → Ev (Patch k b (f b).1) (inr o') ∈ h' → Q h' ((o', (f b).2), None)) →
  wp G (PatchWithRetry_capturing k o x f) h Q.
Proof. intros HG He Ho. apply wp_patched; auto. Qed.

(** Objects that differ at most in what a refresh changes. *)
Definition same_object (k : kind) (o o' : kobj k) : Prop :=
  o' = set_meta k o (meta k o') ∧
  Name (meta k o') = Name (meta k o) ∧ Namespace (meta k o') = Namespace (meta k o) ∧
  Labels (meta k o') = Labels (meta k o) ∧ Annotations (meta k o') = Annotations (meta k o) ∧
  Finalizers (meta k o') = Finalizers (meta k o) ∧ Deleting (meta k o') = Deleting (meta k o).

Lemma same_object_refl k o : same_object k o o.
Proof. unfold same_object. by rewrite set_meta_meta. Qed.

Lemma same_object_trans k o1 o2 o3 : same_object k o1 o2 → same_object k o2 o3 → same_object k o1 o3.
Proof.
  intros (E2 & ? & ? & ? & ? & ? & ?) (E3 & ? & ? & ? & ? & ? & ?).
  split; [|intuition congruence]. rewrite E3 at 1. rewrite E2. by rewrite set_meta_twice.
Qed.

Lemma wp_refreshObjectMetadata G k (o : kobj k) h (Q : Trace → kobj k * option error → Prop) :
  (∀ h', h `prefix_of` h' → G h' (Get k (Name (meta k o)) (Namespace (meta k o)))) →
  (∀ h' o' err, h `prefix_of` h' → same_object k o o' → Q h' (o', err)) →
  wp G (refreshObjectMetadata k o) h Q.
Proof.
  intros HG HQ. unfold refreshObjectMetadata. apply wp_bind_call; [by apply HG|].
  intros [e|fresh]; apply HQ; try (by apply prefix_app_r); [apply same_object_refl|].
  unfold same_object. by rewrite meta_set_meta.
Qed.

(** A retried write ends with the server's answer or, with an error, with the
    object up to a refresh. *)
Lemma wp_retried_write G k (write : kobj k → Prog (result (kobj k))) (o : kobj k) h
    (R : Trace → kobj k → Prop) (Q : Trace → kobj k * option error → Prop) :
  (∀ h' o', h `prefix_of` h' → same_object k o o' →
     wp G (write o') h' (fun h2 r => h `prefix_of` h2 ∧ match r with inl _ => True | inr o2 => R h2 o2 end)) →
  (∀ h' o', h `prefix_of` h' → same_object k o o' → G h' (Get k (Name (meta k o')) (Namespace (meta k o')))) →
  (∀ h' o', h `prefix_of` h' → R h' o' → Q h' (o', None)) →
  (∀ h' o' e, h `prefix_of` h' → same_object k o o' → Q h' (o', Some e)) →
  wp G (RetryOnConflict retry_steps (write_or_refresh k write) o) h Q.
Proof.
  intros HW HGet HQ HE.
  apply (wp_RetryOnConflict _ _ _ _ _ (fun h' o' => h `prefix_of` h' ∧ same_object k o o'));
    [split; [done|apply same_object_refl]|].
  intros h' o1 [Hh Ho]. unfold write_or_refresh. apply wp_bind.
  eapply wp_post; [by apply HW|]. intros h2 [e|o2] [Hh2 HR]; [|split; [by apply HQ|done]].
  destruct (IsConflict (Some e)) eqn:Hc; [|split; [by apply HE|cbn [snd]; congruence]].
  apply wp_bind, wp_refreshObjectMetadata.
  - intros h3 Hh3. apply HGet; [by etrans|done].
  - intros h3 o3 err Hh3 Ho3.
    assert (same_object k o o3) by (by eapply same_object_trans).
    assert (h `prefix_of` h3) by (by etrans).
    destruct err; (split; [by apply HE|done]).
Qed.

Lemma wp_write_or_refresh G k (write : kobj k → Prog (result (kobj k))) (o : kobj k) h
    (R : Trace → kobj k → Prop) (Q : Trace → kobj k * option error → Prop) :
  (∀ h' o', h `prefix_of` h' → same_object k o o' →
     wp G (write o') h' (fun h2 r => h `prefix_of` h2 ∧ match r with inl _ => True | inr o2 => R h2 o2 end)) →
  (∀ h' o', h `prefix_of` h' → same_object k o o' → G h' (Get k (Name (meta k o')) (Namespace (meta k o')))) →
  (∀ h' o' err, h `prefix_of` h' → same_object k o o' ∨ R h' o' → Q h' (o', err)) →
  wp G (RetryOnConflict retry_steps (write_or_refresh k write) o) h Q.
Proof. intros HW HGet HQ. eapply wp_retried_write; eauto. Qed.

Lemma wp_RemoveFinalizer G k (o : kobj k) f h (Q : Trace → kobj k * option error → Prop) :
  let target := set_meta k o (remove_finalizer (meta k o) f).1 in
  (∀ h' o', h `prefix_of` h' → same_object k target o' → G h' (Update k o')) →
  (∀ h', h `prefix_of` h' → G h' (Get k (Name (meta k o)) (Namespace (meta k o)))) →
  (∀ h' o' err, h `prefix_of` h' →
     same_object k target o' ∨ (∃ u, same_object k target u ∧ Ev (Update k u) (inr o') ∈ h') →
     Q h' (o', err)) →
  wp G (RemoveFinalizer k o f) h Q.
Proof.
  intros target HU HGet HQ. unfold RemoveFinalizer. subst target.
  destruct (remove_finalizer (meta k o) f) as [m removed] eqn:Hm. cbn [fst] in *.
  assert (Hid : Name m = Name (meta k o) ∧ Namespace m = Namespace (meta k o)).
  { unfold remove_finalizer in Hm. by injection Hm as <- _. }
  destruct removed; [|apply wp_ret, HQ; [done|left; apply same_object_refl]].
  apply wp_bind, (wp_write_or_refresh _ _ _ _ _
    (fun h' o' => ∃ u, same_object k (set_meta k o m) u ∧ Ev (Update k u) (inr o') ∈ h')).
  - intros h' o' Hh Ho. split; [by apply HU|]. intros r. split; [by apply prefix_app_r|].
    destruct r as [|o2]; [done|]. exists o'. split; [done|]. set_solver.
  - intros h' o' Hh (_ & -> & -> & _). rewrite meta_set_meta. destruct Hid as [-> ->]. by apply HGet.
  - intros h' o' err Hh Ho. apply wp_ret, HQ; done.
Qed.

End Rules.
