(* ===== verification/ContentController.v ===== *)
(** * The VastReplicationContent controller

    [internal/controller/vastreplicationcontent_controller.go]: one
    reconciliation of a VRC as a program over [Api.Call], with provisioning,
    self-destruction and the deletion protocol, in which a content keeps its
    finalizer until every content of its constellation has cleaned up.

    Events and log lines are left out; everything else the code does is a
    call of the program. *)

From S2P Require Import Prelude GoErrors Topology Kube Naming Programs Api.
From stdpp Require Import options.

Section Reconciler.

Context {steps : RetrySteps}.

(** ** Parents *)

(** [GetConstellationVRCs] with the API server as lister. *)
Definition constellation_selector (v : VRC) : option (gmap string string) :=
  let labels := Labels (vrc_Meta v) in
  if bool_decide (map_get labels LabelSourceVSCR ≠ "")
  then Some {[LabelSourceVSCR := map_get labels LabelSourceVSCR]}
  else if bool_decide (map_get labels LabelSourceVVR ≠ "")
  then Some {[LabelSourceVVR := map_get labels LabelSourceVVR]}
  else None.

Definition constellation (v : VRC) : Prog (result (option (list VRC))) :=
  match constellation_selector v with
  | None => mret (inr None)
  | Some sel =>
      r ← ListVastReplicationContentsByLabelSelector (Namespace (vrc_Meta v)) sel;
      mret (GetConstellationVRCs (fun _ _ => r) v)
  end.

Inductive Parent := ParentVVR (o : VVR) | ParentVSCR (o : VSCR).

Definition lookupVRCParent (v : VRC) : Prog (result Parent) :=
  let labels := Labels (vrc_Meta v) in
  let vvrName := map_get labels LabelSourceVVR in
  let vscrName := map_get labels LabelSourceVSCR in
  if bool_decide (vvrName ≠ "") then
    let parentNS := ParentNamespace labels LabelSourceVVRNamespace (Namespace (vrc_Meta v)) in
    r ← GetVastVolumeReplication vvrName parentNS;
    mret (match r with
          | inl e => inl (ErrWrap ("lookup parent VVR " +:+ parentNS +:+ "/" +:+ vvrName +:+ ": ") e "")
          | inr o => inr (ParentVVR o)
          end)
  else if bool_decide (vscrName ≠ "") then
    let parentNS := ParentNamespace labels LabelSourceVSCRNamespace (Namespace (vrc_Meta v)) in
    r ← GetVastStorageClassReplication vscrName parentNS;
    mret (match r with
          | inl e => inl (ErrWrap ("lookup parent VSCR " +:+ parentNS +:+ "/" +:+ vscrName +:+ ": ") e "")
          | inr o => inr (ParentVSCR o)
          end)
  else
    mret (Errorf ("VastReplicationContent " +:+ Namespace (vrc_Meta v) +:+ "/" +:+ Name (vrc_Meta v) +:+
                  " has neither " +:+ LabelSourceVVR +:+ " nor " +:+ LabelSourceVSCR +:+ " label")).

(** The three questions about the mirrored VGR or VR share the lookup:
    [None] for a kind that is neither. *)
Definition get_mirrored (v : VRC) : Prog (option (result bool)) :=
  let name := Name (vrc_Meta v) in
  let namespace := Namespace (vrc_Meta v) in
  if bool_decide (vrc_Kind (vrc_Spec v) = DestinationKindVolumeGroupReplication) then
    r ← call (Get kVGR name namespace);
    mret (Some (match r with inl e => inl e | inr vgr => inr (Deleting (vgr_Meta vgr)) end))
  else if bool_decide (vrc_Kind (vrc_Spec v) = DestinationKindVolumeReplication) then
    r ← call (Get kVR name namespace);
    mret (Some (match r with inl e => inl e | inr vr => inr (Deleting (vr_Meta vr)) end))
  else mret None.

Definition parentIsTerminating (v : VRC) : Prog (result bool) :=
  r ← get_mirrored v;
  mret (match r with
        | None => inr false
        | Some (inl e) => if IsNotFound (Some e) then inr false else inl e
        | Some (inr deleting) => inr deleting
        end).

Definition parentIsFullyGone (v : VRC) : Prog (result bool) :=
  r ← get_mirrored v;
  mret (match r with
        | None => inr true
        | Some (inl e) => if IsNotFound (Some e) then inr true else inl e
        | Some (inr _) => inr false
        end).

Definition parentIsGoneOrTerminating (v : VRC) : Prog (result bool) :=
  r ← get_mirrored v;
  mret (match r with
        | None => inr false
        | Some (inl e) => if IsNotFound (Some e) then inr true else inl e
        | Some (inr deleting) => inr deleting
        end).

(** ** Unblocking the deletion of the parent *)

Definition clear_ref (ownerKind ownerName : string) (ref : OwnerReference) : OwnerReference * bool :=
  if negb (bool_decide (or_Kind ref = ownerKind)) || negb (bool_decide (or_Name ref = ownerName))
  then (ref, false)
  else if bool_decide (or_BlockOwnerDeletion ref = Some false) then (ref, false)
  else (mkOwnerRef (or_APIVersion ref) (or_Kind ref) (or_Name ref) (or_UID ref) (or_Controller ref) (Some false), true).

Definition clearParentBlockOwnerDeletion (refs : list OwnerReference) (ownerKind ownerName : string)
    : list OwnerReference * bool :=
  let cleared := map (clear_ref ownerKind ownerName) refs in
  (map fst cleared, existsb snd cleared).

Definition set_owner_references (m : ObjectMeta) (refs : list OwnerReference) : ObjectMeta :=
  mkMeta (Name m) (Namespace m) (UID m) (Labels m) (Annotations m) (Finalizers m) refs
    (Generation m) (Deleting m).

Definition unblockParentDeletion (v : VRC) : Prog (VRC * result bool) :=
  t ← parentIsTerminating v;
  match t with
  | inl e => mret (v, inl e)
  | inr false => mret (v, inr false)
  | inr true =>
      let ownerKind := vrc_Kind (vrc_Spec v) in
      '((v', patched), err) ← PatchWithRetry_capturing kVRC v false
        (fun o =>
           let '(refs, patched) :=
             clearParentBlockOwnerDeletion (OwnerReferences (vrc_Meta o)) ownerKind (Name (vrc_Meta o)) in
           (set_meta kVRC o (set_owner_references (vrc_Meta o) refs), patched));
      match err with
      | Some e => mret (v', inl e)
      | None => mret (v', inr patched)
      end
  end.

(** ** The constellation barrier *)

Definition cleanup_done (v : VRC) : bool :=
  bool_decide (map_get (Annotations (vrc_Meta v)) AnnotationCleanupDone = "true").

(** Some other content has not finished its own cleanup yet. *)
Definition blocks (name : string) (other : VRC) : bool :=
  negb (bool_decide (Name (vrc_Meta other) = name)) && negb (cleanup_done other).

Definition allVCRsDeleted (v : VRC) : Prog (result bool) :=
  r ← constellation v;
  mret (match r with
        | inl e => inl (ErrWrap "list constellation VastReplicationContents: " e "")
        | inr vrcs => inr (negb (existsb (blocks (Name (vrc_Meta v))) (default [] vrcs)))
        end).

(** ** Provisioning and cleanup *)

Definition set_status (v : VRC) (s : VRCStatus) : VRC := mkVRC (vrc_Meta v) (vrc_Spec v) s.

(** The two status updates: read, stop when up to date, write; the failure
    of all attempts is only reported. *)
Definition update_status (v : VRC) (upToDate : VRC → bool) (change : VRC → VRCStatus) : Prog unit :=
  _ ← RetryOnConflict retry_steps
        (fun s : unit =>
           r ← call (Get kVRC (Name (vrc_Meta v)) (Namespace (vrc_Meta v)));
           match r with
           | inl e => mret (s, Some e)
           | inr fresh =>
               if upToDate fresh then mret (s, None)
               else
                 '(_, err) ← UpdateVastReplicationContentStatus (set_status fresh (change fresh));
                 mret (s, err)
           end) tt;
  mret tt.

Definition syncProvisionMeta (v : VRC) : Prog unit :=
  update_status v
    (fun fresh =>
       Z.eqb (vrcs_ObservedGeneration (vrc_Status fresh)) (Generation (vrc_Meta fresh)) &&
       bool_decide (vrcs_PVCsPreview (vrc_Status fresh) = DisplayableList_String (vrc_PVCs (vrc_Spec fresh))) &&
       DisplayableList_Equal (vrcs_PVCs (vrc_Status fresh)) (vrc_PVCs (vrc_Spec fresh)))
    (fun fresh =>
       mkVRCStatus (vrcs_Provisioned (vrc_Status fresh)) (Generation (vrc_Meta fresh))
         (DisplayableList_String (vrc_PVCs (vrc_Spec fresh))) (vrc_PVCs (vrc_Spec fresh))).

Definition markProvisioned (v : VRC) : Prog unit :=
  update_status v
    (fun fresh => vrcs_Provisioned (vrc_Status fresh))
    (fun fresh =>
       mkVRCStatus true (vrcs_ObservedGeneration (vrc_Status fresh))
         (vrcs_PVCsPreview (vrc_Status fresh)) (vrcs_PVCs (vrc_Status fresh))).

Definition provisionResources (v : VRC) : Prog (option error) :=
  r ← call (NewProvisioner v);
  match r with
  | inl e => mret (Some e)
  | inr _ =>
      syncProvisionMeta v;;
      '(v', err) ← call (ProvisionVolumes v);
      match err with
      | Some e => mret (Some e)
      | None => markProvisioned v';; mret None
      end
  end.

Definition cleanResources (v : VRC) : Prog (VRC * option error) :=
  r ← call (NewProvisioner v);
  match r with
  | inl e => mret (v, Some e)
  | inr _ => call (CleanVolumes v)
  end.

(** ** Reconcile *)

Definition maybeBackoffRetry (key : string * string) (err : option error)
    : Prog (Result * option error) :=
  match err ≫= as_retryable with
  | Some delay => mret (mkResult delay, None)
  | None =>
      match err with
      | Some _ => d ← call (BackoffNext key); mret (mkResult d, None)
      | None => mret (mkResult 0, None)
      end
  end.

(** The second half of the deletion branch: the barrier, then the finalizer. *)
Definition finish_deletion (key : string * string) (v : VRC) : Prog (Result * option error) :=
  r ← allVCRsDeleted v;
  match r with
  | inl e => mret (mkResult 0, Some e)
  | inr false => next ← call (BackoffNext key); mret (mkResult next, None)
  | inr true =>
      '(_, err) ← RemoveFinalizer kVRC v FinalizerReplicationContent;
      match err with
      | Some e => mret (mkResult 0, Some e)
      | None => call (BackoffReset key);; mret (mkResult 0, None)
      end
  end.

Definition reconcile_deleted (key : string * string) (v : VRC) : Prog (Result * option error) :=
  if cleanup_done v then finish_deletion key v
  else
    gone ← parentIsFullyGone v;
    match gone with
    | inl e => mret (mkResult 0, Some e)
    | inr false =>
        next ← call (BackoffNext key);
        '(v', unblocked) ← unblockParentDeletion v;
        match unblocked with
        | inl e => mret (mkResult 0, Some (ErrWrap ("unblock parent deletion for VRC " +:+
                           Namespace (vrc_Meta v') +:+ "/" +:+ Name (vrc_Meta v') +:+ ": ") e ""))
        | inr _ => mret (mkResult next, None)
        end
    | inr true =>
        '(v', err) ← cleanResources v;
        match err with
        | Some e => mret (mkResult 0, Some (ErrWrap "failed to clean resources: " e ""))
        | None =>
            '(v'', err) ← SetAnnotationAndUpdate kVRC v' AnnotationCleanupDone "true";
            match err with
            | Some e => mret (mkResult 0, Some e)
            | None => finish_deletion key v''
            end
        end
    end.

Definition reconcile_live (key : string * string) (v : VRC) : Prog (Result * option error) :=
  gone ← parentIsGoneOrTerminating v;
  match gone with
  | inl e => mret (mkResult 0, Some e)
  | inr true =>
      err ← DeleteVastReplicationContent v;
      match err with
      | Some e =>
          if IsNotFound err then mret (mkResult 0, None)
          else mret (mkResult 0, Some (ErrWrap ("self-destruct VRC " +:+ Namespace (vrc_Meta v) +:+ "/" +:+
                                                Name (vrc_Meta v) +:+ ": ") e ""))
      | None => mret (mkResult 0, None)
      end
  | inr false =>
      err ← provisionResources v;
      match err with
      | Some e => maybeBackoffRetry key (Some e)
      | None => call (BackoffReset key);; mret (mkResult 0, None)
      end
  end.

(** [key] is the request, (namespace, name). *)
Definition Reconcile (key : string * string) : Prog (Result * option error) :=
  r ← call (Get kVRC key.2 key.1);
  match r with
  | inl e => if IsNotFound (Some e) then mret (mkResult 0, None) else mret (mkResult 0, Some e)
  | inr v =>
      parent ← lookupVRCParent v;
      match parent with
      | inl e => maybeBackoffRetry key (Some (ErrWrap "resolve VRC parent: " e ""))
      | inr _ =>
          if Deleting (vrc_Meta v) then reconcile_deleted key v else reconcile_live key v
      end
  end.

End Reconciler.

(** ** What a run may do *)

Section Guard.

Variable key : string * string.

Definition first_read (v : VRC) (t : Trace) : Prop :=
  head t = Some (Ev (Get kVRC key.2 key.1) (inr v)).

(** Some lookup of the object mirrored by [v] in [t] was answered as [P] says;
    [None] for a kind that mirrors nothing. *)
Definition mirrored_said (v : VRC) (P : option (result bool) → Prop) (t : Trace) : Prop :=
  if bool_decide (vrc_Kind (vrc_Spec v) = DestinationKindVolumeGroupReplication) then
    ∃ r : result VolumeGroupReplication,
      Ev (Get kVGR (Name (vrc_Meta v)) (Namespace (vrc_Meta v))) r ∈ t ∧
      P (Some (match r with inl e => inl e | inr o => inr (Deleting (vgr_Meta o)) end))
  else if bool_decide (vrc_Kind (vrc_Spec v) = DestinationKindVolumeReplication) then
    ∃ r : result VolumeReplication,
      Ev (Get kVR (Name (vrc_Meta v)) (Namespace (vrc_Meta v))) r ∈ t ∧
      P (Some (match r with inl e => inl e | inr o => inr (Deleting (vr_Meta o)) end))
  else P None.

Definition gone (a : option (result bool)) : Prop :=
  match a with None => True | Some (inl e) => IsNotFound (Some e) = true | Some (inr _) => False end.
Definition live (a : option (result bool)) : Prop :=
  match a with None => True | Some (inr false) => True | _ => False end.
Definition going (a : option (result bool)) : Prop :=
  match a with None => False | Some (inl e) => IsNotFound (Some e) = true | Some (inr d) => d = true end.

(** The barrier: a listing of the constellation without an unfinished
    content besides [w]. *)
Definition barrier (w : VRC) (t : Trace) : Prop :=
  match constellation_selector w with
  | None => True
  | Some sel =>
      ∃ l : list VRC, Ev (List kVRC (Namespace (vrc_Meta w)) sel) (inr l) ∈ t ∧
        ∀ o, o ∈ l → Name (vrc_Meta o) ≠ Name (vrc_Meta w) → cleanup_done o = true
  end.

(** The content was read as deleted, and it had cleaned up before or did so
    in this run, after the mirrored object had disappeared. *)
Definition own_cleanup (t : Trace) : Prop :=
  ∃ v, first_read v t ∧ Deleting (vrc_Meta v) = true ∧
    (cleanup_done v = true ∨
     (mirrored_said v gone t ∧ (∃ v', Ev (CleanVolumes v) (v', None) ∈ t) ∧
      ∃ b o, Ev (Patch kVRC b (set_meta kVRC b (SetAnnotation (vrc_Meta b) AnnotationCleanupDone "true")))
                (inr o) ∈ t)).

Definition allowed (t : Trace) (c : Call) : Prop :=
  match c with
  | Update kVRC w =>
      FinalizerReplicationContent ∉ Finalizers (vrc_Meta w) ∧ barrier w t ∧ own_cleanup t
  | NewProvisioner v => first_read v t
  | CleanVolumes v =>
      first_read v t ∧ Deleting (vrc_Meta v) = true ∧ cleanup_done v = false ∧ mirrored_said v gone t
  | ProvisionVolumes v =>
      first_read v t ∧ Deleting (vrc_Meta v) = false ∧ mirrored_said v live t
  | Delete kVRC v =>
      first_read v t ∧ Deleting (vrc_Meta v) = false ∧ mirrored_said v going t
  | UpdateStatus kVRC w =>
      vrcs_Provisioned (vrc_Status w) = true →
      (∃ v v', Ev (ProvisionVolumes v) (v', None) ∈ t) ∨
      (∃ n ns v, Ev (Get kVRC n ns) (inr v) ∈ t ∧ vrcs_Provisioned (vrc_Status v) = true)
  | Create _ _ | Update _ _ | UpdateStatus _ _ | Delete _ _ => False
  | Vms _ _ | ProvisionVolumeCb _ _ _ | VolumeMapping _ => False
  | _ => True
  end.

(** *** Facts about the past stay true *)

Lemma first_read_mono v t t' : t `prefix_of` t' → first_read v t → first_read v t'.
Proof. intros [k ->]. unfold first_read. by destruct t. Qed.

Lemma mirrored_said_mono v P t t' : t `prefix_of` t' → mirrored_said v P t → mirrored_said v P t'.
Proof.
  intros [k ->]. unfold mirrored_said. repeat case_bool_decide; [| |done];
    intros (r & ? & ?); exists r; (split; [|done]); set_solver.
Qed.

Lemma barrier_mono w t t' : t `prefix_of` t' → barrier w t → barrier w t'.
Proof.
  intros [k ->]. unfold barrier. case_match; [|done]. intros (l & ? & ?). exists l. set_solver.
Qed.

Lemma own_cleanup_mono t t' : t `prefix_of` t' → own_cleanup t → own_cleanup t'.
Proof.
  intros Hp (v & Hr & Hd & Hc). exists v. split_and!; [by eapply first_read_mono|done|].
  destruct Hc as [?|(Hg & (v' & Hv) & b & o & Hb)]; [by left|right].
  split; [by eapply mirrored_said_mono|]. destruct Hp as [k ->].
  split; [exists v'|exists b, o]; set_solver.
Qed.

Lemma barrier_same w w' t : same_object kVRC w w' → barrier w t → barrier w' t.
Proof.
  intros (_ & Hn & Hns & Hl & _ & _). simpl in *.
  unfold barrier, constellation_selector. by rewrite Hn, Hns, Hl.
Qed.

End Guard.

(** ** Every run is allowed *)

Section Runs.

Context {steps : RetrySteps}.
Variable key : string * string.

Notation W := (wp (allowed key)).

Lemma mirrored_said_impl v (P P' : option (result bool) → Prop) t :
  (∀ a, P a → P' a) → mirrored_said v P t → mirrored_said v P' t.
Proof. unfold mirrored_said. intros H. repeat case_bool_decide; naive_solver. Qed.

Lemma wp_get_mirrored v h (Q : Trace → option (result bool) → Prop) :
  (∀ h' a, h `prefix_of` h' → mirrored_said v (fun b => b = a) h' → Q h' a) → W (get_mirrored v) h Q.
Proof.
  intros HQ. unfold get_mirrored.
  destruct (bool_decide (vrc_Kind (vrc_Spec v) = DestinationKindVolumeGroupReplication)) eqn:H1;
    [|destruct (bool_decide (vrc_Kind (vrc_Spec v) = DestinationKindVolumeReplication)) eqn:H2].
  - apply wp_bind_call; [done|]. intros r. apply wp_ret, HQ; [by apply prefix_app_r|].
    unfold mirrored_said. rewrite H1. exists r. split; [|done]. set_solver.
  - apply wp_bind_call; [done|]. intros r. apply wp_ret, HQ; [by apply prefix_app_r|].
    unfold mirrored_said. rewrite H1, H2. exists r. split; [|done]. set_solver.
  - apply wp_ret, HQ; [done|]. unfold mirrored_said. by rewrite H1, H2.
Qed.

Lemma constellation_answer v sel r :
  constellation_selector v = Some sel →
  GetConstellationVRCs (fun _ _ => r) v
  = match r with
    | inl e => inl (ErrWrap "failed to list constellation VRCs: " e "")
    | inr l => inr (Some l)
    end.
Proof. unfold GetConstellationVRCs, constellation_selector. by repeat case_bool_decide. Qed.

Lemma wp_allVCRsDeleted v h (Q : Trace → result bool → Prop) :
  (∀ h' r, h `prefix_of` h' → (r = inr true → barrier v h') → Q h' r) → W (allVCRsDeleted v) h Q.
Proof.
  intros HQ. unfold allVCRsDeleted, constellation.
  destruct (constellation_selector v) as [sel|] eqn:Hsel.
  2: { apply HQ; [done|]. intros _. unfold barrier. by rewrite Hsel. }
  apply wp_bind, wp_bind, wp_bind_call; [done|]. intros [e|l]; cbv beta iota;
    apply wp_ret; apply wp_ret; apply wp_ret; rewrite (constellation_answer v sel) by done;
    apply HQ; try (by apply prefix_app_r); [done|].
  intros [= Hb]. unfold barrier. rewrite Hsel. exists l. split; [set_solver|].
  intros o Ho Hne. apply negb_true_iff, not_true_iff_false in Hb.
  destruct (cleanup_done o) eqn:Hc; [done|]. exfalso. apply Hb.
  apply existsb_exists. exists o. split; [by apply list_elem_of_In|].
  unfold blocks. by rewrite bool_decide_false, Hc.
Qed.

Lemma wp_finish_deletion v h : own_cleanup key h → W (finish_deletion key v) h (fun _ _ => True).
Proof.
  intros Ho. unfold finish_deletion. apply wp_bind, wp_allVCRsDeleted. intros h' [e|[]] Hh Hb; [done| |].
  2: { apply wp_bind_call; [done|]. by intros r. }
  specialize (Hb eq_refl). apply wp_bind, wp_RemoveFinalizer.
  - intros h2 w Hh2 Hw. cbn [allowed]. split_and!.
    + destruct Hw as (_ & _ & _ & _ & _ & Hf & _). rewrite meta_set_meta in Hf.
      cbn [meta] in Hf. rewrite Hf. unfold remove_finalizer. simpl.
      rewrite list_elem_of_filter. by intros [? _].
    + apply (barrier_mono w h'); [done|]. eapply barrier_same; [exact Hw|]. exact Hb.
    + eapply own_cleanup_mono; [|exact Ho]. by etrans.
  - done.
  - intros h2 w [e|] Hh2 _; [done|]. apply wp_bind_call; [done|]. by intros r.
Qed.

Lemma wp_SetAnnotation v value akey h (Q : Trace → VRC * option error → Prop) :
  (∀ h' x, h `prefix_of` h' →
     (x.2 = None → ∃ b o, Ev (Patch kVRC b (set_meta kVRC b (SetAnnotation (vrc_Meta b) akey value))) (inr o) ∈ h') →
     Q h' x) →
  W (SetAnnotationAndUpdate kVRC v akey value) h Q.
Proof.
  intros HQ. unfold SetAnnotationAndUpdate, PatchWithRetry.
  apply wp_bind, wp_bind, wp_PatchWithRetry_capturing.
  - intros h' c Hh [->|[b ->]]; done.
  - intros h' o' x' e Hh. apply wp_ret, wp_ret. by apply HQ.
  - intros h' b o' Hh Hp. apply wp_ret, wp_ret. apply HQ; [done|]. intros _. by exists b, o'.
Qed.

Lemma wp_update_status v up change h (Q : Trace → unit → Prop) :
  (∀ h' n ns fresh, h `prefix_of` h' → Ev (Get kVRC n ns) (inr fresh) ∈ h' →
     vrcs_Provisioned (change fresh) = true →
     (∃ v v', Ev (ProvisionVolumes v) (v', None) ∈ h') ∨ vrcs_Provisioned (vrc_Status fresh) = true) →
  (∀ h', h `prefix_of` h' → Q h' tt) →
  W (update_status v up change) h Q.
Proof.
  intros Hch HQ. unfold update_status.
  apply wp_bind, (wp_RetryOnConflict _ _ _ _ _ (fun h' _ => h `prefix_of` h')); [done|].
  intros h' [] Hh. apply wp_bind_call; [done|].
  intros [e|fresh]; [split; [apply HQ|intros _]; by apply prefix_app_r|].
  assert (Hh1 : h `prefix_of` h' ++ [Ev (Get kVRC (Name (vrc_Meta v)) (Namespace (vrc_Meta v))) (inr fresh)])
    by (by apply prefix_app_r).
  destruct (up fresh); [split; [by apply HQ|done]|].
  unfold UpdateVastReplicationContentStatus, UpdateStatusWithRetry.
  apply wp_bind, wp_bind, (wp_write_or_refresh _ kVRC (fun o => call (UpdateStatus kVRC o)) _ _
    (fun _ _ => True)).
  - intros h2 w Hh2 [Hw _]. split; [|intros r; split; [by apply prefix_app_r|by destruct r]].
    cbn [allowed]. intros Hp.
    destruct (Hch h2 (Name (vrc_Meta v)) (Namespace (vrc_Meta v)) fresh) as [?|?]; [by etrans| | |by left|right].
    + destruct Hh2 as [k ->]. set_solver.
    + rewrite Hw in Hp. exact Hp.
    + exists (Name (vrc_Meta v)), (Namespace (vrc_Meta v)), fresh. split; [|done]. destruct Hh2 as [k ->]. set_solver.
  - done.
  - intros h2 w err Hh2 _. apply wp_ret, wp_ret. split; [apply HQ|intros _]; by etrans.
Qed.

Lemma wp_unblockParentDeletion v h : W (unblockParentDeletion v) h (fun _ _ => True).
Proof.
  unfold unblockParentDeletion, parentIsTerminating.
  apply wp_bind, wp_bind, wp_get_mirrored. intros h' a Hh _. apply wp_ret.
  match goal with |- context [match ?x with inl _ => _ | inr _ => _ end] => destruct x as [e|[]] end;
    try done.
  apply wp_bind, (wp_PatchWithRetry_capturing _ kVRC).
  - intros h2 c Hh2 [->|[b ->]]; done.
  - by intros h2 o' x' e Hh2.
  - by intros h2 b o' Hh2 Hp.
Qed.

Lemma wp_maybeBackoffRetry err h : W (maybeBackoffRetry key err) h (fun _ _ => True).
Proof. unfold maybeBackoffRetry. by repeat (case_match; try done). Qed.

Lemma wp_reconcile_deleted v h :
  first_read key v h → Deleting (vrc_Meta v) = true →
  W (reconcile_deleted key v) h (fun _ _ => True).
Proof.
  intros Hr Hd. unfold reconcile_deleted. destruct (cleanup_done v) eqn:Hc.
  { apply wp_finish_deletion. exists v. split_and!; auto. }
  unfold parentIsFullyGone. apply wp_bind, wp_bind, wp_get_mirrored. intros h1 a Hh1 Ha. apply wp_ret.
  destruct (match a with Some (inl e) => _ | _ => _ end) as [e|[]] eqn:Hx; [done| |].
  2: { apply wp_bind_call; [done|]. intros next. apply wp_bind.
       eapply wp_post; [apply wp_unblockParentDeletion|]. intros h2 [v' [e|b]] _; done. }
  assert (Hg : mirrored_said v gone h1).
  { eapply mirrored_said_impl; [|exact Ha]. intros b ->. revert Hx. unfold gone. by repeat case_match. }
  unfold cleanResources. apply wp_bind, wp_bind_call; [by eapply first_read_mono|]. intros [e|[]]; [done|].
  set (h2 := h1 ++ _). assert (Hh2 : h1 `prefix_of` h2) by (by apply prefix_app_r).
  split.
  { cbn [allowed]. split_and!; [eapply first_read_mono; [|done]; by etrans|done|done|].
    by eapply mirrored_said_mono. }
  intros [v' [e|]]; [done|].
  set (h3 := h2 ++ _). assert (Hh3 : h2 `prefix_of` h3) by (by apply prefix_app_r).
  apply wp_bind, wp_SetAnnotation. intros h4 [v'' [e|]] Hh4 Hp; [done|].
  apply wp_finish_deletion. exists v. destruct (Hp eq_refl) as (b & o & Hb).
  split_and!; [eapply first_read_mono; [|done]; by do 3 (etrans; [done|])|done|right].
  split; [eapply mirrored_said_mono; [|exact Hg]; by do 2 (etrans; [done|])|].
  split; [|by exists b, o]. exists v'. destruct Hh4 as [k ->]. set_solver.
Qed.

Lemma wp_provisionResources v h :
  first_read key v h → Deleting (vrc_Meta v) = false → mirrored_said v live h →
  W (provisionResources v) h (fun _ _ => True).
Proof.
  intros Hr Hd Hl. unfold provisionResources. apply wp_bind_call; [done|]. intros [e|[]]; [done|].
  set (h1 := h ++ _). assert (Hh1 : h `prefix_of` h1) by (by apply prefix_app_r).
  apply wp_bind, wp_update_status; [auto|]. intros h2 Hh2. apply wp_bind_call.
  { cbn [allowed]. split_and!; [|done|].
    - eapply first_read_mono; [|done]. by etrans.
    - eapply mirrored_said_mono; [|done]. by etrans. }
  intros [v' [e|]]; [done|]. apply wp_bind, wp_update_status; [|done].
  intros h3 n ns fresh [k ->] _ _. left. exists v, v'. set_solver.
Qed.

Lemma wp_reconcile_live v h :
  first_read key v h → Deleting (vrc_Meta v) = false →
  W (reconcile_live key v) h (fun _ _ => True).
Proof.
  intros Hr Hd. unfold reconcile_live, parentIsGoneOrTerminating.
  apply wp_bind, wp_bind, wp_get_mirrored. intros h1 a Hh1 Ha. apply wp_ret.
  assert (Hr1 : first_read key v h1) by (by eapply first_read_mono).
  destruct (match a with Some (inl e) => _ | _ => _ end) as [e|[]] eqn:Hx; [done| |].
  - unfold DeleteVastReplicationContent. apply wp_bind, wp_bind_call.
    + cbn [allowed]. split_and!; [done..|]. eapply mirrored_said_impl; [|exact Ha].
      intros b ->. unfold going. destruct a as [[e|[]]|]; try done.
      by destruct (IsNotFound (Some e)).
    + intros r. apply wp_ret. by repeat (case_match; try done).
  - apply wp_bind. eapply wp_post; [apply wp_provisionResources; [done..|]|].
    + eapply mirrored_said_impl; [|exact Ha]. intros b ->. unfold live.
      destruct a as [[e|[]]|]; try done. by destruct (IsNotFound (Some e)).
    + intros h2 [e|] _; [apply wp_maybeBackoffRetry|]. apply wp_bind_call; [done|]. by intros [].
Qed.

Lemma wp_Reconcile : W (Reconcile key) [] (fun _ _ => True).
Proof.
  unfold Reconcile. apply wp_bind_call; [done|]. intros [e|v]; [by case_match|]. simpl.
  set (h1 := [_]).
  assert (Hr : ∀ h', h1 `prefix_of` h' → first_read key v h').
  { intros h' Hh. by eapply first_read_mono. }
  apply wp_bind. apply (wp_post _ _ _ (fun h' _ => h1 `prefix_of` h')).
  { unfold lookupVRCParent. repeat case_bool_decide; [..|by apply wp_ret];
      (apply wp_bind; apply wp_bind_call; [done|]; intros r; by apply prefix_app_r). }
  intros h' [e|p] Hh; [apply wp_maybeBackoffRetry|].
  destruct (Deleting (vrc_Meta v)) eqn:Hd; [apply wp_reconcile_deleted|apply wp_reconcile_live]; auto.
Qed.

Lemma runs_allowed t a t1 c r t2 :
  runs (Reconcile key) t a → t = t1 ++ Ev c r :: t2 → allowed key t1 c.
Proof. intros Hr ->. destruct (wp_sound _ _ [] _ _ _ wp_Reconcile Hr) as [_ H]. by eapply H. Qed.

End Runs.

(** ** Properties *)

(** The finalizer barrier: in every run of a reconciliation, whatever the
    API server answers, a write that takes the finalizer off the content comes
    after a listing in which every other content of the constellation has
    cleaned up, and after the content's own cleanup, which was recorded before
    or was done in this run once the mirrored VGR or VR had disappeared.  No
    other update of a content is ever sent. *)
Theorem content_finalizer_barrier {steps : RetrySteps} (key : string * string)
    (t t1 t2 : Trace) (a : Result * option error) (w : VRC) (r : result VRC) :
  runs (Reconcile key) t a → t = t1 ++ Ev (Update kVRC w) r :: t2 →
  FinalizerReplicationContent ∉ Finalizers (vrc_Meta w) ∧ barrier w t1 ∧ own_cleanup key t1.
Proof. intros Hr Ht. exact (runs_allowed key t a t1 (Update kVRC w) r t2 Hr Ht). Qed.

(** Cleanup is only started for a deleted content that has not cleaned up
    yet, after the API server has answered that its VGR or VR does not exist
    any more; a terminating one is not enough. *)
Theorem content_cleanup_waits_for_parent {steps : RetrySteps} (key : string * string)
    (t t1 t2 : Trace) (a : Result * option error) (v : VRC) (r : VRC * option error) :
  runs (Reconcile key) t a → t = t1 ++ Ev (CleanVolumes v) r :: t2 →
  first_read key v t1 ∧ Deleting (vrc_Meta v) = true ∧ cleanup_done v = false ∧
  mirrored_said v gone t1.
Proof. intros Hr Ht. exact (runs_allowed key t a t1 (CleanVolumes v) r t2 Hr Ht). Qed.

(** Volumes are provisioned only for a content that was read as not
    deleted and whose mirrored object was answered to exist and not to be
    terminating, and a status with [provisioned] set is only written after
    [ProvisionVolumes] succeeded in this run or when it was set already. *)
Theorem content_provision_guarded {steps : RetrySteps} (key : string * string)
    (t : Trace) (a : Result * option error) :
  runs (Reconcile key) t a →
  (∀ t1 v r t2, t = t1 ++ Ev (ProvisionVolumes v) r :: t2 →
     first_read key v t1 ∧ Deleting (vrc_Meta v) = false ∧ mirrored_said v live t1) ∧
  (∀ t1 w r t2, t = t1 ++ Ev (UpdateStatus kVRC w) r :: t2 →
     vrcs_Provisioned (vrc_Status w) = true →
     (∃ v v', Ev (ProvisionVolumes v) (v', None) ∈ t1) ∨
     (∃ n ns v, Ev (Get kVRC n ns) (inr v) ∈ t1 ∧ vrcs_Provisioned (vrc_Status v) = true)).
Proof.
  intros Hr. split.
  - intros t1 v r t2 Ht. exact (runs_allowed key t a t1 (ProvisionVolumes v) r t2 Hr Ht).
  - intros t1 w r t2 Ht. exact (runs_allowed key t a t1 (UpdateStatus kVRC w) r t2 Hr Ht).
Qed.

(** *** A cluster for the witnesses *)

(** One content, its parents and no failures; [fail] is what
    [ProvisionVolumes] answers, [vgr] what a lookup of the VGR answers. *)
Definition demo_handler (v : VRC) (vgr : result VolumeGroupReplication) (parent : VSCR)
    (fail : option error) (c : Call) (s : unit) : unit * resp c :=
  (s,
   match c return resp c with
   | Get kVRC _ _ => inr v
   | Get kVGR _ _ => vgr
   | Get kVSCR _ _ => inr parent
   | List kVRC _ _ => inr [v]
   | ProvisionVolumes v => (v, fail)
   | c => quiet c
   end).

Definition demo_content (deleting : bool) (statusPVCs : list string) : VRC :=
  mkVRC (mkMeta "a-gold" "apps" "u1" {[LabelSourceVSCR := "a"]} ∅ [FinalizerReplicationContent] [] 1 deleting)
    (mkVRCSpec "gold" ProvisionerTypeFile DestinationKindVolumeGroupReplication true "/k8s" ["p"] "pp"
       ["data"] "primary")
    (mkVRCStatus false 0 "" statusPVCs).
Definition demo_vscr : VSCR :=
  mkVSCR (mkMeta "a" "apps" "u2" ∅ ∅ [] [] 1 false)
    (mkVSCRSpec "gold" [] (mkTemplate []) FailoverTypeUngraceful false 0 false true
       DestVolReclaimPolicyRetain "") (mkStatus FailoverTypeUnset "" "" ∅ ∅ "" "").
Definition demo_vgr : VolumeGroupReplication :=
  mkVGR (mkMeta "a-gold" "apps" "u3" ∅ ∅ [] [] 1 false) Primary "r" "" "" true None PrimaryState ["data"].

Definition demo_run (deleting : bool) (vgr : result VolumeGroupReplication) (fail : option error) :=
  exec (demo_handler (demo_content deleting ["data"; "old"]) vgr demo_vscr fail)
    (@Reconcile 4 ("apps", "a-gold")) tt.

Lemma content_finalizer_barrier_witness :
  ∃ t1 w r t2, (demo_run true (inl (ErrStatus ReasonNotFound "gone")) None).1.2
                 = t1 ++ Ev (Update kVRC w) r :: t2 ∧ barrier w t1.
Proof.
  exists (take 8 (demo_run true (inl (ErrStatus ReasonNotFound "gone")) None).1.2).
  do 3 eexists. split; [vm_compute; reflexivity|].
  eapply (@content_finalizer_barrier 4 ("apps", "a-gold"));
    [exact (exec_runs (demo_handler (demo_content true ["data"; "old"])
              (inl (ErrStatus ReasonNotFound "gone")) demo_vscr None)
              (@Reconcile 4 ("apps", "a-gold")) tt)|].
  vm_compute. reflexivity.
Defined.

Lemma content_cleanup_waits_for_parent_witness :
  ∃ t1 v r t2, (demo_run true (inl (ErrStatus ReasonNotFound "gone")) None).1.2
                 = t1 ++ Ev (CleanVolumes v) r :: t2 ∧ mirrored_said v gone t1.
Proof.
  exists (take 4 (demo_run true (inl (ErrStatus ReasonNotFound "gone")) None).1.2).
  do 3 eexists. split; [vm_compute; reflexivity|].
  eapply (@content_cleanup_waits_for_parent 4 ("apps", "a-gold"));
    [exact (exec_runs (demo_handler (demo_content true ["data"; "old"])
              (inl (ErrStatus ReasonNotFound "gone")) demo_vscr None)
              (@Reconcile 4 ("apps", "a-gold")) tt)|].
  vm_compute. reflexivity.
Defined.

Lemma content_provision_guarded_witness :
  ∃ t1 v r t2, (demo_run false (inr demo_vgr) None).1.2 = t1 ++ Ev (ProvisionVolumes v) r :: t2 ∧
    mirrored_said v live t1.
Proof.
  destruct (@content_provision_guarded 4 ("apps", "a-gold") _ _
              (exec_runs (demo_handler (demo_content false ["data"; "old"]) (inr demo_vgr) demo_vscr None)
                 (@Reconcile 4 ("apps", "a-gold")) tt)) as [H _].
  exists (take 6 (demo_run false (inr demo_vgr) None).1.2). do 3 eexists.
  split; [vm_compute; reflexivity|]. eapply H. vm_compute. reflexivity.
Defined.

Lemma DisplayableList_Equal_spec (d other : list string) :
  DisplayableList_Equal d other = true ↔ d = other.
Proof.
  unfold DisplayableList_Equal. revert other.
  induction d as [|x d IH]; intros [|y other]; simpl; [done..|].
  specialize (IH other). destruct (bool_decide_reflect (length d = length other)) as [Hl|Hl]; simpl in IH.
  - rewrite bool_decide_true by congruence. simpl. rewrite andb_true_iff, bool_decide_eq_true, IH.
    naive_solver.
  - rewrite bool_decide_false by congruence. split; [done|]. intros [= -> ->]. by destruct Hl.
Qed.

(** Pieces of a run without failures. *)
Section GoodRuns.

Context {steps : RetrySteps}.

Lemma runs_syncProvisionMeta v :
  vrcs_PVCs (vrc_Status v) ≠ vrc_PVCs (vrc_Spec v) →
  ∃ t w, runs (syncProvisionMeta v) (t ++ [Ev (UpdateStatus kVRC w) (inr w)]) tt ∧
    vrcs_PVCs (vrc_Status w) = vrc_PVCs (vrc_Spec v).
Proof.
  intros Hne. unfold syncProvisionMeta, update_status.
  set (w := set_status v (mkVRCStatus (vrcs_Provisioned (vrc_Status v)) (Generation (vrc_Meta v))
              (DisplayableList_String (vrc_PVCs (vrc_Spec v))) (vrc_PVCs (vrc_Spec v)))).
  eexists [Ev (Get kVRC _ _) (inr v)], w. split; [|done].
  rewrite <-(app_nil_r (_ ++ _)). eapply runs_bind; [|constructor].
  apply (runs_retry _ _ tt _ tt None); [|done]. apply runs_vis. cbv beta iota.
  rewrite <-DisplayableList_Equal_spec, not_true_iff_false in Hne. rewrite Hne, andb_false_r.
  rewrite <-(app_nil_r [_]). apply (runs_bind _ _ _ (w, None)); [|constructor].
  rewrite <-(app_nil_r [_]). apply (runs_bind _ _ _ (w, None)); [|constructor].
  apply (runs_retry (S := VRC)); [|done]. apply runs_vis. constructor.
Qed.

Lemma runs_maybeBackoffRetry key e : ∃ t a, runs (maybeBackoffRetry key (Some e)) t a.
Proof.
  unfold maybeBackoffRetry. simpl. destruct (as_retryable e) as [d|].
  - do 2 eexists. constructor.
  - eexists [Ev (BackoffNext key) 1%Z], _. apply runs_vis. constructor.
Qed.

Lemma runs_parent_vscr v parent :
  map_get (Labels (vrc_Meta v)) LabelSourceVVR = "" → map_get (Labels (vrc_Meta v)) LabelSourceVSCR ≠ "" →
  runs (lookupVRCParent v)
    [Ev (Get kVSCR (map_get (Labels (vrc_Meta v)) LabelSourceVSCR)
           (ParentNamespace (Labels (vrc_Meta v)) LabelSourceVSCRNamespace (Namespace (vrc_Meta v))))
        (inr parent)] (inr (ParentVSCR parent)).
Proof.
  intros Hvvr Hvscr. unfold lookupVRCParent. rewrite bool_decide_false by (intros Hn; by apply Hn).
  rewrite bool_decide_true by done. apply runs_vis. constructor.
Qed.

Lemma runs_mirrored_live v (vgr : VolumeGroupReplication) :
  vrc_Kind (vrc_Spec v) = DestinationKindVolumeGroupReplication → Deleting (vgr_Meta vgr) = false →
  runs (parentIsGoneOrTerminating v)
    [Ev (Get kVGR (Name (vrc_Meta v)) (Namespace (vrc_Meta v))) (inr vgr)] (inr false).
Proof.
  intros Hk Hd. unfold parentIsGoneOrTerminating, get_mirrored. rewrite bool_decide_true by done.
  apply runs_vis. simpl. rewrite Hd. constructor.
Qed.

End GoodRuns.

(** The recorded PVC list runs ahead of provisioning: for every live
    content of a VGR whose recorded list differs from its spec, there is a
    run in which the status with the list of the spec has been stored when
    [ProvisionVolumes] fails, so the next reconciliation no longer sees which
    PVCs were removed. *)
Theorem content_status_ahead {steps : RetrySteps} (key : string * string) (v : VRC) (e : error)
    (parent : VSCR) (vgr : VolumeGroupReplication) :
  Deleting (vrc_Meta v) = false → Deleting (vgr_Meta vgr) = false →
  vrc_Kind (vrc_Spec v) = DestinationKindVolumeGroupReplication →
  map_get (Labels (vrc_Meta v)) LabelSourceVVR = "" → map_get (Labels (vrc_Meta v)) LabelSourceVSCR ≠ "" →
  vrcs_PVCs (vrc_Status v) ≠ vrc_PVCs (vrc_Spec v) →
  ∃ t a t1 w t2, runs (Reconcile key) t a ∧
    t = t1 ++ [Ev (UpdateStatus kVRC w) (inr w); Ev (ProvisionVolumes v) (v, Some e)] ++ t2 ∧
    vrcs_PVCs (vrc_Status w) = vrc_PVCs (vrc_Spec v).
Proof.
  intros Hd Hdg Hk Hvvr Hvscr Hne.
  destruct (runs_syncProvisionMeta v Hne) as (t0 & w & Hs & Hw).
  destruct (runs_maybeBackoffRetry key e) as (t3 & a & Hb).
  set (tail := [Ev (UpdateStatus kVRC w) (inr w); Ev (ProvisionVolumes v) (v, Some e)] ++ t3).
  assert (∃ e1 e2 e3 e4, runs (Reconcile key) (e1 :: [e2] ++ [e3] ++ (e4 :: t0) ++ tail) a)
    as (e1 & e2 & e3 & e4 & Hrun).
  { exists (@Ev Call resp (Get kVRC key.2 key.1) (inr v)). do 3 eexists. apply runs_vis.
    eapply runs_bind; [by apply (runs_parent_vscr v parent)|]. cbv beta iota. rewrite Hd.
    eapply runs_bind; [exact (runs_mirrored_live v vgr Hk Hdg)|].
    replace ((_ :: t0) ++ tail) with ((@Ev Call resp (NewProvisioner v) (inr tt) ::
      (t0 ++ [Ev (UpdateStatus kVRC w) (inr w)]) ++ [Ev (ProvisionVolumes v) (v, Some e)]) ++ t3)
      by (unfold tail; simpl; by rewrite <-!app_assoc).
    apply (runs_bind _ _ _ (Some e)); [|exact Hb].
    apply runs_vis. eapply runs_bind; [exact Hs|]. apply runs_vis. constructor. }
  exists (e1 :: [e2] ++ [e3] ++ (e4 :: t0) ++ tail), a, (e1 :: [e2] ++ [e3] ++ (e4 :: t0)), w, t3.
  split_and!; [exact Hrun| |exact Hw]. unfold tail. by rewrite !app_assoc.
Qed.

Lemma content_status_ahead_witness :
  ∃ t a t1 w t2, runs (@Reconcile 4 ("apps", "a-gold")) t a ∧
    t = t1 ++ [Ev (UpdateStatus kVRC w) (inr w);
               Ev (ProvisionVolumes (demo_content false ["data"; "old"]))
                  (demo_content false ["data"; "old"], Some (ErrNew "no route"))] ++ t2 ∧
    vrcs_PVCs (vrc_Status w) = ["data"].
Proof.
  apply (@content_status_ahead 4 ("apps", "a-gold") (demo_content false ["data"; "old"])
           (ErrNew "no route") demo_vscr demo_vgr).
  - reflexivity.
  - reflexivity.
  - reflexivity.
  - vm_compute. reflexivity.
  - vm_compute. discriminate.
  - vm_compute. discriminate.
Defined.
