(* ===== verification/Client.v ===== *)
(** * The client wrappers of the replication objects

    [internal/common/k8s_client]: [volumereplication.go],
    [volumereplicationclass.go], [vastreplicationcontent.go],
    [vaststorageclassreplication.go], [vastvolumeplication.go] and the rest of
    [finalizers.go] and [persistentvolumeclaim.go], as programs over
    [Api.Call]; and the polling primitive of [internal/common/vmsrest/wait.go]
    which [WaitForVRC] repeats. *)

From S2P Require Import Prelude GoErrors Topology Kube Naming Lookups Programs Api.
From stdpp Require Import options.

(** ** Polling *)

(** Durations and the clock are in nanoseconds. *)
Definition Millisecond : Z := 1000000.
Definition Second : Z := 1000 * Millisecond.
Definition Minute : Z := 60 * Second.

(** [poll n]: [n] is how often
    the loop may go round; with [polls timeout sleep] rounds the deadline has
    passed before they are used up ([poll_rounds_suffice]). *)
Fixpoint poll {A} (n : nat) (deadline : Z) (timeoutErr : error) (sleep : Prog (option error))
    (check : Prog (result (option A))) : Prog (result A) :=
  r ← check;
  match r with
  | inl e => mret (inl e)
  | inr (Some a) => mret (inr a)
  | inr None =>
      now ← call Now;
      if (deadline <? now)%Z then mret (inl timeoutErr)
      else
        done ← sleep;
        match done with
        | Some e => mret (inl e)
        | None =>
            match n with
            | O => mret (inl timeoutErr)
            | S n' => poll n' deadline timeoutErr sleep check
            end
        end
  end.

Definition polls (timeout sleep : Z) : nat := Z.to_nat (timeout / sleep + 1).

(** [time.Duration.String], for the messages. *)
Class ShowDuration := show_duration : Z → string.

(** [time.Sleep] *)
Definition plain_sleep (d : Z) : Prog (option error) := _ ← call (Sleep d); mret None.

Definition WaitResource {A} `{ShowDuration} (timeout sleep : Z) (description : string)
    (checkFn : Prog (result (option A))) : Prog (result A) :=
  t0 ← call Now;
  poll (polls timeout sleep) (t0 + timeout)%Z
    (ErrNew ("timed out after " +:+ show_duration timeout +:+ " waiting for " +:+ description +:+
             " to be ready"))
    (plain_sleep sleep) checkFn.

Inductive WaitCondition := WaitConditionPresent | WaitConditionAbsent.

Definition WaitForResource `{ShowDuration} (Exists : Prog (result bool)) (condition : WaitCondition)
    (timeout sleep : Z) (description : string) : Prog (option error) :=
  r ← WaitResource timeout sleep description
        (r ← Exists;
         mret (match r with
               | inl e => inl (ErrWrap ("checking " +:+ description +:+ ": ") e "")
               | inr exists_ =>
                   let done := match condition with
                               | WaitConditionPresent => exists_
                               | WaitConditionAbsent => negb exists_
                               end in
                   inr (if done then Some tt else None)
               end));
  mret (err_of r).

Section Client.

Context {steps : RetrySteps}.

(** ** finalizers.go *)

Definition AddFinalizer (k : kind) (o : kobj k) (finalizer : string) : Prog (kobj k * option error) :=
  let '(m, added) := add_finalizer (meta k o) finalizer in
  let o' := set_meta k o m in
  if added then updateFinalizerWithRetry k o' else mret (o', None).

(** Whether the finalizer was added. *)
Definition EnsureFinalizer (k : kind) (o : kobj k) (finalizer : string)
    : Prog (kobj k * (bool * option error)) :=
  let '(m, added) := add_finalizer (meta k o) finalizer in
  let o' := set_meta k o m in
  if added then
    '(o'', err) ← updateFinalizerWithRetry k o';
    mret (o'', (true, err))
  else mret (o', (false, None)).

Definition ClearFinalizers (k : kind) (o : kobj k) : Prog (kobj k * option error) :=
  if bool_decide (length (Finalizers (meta k o)) = 0) then mret (o, None)
  else updateFinalizerWithRetry k (set_meta k o (set_finalizers (meta k o) [])).

(** ** volumereplication.go *)

Definition GetVolumeReplication (name namespace : string) : Prog (result VolumeReplication) :=
  call (Get kVR name namespace).
Definition GetVolumeGroupReplication (name namespace : string) : Prog (result VolumeGroupReplication) :=
  call (Get kVGR name namespace).

Definition in_namespace (m : ObjectMeta) : string := Namespace m +:+ "/" +:+ Name m.

Definition EnsureVolumeReplication (vr : VolumeReplication) : Prog (result bool) :=
  ensure kVR ("VolumeReplication " +:+ in_namespace (vr_Meta vr)) vr.
Definition EnsureVolumeGroupReplication (vgr : VolumeGroupReplication) : Prog (result bool) :=
  ensure kVGR ("VolumeGroupReplication " +:+ in_namespace (vgr_Meta vgr)) vgr.

Definition vr_set_state (vr : VolumeReplication) (s : ReplicationState) : VolumeReplication :=
  mkVR (vr_Meta vr) s (vr_VolumeReplicationClass vr) (vr_DataSource vr) (vr_AutoResync vr) (vr_State vr).
Definition vgr_set_state (vgr : VolumeGroupReplication) (s : ReplicationState) : VolumeGroupReplication :=
  mkVGR (vgr_Meta vgr) s (vgr_VolumeReplicationName vgr) (vgr_GroupClassName vgr) (vgr_ClassName vgr)
    (vgr_AutoResync vgr) (vgr_Selector vgr) (vgr_State vgr) (vgr_PVCs vgr).
Definition vrc_set_state (v : VRC) (s : string) : VRC :=
  let sp := vrc_Spec v in
  mkVRC (vrc_Meta v)
    (mkVRCSpec (vrc_StorageClass sp) (vrc_ProvisionerType sp) (vrc_Kind sp) (vrc_SyncPVCPV sp)
       (vrc_ReplicationPath sp) (vrc_ProtectionPolicyNames sp) (vrc_ProtectedPathName sp) (vrc_PVCs sp) s)
    (vrc_Status v).

(** Read, stop when up to date, patch; a conflict starts over. *)
Definition patch_fresh (k : kind) (what : string) (upToDate : kobj k → bool) (change : kobj k → kobj k)
    (o : kobj k) : Prog (option error) :=
  '(_, err) ← RetryOnConflict retry_steps
    (fun s : unit =>
       r ← call (Get k (Name (meta k o)) (Namespace (meta k o)));
       match r with
       | inl e => mret (s, Some e)
       | inr fresh =>
           if upToDate fresh then mret (s, None)
           else
             r ← call (Patch k fresh (change fresh));
             mret (s, match r with
                      | inl e => Some (ErrWrap ("failed to patch " +:+ what +:+ ": ") e "")
                      | inr _ => None
                      end)
       end) tt;
  mret err.

Definition ReplicationState_string (s : ReplicationState) : string :=
  match s with
  | Primary => "primary" | Secondary => "secondary" | Resync => "resync"
  | OtherReplicationState s => s
  end.

Definition PatchVolumeReplicationState (vr : VolumeReplication) (state : ReplicationState)
    : Prog (option error) :=
  patch_fresh kVR ("VolumeReplication " +:+ in_namespace (vr_Meta vr) +:+ " replicationState to " +:+
                   quote (ReplicationState_string state))
    (fun fresh => bool_decide (vr_ReplicationState fresh = state)) (fun fresh => vr_set_state fresh state) vr.

Definition PatchVolumeGroupReplicationState (vgr : VolumeGroupReplication) (state : ReplicationState)
    : Prog (option error) :=
  patch_fresh kVGR ("VolumeGroupReplication " +:+ in_namespace (vgr_Meta vgr) +:+ " replicationState to " +:+
                    quote (ReplicationState_string state))
    (fun fresh => bool_decide (vgr_ReplicationState fresh = state)) (fun fresh => vgr_set_state fresh state) vgr.

Definition PatchVastReplicationContentState (v : VRC) (state : string) : Prog (option error) :=
  patch_fresh kVRC ("VastReplicationContent " +:+ in_namespace (vrc_Meta v) +:+ " replicationState to " +:+
                    quote state)
    (fun fresh => bool_decide (vrc_ReplicationState (vrc_Spec fresh) = state))
    (fun fresh => vrc_set_state fresh state) v.

Definition ListVolumeReplicationsByLabelSelector (namespace : string) (selector : gmap string string)
    : Prog (result (list VolumeReplication)) := call (List kVR namespace selector).
Definition ListVolumeGroupReplicationsByLabelSelector (namespace : string) (selector : gmap string string)
    : Prog (result (list VolumeGroupReplication)) := call (List kVGR namespace selector).

(** An object of which only name and namespace are set. *)
Definition named_meta (name namespace : string) : ObjectMeta := mkMeta name namespace "" ∅ ∅ [] [] 0 false.
Definition named_vr (name namespace : string) : VolumeReplication :=
  mkVR (named_meta name namespace) (OtherReplicationState "") "" "" false (OtherState "").
Definition named_vgr (name namespace : string) : VolumeGroupReplication :=
  mkVGR (named_meta name namespace) (OtherReplicationState "") "" "" "" false None (OtherState "") [].

(** A delete that takes a missing object for success. *)
Definition delete_object (k : kind) (what : string) (o : kobj k) : Prog (option error) :=
  r ← call (Delete k o);
  mret (match r with
        | inr _ => None
        | inl e => if IsNotFound (Some e) then None
                   else Some (ErrWrap ("failed to delete " +:+ what +:+ ": ") e "")
        end).

Definition DeleteVolumeReplication (name namespace : string) : Prog (option error) :=
  delete_object kVR ("VolumeReplication " +:+ namespace +:+ "/" +:+ name) (named_vr name namespace).
Definition DeleteVolumeGroupReplication (name namespace : string) : Prog (option error) :=
  delete_object kVGR ("VolumeGroupReplication " +:+ namespace +:+ "/" +:+ name) (named_vgr name namespace).

(** ** volumereplicationclass.go *)

Definition GetVolumeReplicationClass (name namespace : string) : Prog (result ReplicationClass) :=
  call (Get kVRClass name namespace).
Definition GetVolumeGroupReplicationClass (name namespace : string) : Prog (result ReplicationClass) :=
  call (Get kVGRClass name namespace).
Definition ListVolumeReplicationClasses : Prog (result (list ReplicationClass)) :=
  r ← call (List kVRClass "" ∅);
  mret (wrap_err "failed to list VolumeReplicationClasses: " r).
Definition EnsureVolumeReplicationClass (c : ReplicationClass) : Prog (result bool) :=
  ensure kVRClass ("VolumeReplicationClass " +:+ in_namespace (class_Meta c)) c.
Definition EnsureVolumeGroupReplicationClass (c : ReplicationClass) : Prog (result bool) :=
  ensure kVGRClass ("VolumeGroupReplicationClass " +:+ in_namespace (class_Meta c)) c.

(** ** vaststorageclassreplication.go, vastvolumeplication.go *)

Definition wrap_opt (pre : string) (err : option error) : option error :=
  match err with Some e => Some (ErrWrap pre e "") | None => None end.

(** [UpdateVastStorageClassReplication] and [UpdateVastVolumeReplication]. *)
Definition update_spec (k : kind) (kindName : string) (o : kobj k) : Prog (kobj k * option error) :=
  '(o', err) ← RetryOnConflict retry_steps (write_or_refresh k (fun o => call (Update k o))) o;
  mret (o', wrap_opt ("failed to update " +:+ kindName +:+ " " +:+ in_namespace (meta k o') +:+ ": ") err).

Definition UpdateVastStorageClassReplication : VSCR → Prog (VSCR * option error) :=
  update_spec kVSCR "VastStorageClassReplication".
Definition UpdateVastVolumeReplication : VVR → Prog (VVR * option error) :=
  update_spec kVVR "VastVolumeReplication".

Definition update_object_status (k : kind) (kindName : string) (o : kobj k) : Prog (kobj k * option error) :=
  '(o', err) ← UpdateStatusWithRetry k o;
  mret (o', wrap_opt ("failed to update " +:+ kindName +:+ " status " +:+ in_namespace (meta k o') +:+ ": ") err).

Definition UpdateVastStorageClassReplicationStatus : VSCR → Prog (VSCR * option error) :=
  update_object_status kVSCR "VastStorageClassReplication".
Definition UpdateVastVolumeReplicationStatus : VVR → Prog (VVR * option error) :=
  update_object_status kVVR "VastVolumeReplication".

Definition vscr_clear_resync (v : VSCR) : VSCR :=
  let s := vscr_Spec v in
  mkVSCR (vscr_Meta v)
    (mkVSCRSpec (vscr_PrimaryStorageClass s) (vscr_ProtectionTopology s) (vscr_ProtectionPolicyTemplate s)
       (vscr_FailoverType s) false (vscr_SyncIntervalSeconds s) (vscr_PVCRemap s) (vscr_SyncPVCPV s)
       (vscr_DestVolReclaimPolicy s) (vscr_VolumeNamespace s)) (vscr_Status v).
Definition vvr_clear_resync (v : VVR) : VVR :=
  let s := vvr_Spec v in
  mkVVR (vvr_Meta v)
    (mkVVRSpec (vvr_VolumeName s) (vvr_VolumeNamespace s) (vvr_PrimaryStorageClass s)
       (vvr_ProtectionTopology s) (vvr_ProtectionPolicyTemplate s) (vvr_FailoverType s) false
       (vvr_SyncIntervalSeconds s) (vvr_PVCRemap s) (vvr_DestVolReclaimPolicy s)) (vvr_Status v).

Definition PatchVSCRResync (v : VSCR) : Prog (VSCR * option error) :=
  '(v', err) ← PatchWithRetry kVSCR v vscr_clear_resync;
  mret (v', wrap_opt ("failed to clear Resync on VastStorageClassReplication " +:+
                      in_namespace (vscr_Meta v') +:+ ": ") err).
Definition PatchVVRResync (v : VVR) : Prog (VVR * option error) :=
  '(v', err) ← PatchWithRetry kVVR v vvr_clear_resync;
  mret (v', wrap_opt ("failed to clear Resync on VastVolumeReplication " +:+
                      in_namespace (vvr_Meta v') +:+ ": ") err).

(** A listing in [namespace], or everywhere when it is empty. *)
Definition ListVastStorageClassReplications (namespace : string) : Prog (result (list VSCR)) :=
  call (List kVSCR namespace ∅).
Definition ListVastVolumeReplications (namespace : string) : Prog (result (list VVR)) :=
  r ← call (List kVVR namespace ∅);
  mret (wrap_err "failed to list VastVolumeReplications: " r).
Definition DeleteVastStorageClassReplication (v : VSCR) : Prog (option error) :=
  delete_object kVSCR ("VastStorageClassReplication " +:+ in_namespace (vscr_Meta v)) v.
Definition DeleteVastVolumeReplication (v : VVR) : Prog (option error) :=
  delete_object kVVR ("VastVolumeReplication " +:+ in_namespace (vvr_Meta v)) v.

(** ** vastreplicationcontent.go *)

Definition ErrVastReplicationContentTerminating : error := ErrNew "VastReplicationContent is terminating".

Definition GetVastReplicationContent (name namespace : string) : Prog (result VRC) :=
  call (Get kVRC name namespace).

Definition CreateVastReplicationContent (v : VRC) : Prog (option error) :=
  r ← call (Create kVRC v);
  mret (match r with
        | inl e => Some (ErrWrap ("failed to create VastReplicationContent " +:+ in_namespace (vrc_Meta v) +:+ ": ") e "")
        | inr _ => None
        end).

Definition vrc_set_pvcs_state (v : VRC) (pvcs : list string) (state : string) : VRC :=
  let sp := vrc_Spec v in
  mkVRC (vrc_Meta v)
    (mkVRCSpec (vrc_StorageClass sp) (vrc_ProvisionerType sp) (vrc_Kind sp) (vrc_SyncPVCPV sp)
       (vrc_ReplicationPath sp) (vrc_ProtectionPolicyNames sp) (vrc_ProtectedPathName sp) pvcs state)
    (vrc_Status v).

Definition PatchVastReplicationContentSpec (v : VRC) : Prog (VRC * option error) :=
  let desiredPVCs := vrc_PVCs (vrc_Spec v) in
  let desiredState := vrc_ReplicationState (vrc_Spec v) in
  '(v', err) ← PatchWithRetry kVRC v (fun o => vrc_set_pvcs_state o desiredPVCs desiredState);
  mret (v', wrap_opt ("failed to patch VastReplicationContent spec " +:+ in_namespace (vrc_Meta v') +:+ ": ") err).

Definition WaitForVRC `{ShowDuration} (namespace name : string) (timeout : Z) : Prog (option error) :=
  t0 ← call Now;
  r ← poll (polls timeout (200 * Millisecond)) (t0 + timeout)%Z
        (ErrNew ("timed out waiting for VRC " +:+ namespace +:+ "/" +:+ name +:+ " to be created after " +:+
                 show_duration timeout))
        (call (SleepOrDone (200 * Millisecond)))
        (r ← GetVastReplicationContent name namespace;
         mret (match r with
               | inr _ => inr (Some tt)
               | inl e => if IsNotFound (Some e) then inr None
                          else inl (ErrWrap ("checking for VRC " +:+ namespace +:+ "/" +:+ name +:+ ": ") e "")
               end));
  mret (err_of r).

Fixpoint touch_loop (ts : string) (vscr : VSCR) (scs : list string) (annotationKey : string)
    (touched : list string) : Prog (list string * option error) :=
  match scs with
  | [] => mret (touched, None)
  | scName :: scs' =>
      let vrcName := Name (vscr_Meta vscr) +:+ "-" +:+ scName in
      let ns := VSCR_PVCNamespace vscr in
      r ← GetVastReplicationContent vrcName ns;
      match r with
      | inl e =>
          if IsNotFound (Some e) then touch_loop ts vscr scs' annotationKey touched
          else mret (touched, Some (ErrWrap ("get VRC " +:+ ns +:+ "/" +:+ vrcName +:+ ": ") e ""))
      | inr vrc =>
          '(_, err) ← SetAnnotationAndUpdate kVRC vrc annotationKey ts;
          match err with
          | Some e => mret (touched, Some (ErrWrap ("touch VRC " +:+ ns +:+ "/" +:+ vrcName +:+ ": ") e ""))
          | None => touch_loop ts vscr scs' annotationKey (touched ++ [vrcName])
          end
      end
  end.

Definition touchVRCsForStorageClasses (vscr : VSCR) (storageClasses : list string) (annotationKey : string)
    : Prog (list string * option error) :=
  ts ← call Timestamp;
  touch_loop ts vscr storageClasses annotationKey [].

Definition TouchConstellationVRCs (vscr : VSCR) : Prog (list string * option error) :=
  touchVRCsForStorageClasses vscr (VSCR_AllStorageClasses (vscr_Spec vscr)) AnnotationResyncRequestedAt.

Definition TouchSecondaryVRCs (vscr : VSCR) : Prog (list string * option error) :=
  touchVRCsForStorageClasses vscr
    (filter (.≠ vscr_PrimaryStorageClass (vscr_Spec vscr)) (VSCR_AllStorageClasses (vscr_Spec vscr)))
    AnnotationMirrorSyncRequestedAt.

(** ** persistentvolumeclaim.go: the label backfill *)

Fixpoint patch_labels (pvcs : list PVC) : Prog unit :=
  match pvcs with
  | [] => mret tt
  | pvc :: pvcs' => _ ← PatchPVCLabels pvc; patch_labels pvcs'
  end.

Definition ListAllPVCs : Prog (result (list PVC)) := call (List kPVC "" ∅).

Definition ApplyExistingPVCs `{Lookups} (scName : string) (sc : StorageClass) : Prog (option error) :=
  match backfillVolumeMapping (lk_ListVolumes scName) (lk_ListViews scName) sc with
  | inl e => mret (Some (ErrWrap ("list backend objects for " +:+ scName +:+ ": ") e ""))
  | inr mapping =>
      if bool_decide (size mapping = 0) then mret None
      else
        r ← ListAllPVCs;
        match r with
        | inl e => mret (Some (ErrWrap "list PVCs: " e ""))
        | inr pvcs => patch_labels (omap (backfill_pvc scName sc mapping) pvcs);; mret None
        end
  end.

End Client.

(** ** Polling ends *)

(** The answers of the clock in [t] are those of one that never goes back and
    moves by the duration of every sleep; it shows at least [low] at first. *)
Fixpoint ticks (low : Z) (t : Trace) : Prop :=
  match t with
  | [] => True
  | Ev Now r :: t' => (low ≤ r)%Z ∧ ticks r t'
  | Ev (Sleep d) _ :: t' | Ev (SleepOrDone d) None :: t' => ticks (low + Z.max 0 d)%Z t'
  | _ :: t' => ticks low t'
  end.

Lemma ticks_weaken low low' t : (low' ≤ low)%Z → ticks low t → ticks low' t.
Proof.
  revert low low'. induction t as [|[c r] t IH]; intros low low' Hle; [done|].
  destruct c; simpl; try (by apply IH).
  - intros [? ?]. split; [lia|done].
  - apply IH. lia.
  - destruct r; apply IH; lia.
Qed.

Lemma ticks_app low t1 t2 : ticks low (t1 ++ t2) → ticks low t2.
Proof.
  revert low. induction t1 as [|[c r] t1 IH]; intros low; [done|].
  destruct c; simpl; try (by apply IH).
  - intros [Hl Ht]. eapply ticks_weaken; [exact Hl|]. by apply IH.
  - intros Ht. eapply ticks_weaken; [|by apply IH]. lia.
  - destruct r; intros Ht; [by apply IH|]. eapply ticks_weaken; [|by apply IH]. lia.
Qed.

Section PollEnds.

Context {A : Type} (deadline sleep : Z) (timeoutErr : error) (check : Prog (result (option A))).
Hypothesis sleep_pos : (0 < sleep)%Z.

(** When [n] rounds and [m] rounds both bring the clock past the deadline, it
    does not matter which of them the loop may do. *)
Lemma poll_rounds (n m : nat) low t a :
  (deadline < low + Z.of_nat n * sleep)%Z → (deadline < low + Z.of_nat m * sleep)%Z → ticks low t →
  runs (poll n deadline timeoutErr (plain_sleep sleep) check) t a →
  runs (poll m deadline timeoutErr (plain_sleep sleep) check) t a.
Proof using sleep_pos.
  revert m low t. induction n as [|n IH]; intros m low t Hn Hm Ht Hr.
  all: destruct m as [|m]; cbn [poll] in Hr |- *.
  all: apply runs_bind_inv in Hr as (t1 & r & t2 & Hc & Hr & ->); apply ticks_app in Ht;
    apply (runs_bind _ _ _ _ _ _ Hc); clear Hc; destruct r as [|[|]]; try done.
  all: apply runs_invert in Hr as (now & t3 & -> & Hr); destruct Ht as [Hl Ht]; apply runs_vis.
  all: cbn [prog_bind] in Hr |- *; cbv beta in Hr |- *; revert Hr; destruct (deadline <? now)%Z eqn:Hd; intros Hr; [exact Hr|];
    apply Z.ltb_ge in Hd; try lia.
  apply runs_invert in Hr as ([] & t4 & -> & Hr). apply runs_vis.
  cbn [ticks] in Ht. eapply IH; [| |exact Ht|exact Hr]; lia.
Qed.

End PollEnds.

(** C26. Polling ends on its own: against every clock that does not go back and
    moves by at least the time slept, [WaitResource] makes no use of rounds
    beyond [timeout / sleep + 1]: what the loop does when it may go round
    [rounds] times, however many that are, is a run of the bounded loop with
    the same calls and the same result. *)
Theorem WaitResource_rounds_suffice {A} `{ShowDuration} (timeout sleep t0 : Z) (description : string)
    (check : Prog (result (option A))) (rounds : nat) (t : Trace) (a : result A) :
  (0 < sleep)%Z → (0 ≤ timeout)%Z → polls timeout sleep ≤ rounds → ticks t0 t →
  let timeoutErr := ErrNew ("timed out after " +:+ show_duration timeout +:+ " waiting for " +:+
                            description +:+ " to be ready") in
  runs (poll rounds (t0 + timeout) timeoutErr (plain_sleep sleep) check) t a →
  runs (WaitResource timeout sleep description check) (Ev Now t0 :: t) a.
Proof.
  intros Hs Ht Hr Hticks timeoutErr Hrun. apply runs_vis.
  assert (timeout < Z.of_nat (polls timeout sleep) * sleep)%Z.
  { unfold polls. assert (0 ≤ timeout / sleep)%Z by (by apply Z.div_pos).
    rewrite Z2Nat.id by lia. assert (Hm := Z.mul_succ_div_gt timeout sleep Hs). lia. }
  refine (poll_rounds _ _ _ _ Hs rounds _ t0 t a _ _ Hticks Hrun); nia.
Qed.

Lemma WaitResource_rounds_suffice_witness :
  let check : Prog (result (option unit)) := r ← call (Vms "gold" (PpathExists "p")); mret (inr None) in
  let show : ShowDuration := show_Z in
  ∃ t a, runs (@WaitResource unit show 300 100 "p" check) (Ev Now 0%Z :: t) a ∧ length t = 14.
Proof.
  intros check show.
  set (p := poll 1000 300 (ErrNew "timed out after 300 waiting for p to be ready") (plain_sleep 100) check).
  set (clock := fun (c : Call) (now : Z) =>
    match c return Z * resp c with
    | Now => (now, now) | Sleep d => ((now + d)%Z, tt) | c => (now, quiet c)
    end).
  exists (exec clock p 0%Z).1.2, (exec clock p 0%Z).2. split.
  - apply (@WaitResource_rounds_suffice unit show 300 100 0 "p" check 1000).
    + reflexivity.
    + discriminate.
    + vm_compute. lia.
    + vm_compute. tauto || (repeat split; discriminate).
    + exact (exec_runs clock p 0%Z).
  - vm_compute. reflexivity.
Defined.

(** ** Which calls the wrappers make *)

Lemma calls_in_RetryOnConflict {S} P n (fn : S → Prog (S * option error)) s :
  (∀ s, calls_in P (fn s)) → calls_in P (RetryOnConflict n fn s).
Proof.
  intros Hfn. revert s. induction n as [|n IH]; intros s; simpl; repeat calls_step; auto.
Qed.

Lemma calls_in_poll {A} P n d e sleep (check : Prog (result (option A))) :
  P Now → calls_in P sleep → calls_in P check → calls_in P (poll n d e sleep check).
Proof.
  intros HN Hs Hc. induction n as [|n IH]; cbn [poll]; repeat (calls_step || done).
Qed.

Lemma calls_in_touch_loop {steps : RetrySteps} P ts vscr scs key touched :
  (∀ n ns, P (Get kVRC n ns)) → (∀ b o, P (Patch kVRC b o)) →
  calls_in P (touch_loop ts vscr scs key touched).
Proof.
  intros HG HP. revert touched. induction scs as [|sc scs IH]; intros touched; cbn [touch_loop]; [done|].
  unfold GetVastReplicationContent, SetAnnotationAndUpdate, PatchWithRetry, PatchWithRetry_capturing.
  repeat first [apply IH | apply HG | apply HP | apply calls_in_RetryOnConflict | calls_step].
Qed.

Lemma calls_in_patch_labels {steps : RetrySteps} P pvcs :
  (∀ n ns, P (Get kPVC n ns)) → (∀ b o, P (Patch kPVC b o)) → calls_in P (patch_labels pvcs).
Proof.
  intros HG HP. induction pvcs as [|pvc pvcs IH]; cbn [patch_labels]; [done|].
  unfold PatchPVCLabels, PatchWithRetry, PatchWithRetry_capturing.
  repeat first [apply IH | apply HG | apply HP | apply calls_in_RetryOnConflict | calls_step].
Qed.

(** Unfolds the wrappers and goes through their calls; what is left are the
    calls themselves. *)
Ltac client_calls :=
  repeat first
    [ apply calls_in_RetryOnConflict
    | apply calls_in_poll
    | apply calls_in_touch_loop
    | apply calls_in_patch_labels
    | calls_step
    | progress unfold GetVolumeReplication, GetVolumeGroupReplication, EnsureVolumeReplication,
        EnsureVolumeGroupReplication, PatchVolumeReplicationState, PatchVolumeGroupReplicationState,
        DeleteVolumeReplication, DeleteVolumeGroupReplication, EnsureVolumeReplicationClass,
        EnsureVolumeGroupReplicationClass, GetVastReplicationContent, CreateVastReplicationContent,
        DeleteVastReplicationContent, ListVastReplicationContentsByLabelSelector,
        PatchVastReplicationContentSpec, WaitForVRC, TouchConstellationVRCs, TouchSecondaryVRCs,
        touchVRCsForStorageClasses, ApplyExistingPVCs, ListAllPVCs, GetVastStorageClassReplication,
        GetVastVolumeReplication, PatchVSCRResync, PatchVVRResync
    | progress unfold ensure, patch_fresh, delete_object, PatchWithRetry
    | progress unfold PatchWithRetry_capturing, write_or_refresh, refreshObjectMetadata, plain_sleep ].

(** ** Touching, on a store *)

(** An API server that holds VastReplicationContents and never fails. *)
Definition vrc_server (ts : string) (c : Call) (st : VRCStore) : VRCStore * resp c :=
  match c return VRCStore * resp c with
  | Get k name ns =>
      (st, match k return result (kobj k) with
           | kVRC =>
               match st !! (ns, name) with
               | Some v => inr v
               | None => inl (ErrStatus ReasonNotFound ("VastReplicationContent " +:+ quote name +:+ " not found"))
               end
           | _ => inl (ErrStatus ReasonNotFound "not found")
           end)
  | Patch k _ o =>
      (match k return kobj k → VRCStore with
       | kVRC => fun o => <[(Namespace (vrc_Meta o), Name (vrc_Meta o)) := o]> st
       | _ => fun _ => st
       end o, inr o)
  | Timestamp => (st, ts)
  | c => (st, quiet c)
  end.

Section Touch.

Context {steps : RetrySteps} (ts : string).

Notation server := (vrc_server ts).

Lemma exec_SetAnnotationAndUpdate st v key value :
  st !! (Namespace (vrc_Meta v), Name (vrc_Meta v)) = Some v →
  ∃ t o, exec server (SetAnnotationAndUpdate kVRC v key value) st =
    (<[(Namespace (vrc_Meta v), Name (vrc_Meta v)) :=
         mkVRC (SetAnnotation (vrc_Meta v) key value) (vrc_Spec v) (vrc_Status v)]> st, t, (o, None)).
Proof.
  intros Hv. unfold SetAnnotationAndUpdate, PatchWithRetry, PatchWithRetry_capturing.
  destruct retry_steps; cbn [RetryOnConflict]; rewrite !exec_bind; cbn [exec call mbind prog_bind vrc_server];
    simpl; rewrite Hv; simpl; eauto.
Qed.

Lemma exec_touch_loop vscr scs key touched st :
  store_keyed st →
  ∃ t, exec server (touch_loop ts vscr scs key touched) st =
    let '(st', names, err) :=
      Naming.touchVRCsForStorageClasses no_fault no_fault ts vscr scs key touched st in
    (st', t, (names, err)).
Proof.
  revert touched st. induction scs as [|sc scs IH]; intros touched st Hst; [by exists []|].
  cbn [touch_loop Naming.touchVRCsForStorageClasses]. rewrite exec_bind. unfold GetVastReplicationContent.
  cbn [exec call vrc_server]. unfold Naming.GetVastReplicationContent, no_fault at 1.
  set (name := Name (vscr_Meta vscr) +:+ "-" +:+ sc). set (ns := VSCR_PVCNamespace vscr).
  destruct (st !! (ns, name)) as [v|] eqn:Hv.
  - pose proof (Hst _ _ Hv) as Hk. rewrite exec_bind. simpl in Hk.
    destruct (exec_SetAnnotationAndUpdate st v key ts) as (t & o & ->); [by rewrite <-Hk|].
    unfold Naming.SetAnnotationAndUpdate, no_fault at 1. rewrite <-Hk.
    set (st1 := <[(ns, name) := _]> st).
    assert (Hst1 : store_keyed st1).
    { intros k0 v0. unfold st1. rewrite lookup_insert_Some. intros [[<- <-]|[_ ?]]; [done|by apply Hst]. }
    destruct (IH (touched ++ [name]) st1 Hst1) as [t' ->].
    destruct (Naming.touchVRCsForStorageClasses _ _ _ _ _ _ _ st1) as [[??]?]. by eexists.
  - destruct (IH touched st Hst) as [t' Ht].
    change (IsNotFound (Some (ErrStatus ReasonNotFound _))) with true. cbv iota. rewrite Ht.
    destruct (Naming.touchVRCsForStorageClasses _ _ _ _ _ _ _ st) as [[??]?]. by eexists.
Qed.

End Touch.



(** ** Rules for polling *)

Lemma wp_poll {A} (G : Trace → Call → Prop) n deadline timeoutErr sleep (check : Prog (result (option A))) h
    (R : Trace → A → Prop) (Q : Trace → result A → Prop) :
  (∀ h', h `prefix_of` h' → G h' Now) →
  (∀ h', h `prefix_of` h' → wp G sleep h' (fun _ _ => True)) →
  (∀ h', h `prefix_of` h' → wp G check h' (fun h2 r => ∀ a, r = inr (Some a) → R h2 a)) →
  (∀ h' r, h `prefix_of` h' → (∀ a, r = inr a → R h' a) → Q h' r) →
  wp G (poll n deadline timeoutErr sleep check) h Q.
Proof.
  intros HN Hs Hc HQ. revert h HN Hs Hc HQ. induction n as [|n IH]; intros h HN Hs Hc HQ; cbn [poll].
  all: apply wp_bind; eapply wp_post; [apply wp_prefix, Hc; done|]; intros h1 [e|[a|]] [Hh1 HR];
    [by apply wp_ret, HQ|by apply wp_ret, HQ; [|intros ? [= ->]; auto]|].
  all: apply wp_bind_call; [by apply HN|]; intros now; set (h2 := h1 ++ _);
    assert (Hh2 : h `prefix_of` h2) by (by apply prefix_app_r).
  all: case_match; [by apply wp_ret, HQ|]; apply wp_bind; eapply wp_post; [apply wp_prefix, Hs; done|];
    intros h3 [e|] [Hh3 _]; [apply wp_ret, HQ; [by etrans|done]|].
  - apply wp_ret, HQ; [by etrans|done].
  - assert (Hh : h `prefix_of` h3) by (by etrans). apply IH; intros h'; intros.
    + apply HN. by etrans.
    + apply Hs. by etrans.
    + apply Hc. by etrans.
    + apply HQ; [by etrans|done].
Qed.

Lemma wp_WaitResource {A} `{ShowDuration} (G : Trace → Call → Prop) timeout sleep descr
    (check : Prog (result (option A))) h (R : Trace → A → Prop) (Q : Trace → result A → Prop) :
  (∀ h', h `prefix_of` h' → G h' Now) →
  (∀ h' d, h `prefix_of` h' → G h' (Sleep d)) →
  (∀ h', h `prefix_of` h' → wp G check h' (fun h2 r => ∀ a, r = inr (Some a) → R h2 a)) →
  (∀ h' r, h `prefix_of` h' → (∀ a, r = inr a → R h' a) → Q h' r) →
  wp G (WaitResource timeout sleep descr check) h Q.
Proof.
  intros HN Hs Hc HQ. apply wp_bind_call; [by apply HN|]. intros t0.
  match goal with |- wp _ _ ?h1 _ => assert (Hh : h `prefix_of` h1) by (by apply prefix_app_r) end.
  apply (wp_poll _ _ _ _ _ _ _ R); intros h'; intros.
  - apply HN. by etrans.
  - apply wp_bind_call; [apply Hs; by etrans|]. done.
  - apply Hc. by etrans.
  - apply HQ; [by etrans|done].
Qed.
