(* ===== verification/Builders.v ===== *)
(** * Builders of replication objects

    [internal/provisioner/builder]: [volume_replication_builder.go],
    [volume_group_replication_builder.go] and the two class builders.  A
    builder holds the object built so far and the first error of a method
    that can fail.  The methods that only touch metadata are the same in every
    builder and are written once, for all kinds of objects. *)

From S2P Require Import Prelude GoErrors Topology Kube Programs Api ContentController Client.
From stdpp Require Import options.

(** [controllerutil.SetOwnerReference] and [SetControllerReference]: from the
    kind and the metadata of the owner and the metadata of the object, the
    new owner references of the object. *)
Class OwnerRefs := mkOwnerRefs {
  SetOwnerReference : string → ObjectMeta → ObjectMeta → result (list OwnerReference);
  SetControllerReference : string → ObjectMeta → ObjectMeta → result (list OwnerReference);
}.

(** Method calls in a row. *)
Notation "b |> f" := (f b) (at level 50, left associativity, only parsing).

Record Builder (k : kind) := mkBuilder { b_object : kobj k; b_err : option error }.
Arguments mkBuilder {k} _ _.
Arguments b_object {k} _.
Arguments b_err {k} _.

(** ** Metadata *)

Section Metadata.

Context {k : kind}.
Implicit Types b : Builder k.

Definition on_obj (f : kobj k → kobj k) b : Builder k := mkBuilder (f (b_object b)) (b_err b).
Definition on_meta (f : ObjectMeta → ObjectMeta) : Builder k → Builder k :=
  on_obj (fun o => set_meta k o (f (meta k o))).

(** From an existing object, copied. *)
Definition builder_for (o : kobj k) : Builder k := mkBuilder o None.

Definition with_name (m : ObjectMeta) (name : string) : ObjectMeta :=
  mkMeta name (Namespace m) (UID m) (Labels m) (Annotations m) (Finalizers m) (OwnerReferences m)
    (Generation m) (Deleting m).
Definition with_namespace (m : ObjectMeta) (ns : string) : ObjectMeta :=
  mkMeta (Name m) ns (UID m) (Labels m) (Annotations m) (Finalizers m) (OwnerReferences m)
    (Generation m) (Deleting m).
Definition with_uid (m : ObjectMeta) (uid : string) : ObjectMeta :=
  mkMeta (Name m) (Namespace m) uid (Labels m) (Annotations m) (Finalizers m) (OwnerReferences m)
    (Generation m) (Deleting m).

Definition WithName (name : string) : Builder k → Builder k := on_meta (fun m => with_name m name).
Definition WithNamespace (ns : string) : Builder k → Builder k := on_meta (fun m => with_namespace m ns).
(** Entries of the argument replace entries of the object. *)
Definition WithLabelsMap (labels : gmap string string) : Builder k → Builder k :=
  on_meta (fun m => set_labels m (labels ∪ Labels m)).
Definition WithManagedByLabel : Builder k → Builder k :=
  WithLabelsMap {[LabelManagedBy := LabelManagedByValue]}.
Definition ClearLabels : Builder k → Builder k := on_meta (fun m => set_labels m ∅).
Definition WithAnnotationsMap (annotations : gmap string string) : Builder k → Builder k :=
  on_meta (fun m => set_annotations m (annotations ∪ Annotations m)).
Definition ClearAnnotations : Builder k → Builder k := on_meta (fun m => set_annotations m ∅).
Definition WithoutAnnotations (keys : list string) : Builder k → Builder k :=
  on_meta (fun m => set_annotations m (foldl (fun a key => delete key a) (Annotations m) keys)).
Definition WithFinalizers (finalizers : list string) : Builder k → Builder k :=
  on_meta (fun m => set_finalizers m finalizers).
Definition WithoutFinalizers_all : Builder k → Builder k := on_meta (fun m => set_finalizers m []).
Definition WithoutUID : Builder k → Builder k := on_meta (fun m => with_uid m "").

(** The first error is kept; the object is then left as it is. *)
Definition WithOwnerRef `{OwnerRefs} (kindName ownerKind : string) (owner : ObjectMeta) b : Builder k :=
  match b_err b with
  | Some _ => b
  | None =>
      match SetControllerReference ownerKind owner (meta k (b_object b)) with
      | inl e => mkBuilder (b_object b)
                   (Some (ErrWrap ("failed to set controller reference on " +:+ kindName +:+ " " +:+
                                   quote (Name (meta k (b_object b))) +:+ ": ") e ""))
      | inr refs => on_meta (fun m => set_owner_references m refs) b
      end
  end.

Definition Build b : result (kobj k) :=
  match b_err b with Some e => inl e | None => inr (b_object b) end.
Definition builder_Result b : kobj k := b_object b.

End Metadata.

(** ** VolumeReplication *)

Definition NewVolumeReplication (name namespace : string) : Builder kVR :=
  builder_for (k := kVR) (named_vr name namespace).
Definition vr_WithReplicationState (s : ReplicationState) : Builder kVR → Builder kVR :=
  on_obj (k := kVR) (fun o => vr_set_state o s).
Definition vr_WithVolumeReplicationClass (className : string) : Builder kVR → Builder kVR :=
  on_obj (k := kVR) (fun o =>
    mkVR (vr_Meta o) (vr_ReplicationState o) className (vr_DataSource o) (vr_AutoResync o) (vr_State o)).
Definition vr_WithDataSource (pvcName : string) : Builder kVR → Builder kVR :=
  on_obj (k := kVR) (fun o =>
    mkVR (vr_Meta o) (vr_ReplicationState o) (vr_VolumeReplicationClass o) pvcName (vr_AutoResync o) (vr_State o)).
Definition vr_WithAutoResync (autoResync : bool) : Builder kVR → Builder kVR :=
  on_obj (k := kVR) (fun o =>
    mkVR (vr_Meta o) (vr_ReplicationState o) (vr_VolumeReplicationClass o) (vr_DataSource o) autoResync (vr_State o)).
Definition vr_ClearStatus : Builder kVR → Builder kVR :=
  on_obj (k := kVR) (fun o =>
    mkVR (vr_Meta o) (vr_ReplicationState o) (vr_VolumeReplicationClass o) (vr_DataSource o) (vr_AutoResync o)
      (OtherState "")).

(** ** VolumeGroupReplication *)

Definition NewVolumeGroupReplication (name namespace : string) : Builder kVGR :=
  builder_for (k := kVGR) (named_vgr name namespace).
Definition vgr_WithReplicationState (s : ReplicationState) : Builder kVGR → Builder kVGR :=
  on_obj (k := kVGR) (fun o => vgr_set_state o s).
Definition vgr_WithVolumeGroupReplicationClassName (className : string) : Builder kVGR → Builder kVGR :=
  on_obj (k := kVGR) (fun o =>
    mkVGR (vgr_Meta o) (vgr_ReplicationState o) (vgr_VolumeReplicationName o) className (vgr_ClassName o)
      (vgr_AutoResync o) (vgr_Selector o) (vgr_State o) (vgr_PVCs o)).
Definition vgr_WithVolumeReplicationClassName (className : string) : Builder kVGR → Builder kVGR :=
  on_obj (k := kVGR) (fun o =>
    mkVGR (vgr_Meta o) (vgr_ReplicationState o) (vgr_VolumeReplicationName o) (vgr_GroupClassName o) className
      (vgr_AutoResync o) (vgr_Selector o) (vgr_State o) (vgr_PVCs o)).
Definition vgr_WithSourceMatchLabels (labels : gmap string string) : Builder kVGR → Builder kVGR :=
  on_obj (k := kVGR) (fun o =>
    mkVGR (vgr_Meta o) (vgr_ReplicationState o) (vgr_VolumeReplicationName o) (vgr_GroupClassName o)
      (vgr_ClassName o) (vgr_AutoResync o) (Some (labels ∪ default ∅ (vgr_Selector o))) (vgr_State o) (vgr_PVCs o)).
Definition vgr_WithAutoResync (autoResync : bool) : Builder kVGR → Builder kVGR :=
  on_obj (k := kVGR) (fun o =>
    mkVGR (vgr_Meta o) (vgr_ReplicationState o) (vgr_VolumeReplicationName o) (vgr_GroupClassName o)
      (vgr_ClassName o) autoResync (vgr_Selector o) (vgr_State o) (vgr_PVCs o)).
Definition vgr_WithoutVolumeReplicationName : Builder kVGR → Builder kVGR :=
  on_obj (k := kVGR) (fun o =>
    mkVGR (vgr_Meta o) (vgr_ReplicationState o) "" (vgr_GroupClassName o) (vgr_ClassName o)
      (vgr_AutoResync o) (vgr_Selector o) (vgr_State o) (vgr_PVCs o)).
Definition vgr_ClearStatus : Builder kVGR → Builder kVGR :=
  on_obj (k := kVGR) (fun o =>
    mkVGR (vgr_Meta o) (vgr_ReplicationState o) (vgr_VolumeReplicationName o) (vgr_GroupClassName o)
      (vgr_ClassName o) (vgr_AutoResync o) (vgr_Selector o) (OtherState "") []).

(** ** Replication classes *)

Definition NewVolumeReplicationClass (name namespace : string) : Builder kVRClass :=
  builder_for (k := kVRClass) (mkClass (named_meta name namespace) "" ∅).
Definition NewVolumeGroupReplicationClass (name namespace : string) : Builder kVGRClass :=
  builder_for (k := kVGRClass) (mkClass (named_meta name namespace) "" ∅).

Definition class_with_provisioner (c : ReplicationClass) (p : string) : ReplicationClass :=
  mkClass (class_Meta c) p (class_Parameters c).
Definition class_with_parameters (c : ReplicationClass) (params : gmap string string) : ReplicationClass :=
  mkClass (class_Meta c) (class_Provisioner c) (params ∪ class_Parameters c).

Definition vrclass_WithProvisioner (p : string) : Builder kVRClass → Builder kVRClass :=
  on_obj (k := kVRClass) (fun c => class_with_provisioner c p).
Definition vrclass_WithParameter (key value : string) : Builder kVRClass → Builder kVRClass :=
  on_obj (k := kVRClass) (fun c => class_with_parameters c {[key := value]}).
Definition vrclass_WithParameters (params : gmap string string) : Builder kVRClass → Builder kVRClass :=
  on_obj (k := kVRClass) (fun c => class_with_parameters c params).
Definition vgrclass_WithProvisioner (p : string) : Builder kVGRClass → Builder kVGRClass :=
  on_obj (k := kVGRClass) (fun c => class_with_provisioner c p).
Definition vgrclass_WithParameter (key value : string) : Builder kVGRClass → Builder kVGRClass :=
  on_obj (k := kVGRClass) (fun c => class_with_parameters c {[key := value]}).
Definition vgrclass_WithParameters (params : gmap string string) : Builder kVGRClass → Builder kVGRClass :=
  on_obj (k := kVGRClass) (fun c => class_with_parameters c params).

(** ** The metadata of what is built *)

Lemma Build_WithOwnerRef `{OwnerRefs} {k} kindName ownerKind owner (b : Builder k) o :
  Build (WithOwnerRef kindName ownerKind owner b) = inr o →
  b_err b = None ∧
  ∃ refs, SetControllerReference ownerKind owner (meta k (b_object b)) = inr refs ∧
          o = set_meta k (b_object b) (set_owner_references (meta k (b_object b)) refs).
Proof.
  unfold WithOwnerRef, Build. destruct (b_err b) as [e|] eqn:He; [by rewrite He|].
  destruct (SetControllerReference _ _ _) as [e|refs]; [done|].
  simpl. rewrite He. intros [= <-]. eauto.
Qed.
