(* ===== verification/Ppath.v ===== *)
(** * Protected paths, replication streams and protection policies

    [internal/common/vmsrest/ppath.go], [folders.go] and the stateful part of
    [discover_policies.go], as programs over the REST calls of [Api]: the
    creation of a protected path with its first stream, the interleaving of
    primary and standby streams for the further targets, the cleanup of an
    empty leftover directory on a peer, and the protection policies of the
    links.

    A REST client is the name of its StorageClass; decoding a reply is part of
    the answer.  Go ranges over maps in an unspecified order that may differ
    between two loops: [map_order] gives the order used by the loop named by
    its first argument.  Events and log lines are left out. *)

From S2P Require Import Prelude GoErrors Topology Kube Naming Peers Lookups Programs Api Client.
From stdpp Require Import options.

Class MapOrder := map_order : string → gset string → list string.

(** ** States *)

Definition ppathActiveState := "active".
Definition ppathPartiallyActiveState := "partially active".
Definition ppathFailedState := "failed".
Definition streamStateActive := "Active".
Definition streamStateWaitingForStandby := "Waiting for a standby stream".
Definition streamStateFailed := "Failed".

Definition ppathActiveTimeout : Z := 5 * Minute.
Definition ppathActiveSleep : Z := 15 * Second.
Definition streamWaitingForStandbyTimeout : Z := 5 * Minute.
Definition streamWaitingForStandbySleep : Z := 10 * Second.
Definition streamActiveTimeout : Z := 10 * Minute.
Definition streamActiveSleep : Z := 10 * Second.
Definition ppathMirrorTimeout : Z := 2 * Minute.
Definition ppathMirrorSleep : Z := 10 * Second.
Definition policyMirrorTimeout : Z := 60 * Second.
Definition policyMirrorSleep : Z := 5 * Second.

Definition ppathStreamNameSet (streams : list Stream) : gset string :=
  list_to_set (filter (.≠ "") (map stream_Name streams)).

Definition checkPpathState (name state failureReason : string) : option error :=
  let s := to_lower state in
  if bool_decide (s = ppathActiveState) || bool_decide (s = ppathPartiallyActiveState) then None
  else if bool_decide (s = ppathFailedState) then
    if bool_decide (failureReason ≠ "")
    then Some (ErrNew ("protected path " +:+ quote name +:+ " failed: " +:+ failureReason))
    else Some (ErrNew ("protected path " +:+ quote name +:+
                       " is in failed state (VAST provides no failure reason)"))
  else if bool_decide (failureReason ≠ "")
  then Some (ErrNew ("protected path " +:+ quote name +:+ " is not active (state=" +:+ quote state +:+
                     "): " +:+ failureReason))
  else Some (NewRetryAfterError
               (ErrNew ("protected path " +:+ quote name +:+ " is not yet active (state=" +:+
                        quote state +:+ ")")) (30 * Second)).

Definition isPathOnPeerExistsErr (e : error) : bool :=
  contains (to_lower (error_msg e)) "path on peer exists".

Section Ppath.

Context {lk : Lookups} {ve : VastErrors} {sd : ShowDuration} {mo : MapOrder}.

Definition getPpathRecord (rest ppathName : string) : Prog (result Ppath) :=
  r ← call (Vms rest (PpathGet ppathName));
  mret (wrap_err ("failed to get protected path " +:+ quote ppathName +:+ ": ") r).

Definition GetPpath (rest name : string) : Prog (result Ppath) := getPpathRecord rest name.

Definition IsPpathActive (rest name : string) : Prog (option error) :=
  r ← GetPpath rest name;
  mret (match r with
        | inl e => Some e
        | inr p => checkPpathState (pp_Name p) (pp_State p) (pp_FailureReason p)
        end).

(** ** Waiting *)

(** What one poll makes of the streams: [Some tt] when the state is reached. *)
Fixpoint check_streams (ppathName streamName : string) (expected : list string) (streams : list Stream)
    : result (option unit) :=
  match streams with
  | [] => inr None
  | s :: streams' =>
      if bool_decide (stream_Name s = streamName) then
        if bool_decide (stream_State s ∈ expected) then inr (Some tt)
        else if bool_decide (to_lower (stream_State s) = to_lower streamStateFailed)
        then Errorf ("stream " +:+ quote streamName +:+ " in ppath " +:+ quote ppathName +:+
                     " is in Failed state")
        else inr None
      else check_streams ppathName streamName expected streams'
  end.

Definition check_stream_state (rest ppathName streamName : string) (expected : list string)
    : Prog (result (option unit)) :=
  r ← call (Vms rest (PpathGet ppathName));
  mret (match r with
        | inl e => if vast_IsNotFoundErr e then inr None else inl e
        | inr p =>
            match checkPpathState ppathName (pp_State p) (pp_FailureReason p) with
            | Some e => inl e
            | None => check_streams ppathName streamName expected (pp_Streams p)
            end
        end).

Definition waitForStreamState (rest ppathName streamName : string) (expectedStates : list string)
    (timeout sleep : Z) : Prog (option error) :=
  r ← WaitResource timeout sleep
        ("stream " +:+ quote streamName +:+ " in ppath " +:+ quote ppathName +:+ " to reach state [" +:+
         join " " expectedStates +:+ "]")
        (check_stream_state rest ppathName streamName expectedStates);
  mret (err_of r).

Definition waitForPpath (rest ppathName : string) : Prog (result (Z * list Stream)) :=
  WaitResource ppathMirrorTimeout ppathMirrorSleep
    ("ppath " +:+ quote ppathName +:+ " to appear on cluster")
    (r ← getPpathRecord rest ppathName;
     mret (match r with
           | inl e => if vast_ExpectStatusCodes e [404%Z] then inr None else inl e
           | inr p => inr (Some (pp_Id p, pp_Streams p))
           end)).

(** ** folders.go *)

(** [None]: the path does not exist. *)
Definition StatPath (rest path : string) (tenantId : Z) : Prog (result (option FolderStat)) :=
  r ← call (Vms rest (FolderStatPath path tenantId));
  mret (match r with
        | inr stat => inr (Some stat)
        | inl e => if vast_ExpectStatusCodes e [503%Z] then inr None else inl e
        end).

Definition PathExists (rest path : string) (tenantId : Z) : Prog (result bool) :=
  r ← StatPath rest path tenantId;
  mret (match r with inl e => inl e | inr stat => inr (bool_decide (is_Some stat)) end).

Definition DeleteFolder (rest path : string) (tenantId : Z) : Prog (result unit) :=
  call (Vms rest (FolderDelete path tenantId)).

(** ** Adding streams *)

Definition handlePathOnPeerExists (remoteRest targetPath : string) (tenantId : Z)
    (allowPeerDirCleanup : bool) : Prog error :=
  if negb allowPeerDirCleanup then
    mret (ErrNew ("peer target path " +:+ quote targetPath +:+
      " already exists on the destination cluster; block replication requires the destination subsystem/path to be absent so VAST can create it. Delete the destination subsystem on the peer cluster manually, then retry (automatic folder cleanup is only supported for file replication)"))
  else
    r ← StatPath remoteRest targetPath tenantId;
    match r with
    | inl e => mret (ErrWrap ("stat peer target path " +:+ quote targetPath +:+ " after " +:+ quote "path on peer exists" +:+ ": ") e "")
    | inr None =>
        mret (NewRetryAfterError (ErrNew ("VAST reported " +:+ quote "path on peer exists" +:+ " for " +:+
          quote targetPath +:+ " but the path is now absent on the peer; retrying")) (15 * Second))
    | inr (Some stat) =>
        if negb (IsDirectory stat) then
          mret (ErrNew ("peer target path " +:+ quote targetPath +:+
            " already exists and is not a directory; VAST replication requires this path to be absent so it can create the destination. Remove or rename the path on the peer cluster (or correct the StorageClass path), then retry"))
        else if (0 <? Children stat)%Z then
          mret (ErrNew ("peer target path " +:+ quote targetPath +:+
            " already exists and is not empty (children=" +:+ show_Z (Children stat) +:+
            "); VAST replication requires the destination directory to be absent so it can create it. This may be leftover data from a previous replication or a misconfigured target path. Remove or empty the path on the peer cluster (or correct the StorageClass path), then retry"))
        else
          r ← DeleteFolder remoteRest targetPath tenantId;
          mret (match r with
                | inl e => ErrWrap ("delete empty peer target path " +:+ quote targetPath +:+ " after " +:+
                                    quote "path on peer exists" +:+ ": ") e ""
                | inr _ => NewRetryAfterError (ErrNew ("removed empty leftover peer target path " +:+
                             quote targetPath +:+ " after VAST reported " +:+ quote "path on peer exists" +:+
                             "; will retry create")) (15 * Second)
                end)
    end.

Definition AddReplicationStream (rest remoteRest streamName : string) (ppathId : Z)
    (targetExportedDir : string) (link : ReplicationLink) (isStandby allowPeerDirCleanup : bool)
    : Prog (option error) :=
  let remote := RemoteTenant (Edge link) in
  r ← call (Vms rest (PpathAddStream ppathId
        (mkStreamParams streamName targetExportedDir (PolicyId link) (tenant_Guid remote) isStandby)));
  match r with
  | inr _ => mret None
  | inl e =>
      if isPathOnPeerExistsErr e then
        e' ← handlePathOnPeerExists remoteRest targetExportedDir (tenant_Id remote) allowPeerDirCleanup;
        mret (Some (ErrWrap ("add replication stream " +:+ quote streamName +:+ ": ") e' ""))
      else mret (Some (ErrWrap ("failed to add replication stream " +:+ quote streamName +:+ ": ") e ""))
  end.

(** ** The protected path of the primary cluster *)

(** From the existing or new path to its first stream being active. *)
Definition await_first_stream (rest ownerName : string) : Prog (string * Z * option error) :=
  r ← getPpathRecord rest ownerName;
  match r with
  | inl e => mret ("", 0%Z, Some e)
  | inr p =>
      if bool_decide (pp_FailureReason p ≠ "") then
        mret (pp_Name p, pp_Id p,
              Some (ErrNew ("protected path " +:+ quote (pp_Name p) +:+ " has failed: " +:+ pp_FailureReason p)))
      else
        match pp_Streams p with
        | [] => mret (pp_Name p, pp_Id p,
                      Some (ErrNew ("ppath " +:+ quote (pp_Name p) +:+ " has no embedded streams after creation")))
        | first :: _ =>
            err ← waitForStreamState rest (pp_Name p) (stream_Name first) [streamStateActive]
                    ppathActiveTimeout ppathActiveSleep;
            mret (pp_Name p, pp_Id p,
                  wrap_opt ("ppath " +:+ quote (pp_Name p) +:+ " first stream " +:+
                            quote (stream_Name first) +:+ " did not become active: ") err)
        end
  end.

Definition create_ppath (rest remoteRest ownerName sourceDir targetExportedDir : string)
    (first : ReplicationLink) (allowPeerDirCleanup : bool) : Prog (option error) :=
  let localTenant := LocalTenant (Edge first) in
  let remoteTenant := RemoteTenant (Edge first) in
  if bool_decide (tenant_Guid localTenant = tenant_Guid remoteTenant) then
    mret (Some (ErrNew ("StorageClass " +:+ quote (SideA (link_edge (Edge first))) +:+ " and " +:+
      quote (SideB (link_edge (Edge first))) +:+ " resolve to the same VAST cluster (tenant GUID " +:+
      tenant_Guid localTenant +:+ "); source and destination StorageClasses must point to different clusters — check that the secrets used by each StorageClass belong to distinct VAST systems")))
  else
    r ← call (Vms rest (PpathCreate (mkPpathParams ownerName sourceDir targetExportedDir
                (tenant_Id localTenant) (tenant_Guid remoteTenant) (PolicyId first))));
    match r with
    | inl e =>
        if isPathOnPeerExistsErr e then
          e' ← handlePathOnPeerExists remoteRest targetExportedDir (tenant_Id remoteTenant) allowPeerDirCleanup;
          mret (Some (ErrWrap "failed to create protected path: " e' ""))
        else mret (Some (ErrWrap "failed to create protected path: " e ""))
    | inr _ => _ ← call (Sleep (20 * Second)); mret None
    end.

Definition EnsurePpath (rest remoteRest ownerName sourceDir targetExportedDir : string)
    (first : ReplicationLink) (allowPeerDirCleanup : bool) : Prog (string * Z * option error) :=
  r ← call (Vms rest (PpathGet ownerName));
  match r with
  | inr _ => await_first_stream rest ownerName
  | inl e =>
      if vast_IsNotFoundErr e then
        err ← create_ppath rest remoteRest ownerName sourceDir targetExportedDir first allowPeerDirCleanup;
        match err with
        | Some e => mret ("", 0%Z, Some e)
        | None => await_first_stream rest ownerName
        end
      else mret ("", 0%Z, Some (ErrWrap "failed to check if protected path exists: " e ""))
  end.

(** ** The constellation *)

Definition edge_of (l : ReplicationLink) : ReplicationEdge := link_edge (Edge l).

Definition stream_name (base : string) (l : ReplicationLink) : string :=
  truncateName (base +:+ "-" +:+ LocalPeerName l +:+ "-" +:+ RemotePeerName l).

Definition ensure_primary_stream (primaryRest ppathName : string) (ppathId : Z) (streamName : string)
    (dirs : gmap string string) (link : ReplicationLink) (allowPeerDirCleanup : bool) : Prog (option error) :=
  r ← getPpathRecord primaryRest ppathName;
  match r with
  | inl e => mret (Some (ErrWrap "primary ppath: " e ""))
  | inr p =>
      if bool_decide (streamName ∈ ppathStreamNameSet (pp_Streams p)) then mret None
      else
        let target := SideB (edge_of link) in
        err ← AddReplicationStream primaryRest target streamName ppathId (map_get dirs target) link false
                allowPeerDirCleanup;
        mret (wrap_opt ("add primary stream " +:+ quote streamName +:+ ": ") err)
  end.

(** The standby streams of one cluster towards [targetSC]. *)
Fixpoint cross_streams (sc targetSC ppathName : string) (dirs : gmap string string)
    (allowPeerDirCleanup : bool) (crossPairs : list ReplicationLink) : Prog (option error) :=
  match crossPairs with
  | [] => mret None
  | link :: rest =>
      let target := SideB (edge_of link) in
      if negb (bool_decide (target = targetSC))
      then cross_streams sc targetSC ppathName dirs allowPeerDirCleanup rest
      else
        let crossStreamName := stream_name ppathName link in
        r ← waitForPpath sc ppathName;
        match r with
        | inl e => mret (Some (ErrWrap ("SC " +:+ sc +:+ ": ppath mirror: ") e ""))
        | inr (crossPpathId, crossStreams) =>
            if bool_decide (crossStreamName ∈ ppathStreamNameSet crossStreams)
            then cross_streams sc targetSC ppathName dirs allowPeerDirCleanup rest
            else
              err ← AddReplicationStream sc target crossStreamName crossPpathId (map_get dirs target) link true
                      allowPeerDirCleanup;
              match err with
              | Some e => mret (Some (ErrWrap ("SC " +:+ sc +:+ ": standby stream " +:+ quote crossStreamName +:+ ": ") e ""))
              | None => cross_streams sc targetSC ppathName dirs allowPeerDirCleanup rest
              end
        end
  end.

Fixpoint cross_clusters (primarySC targetSC ppathName : string) (dirs : gmap string string)
    (allowPeerDirCleanup : bool) (pairs : gmap string (list ReplicationLink)) (scs : list string)
    : Prog (option error) :=
  match scs with
  | [] => mret None
  | sc :: scs' =>
      if bool_decide (sc = primarySC)
      then cross_clusters primarySC targetSC ppathName dirs allowPeerDirCleanup pairs scs'
      else
        err ← cross_streams sc targetSC ppathName dirs allowPeerDirCleanup (default [] (pairs !! sc));
        match err with
        | Some e => mret (Some e)
        | None => cross_clusters primarySC targetSC ppathName dirs allowPeerDirCleanup pairs scs'
        end
  end.

(** The targets after the first. *)
Fixpoint more_targets (primarySC ownerName ppathName : string) (ppathId : Z) (dirs : gmap string string)
    (allowPeerDirCleanup : bool) (pairs : gmap string (list ReplicationLink))
    (primaryPairs : list ReplicationLink) : Prog (option error) :=
  match primaryPairs with
  | [] => mret None
  | primaryPair :: primaryPairs' =>
      let targetSC := SideB (edge_of primaryPair) in
      let primaryStreamName := stream_name ownerName primaryPair in
      err ← ensure_primary_stream primarySC ppathName ppathId primaryStreamName dirs primaryPair allowPeerDirCleanup;
      match err with
      | Some e => mret (Some e)
      | None =>
          err ← waitForStreamState primarySC ppathName primaryStreamName
                  [streamStateWaitingForStandby; streamStateActive]
                  streamWaitingForStandbyTimeout streamWaitingForStandbySleep;
          match err with
          | Some e => mret (Some (ErrWrap ("primary stream " +:+ quote primaryStreamName +:+ ": ") e ""))
          | None =>
              err ← cross_clusters primarySC targetSC ppathName dirs allowPeerDirCleanup pairs
                      (map_order ("streams to " +:+ targetSC) (dom pairs));
              match err with
              | Some e => mret (Some e)
              | None =>
                  err ← waitForStreamState primarySC ppathName primaryStreamName [streamStateActive]
                          streamActiveTimeout streamActiveSleep;
                  match err with
                  | Some e => mret (Some (ErrWrap ("primary stream " +:+ quote primaryStreamName +:+ ": wait for active: ") e ""))
                  | None => more_targets primarySC ownerName ppathName ppathId dirs allowPeerDirCleanup pairs primaryPairs'
                  end
              end
          end
      end
  end.

Fixpoint wait_mirrors (primarySC ppathName : string) (scs : list string) : Prog (option error) :=
  match scs with
  | [] => mret None
  | sc :: scs' =>
      if bool_decide (sc = primarySC) then wait_mirrors primarySC ppathName scs'
      else
        r ← waitForPpath sc ppathName;
        match r with
        | inl e => mret (Some (ErrWrap ("SC " +:+ sc +:+ ": ppath mirror: ") e ""))
        | inr _ => wait_mirrors primarySC ppathName scs'
        end
  end.

(** [clients] are the keys of [restByStorageClass]; the name is returned also
    with an error. *)
Definition EnsureConstellationPpath (clients : gset string) (pairs : gmap string (list ReplicationLink))
    (primarySC ownerName : string) (dirs : gmap string string) (allowPeerDirCleanup : bool)
    : Prog (string * option error) :=
  match default [] (pairs !! primarySC) with
  | [] => mret ("", Some (ErrNew ("no primary replication links for StorageClass " +:+ quote primarySC)))
  | first :: others =>
      let firstTargetSC := SideB (edge_of first) in
      '(ppathName, ppathId, err) ← EnsurePpath primarySC firstTargetSC ownerName (map_get dirs primarySC)
                                      (map_get dirs firstTargetSC) first allowPeerDirCleanup;
      match err with
      | Some e => mret (ppathName, Some (ErrWrap "primary ppath: " e ""))
      | None =>
          err ← more_targets primarySC ownerName ppathName ppathId dirs allowPeerDirCleanup pairs others;
          match err with
          | Some e => mret (ppathName, Some e)
          | None =>
              err ← wait_mirrors primarySC ppathName (map_order "ppath mirrors" clients);
              mret (ppathName, err)
          end
      end
  end.

(** ** Protection policies of the links *)

Definition by_name (peers : list PeerModel) : gmap string PeerModel :=
  fold_left (fun m p => <[peer_Name p := p]> m) peers ∅.

Fixpoint buildNativeReplicaTargetsBySC (scNames wantPeerNames : list string)
    (acc : gmap string (gmap string PeerModel)) : result (gmap string (gmap string PeerModel)) :=
  match scNames with
  | [] => inr acc
  | scName :: scNames' =>
      match lk_ListPeers scName (Some wantPeerNames) with
      | inl e => inl (ErrWrap ("SC " +:+ scName +:+ ": failed to list replication peers: ") e "")
      | inr peers => buildNativeReplicaTargetsBySC scNames' wantPeerNames (<[scName := by_name peers]> acc)
      end
  end.

Definition ensurePolicy (edge : ReplicationEdge) (localTenant remoteTenant : TenantInfo)
    (tmpl : PolicyTemplateParams) (peerA peerB : PeerModel) (prefix : string)
    : Prog (result ReplicationLink) :=
  let policyName := OwnerName tmpl +:+ "-" +:+ edge_PeerName edge in
  r ← call (Vms (SideA edge) (PolicyGet policyName));
  match r with
  | inr (name, id) => mret (inr (newReplicationLink name id peerA peerB edge localTenant remoteTenant))
  | inl _ =>
      r ← call (Vms (SideA edge) (PolicyCreate (mkPolicy policyName (peer_Id peerA) prefix (Frames tmpl)
                  (tenant_Id localTenant) (tenant_Guid remoteTenant))));
      mret (match r with
            | inl e => inl (ErrWrap ("SC " +:+ SideA edge +:+ ": failed to create ProtectionPolicy " +:+
                              quote policyName +:+ " for peer " +:+ quote (edge_PeerName edge) +:+ ": ") e "")
            | inr (name, id) => inr (newReplicationLink name id peerA peerB edge localTenant remoteTenant)
            end)
  end.

(** The healthy peer of an edge on one of its sides. *)
Definition edge_peer (targets : gmap string (gmap string PeerModel)) (sc peerName : string)
    : result PeerModel :=
  match default ∅ (targets !! sc) !! peerName with
  | None => Errorf ("SC " +:+ sc +:+ ": replication peer " +:+ quote peerName +:+
                    " not found in native replication targets")
  | Some p =>
      if bool_decide (peer_Status p ≠ "OK")
      then Errorf ("SC " +:+ sc +:+ ": replication peer " +:+ quote peerName +:+ " is not healthy (status=" +:+
                   quote (peer_Status p) +:+ "); cannot create protection policy")
      else inr p
  end.

(** What an edge needs before its policy is touched. *)
Definition edge_inputs (clients : gset string) (tenants : gmap string TenantInfo)
    (targets : gmap string (gmap string PeerModel)) (edge : ReplicationEdge)
    : result (TenantInfo * TenantInfo * PeerModel * PeerModel) :=
  if negb (bool_decide (SideA edge ∈ clients)) then
    Errorf ("no REST client for StorageClass " +:+ quote (SideA edge) +:+ " (SideA of link to " +:+
            quote (SideB edge) +:+ " via peer " +:+ quote (edge_PeerName edge) +:+ ")")
  else if negb (bool_decide (SideB edge ∈ clients)) then
    Errorf ("no REST client for StorageClass " +:+ quote (SideB edge) +:+ " (SideB of link from " +:+
            quote (SideA edge) +:+ " via peer " +:+ quote (edge_PeerName edge) +:+ ")")
  else
    localTenant ← TenantFromMapping tenants (SideA edge);
    remoteTenant ← TenantFromMapping tenants (SideB edge);
    peerA ← edge_peer targets (SideA edge) (edge_PeerName edge);
    peerB ← edge_peer targets (SideB edge) (edge_PeerName edge);
    mret (localTenant, remoteTenant, peerA, peerB).

Definition append_link (sc : string) (l : ReplicationLink) (m : gmap string (list ReplicationLink))
    : gmap string (list ReplicationLink) := <[sc := default [] (m !! sc) ++ [l]]> m.

Fixpoint link_policies (clients : gset string) (tenants : gmap string TenantInfo)
    (targets : gmap string (gmap string PeerModel)) (tmpl : PolicyTemplateParams)
    (edges : list ReplicationEdge) (acc : gmap string (list ReplicationLink))
    : Prog (result (gmap string (list ReplicationLink))) :=
  match edges with
  | [] => mret (inr acc)
  | edge :: edges' =>
      match edge_inputs clients tenants targets edge with
      | inl e => mret (inl e)
      | inr (localTenant, remoteTenant, peerA, peerB) =>
          let prefix := OwnerName tmpl +:+ "-" +:+ peer_PeerName peerA +:+ "-" +:+ peer_PeerName peerB in
          r ← ensurePolicy edge localTenant remoteTenant tmpl peerA peerB prefix;
          match r with
          | inl e => mret (inl e)
          | inr link =>
              err ← WaitForResource (call (Vms (SideB edge) (PolicyExists (PolicyName link))))
                      WaitConditionPresent policyMirrorTimeout policyMirrorSleep
                      ("ProtectionPolicy " +:+ quote (PolicyName link) +:+ " to be mirrored on " +:+
                       quote (SideB edge));
              match err with
              | Some e => mret (inl (ErrWrap ("SC " +:+ SideB edge +:+ ": ") e ""))
              | None => link_policies clients tenants targets tmpl edges' (append_link (SideA edge) link acc)
              end
          end
      end
  end.

Definition DiscoverLinkPolicies (clients : gset string) (tenants : gmap string TenantInfo)
    (edges : list ReplicationEdge) (tmpl : PolicyTemplateParams)
    : Prog (result (gmap string (list ReplicationLink))) :=
  match buildNativeReplicaTargetsBySC (map_order "peers" clients) (map edge_PeerName edges) ∅ with
  | inl e => mret (inl (ErrWrap "failed to build native replication targets mapping: " e ""))
  | inr targets => link_policies clients tenants targets tmpl edges ∅
  end.

Fixpoint delete_policies (scName : string) (policyNames : list string) : Prog unit :=
  match policyNames with
  | [] => mret tt
  | name :: names =>
      r ← call (Vms scName (PolicyGet name));
      match r with
      | inl _ => delete_policies scName names
      | inr (_, id) => _ ← call (Vms scName (PolicyDeleteById id)); delete_policies scName names
      end
  end.

Fixpoint delete_policies_by_class (policyNamesBySC : gmap string (list string)) (scs : list string) : Prog unit :=
  match scs with
  | [] => mret tt
  | scName :: scs' =>
      match NewFromStorageClassName scName with
      | inl _ => delete_policies_by_class policyNamesBySC scs'
      | inr _ =>
          delete_policies scName (default [] (policyNamesBySC !! scName));;
          delete_policies_by_class policyNamesBySC scs'
      end
  end.

Definition DeleteProtectionPolicies (ownerName primarySC : string) (topology : list ReplicationTarget)
    : Prog unit :=
  let policyNamesBySC := ProtectionPolicyNamesByStorageClass ownerName primarySC topology in
  delete_policies_by_class policyNamesBySC (map_order "policies" (dom policyNamesBySC)).

End Ppath.

(** ** What the establishment of a constellation may do *)

(** Some read of [ppath] on the cluster of [sc] showed the stream in one of
    the states. *)
Definition stream_seen (t : Trace) (sc ppath stream : string) (states : list string) : Prop :=
  ∃ p s, Ev (Vms sc (PpathGet ppath)) (inr p) ∈ t ∧ s ∈ pp_Streams p ∧
    stream_Name s = stream ∧ stream_State s ∈ states.

Definition ppath_seen (t : Trace) (sc ppath : string) : Prop :=
  ∃ p, Ev (Vms sc (PpathGet ppath)) (inr p) ∈ t.

(** Some read of [ppath] on the cluster of [sc] did not show the stream. *)
Definition stream_missing (t : Trace) (sc ppath stream : string) : Prop :=
  ∃ p, Ev (Vms sc (PpathGet ppath)) (inr p) ∈ t ∧ stream ∉ ppathStreamNameSet (pp_Streams p).

(** A request for a path or stream into [dir] was refused because of [dir]. *)
Definition refused_for (t : Trace) (dir : string) : Prop :=
  ∃ sc e, isPathOnPeerExistsErr e = true ∧
    ((∃ id p, Ev (Vms sc (PpathAddStream id p)) (inl e) ∈ t ∧ sp_target_exported_dir p = dir) ∨
     (∃ p, Ev (Vms sc (PpathCreate p)) (inl e) ∈ t ∧ ppp_target_exported_dir p = dir)).

Section Constellation.

Context {lk : Lookups} {ve : VastErrors} {sd : ShowDuration} {mo : MapOrder}.
Context (pairs : gmap string (list ReplicationLink)) (primarySC ownerName : string).
Context (dirs : gmap string string) (allowPeerDirCleanup : bool).

Definition links (sc : string) : list ReplicationLink := default [] (pairs !! sc).

Definition standby_allowed (t : Trace) (sc : string) (p : StreamParams) : Prop :=
  sc ≠ primarySC ∧
  ∃ ppathName l lp, l ∈ links sc ∧ lp ∈ tail (links primarySC) ∧
    SideB (edge_of l) = SideB (edge_of lp) ∧
    sp_name p = stream_name ppathName l ∧ stream_missing t sc ppathName (sp_name p) ∧
    stream_seen t primarySC ppathName (stream_name ownerName lp)
      [streamStateWaitingForStandby; streamStateActive].

Definition primary_stream_allowed (t : Trace) (sc : string) (p : StreamParams) : Prop :=
  sc = primarySC ∧
  ∃ ppathName lp, lp ∈ tail (links primarySC) ∧ sp_name p = stream_name ownerName lp ∧
    stream_missing t sc ppathName (sp_name p).

Definition create_allowed (t : Trace) (sc : string) (p : PpathParams) : Prop :=
  sc = primarySC ∧ ppp_name p = ownerName ∧
  (∃ e, Ev (Vms primarySC (PpathGet ownerName)) (inl e) ∈ t ∧ vast_IsNotFoundErr e = true) ∧
  ∃ first, head (links primarySC) = Some first ∧
    ppp_remote_tenant_guid p = tenant_Guid (RemoteTenant (Edge first)) ∧
    tenant_Guid (LocalTenant (Edge first)) ≠ tenant_Guid (RemoteTenant (Edge first)).

Definition ppath_allowed (t : Trace) (c : Call) : Prop :=
  match c with
  | Vms sc (FolderDelete path tenantId) =>
      allowPeerDirCleanup = true ∧ refused_for t path ∧
      ∃ s, Ev (Vms sc (FolderStatPath path tenantId)) (inr s) ∈ t ∧
        IsDirectory s = true ∧ (Children s ≤ 0)%Z
  | Vms sc (PpathAddStream _ p) =>
      if sp_is_standby p then standby_allowed t sc p else primary_stream_allowed t sc p
  | Vms sc (PpathCreate p) => create_allowed t sc p
  | Vms _ (PpathGet _) | Vms _ (FolderStatPath _ _) | Now | Sleep _ => True
  | _ => False
  end.

Notation W := (wp ppath_allowed).

(** *** Observations survive *)

Lemma stream_seen_mono t t' sc p s ss : t `prefix_of` t' → stream_seen t sc p s ss → stream_seen t' sc p s ss.
Proof. intros [k ->] (q & x & ? & ?). exists q, x. set_solver. Qed.
Lemma ppath_seen_mono t t' sc p : t `prefix_of` t' → ppath_seen t sc p → ppath_seen t' sc p.
Proof. intros [k ->] (q & ?). exists q. set_solver. Qed.

(** *** Waiting *)

Lemma wp_getPpathRecord sc name h (Q : Trace → result Ppath → Prop) :
  (∀ h' r, h `prefix_of` h' → (∀ p, r = inr p → Ev (Vms sc (PpathGet name)) (inr p) ∈ h') → Q h' r) →
  W (getPpathRecord sc name) h Q.
Proof.
  intros HQ. apply wp_bind_call; [done|]. intros r. apply HQ; [by apply prefix_app_r|].
  intros p. destruct r as [|q]; simpl; [done|]. intros [= ->]. apply in_snoc.
Qed.

Lemma check_streams_found ppath stream expected streams :
  check_streams ppath stream expected streams = inr (Some tt) →
  ∃ s, s ∈ streams ∧ stream_Name s = stream ∧ stream_State s ∈ expected.
Proof.
  induction streams as [|s streams IH]; simpl; [done|]. case_bool_decide as Hn.
  - case_bool_decide as Hs; [|by case_bool_decide]. intros _. exists s. set_solver.
  - intros (x & ? & ?)%IH. exists x. set_solver.
Qed.

Lemma wp_waitForStreamState sc ppath stream expected timeout sleep h (Q : Trace → option error → Prop) :
  (∀ h' err, h `prefix_of` h' → (err = None → stream_seen h' sc ppath stream expected) → Q h' err) →
  W (waitForStreamState sc ppath stream expected timeout sleep) h Q.
Proof.
  intros HQ. unfold waitForStreamState. apply wp_bind.
  apply (wp_WaitResource _ _ _ _ _ _ (fun h' _ => stream_seen h' sc ppath stream expected)); [done..| |].
  - intros h' Hh. apply wp_bind_call; [done|]. intros r. apply wp_ret. intros [] Hr.
    destruct r as [e|p]; [by case_match|]. destruct (checkPpathState _ _ _); [done|].
    apply check_streams_found in Hr as (s & ? & ? & ?). exists p, s. split; [apply in_snoc|done].
  - intros h' r Hh HR. apply wp_ret, HQ; [done|]. destruct r as [|[]]; [done|]. intros _. by apply (HR tt).
Qed.

Lemma wp_waitForPpath sc ppath h (Q : Trace → result (Z * list Stream) → Prop) :
  (∀ h' r, h `prefix_of` h' →
     (∀ id streams, r = inr (id, streams) →
        ∃ p, Ev (Vms sc (PpathGet ppath)) (inr p) ∈ h' ∧ pp_Streams p = streams) → Q h' r) →
  W (waitForPpath sc ppath) h Q.
Proof.
  intros HQ. apply (wp_WaitResource _ _ _ _ _ _ (fun h' x =>
    ∃ p, Ev (Vms sc (PpathGet ppath)) (inr p) ∈ h' ∧ pp_Streams p = x.2)); [done..| |].
  - intros h' Hh. apply wp_bind, wp_getPpathRecord. intros h2 [e|p] Hh2 Hp; apply wp_ret; intros a.
    + by case_match.
    + intros [= <-]. exists p. auto.
  - intros h' r Hh HR. apply HQ; [done|]. intros id streams ->. by apply (HR (id, streams)).
Qed.

(** *** Streams and directories *)

Lemma wp_handlePathOnPeerExists sc dir tid h (Q : Trace → error → Prop) :
  refused_for h dir → (∀ h' e, h `prefix_of` h' → Q h' e) →
  W (handlePathOnPeerExists sc dir tid allowPeerDirCleanup) h Q.
Proof.
  intros Hr HQ. unfold handlePathOnPeerExists. destruct allowPeerDirCleanup eqn:Hallow; [|by apply HQ].
  cbn [negb]. unfold StatPath. apply wp_bind, wp_bind_call; [done|].
  intros r. apply wp_ret. set (h1 := h ++ _).
  assert (Hh1 : h `prefix_of` h1) by (by apply prefix_app_r).
  destruct r as [e|stat]; [by destruct (vast_ExpectStatusCodes e [503%Z]); apply HQ|].
  destruct (IsDirectory stat) eqn:Hd; [|by apply HQ]. cbn [negb].
  destruct (0 <? Children stat)%Z eqn:Hc; [by apply HQ|]. apply wp_bind_call.
  - cbn [ppath_allowed]. split_and!; [done| |].
    + destruct Hr as (sc' & e & ? & Hr). exists sc', e. split; [done|].
      unfold h1. destruct Hr as [(id & p & ? & ?)|(p & ? & ?)]; [left; exists id, p|right; exists p]; set_solver.
    + exists stat. split; [apply in_snoc|]. split; [done|]. by apply Z.ltb_ge.
  - intros r. apply wp_ret, HQ. by apply prefix_app_r.
Qed.

Lemma wp_AddReplicationStream sc remote name id dir l standby h (Q : Trace → option error → Prop) :
  (∀ p, sp_name p = name → sp_is_standby p = standby →
     ppath_allowed h (Vms sc (PpathAddStream id p))) →
  (∀ h' err, h `prefix_of` h' → Q h' err) →
  W (AddReplicationStream sc remote name id dir l standby allowPeerDirCleanup) h Q.
Proof.
  intros HG HQ. unfold AddReplicationStream. apply wp_bind_call; [by apply HG|].
  intros [e|[]]; [|by apply wp_ret, HQ, prefix_app_r].
  destruct (isPathOnPeerExistsErr e) eqn:He; [|by apply wp_ret, HQ, prefix_app_r].
  apply wp_bind, wp_handlePathOnPeerExists.
  - exists sc, e. split; [done|]. left. do 2 eexists. split; [apply in_snoc|done].
  - intros h' e' Hh. apply wp_ret, HQ. etrans; [|exact Hh]. by apply prefix_app_r.
Qed.

Lemma wp_ensure_primary_stream ppath id lp h (Q : Trace → option error → Prop) :
  lp ∈ tail (links primarySC) → (∀ h' err, h `prefix_of` h' → Q h' err) →
  W (ensure_primary_stream primarySC ppath id (stream_name ownerName lp) dirs lp allowPeerDirCleanup) h Q.
Proof.
  intros Hlp HQ. unfold ensure_primary_stream. apply wp_bind, wp_getPpathRecord.
  intros h1 [e|p] Hh1 Hp; [by apply HQ|]. case_bool_decide as Hs; [by apply HQ|].
  apply wp_bind, wp_AddReplicationStream.
  - intros q Hn Hst. cbn [ppath_allowed]. rewrite Hst. split; [done|].
    exists ppath, lp. split_and!; [done..|]. exists p. split; [by apply Hp|by rewrite Hn].
  - intros h2 err Hh2. apply wp_ret, HQ. by etrans.
Qed.

Lemma wp_cross_streams sc ppath lp crossPairs h (Q : Trace → option error → Prop) :
  sc ≠ primarySC → (∀ l, l ∈ crossPairs → l ∈ links sc) → lp ∈ tail (links primarySC) →
  stream_seen h primarySC ppath (stream_name ownerName lp) [streamStateWaitingForStandby; streamStateActive] →
  (∀ h' err, h `prefix_of` h' → Q h' err) →
  W (cross_streams sc (SideB (edge_of lp)) ppath dirs allowPeerDirCleanup crossPairs) h Q.
Proof.
  intros Hsc Hl Hlp. revert h. induction crossPairs as [|l ls IH]; intros h Hseen HQ;
    cbn [cross_streams]; [by apply HQ|].
  assert (IH' : ∀ h', h `prefix_of` h' → W (cross_streams sc (SideB (edge_of lp)) ppath dirs allowPeerDirCleanup ls) h' Q).
  { intros h' Hh. apply IH; [set_solver|by eapply stream_seen_mono|]. intros h2 err Hh2. apply HQ. by etrans. }
  case_bool_decide as Ht; cbn [negb]; [|by apply IH'].
  apply wp_bind, wp_waitForPpath. intros h1 [e|[id streams]] Hh1 Hr; [by apply HQ|].
  destruct (Hr id streams eq_refl) as (p & Hp & <-). case_bool_decide as Hs; [by apply IH'|].
  apply wp_bind, wp_AddReplicationStream.
  - intros q Hn Hst. cbn [ppath_allowed]. rewrite Hst. split; [done|].
    exists ppath, l, lp. split_and!; [set_solver|done|done|done| |by eapply stream_seen_mono].
    exists p. by rewrite Hn.
  - intros h2 [e|] Hh2; [apply HQ; by etrans|]. apply IH'. by etrans.
Qed.

Lemma wp_cross_clusters ppath lp scs h (Q : Trace → option error → Prop) :
  lp ∈ tail (links primarySC) →
  stream_seen h primarySC ppath (stream_name ownerName lp) [streamStateWaitingForStandby; streamStateActive] →
  (∀ h' err, h `prefix_of` h' → Q h' err) →
  W (cross_clusters primarySC (SideB (edge_of lp)) ppath dirs allowPeerDirCleanup pairs scs) h Q.
Proof.
  intros Hlp. revert h. induction scs as [|sc scs IH]; intros h Hseen HQ; cbn [cross_clusters]; [by apply HQ|].
  case_bool_decide as Hsc; [by apply IH|]. apply wp_bind, wp_cross_streams; [done|done|done|done|].
  intros h1 [e|] Hh1; [by apply HQ|]. apply IH; [by eapply stream_seen_mono|].
  intros h2 err Hh2. apply HQ. by etrans.
Qed.

(** After success every further target of the primary has been seen active. *)
Lemma wp_more_targets ppath id others h (Q : Trace → option error → Prop) :
  (∀ l, l ∈ others → l ∈ tail (links primarySC)) →
  (∀ h' err, h `prefix_of` h' →
     (err = None → ∀ l, l ∈ others →
        stream_seen h' primarySC ppath (stream_name ownerName l) [streamStateActive]) → Q h' err) →
  W (more_targets primarySC ownerName ppath id dirs allowPeerDirCleanup pairs others) h Q.
Proof.
  revert h Q. induction others as [|lp others IH]; intros h Q Hin HQ; cbn [more_targets]; [by apply HQ; [|set_solver]|].
  assert (Hlp : lp ∈ tail (links primarySC)) by (apply Hin; set_solver).
  apply wp_bind, wp_ensure_primary_stream; [done|]. intros h1 [e|] Hh1; [by apply HQ|].
  apply wp_bind, wp_waitForStreamState. intros h2 [e|] Hh2 Hseen; [by apply HQ; [etrans|]|].
  apply wp_bind, wp_cross_clusters; [done|by apply Hseen|].
  intros h3 [e|] Hh3; [by apply HQ; [do 2 (etrans; [done|])|]|].
  apply wp_bind, wp_waitForStreamState. intros h4 [e|] Hh4 Hact; [by apply HQ; [do 3 (etrans; [done|])|]|].
  apply IH; [set_solver|]. intros h5 err Hh5 Hrest. apply HQ; [by do 4 (etrans; [done|])|].
  intros -> l [->|Hl]%elem_of_cons; [|by apply Hrest]. eapply stream_seen_mono; [exact Hh5|]. by apply Hact.
Qed.

Lemma wp_wait_mirrors ppath scs h (Q : Trace → option error → Prop) :
  (∀ h' err, h `prefix_of` h' →
     (err = None → ∀ sc, sc ∈ scs → sc ≠ primarySC → ppath_seen h' sc ppath) → Q h' err) →
  W (wait_mirrors primarySC ppath scs) h Q.
Proof.
  revert h Q. induction scs as [|sc scs IH]; intros h Q HQ; cbn [wait_mirrors]; [by apply HQ; [|set_solver]|].
  case_bool_decide as Hsc.
  - apply IH. intros h' err Hh Hs. apply HQ; [done|]. intros He sc' [->|]%elem_of_cons; [done|by apply Hs].
  - apply wp_bind, wp_waitForPpath. intros h1 [e|[id streams]] Hh1 Hr; [by apply HQ|].
    destruct (Hr id streams eq_refl) as (p & Hp & _). apply IH. intros h2 err Hh2 Hs. apply HQ; [by etrans|].
    intros He sc' [->|]%elem_of_cons Hne; [|by apply Hs]. eapply ppath_seen_mono; [exact Hh2|]. by exists p.
Qed.

(** *** The first stream *)

(** The path carries a stream, the first of its list when it was read, that
    has been seen active. *)
Definition first_stream_active (t : Trace) (ppathName : string) : Prop :=
  ∃ p s, Ev (Vms primarySC (PpathGet ownerName)) (inr p) ∈ t ∧ pp_Name p = ppathName ∧
    head (pp_Streams p) = Some s ∧ stream_seen t primarySC ppathName (stream_Name s) [streamStateActive].

Lemma first_stream_active_mono t t' p : t `prefix_of` t' → first_stream_active t p → first_stream_active t' p.
Proof.
  intros Ht (q & s & ? & ? & ? & ?). exists q, s. split_and!; [|done|done|by eapply stream_seen_mono].
  destruct Ht as [k ->]. set_solver.
Qed.

Lemma wp_await_first_stream h (Q : Trace → string * Z * option error → Prop) :
  (∀ h' name id err, h `prefix_of` h' → (err = None → first_stream_active h' name) → Q h' (name, id, err)) →
  W (await_first_stream primarySC ownerName) h Q.
Proof.
  intros HQ. unfold await_first_stream. apply wp_bind, wp_getPpathRecord.
  intros h1 [e|p] Hh1 Hp; [by apply HQ|]. case_bool_decide; [by apply HQ|].
  destruct (pp_Streams p) as [|s ss] eqn:Hs; [by apply HQ|].
  apply wp_bind, wp_waitForStreamState. intros h2 err Hh2 Hseen. apply wp_ret, HQ; [by etrans|].
  destruct err as [e|]; [done|]. intros _. exists p, s. rewrite Hs. split_and!; [|done|done|by apply Hseen].
  destruct Hh2 as [k ->]. specialize (Hp p eq_refl). set_solver.
Qed.

Lemma wp_EnsurePpath first h (Q : Trace → string * Z * option error → Prop) remoteRest sourceDir targetDir :
  head (links primarySC) = Some first →
  (∀ h' name id err, h `prefix_of` h' → (err = None → first_stream_active h' name) → Q h' (name, id, err)) →
  W (EnsurePpath primarySC remoteRest ownerName sourceDir targetDir first allowPeerDirCleanup) h Q.
Proof.
  intros Hfirst HQ. unfold EnsurePpath. apply wp_bind_call; [done|]. intros r. set (h1 := h ++ _).
  assert (Hh1 : h `prefix_of` h1) by (by apply prefix_app_r).
  assert (Hawait : ∀ h', h1 `prefix_of` h' → W (await_first_stream primarySC ownerName) h' Q).
  { intros h' Hh. apply wp_await_first_stream. intros h2 name id err Hh2. apply HQ. by do 2 (etrans; [done|]). }
  destruct r as [e|p]; [|by apply Hawait]. destruct (vast_IsNotFoundErr e) eqn:He; [|by apply HQ].
  assert (Hc : W (create_ppath primarySC remoteRest ownerName sourceDir targetDir first allowPeerDirCleanup) h1
            (fun h' _ => h1 `prefix_of` h')).
  { unfold create_ppath. case_bool_decide as Hguid; [by apply wp_ret|]. apply wp_bind_call.
    - cbn [ppath_allowed]. split_and!; [done|done| |by exists first].
      exists e. split; [apply in_snoc|done].
    - intros [e'|[]]; [|apply wp_bind_call; [done|]; intros []; by do 2 apply prefix_app_r].
      destruct (isPathOnPeerExistsErr e') eqn:He'; [|by apply wp_ret, prefix_app_r].
      apply wp_bind, wp_handlePathOnPeerExists.
      + exists primarySC, e'. split; [done|]. right. eexists. split; [apply in_snoc|done].
      + intros h2 e2 Hh2. apply wp_ret. etrans; [|exact Hh2]. by apply prefix_app_r. }
  apply wp_bind. eapply wp_post; [exact Hc|]. intros h2 [e2|] Hh2; [|by apply Hawait].
  apply HQ; [by etrans|done].
Qed.

Lemma wp_EnsureConstellationPpath clients h (Q : Trace → string * option error → Prop) :
  (∀ h' name err, h `prefix_of` h' →
     (err = None → first_stream_active h' name ∧
        (∀ l, l ∈ tail (links primarySC) →
           stream_seen h' primarySC name (stream_name ownerName l) [streamStateActive]) ∧
        (∀ sc, sc ∈ map_order "ppath mirrors" clients → sc ≠ primarySC → ppath_seen h' sc name)) →
     Q h' (name, err)) →
  W (EnsureConstellationPpath clients pairs primarySC ownerName dirs allowPeerDirCleanup) h Q.
Proof.
  intros HQ. unfold EnsureConstellationPpath. fold (links primarySC).
  destruct (links primarySC) as [|first others] eqn:Hl; [by apply HQ|].
  apply wp_bind, wp_EnsurePpath; [by rewrite Hl|]. intros h1 name id [e|] Hh1 Hf; [by apply HQ|].
  apply wp_bind, wp_more_targets; [by rewrite Hl|]. intros h2 [e|] Hh2 Ho; [apply HQ; [by etrans|done]|].
  apply wp_bind, wp_wait_mirrors. intros h3 err Hh3 Hm. apply wp_ret, HQ; [by do 2 (etrans; [done|])|].
  intros ->. split_and!.
  - eapply first_stream_active_mono; [|by apply Hf]. by etrans.
  - intros l Hl'. eapply stream_seen_mono; [exact Hh3|]. by apply Ho.
  - by apply Hm.
Qed.

End Constellation.

(** ** What the discovery of policies may do *)

Section Policies.

Context {lk : Lookups} {ve : VastErrors} {sd : ShowDuration} {mo : MapOrder}.
Context (clients : gset string) (tenants : gmap string TenantInfo).
Context (targets : gmap string (gmap string PeerModel)) (tmpl : PolicyTemplateParams).
Context (all : list ReplicationEdge).

Definition policy_name (e : ReplicationEdge) : string := OwnerName tmpl +:+ "-" +:+ edge_PeerName e.

Definition policy_allowed (t : Trace) (c : Call) : Prop :=
  match c with
  | Vms sc (PolicyCreate p) =>
      ∃ e localTenant remoteTenant peerA peerB,
        e ∈ all ∧ sc = SideA e ∧
        edge_inputs clients tenants targets e = inr (localTenant, remoteTenant, peerA, peerB) ∧
        p = mkPolicy (policy_name e) (peer_Id peerA)
              (OwnerName tmpl +:+ "-" +:+ peer_PeerName peerA +:+ "-" +:+ peer_PeerName peerB)
              (Frames tmpl) (tenant_Id localTenant) (tenant_Guid remoteTenant) ∧
        ∃ err, Ev (Vms sc (PolicyGet (policy_name e))) (inl err) ∈ t
  | Vms _ (PolicyGet _) | Vms _ (PolicyExists _) | Now | Sleep _ => True
  | _ => False
  end.

Notation W := (wp policy_allowed).

(** The policy of a link has been seen on both of its clusters. *)
Definition link_ready (t : Trace) (l : ReplicationLink) : Prop :=
  Ev (Vms (SideB (edge_of l)) (PolicyExists (PolicyName l))) (inr true) ∈ t ∧
  (Ev (Vms (SideA (edge_of l)) (PolicyGet (policy_name (edge_of l)))) (inr (PolicyName l, PolicyId l)) ∈ t ∨
   ∃ p, Ev (Vms (SideA (edge_of l)) (PolicyCreate p)) (inr (PolicyName l, PolicyId l)) ∈ t).

Lemma link_ready_mono t t' l : t `prefix_of` t' → link_ready t l → link_ready t' l.
Proof. intros [k ->] [? [?|[p ?]]]; (split; [set_solver|]); [left|right; exists p]; set_solver. Qed.

Lemma wp_ensurePolicy e lt rt pa pb h (Q : Trace → result ReplicationLink → Prop) :
  e ∈ all → edge_inputs clients tenants targets e = inr (lt, rt, pa, pb) →
  (∀ h' r, h `prefix_of` h' →
     (∀ l, r = inr l → edge_of l = e ∧
        (Ev (Vms (SideA e) (PolicyGet (policy_name e))) (inr (PolicyName l, PolicyId l)) ∈ h' ∨
         ∃ p, Ev (Vms (SideA e) (PolicyCreate p)) (inr (PolicyName l, PolicyId l)) ∈ h')) → Q h' r) →
  W (ensurePolicy e lt rt tmpl pa pb (OwnerName tmpl +:+ "-" +:+ peer_PeerName pa +:+ "-" +:+ peer_PeerName pb)) h Q.
Proof.
  intros He Hin HQ. unfold ensurePolicy. apply wp_bind_call; [done|].
  intros [err|[name id]]; cbv beta iota.
  - apply wp_bind_call.
    + cbn [policy_allowed]. exists e, lt, rt, pa, pb. split_and!; [done..|]. exists err. apply in_snoc.
    + intros r. apply wp_ret, HQ; [by do 2 apply prefix_app_r|].
      destruct r as [|[name id]]; [done|]. intros l [= <-]. split; [done|]. right. eexists. apply in_snoc.
  - apply wp_ret, HQ; [by apply prefix_app_r|]. intros l [= <-]. split; [done|]. left. apply in_snoc.
Qed.

Lemma wp_policy_mirrored sc name descr h (Q : Trace → option error → Prop) :
  (∀ h' err, h `prefix_of` h' →
     (err = None → Ev (Vms sc (PolicyExists name)) (inr true) ∈ h') → Q h' err) →
  W (WaitForResource (call (Vms sc (PolicyExists name))) WaitConditionPresent policyMirrorTimeout
       policyMirrorSleep descr) h Q.
Proof.
  intros HQ. unfold WaitForResource. apply wp_bind.
  apply (wp_WaitResource _ _ _ _ _ _ (fun h' _ => Ev (Vms sc (PolicyExists name)) (inr true) ∈ h')); [done..| |].
  - intros h' Hh. apply wp_bind_call; [done|]. intros r. apply wp_ret. intros [] Hr.
    destruct r as [|[]]; simplify_eq. apply in_snoc.
  - intros h' r Hh HR. apply wp_ret, HQ; [done|]. destruct r as [|[]]; [done|]. intros _. by apply (HR tt).
Qed.

Definition links_at (m : gmap string (list ReplicationLink)) (sc : string) : list ReplicationLink :=
  default [] (m !! sc).

Lemma links_at_append sc l m sc' :
  links_at (append_link sc l m) sc' = links_at m sc' ++ if bool_decide (sc = sc') then [l] else [].
Proof.
  unfold links_at, append_link. case_bool_decide as Hs.
  - subst. by rewrite lookup_insert_eq.
  - rewrite lookup_insert_ne by done. by rewrite app_nil_r.
Qed.

Lemma wp_link_policies edges acc h (Q : Trace → result (gmap string (list ReplicationLink)) → Prop) :
  (∀ e, e ∈ edges → e ∈ all) →
  (∀ sc l, l ∈ links_at acc sc → link_ready h l) →
  (∀ h' r, h `prefix_of` h' →
     (∀ m, r = inr m →
        (∀ sc, map edge_of (links_at m sc) = map edge_of (links_at acc sc) ++ filter (fun e => SideA e = sc) edges) ∧
        (∀ sc l, l ∈ links_at m sc → link_ready h' l)) → Q h' r) →
  W (link_policies clients tenants targets tmpl edges acc) h Q.
Proof.
  revert acc h Q. induction edges as [|e edges IH]; intros acc h Q Hall Hacc HQ; cbn [link_policies].
  { apply HQ; [done|]. intros m [= ->]. split; [|done]. intros sc. by rewrite app_nil_r. }
  destruct (edge_inputs clients tenants targets e) as [err|[[[lt rt] pa] pb]] eqn:Hin; [by apply HQ|].
  apply wp_bind, wp_ensurePolicy; [apply Hall; set_solver|done|].
  intros h1 [err|l] Hh1 Hl; [by apply HQ|]. destruct (Hl l eq_refl) as [He Hpol].
  apply wp_bind, wp_policy_mirrored. intros h2 [err|] Hh2 Hm; [apply HQ; [by etrans|done]|].
  assert (Hready : link_ready h2 l).
  { split; [rewrite He; by apply Hm|]. rewrite He. destruct Hh2 as [k ->].
    destruct Hpol as [?|[p ?]]; [left|right; exists p]; set_solver. }
  apply IH; [set_solver|..].
  - intros sc l'. rewrite links_at_append. intros [Hl'|Hl']%elem_of_app.
    + eapply link_ready_mono; [|by eapply Hacc]. by etrans.
    + case_bool_decide; [by apply list_elem_of_singleton in Hl' as ->|by apply elem_of_nil in Hl'].
  - intros h3 r Hh3 Hr. apply HQ; [by do 2 (etrans; [done|])|]. intros m Hm'.
    destruct (Hr m Hm') as [Hedges Hrdy]. split; [|done]. intros sc.
    rewrite Hedges, links_at_append, map_app, <-app_assoc. f_equal. rewrite filter_cons.
    rewrite <-He. case_bool_decide; case_decide; done.
Qed.

End Policies.

Lemma runs_ppath_allowed `{Lookups, VastErrors, ShowDuration, MapOrder} clients pairs primarySC ownerName
    dirs allow t a t1 c r t2 :
  runs (EnsureConstellationPpath clients pairs primarySC ownerName dirs allow) t a →
  t = t1 ++ Ev c r :: t2 → ppath_allowed pairs primarySC ownerName allow t1 c.
Proof.
  intros Hr Ht.
  destruct (wp_sound _ _ [] (fun _ _ => True) _ _
              (wp_EnsureConstellationPpath pairs primarySC ownerName dirs allow clients [] _
                 (fun _ _ _ _ _ => I)) Hr) as [_ HG].
  by eapply HG.
Qed.

(** ** Properties *)


(** C16. A directory on a peer cluster is only deleted when cleanup is allowed
    (file replication), a request for a path or stream into that directory was
    refused because it exists, and a stat in the same run showed an empty
    directory. *)
Theorem peer_directory_deleted_only_when_empty `{Lookups, VastErrors, ShowDuration, MapOrder}
    (clients : gset string) (pairs : gmap string (list ReplicationLink)) (primarySC ownerName : string)
    (dirs : gmap string string) (allow : bool)
    (t t1 t2 : Trace) (a : string * option error) (sc path : string) (tenantId : Z) (r : result unit) :
  runs (EnsureConstellationPpath clients pairs primarySC ownerName dirs allow) t a →
  t = t1 ++ Ev (Vms sc (FolderDelete path tenantId)) r :: t2 →
  allow = true ∧ refused_for t1 path ∧
  ∃ s, Ev (Vms sc (FolderStatPath path tenantId)) (inr s) ∈ t1 ∧ IsDirectory s = true ∧ (Children s ≤ 0)%Z.
Proof. intros Hr Ht. exact (runs_ppath_allowed _ _ _ _ _ _ _ _ t1 (Vms sc (FolderDelete path tenantId)) r t2 Hr Ht). Qed.


(** Owner names of 64 bytes and more leave no room for the peers in a
    stream's name: all streams the establishment adds on the primary cluster
    get the same name, so after the first of them every further target is
    taken to be attached already. *)
Theorem long_owner_single_stream `{Lookups, VastErrors, ShowDuration, MapOrder} (clients : gset string)
    (pairs : gmap string (list ReplicationLink)) (primarySC ownerName : string)
    (dirs : gmap string string) (allow : bool)
    (t t1 t2 : Trace) (a : string * option error) (id : Z) (p : StreamParams) (r : result unit) :
  64 ≤ strlen ownerName →
  runs (EnsureConstellationPpath clients pairs primarySC ownerName dirs allow) t a →
  t = t1 ++ Ev (Vms primarySC (PpathAddStream id p)) r :: t2 →
  sp_name p = str (take 64 (chars ownerName)).
Proof.
  intros Hlen Hr Ht.
  pose proof (runs_ppath_allowed _ _ _ _ _ _ _ _ t1 (Vms primarySC (PpathAddStream id p)) r t2 Hr Ht) as Ha.
  cbn [ppath_allowed] in Ha.
  destruct (sp_is_standby p); [by destruct Ha|]. destruct Ha as (_ & name & lp & _ & -> & _).
  unfold stream_name, truncateName, vastNameMaxLen, strlen in *. rewrite !chars_app, !length_app.
  rewrite bool_decide_false by (simpl; lia). f_equal. by rewrite take_app_le.
Qed.

(** Policies of the links: a protection policy is only created for an edge
    both of whose peers were listed as healthy, whose tenants are in the
    mapping, on the edge's first side, with the name derived from owner and
    peer, and after looking it up failed; and when discovery succeeds, every
    StorageClass has exactly one link per edge that starts at it, in the order
    of the edges, whose policy was found or created there and has been seen on
    the other side. *)
Theorem link_policies_discovered `{Lookups, VastErrors, ShowDuration, MapOrder} (clients : gset string)
    (tenants : gmap string TenantInfo) (edges : list ReplicationEdge) (tmpl : PolicyTemplateParams)
    (t : Trace) (a : result (gmap string (list ReplicationLink))) :
  runs (DiscoverLinkPolicies clients tenants edges tmpl) t a →
  (∀ t1 sc p r t2, t = t1 ++ Ev (Vms sc (PolicyCreate p)) r :: t2 →
     ∃ targets, policy_allowed clients tenants targets tmpl edges t1 (Vms sc (PolicyCreate p))) ∧
  (∀ m, a = inr m →
     (∀ sc, map edge_of (links_at m sc) = filter (fun e => SideA e = sc) edges) ∧
     (∀ sc l, l ∈ links_at m sc → link_ready tmpl t l)).
Proof.
  unfold DiscoverLinkPolicies. intros Hr.
  destruct (buildNativeReplicaTargetsBySC _ _ _) as [e|targets].
  { apply runs_invert in Hr as [-> <-]. split; [|done]. intros [|] ? ? ? ?; discriminate. }
  assert (Hw : wp (policy_allowed clients tenants targets tmpl edges)
            (link_policies clients tenants targets tmpl edges ∅) []
            (fun h r => ∀ m, r = inr m →
               (∀ sc, map edge_of (links_at m sc) = filter (fun e => SideA e = sc) edges) ∧
               (∀ sc l, l ∈ links_at m sc → link_ready tmpl h l))).
  2: { destruct (wp_sound _ _ _ _ _ _ Hw Hr) as [HQ HG]. split; [|exact HQ].
       intros t1 sc p r t2 Ht. exists targets. exact (HG t1 _ r t2 Ht). }
  apply wp_link_policies; [done|..].
  - intros sc l. unfold links_at. rewrite lookup_empty. by intros ?%elem_of_nil.
  - intros h' r _ Hr' m Hm. destruct (Hr' m Hm) as [He ?]. split; [|done]. intros sc. rewrite He.
    unfold links_at at 1. by rewrite lookup_empty.
Qed.

(** *** A constellation for the witnesses: gold is primary, silver and bronze
    are its targets, and silver has a standby link to bronze. *)

Definition demo_tenant (guid : string) (id : Z) : TenantInfo := mkTenant "default" guid id.
Definition demo_peer (name : string) : PeerModel := mkPeer 7 name ("peer-" +:+ name) "OK".

Definition demo_lookups : Lookups := {|
  lk_GetStorageClass := fun n => inr (mkSC n "csi.vastdata.com"
    {["csi.storage.k8s.io/provisioner-secret-name" := "s";
      "csi.storage.k8s.io/provisioner-secret-namespace" := "vast"; "root_export" := "/k8s";
      "view_policy" := "default"]} []);
  lk_GetSecret := fun n ns => inr (mkSecret (plain_meta ns n)
    {["endpoint" := "https://vms"; "username" := "u"; "password" := "p"]});
  lk_NewTypedVMSRest := fun _ => inr tt;
  lk_url_host := fun s => Some s;
  lk_ListPeers := fun _ names => inr (map demo_peer (default [] names));
  lk_TenantByName := fun sc n => inr (mkTenant n ("guid-" +:+ sc) 1);
  lk_TenantById := fun sc id => inr (mkTenant "default" ("guid-" +:+ sc) id);
  lk_ViewTenantId := fun _ _ => inr 1%Z;
  lk_ViewPolicy := fun _ _ => inr (3, 1)%Z;
  lk_ViewPath := fun _ n => inr ("/" +:+ n);
  lk_ListVolumes := fun _ _ _ => inr [];
  lk_ListViews := fun _ _ => inr []
|}.
Definition demo_errors : VastErrors := {|
  vast_IsNotFoundErr := fun e => match e with ErrRest c _ => bool_decide (c = 404)%Z | _ => false end;
  vast_ExpectStatusCodes := fun e codes => match e with ErrRest c _ => bool_decide (c ∈ codes) | _ => false end
|}.
Definition demo_show : ShowDuration := show_Z.
Definition demo_order : MapOrder := fun _ s => elements s.
#[local] Existing Instances demo_lookups demo_errors demo_show demo_order.

Definition demo_link (a b peer : string) : ReplicationLink :=
  mkLink ("own-" +:+ peer) 5 peer peer ("peer-" +:+ a) ("peer-" +:+ b)
    (mkLinkEdge (mkEdge a b peer) (demo_tenant ("guid-" +:+ a) 1) (demo_tenant ("guid-" +:+ b) 2)).

Definition demo_pairs : gmap string (list ReplicationLink) :=
  {["gold" := [demo_link "gold" "silver" "gs"; demo_link "gold" "bronze" "gb"];
    "silver" := [demo_link "silver" "bronze" "sb"]]}.

(** The clusters: whether the path exists, and the streams added, by
    cluster. *)
Definition demo_clusters (refuse : bool) (c : Call) (s : bool * list (string * string))
    : (bool * list (string * string)) * resp c :=
  match c return (bool * list (string * string)) * resp c with
  | Vms sc q =>
      match q return (bool * list (string * string)) * vms_resp q with
      | PpathGet n =>
          (s, if s.1 then inr (mkPpath 9 n true "ACTIVE" "" "Source" "/k8s"
                 (mkStream "first" streamStateActive ::
                  map (fun x => mkStream x.2 streamStateActive) (filter (fun x => x.1 = sc) s.2)) 1)
              else inl (ErrRest 404 "not found"))
      | PpathCreate _ => if refuse then (s, inl (ErrRest 400 "Path on peer exists")) else ((true, s.2), inr tt)
      | PpathAddStream _ p => ((s.1, s.2 ++ [(sc, sp_name p)]), inr tt)
      | FolderStatPath _ _ => (s, inr (mkFolderStat true 0))
      | PolicyExists _ => (s, inr true)
      | q => (s, vms_quiet q)
      end
  | c => (s, quiet c)
  end.

Definition demo_establish (owner : string) : Prog (string * option error) :=
  EnsureConstellationPpath {["gold"; "silver"; "bronze"]} demo_pairs "gold" owner
    {["gold" := "/k8s"; "silver" := "/k8s"; "bronze" := "/k8s"]} true.

Definition demo_establish_run (refuse : bool) (owner : string) :=
  exec (demo_clusters refuse) (demo_establish owner) (false, []).


Lemma peer_directory_deleted_only_when_empty_witness :
  let t := (demo_establish_run true "own").1.2 in
  t = take 3 t ++ Ev (Vms "silver" (FolderDelete "/k8s" 2)) (inr tt) :: [] ∧ refused_for (take 3 t) "/k8s".
Proof.
  intros t. assert (Ht : t = take 3 t ++ Ev (Vms "silver" (FolderDelete "/k8s" 2)) (inr tt) :: []).
  { vm_compute. reflexivity. }
  split; [exact Ht|].
  apply (peer_directory_deleted_only_when_empty {["gold"; "silver"; "bronze"]} demo_pairs "gold" "own"
           {["gold" := "/k8s"; "silver" := "/k8s"; "bronze" := "/k8s"]} true t (take 3 t) [] _
           "silver" "/k8s" 2 (inr tt)
           (exec_runs (demo_clusters true) (demo_establish "own") (false, [])) Ht).
Defined.


Definition long_owner : string := "replication-of-all-the-databases-of-the-department-in-the-cellar".

Lemma long_owner_single_stream_witness :
  let t := (demo_establish_run false long_owner).1.2 in
  let p := mkStreamParams long_owner "/k8s" 5 "guid-bronze" false in
  t = take 7 t ++ Ev (Vms "gold" (PpathAddStream 9 p)) (inr tt) :: drop 8 t ∧
  sp_name p = str (take 64 (chars long_owner)).
Proof.
  intros t p. assert (Ht : t = take 7 t ++ Ev (Vms "gold" (PpathAddStream 9 p)) (inr tt) :: drop 8 t).
  { vm_compute. reflexivity. }
  split; [exact Ht|].
  apply (long_owner_single_stream {["gold"; "silver"; "bronze"]} demo_pairs "gold" long_owner
           {["gold" := "/k8s"; "silver" := "/k8s"; "bronze" := "/k8s"]} true t (take 7 t) (drop 8 t)
           (demo_establish_run false long_owner).2 9 p (inr tt)).
  - vm_compute. lia.
  - exact (exec_runs (demo_clusters false) (demo_establish long_owner) (false, [])).
  - exact Ht.
Defined.

Definition demo_discover : Prog (result (gmap string (list ReplicationLink))) :=
  DiscoverLinkPolicies {["gold"; "silver"]} {["gold" := demo_tenant "g1" 1; "silver" := demo_tenant "g2" 2]}
    [mkEdge "gold" "silver" "gs"] (mkPolicyParams "own" []).

Lemma link_policies_discovered_witness :
  ∃ m, (exec (demo_clusters false) demo_discover (false, [])).2 = inr m ∧
    map edge_of (links_at m "gold") = [mkEdge "gold" "silver" "gs"].
Proof.
  destruct (exec (demo_clusters false) demo_discover (false, [])).2 as [e|m] eqn:He;
    [vm_compute in He; discriminate|].
  exists m. split; [reflexivity|].
  destruct (link_policies_discovered _ _ _ _ _ _ (exec_runs (demo_clusters false) demo_discover (false, [])))
    as [_ Hm].
  destruct (Hm m He) as [Hedges _]. rewrite Hedges. reflexivity.
Defined.
