(* ===== verification/ReplicationObjects.v ===== *)
(** * The controller of VolumeReplications and VolumeGroupReplications

    [internal/controller/replication_object_controller.go]: for every VR or
    VGR of a VVR or VSCR, one VastReplicationContent of the same name is
    created, kept in step with the object's PVCs and state, and deleted with
    it.  Requests for both kinds share one queue and are told apart by a
    prefix of the name.

    Events and log lines are left out.  The owner references are set by
    controller-runtime ([Builders.OwnerRefs]). *)

From S2P Require Import Prelude GoErrors Topology Kube Naming Peers Lookups Programs Api ContentController Client Builders Ppath.
From stdpp Require Import options.

Definition vrPrefix := "vr/".
Definition vgrPrefix := "vgr/".

(** ** Helpers *)

Definition syncVRCPVCs (v : VRC) (pvcs : list string) : VRC * bool :=
  if DisplayableList_Equal pvcs (vrc_PVCs (vrc_Spec v)) then (v, false)
  else (vrc_set_pvcs_state v pvcs (vrc_ReplicationState (vrc_Spec v)), true).

Definition syncVRCReplicationState (v : VRC) (state : string) : VRC * bool :=
  if bool_decide (state = "") || bool_decide (vrc_ReplicationState (vrc_Spec v) = state) then (v, false)
  else (vrc_set_pvcs_state v (vrc_PVCs (vrc_Spec v)) state, true).

Definition State_string (s : State) : string :=
  match s with PrimaryState => "Primary" | SecondaryState => "Secondary" | OtherState s => s end.

Definition currentStateStr (s : State) : string :=
  if bool_decide (State_string s = "Unknown") then "" else to_lower (State_string s).

Definition initialStateFromPrimary (current sourceSCName primarySCName : string) : string :=
  if bool_decide (current ≠ "") then current
  else if bool_decide (sourceSCName = primarySCName) then "primary" else "secondary".

Definition protectionPolicyNamesForVRC (ownerName primarySC : string) (topology : list ReplicationTarget)
    (scName : string) : result (list string) :=
  let names := default [] (ProtectionPolicyNamesByStorageClass ownerName primarySC topology !! scName) in
  if bool_decide (length names = 0) then
    Errorf ("no protection policies for StorageClass " +:+ quote scName +:+ " in topology of " +:+
            quote ownerName +:+ " (primary " +:+ quote primarySC +:+ ")")
  else inr names.

Definition buildContent (scName kind mirroredName mirroredNamespace : string) (pvcs : list string)
    (labels : gmap string string) : VRC :=
  mkVRC (mkMeta mirroredName mirroredNamespace "" labels ∅ [FinalizerReplicationContent] [] 0 false)
    (mkVRCSpec scName ProvisionerTypeFile kind false "" [] "" pvcs "") (mkVRCStatus false 0 "" []).

Section Reconciler.

Context {steps : RetrySteps} {lk : Lookups} {ve : VastErrors} {refs : OwnerRefs}.

Definition resolveSourcePPath (sourceSC : StorageClass) (ppathName : string) : Prog (result Ppath) :=
  match NewFromStorageClass sourceSC with
  | inl e => mret (inl (ErrWrap ("failed to build VAST REST client from StorageClass " +:+ sc_Name sourceSC +:+ ": ") e ""))
  | inr _ =>
      r ← call (Vms (sc_Name sourceSC) (PpathGet ppathName));
      mret (match r with
            | inl e =>
                if vast_IsNotFoundErr e then inl (NewRetryAfterError e Minute)
                else inl (ErrWrap ("failed to query protected path " +:+ quote ppathName +:+
                                   " on StorageClass " +:+ sc_Name sourceSC +:+ ": ") e "")
            | inr p => inr p
            end)
  end.

Definition handlePPathNetworkError (key : string * string) (e : error) : Prog (option error) :=
  if negb (IsNetworkError (Some e)) then mret None
  else d ← call (BackoffNext key); mret (Some (NewRetryAfterError e d)).

(** ** What both kinds do *)

(** A terminating VR or VGR takes its content with it. *)
Definition delete_content (what name ns : string) : Prog (option error) :=
  r ← GetVastReplicationContent name ns;
  match r with
  | inl e =>
      if IsNotFound (Some e) then mret None
      else mret (Some (ErrWrap ("get VRC for terminating " +:+ what +:+ " " +:+ ns +:+ "/" +:+ name +:+ ": ") e ""))
  | inr vrc =>
      if Deleting (vrc_Meta vrc) then mret None
      else
        err ← DeleteVastReplicationContent vrc;
        mret (wrap_opt ("delete VRC for terminating " +:+ what +:+ " " +:+ ns +:+ "/" +:+ name +:+ ": ") err)
  end.

(** Creation: all immutable fields are set here. *)
Definition create_content (key : string * string) (what ownerKind name ns : string) (owner : ObjectMeta)
    (syncPVCPV : bool) (sourceSC : StorageClass) (sourceSCName newState : string)
    (parentName primarySC ppathName : string) (topology : list ReplicationTarget)
    (pvcs : list string) (labels : gmap string string) : Prog (option error) :=
  let here := what +:+ " " +:+ ns +:+ "/" +:+ name in
  r ← resolveSourcePPath sourceSC ppathName;
  match r with
  | inl e =>
      retryErr ← handlePPathNetworkError key e;
      match retryErr with
      | Some e' => mret (Some e')
      | None => mret (Some (ErrWrap (here +:+ ": ") e ""))
      end
  | inr ppath =>
      match protectionPolicyNamesForVRC parentName primarySC topology sourceSCName with
      | inl e => mret (Some (ErrWrap (here +:+ ": ") e ""))
      | inr policyNames =>
          let built := buildContent sourceSCName ownerKind name ns pvcs labels in
          let vrc := mkVRC (vrc_Meta built)
            (mkVRCSpec sourceSCName
               (if IsBlockStorageClass sourceSC then ProvisionerTypeBlock else ProvisionerTypeFile)
               ownerKind syncPVCPV (pp_SourceDir ppath) policyNames (pp_Name ppath) pvcs
               (initialStateFromPrimary newState sourceSCName primarySC)) (vrc_Status built) in
          match SetOwnerReference ownerKind owner (vrc_Meta vrc) with
          | inl e => mret (Some (ErrWrap ("failed to set owner reference on VRC " +:+ name +:+ ": ") e ""))
          | inr ownerRefs =>
              err ← CreateVastReplicationContent
                      (set_meta kVRC vrc (set_owner_references (vrc_Meta vrc) ownerRefs));
              match err with
              | Some e => mret (Some (ErrWrap ("failed to create VRC for " +:+ here +:+ ": ") e ""))
              | None => call (BackoffReset key);; mret None
              end
          end
      end
  end.

Definition terminating (name ns : string) : error :=
  ErrWrap "" ErrVastReplicationContentTerminating (": " +:+ ns +:+ "/" +:+ name).

(** ** VolumeReplication *)

(** The two changes joined by [||]: the PVCs are only looked at when the state
    is up to date. *)
Definition sync_state_or_pvcs (v : VRC) (newState : string) (pvcs : list string) : VRC * bool :=
  let '(v1, changed) := syncVRCReplicationState v newState in
  if changed then (v1, true) else syncVRCPVCs v1 pvcs.

Definition reconcileVR (key : string * string) (name ns : string) : Prog (option error) :=
  r ← GetVolumeReplication name ns;
  match r with
  | inl e => if IsNotFound (Some e) then mret None else mret (Some e)
  | inr vr =>
      if Deleting (vr_Meta vr) then delete_content "VR" name ns
      else
        let pvcs := [vr_DataSource vr] in
        let newState := currentStateStr (vr_State vr) in
        let sourceSCName := map_get (Labels (vr_Meta vr)) LabelStorageClass in
        if bool_decide (sourceSCName = "") then
          mret (Some (ErrNew ("VolumeReplication " +:+ ns +:+ "/" +:+ name +:+ " is missing required label " +:+
                              quote LabelStorageClass)))
        else
          match lk_GetStorageClass sourceSCName with
          | inl e => mret (Some (ErrWrap ("failed to get StorageClass " +:+ sourceSCName +:+ ": ") e ""))
          | inr sourceSC =>
              let '(vvrName, vvrNS) :=
                ParentCRFromObject (vr_Meta vr) LabelSourceVVR LabelSourceVVRNamespace "VastVolumeReplication" in
              if bool_decide (vvrName = "") then
                mret (Some (ErrNew ("VolumeReplication " +:+ ns +:+ "/" +:+ name +:+
                                    " has no VastVolumeReplication owner")))
              else
                r ← GetVastVolumeReplication vvrName vvrNS;
                match r with
                | inl e => mret (Some (ErrWrap ("failed to get VastVolumeReplication " +:+ vvrNS +:+ "/" +:+ vvrName +:+ ": ") e ""))
                | inr vvr =>
                    let labels := <[LabelManagedBy := LabelManagedByValue]>
                      (<[LabelSourceVVR := Name (vvr_Meta vvr)]>
                        {[LabelSourceVVRNamespace := Namespace (vvr_Meta vvr)]}) in
                    r ← GetVastReplicationContent name ns;
                    match r with
                    | inl e =>
                        if negb (IsNotFound (Some e)) then
                          mret (Some (ErrWrap ("failed to get VRC for VR " +:+ ns +:+ "/" +:+ name +:+ ": ") e ""))
                        else
                          create_content key "VR" DestinationKindVolumeReplication name ns (vr_Meta vr)
                            true sourceSC sourceSCName newState (Name (vvr_Meta vvr))
                            (vvr_PrimaryStorageClass (vvr_Spec vvr)) (PpathName (vvr_Status vvr))
                            (vvr_ProtectionTopology (vvr_Spec vvr)) pvcs labels
                    | inr existing =>
                        if Deleting (vrc_Meta existing) then mret (Some (terminating name ns))
                        else
                          let '(v, changed) := sync_state_or_pvcs existing newState pvcs in
                          err ← if changed then (r ← PatchVastReplicationContentSpec v; mret r.2) else mret None;
                          match err with
                          | Some e => mret (Some (ErrWrap ("failed to patch VRC for VR " +:+ ns +:+ "/" +:+ name +:+ ": ") e ""))
                          | None => call (BackoffReset key);; mret None
                          end
                    end
                end
          end
  end.

(** ** VolumeGroupReplication *)

(** [err] is what patching the content returned; the secondaries are touched
    when the primary's PVC list changed. *)
Definition after_vgr_patch (key : string * string) (name ns sourceSCName : string) (vscr : VSCR)
    (pvcChanged : bool) (err : option error) : Prog (option error) :=
  match err with
  | Some e => mret (Some (ErrWrap ("failed to patch VRC for VGR " +:+ ns +:+ "/" +:+ name +:+ ": ") e ""))
  | None =>
      err ← if pvcChanged && bool_decide (sourceSCName = vscr_PrimaryStorageClass (vscr_Spec vscr))
            then (r ← TouchSecondaryVRCs vscr; mret r.2) else mret None;
      match err with
      | Some e => mret (Some (ErrWrap ("touch secondary VRCs after primary PVC list change on VGR " +:+
                                       ns +:+ "/" +:+ name +:+ ": ") e ""))
      | None => call (BackoffReset key);; mret None
      end
  end.

Definition reconcileVGR (key : string * string) (name ns : string) : Prog (option error) :=
  r ← GetVolumeGroupReplication name ns;
  match r with
  | inl e => if IsNotFound (Some e) then mret None else mret (Some e)
  | inr vgr =>
      if Deleting (vgr_Meta vgr) then delete_content "VGR" name ns
      else
        let '(vscrName, vscrNS) :=
          ParentCRFromObject (vgr_Meta vgr) LabelSourceVSCR LabelSourceVSCRNamespace "VastStorageClassReplication" in
        if bool_decide (vscrName = "") then
          mret (Some (ErrNew ("VolumeGroupReplication " +:+ ns +:+ "/" +:+ name +:+
                              " has no VastStorageClassReplication owner")))
        else
          r ← GetVastStorageClassReplication vscrName vscrNS;
          match r with
          | inl e => mret (Some (ErrWrap ("failed to get VastStorageClassReplication " +:+ vscrNS +:+ "/" +:+ vscrName +:+ ": ") e ""))
          | inr vscr =>
              let sourceSCName := map_get (default ∅ (vgr_Selector vgr)) LabelStorageClass in
              if bool_decide (sourceSCName = "") then
                mret (Some (ErrNew ("VolumeGroupReplication " +:+ ns +:+ "/" +:+ name +:+
                                    " is missing required label selector " +:+ quote LabelStorageClass)))
              else
                let pvcs := sort_strings (vgr_PVCs vgr) in
                let newState := currentStateStr (vgr_State vgr) in
                match lk_GetStorageClass sourceSCName with
                | inl e => mret (Some (ErrWrap ("failed to get StorageClass " +:+ sourceSCName +:+ ": ") e ""))
                | inr sourceSC =>
                    let labels := <[LabelManagedBy := LabelManagedByValue]>
                      (<[LabelSourceVSCR := Name (vscr_Meta vscr)]>
                        {[LabelSourceVSCRNamespace := Namespace (vscr_Meta vscr)]}) in
                    r ← GetVastReplicationContent name ns;
                    match r with
                    | inl e =>
                        if negb (IsNotFound (Some e)) then
                          mret (Some (ErrWrap ("failed to get VRC for VGR " +:+ ns +:+ "/" +:+ name +:+ ": ") e ""))
                        else
                          create_content key "VGR" DestinationKindVolumeGroupReplication name ns (vgr_Meta vgr)
                            (vscr_SyncPVCPV (vscr_Spec vscr)) sourceSC sourceSCName newState (Name (vscr_Meta vscr))
                            (vscr_PrimaryStorageClass (vscr_Spec vscr)) (PpathName (vscr_Status vscr))
                            (vscr_ProtectionTopology (vscr_Spec vscr)) pvcs labels
                    | inr existing =>
                        if Deleting (vrc_Meta existing) then mret (Some (terminating name ns))
                        else
                          let '(v1, pvcChanged) := syncVRCPVCs existing pvcs in
                          let '(v2, stateChanged) := syncVRCReplicationState v1 newState in
                          err ← if stateChanged || pvcChanged
                                then (r ← PatchVastReplicationContentSpec v2; mret r.2) else mret None;
                          after_vgr_patch key name ns sourceSCName vscr pvcChanged err
                    end
                end
          end
  end.

(** ** Routing *)

(** [req] is the request, (namespace, prefixed name). *)
Definition Reconcile (req : string * string) : Prog (Result * option error) :=
  let '(ns, name) := req in
  if has_prefix name vrPrefix then
    err ← reconcileVR req (trim_prefix name vrPrefix) ns;
    maybeBackoffRetry req err
  else if has_prefix name vgrPrefix then
    err ← reconcileVGR req (trim_prefix name vgrPrefix) ns;
    maybeBackoffRetry req err
  else mret (mkResult 0, None).

End Reconciler.

(** The requests the two watches enqueue for an object. *)
Definition enqueueVR (m : ObjectMeta) : list (string * string) := [(Namespace m, vrPrefix +:+ Name m)].
Definition enqueueVGR (m : ObjectMeta) : list (string * string) := [(Namespace m, vgrPrefix +:+ Name m)].

(** ** What a run may do *)

(** The state a content starts in: that of its object, and without one the
    role of its class. *)
Definition starts_in (current sc primary state : string) : Prop :=
  (current ≠ "" → state = current) ∧
  (current = "" → sc = primary → state = "primary") ∧
  (current = "" → sc ≠ primary → state = "secondary").

Lemma initialStateFromPrimary_spec current sc primary :
  starts_in current sc primary (initialStateFromPrimary current sc primary).
Proof. unfold starts_in, initialStateFromPrimary. by repeat case_bool_decide. Qed.

(** Reads of the object the request names. *)
Definition vr_read (t : Trace) (name ns : string) (deleting : bool) (vr : VolumeReplication) : Prop :=
  Ev (Get kVR name ns) (inr vr) ∈ t ∧ Deleting (vr_Meta vr) = deleting.
Definition vgr_read (t : Trace) (name ns : string) (deleting : bool) (vgr : VolumeGroupReplication) : Prop :=
  Ev (Get kVGR name ns) (inr vgr) ∈ t ∧ Deleting (vgr_Meta vgr) = deleting.
Definition content_read (t : Trace) (name ns : string) (v : VRC) : Prop :=
  Ev (Get kVRC name ns) (inr v) ∈ t ∧ Deleting (vrc_Meta v) = false.

(** The parent with its primary and topology, and the PVCs and the state of the
    object a content is created from. *)
Inductive origin (t : Trace) (name ns : string) :
    string → string → gmap string string → string → string → list ReplicationTarget → list string → string →
    Prop :=
| origin_vr vr vvr pn pns :
    vr_read t name ns false vr → @Ev Call resp (Get kVVR pn pns) (inr vvr) ∈ t →
    origin t name ns DestinationKindVolumeReplication (map_get (Labels (vr_Meta vr)) LabelStorageClass)
      (<[LabelManagedBy := LabelManagedByValue]> (<[LabelSourceVVR := Name (vvr_Meta vvr)]>
         {[LabelSourceVVRNamespace := Namespace (vvr_Meta vvr)]}))
      (Name (vvr_Meta vvr)) (vvr_PrimaryStorageClass (vvr_Spec vvr)) (vvr_ProtectionTopology (vvr_Spec vvr))
      [vr_DataSource vr] (currentStateStr (vr_State vr))
| origin_vgr vgr vscr pn pns :
    vgr_read t name ns false vgr → @Ev Call resp (Get kVSCR pn pns) (inr vscr) ∈ t →
    origin t name ns DestinationKindVolumeGroupReplication
      (map_get (default ∅ (vgr_Selector vgr)) LabelStorageClass)
      (<[LabelManagedBy := LabelManagedByValue]> (<[LabelSourceVSCR := Name (vscr_Meta vscr)]>
         {[LabelSourceVSCRNamespace := Namespace (vscr_Meta vscr)]}))
      (Name (vscr_Meta vscr)) (vscr_PrimaryStorageClass (vscr_Spec vscr))
      (vscr_ProtectionTopology (vscr_Spec vscr)) (sort_strings (vgr_PVCs vgr)) (currentStateStr (vgr_State vgr)).

(** A complete content: everything a later cleanup needs is in its spec, and
    the finalizer that guards it is there from the start. *)
Definition complete_content (t : Trace) (name ns : string) (w : VRC) : Prop :=
  Name (vrc_Meta w) = name ∧ Namespace (vrc_Meta w) = ns ∧
  Finalizers (vrc_Meta w) = [FinalizerReplicationContent] ∧
  (∃ e, Ev (Get kVRC name ns) (inl e) ∈ t ∧ IsNotFound (Some e) = true) ∧
  (∃ sc ppathName p, Ev (Vms sc (PpathGet ppathName)) (inr p) ∈ t ∧
     vrc_ProtectedPathName (vrc_Spec w) = pp_Name p ∧ vrc_ReplicationPath (vrc_Spec w) = pp_SourceDir p) ∧
  ∃ parent primary topology state,
    origin t name ns (vrc_Kind (vrc_Spec w)) (vrc_StorageClass (vrc_Spec w)) (Labels (vrc_Meta w)) parent
      primary topology (vrc_PVCs (vrc_Spec w)) state ∧
    starts_in state (vrc_StorageClass (vrc_Spec w)) primary (vrc_ReplicationState (vrc_Spec w)) ∧
    vrc_ProtectionPolicyNames (vrc_Spec w) ≠ [] ∧
    ProtectionPolicyNamesByStorageClass parent primary topology !! vrc_StorageClass (vrc_Spec w)
      = Some (vrc_ProtectionPolicyNames (vrc_Spec w)).

(** What a patch of the content carries, relative to the content read. *)
Definition vgr_patch (t : Trace) (name ns : string) (b o : VRC) : Prop :=
  ∃ vgr v, vgr_read t name ns false vgr ∧ content_read t name ns v ∧
    let pvcs := sort_strings (vgr_PVCs vgr) in
    let state := if bool_decide (currentStateStr (vgr_State vgr) = "")
                 then vrc_ReplicationState (vrc_Spec v) else currentStateStr (vgr_State vgr) in
    o = vrc_set_pvcs_state b pvcs state ∧
    (pvcs ≠ vrc_PVCs (vrc_Spec v) ∨ state ≠ vrc_ReplicationState (vrc_Spec v)).
Definition vr_patch (t : Trace) (name ns : string) (b o : VRC) : Prop :=
  ∃ vr v, vr_read t name ns false vr ∧ content_read t name ns v ∧
    let state := currentStateStr (vr_State vr) in
    (state ≠ "" ∧ state ≠ vrc_ReplicationState (vrc_Spec v) ∧
     o = vrc_set_pvcs_state b (vrc_PVCs (vrc_Spec v)) state) ∨
    ((state = "" ∨ state = vrc_ReplicationState (vrc_Spec v)) ∧ [vr_DataSource vr] ≠ vrc_PVCs (vrc_Spec v) ∧
     o = vrc_set_pvcs_state b [vr_DataSource vr] (vrc_ReplicationState (vrc_Spec v))).
(** Touching a secondary after the primary's PVC list changed. *)
Definition mirror_touch (t : Trace) (name ns : string) (b o : VRC) : Prop :=
  (∃ ts, o = set_meta kVRC b (SetAnnotation (vrc_Meta b) AnnotationMirrorSyncRequestedAt ts)) ∧
  ∃ vgr v, vgr_read t name ns false vgr ∧ content_read t name ns v ∧
    sort_strings (vgr_PVCs vgr) ≠ vrc_PVCs (vrc_Spec v).

Definition object_allowed (name ns : string) (t : Trace) (c : Call) : Prop :=
  match c with
  | Create kVRC w => complete_content t name ns w
  | Delete kVRC v =>
      content_read t name ns v ∧ ((∃ vr, vr_read t name ns true vr) ∨ ∃ vgr, vgr_read t name ns true vgr)
  | Patch kVRC b o => vgr_patch t name ns b o ∨ vr_patch t name ns b o ∨ mirror_touch t name ns b o
  | Create _ _ | Update _ _ | UpdateStatus _ _ | Patch _ _ _ | Delete _ _ => False
  | Vms _ (PpathGet _) => True
  | Vms _ _ => False
  | _ => True
  end.

Section Runs.

Context {steps : RetrySteps} {lk : Lookups} {ve : VastErrors} {refs : OwnerRefs}.
Context (key : string * string) (name ns : string).

Notation W := (wp (object_allowed name ns)).

Lemma elem_of_prefix {A} (x : A) l l' : l `prefix_of` l' → x ∈ l → x ∈ l'.
Proof. intros [k ->]. set_solver. Qed.

Lemma vr_read_mono t t' d vr : t `prefix_of` t' → vr_read t name ns d vr → vr_read t' name ns d vr.
Proof. intros Ht [? ?]. split; [by eapply elem_of_prefix|done]. Qed.
Lemma vgr_read_mono t t' d vgr : t `prefix_of` t' → vgr_read t name ns d vgr → vgr_read t' name ns d vgr.
Proof. intros Ht [? ?]. split; [by eapply elem_of_prefix|done]. Qed.
Lemma content_read_mono t t' v : t `prefix_of` t' → content_read t name ns v → content_read t' name ns v.
Proof. intros Ht [? ?]. split; [by eapply elem_of_prefix|done]. Qed.
Lemma origin_mono t t' k sc l p pr topo pvcs st :
  t `prefix_of` t' → origin t name ns k sc l p pr topo pvcs st → origin t' name ns k sc l p pr topo pvcs st.
Proof.
  intros Ht [vr vvr pn pns Hr Hp|vgr vscr pn pns Hr Hp]; [eapply origin_vr|eapply origin_vgr];
    by eauto using vr_read_mono, vgr_read_mono, elem_of_prefix.
Qed.

Lemma wp_maybeBackoffRetry' err h : W (maybeBackoffRetry key err) h (fun _ _ => True).
Proof.
  unfold maybeBackoffRetry. case_match; [done|]. destruct err; [|done]. apply wp_bind_call; [done|]. done.
Qed.

Lemma wp_delete_content what h :
  ((∃ vr, vr_read h name ns true vr) ∨ ∃ vgr, vgr_read h name ns true vgr) →
  W (delete_content what name ns) h (fun _ _ => True).
Proof.
  intros Hdel. unfold delete_content. apply wp_bind_call; [done|]. intros [e|v]; [by case_match|].
  destruct (Deleting (vrc_Meta v)) eqn:Hv; [done|]. apply wp_bind. unfold DeleteVastReplicationContent.
  apply wp_bind_call; [|by intros r; repeat case_match].
  cbn [object_allowed]. split; [split; [apply in_snoc|done]|].
  destruct Hdel as [[vr ?]|[vgr ?]]; [left; exists vr; eapply vr_read_mono|right; exists vgr; eapply vgr_read_mono];
    by try apply prefix_app_r.
Qed.

Lemma wp_create_content what kind owner sync sc scName newState parent primary ppn topo pvcs labels h :
  (∃ e, Ev (Get kVRC name ns) (inl e) ∈ h ∧ IsNotFound (Some e) = true) →
  origin h name ns kind scName labels parent primary topo pvcs newState →
  W (create_content key what kind name ns owner sync sc scName newState parent primary ppn topo pvcs labels)
    h (fun _ _ => True).
Proof.
  intros Hnf Ho. unfold create_content, resolveSourcePPath.
  assert (Hnet : ∀ e h', W (handlePPathNetworkError key e) h' (fun _ _ => True)).
  { intros e h'. unfold handlePPathNetworkError. case_match; [done|]. by apply wp_bind_call. }
  destruct (NewFromStorageClass sc) as [e|[]].
  { apply wp_bind, wp_ret, wp_bind. eapply wp_post; [apply Hnet|]. by intros h' [] _. }
  apply wp_bind, wp_bind_call; [done|]. intros r. apply wp_ret. set (h1 := h ++ _).
  destruct r as [e|p].
  { destruct (vast_IsNotFoundErr e); apply wp_bind; (eapply wp_post; [apply Hnet|]); by intros h' [] _. }
  unfold protectionPolicyNamesForVRC.
  destruct (ProtectionPolicyNamesByStorageClass parent primary topo !! scName) as [names|] eqn:Hn; [|done].
  change (default [] (Some names)) with names. case_bool_decide as Hlen; [done|]. case_match; [done|]. unfold CreateVastReplicationContent.
  apply wp_bind, wp_bind_call; [|by intros [e|o]; [|apply wp_bind_call; [done|]; intros []]].
  assert (Hh1 : h `prefix_of` h1) by (by apply prefix_app_r).
  cbn [object_allowed]. unfold complete_content. cbn. split_and!; try done.
  - destruct Hnf as (e & ? & ?). exists e. split; [by eapply elem_of_prefix|done].
  - exists (sc_Name sc), ppn, p. split; [apply in_snoc|done].
  - exists parent, primary, topo, newState.
    split_and!; [by eapply origin_mono|apply initialStateFromPrimary_spec|by destruct names|done].
Qed.

Lemma wp_PatchSpec v h :
  (∀ h' b, h `prefix_of` h' →
     object_allowed name ns h' (Patch kVRC b
       (vrc_set_pvcs_state b (vrc_PVCs (vrc_Spec v)) (vrc_ReplicationState (vrc_Spec v))))) →
  W (r ← PatchVastReplicationContentSpec v; mret r.2) h (fun h' _ => h `prefix_of` h').
Proof.
  intros HP. apply wp_bind. unfold PatchVastReplicationContentSpec, PatchWithRetry.
  apply wp_bind, wp_bind, (wp_PatchWithRetry_capturing _ kVRC).
  - intros h' c Hh [->|[b ->]]; [done|by apply HP].
  - intros h' o' x' e Hh. exact Hh.
  - intros h' b o' Hh _. exact Hh.
Qed.

Lemma wp_reconcileVR h : W (reconcileVR key name ns) h (fun _ _ => True).
Proof.
  unfold reconcileVR, GetVolumeReplication. apply wp_bind_call; [done|]. intros [e|vr]; [by case_match|].
  set (h1 := h ++ _). assert (Hvr : Ev (Get kVR name ns) (inr vr) ∈ h1) by apply in_snoc.
  destruct (Deleting (vr_Meta vr)) eqn:Hd; [apply wp_delete_content; left; by exists vr|].
  case_bool_decide; [done|]. destruct (lk_GetStorageClass _) as [|sc]; [done|].
  destruct (ParentCRFromObject _ _ _ _) as [pn pns]. case_bool_decide; [done|].
  unfold GetVastVolumeReplication. apply wp_bind, wp_bind_call; [done|]. intros [e|vvr]; [done|]. apply wp_ret.
  set (h2 := h1 ++ _). apply wp_bind_call; [done|]. intros r. set (h3 := h2 ++ _).
  assert (Hr3 : vr_read h3 name ns false vr).
  { split; [|done]. unfold h3, h2. set_solver. }
  destruct r as [e|v].
  - destruct (IsNotFound (Some e)) eqn:He; [|done]. apply wp_create_content.
    + exists e. split; [apply in_snoc|done].
    + apply (origin_vr _ _ _ vr vvr pn pns); [done|]. unfold h3, h2. set_solver.
  - destruct (Deleting (vrc_Meta v)) eqn:Hdv; [done|].
    assert (Hc3 : content_read h3 name ns v) by (split; [apply in_snoc|done]).
    assert (Hpatch : ∀ v', vr_patch h3 name ns v v' → vrc_Meta v' = vrc_Meta v → 
      W (r ← PatchVastReplicationContentSpec v'; mret r.2) h3 (fun h' _ => h3 `prefix_of` h')).
    { intros v' (vr' & w & Hvr' & Hw & Hp) _. apply wp_PatchSpec. intros h' b Hh. right. left. exists vr', w.
      split_and!; [by eapply vr_read_mono|by eapply content_read_mono|].
      destruct Hp as [(? & ? & ->)|(? & ? & ->)]; [left|right]; done. }
    unfold sync_state_or_pvcs, syncVRCReplicationState.
    destruct (bool_decide (currentStateStr (vr_State vr) = "") || _) eqn:Hst.
    + apply orb_true_iff in Hst. rewrite !bool_decide_eq_true in Hst. unfold syncVRCPVCs.
      destruct (DisplayableList_Equal _ _) eqn:Heq; [by apply wp_bind, wp_ret, wp_bind_call; [|intros []]|].
      apply wp_bind. eapply wp_post; [apply Hpatch; [|done]|].
      * exists vr, v. split_and!; [done..|]. right. split_and!; [by destruct Hst; auto| |done].
        rewrite <-DisplayableList_Equal_spec. congruence.
      * intros h' [e|] _; [done|]. by apply wp_bind_call; [|intros []].
    + apply orb_false_iff in Hst as [?%bool_decide_eq_false ?%bool_decide_eq_false].
      apply wp_bind. eapply wp_post; [apply Hpatch; [|done]|].
      * exists vr, v. split_and!; [done..|]. left. split_and!; [done|congruence|done].
      * intros h' [e|] _; [done|]. by apply wp_bind_call; [|intros []].
Qed.

Lemma wp_touch_loop ts vscr scs touched h (Q : Trace → list string * option error → Prop) :
  (∀ h' b, h `prefix_of` h' →
     object_allowed name ns h' (Patch kVRC b
       (set_meta kVRC b (SetAnnotation (vrc_Meta b) AnnotationMirrorSyncRequestedAt ts)))) →
  (∀ h' r, h `prefix_of` h' → Q h' r) →
  W (touch_loop ts vscr scs AnnotationMirrorSyncRequestedAt touched) h Q.
Proof.
  revert touched h. induction scs as [|sc scs IH]; intros touched h HP HQ; cbn [touch_loop]; [by apply HQ|].
  assert (IH' : ∀ touched h', h `prefix_of` h' → W (touch_loop ts vscr scs AnnotationMirrorSyncRequestedAt touched) h' Q).
  { intros touched' h' Hh. apply IH; intros; [apply HP|apply HQ]; by etrans. }
  unfold GetVastReplicationContent. apply wp_bind_call; [done|]. intros [e|v].
  { case_match; [apply IH'|apply wp_ret, HQ]; by apply prefix_app_r. }
  apply wp_bind. unfold SetAnnotationAndUpdate, PatchWithRetry.
  apply wp_bind, wp_bind, (wp_PatchWithRetry_capturing _ kVRC).
  - intros h' c Hh [->|[b ->]]; [done|]. apply HP. etrans; [|exact Hh]. by apply prefix_app_r.
  - intros h' o' x' e Hh. apply wp_ret, wp_ret, wp_ret, HQ. etrans; [|exact Hh]. by apply prefix_app_r.
  - intros h' b o' Hh _. apply wp_ret, wp_ret, IH'. etrans; [|exact Hh]. by apply prefix_app_r.
Qed.

Lemma wp_after_vgr_patch scName vscr pvcChanged err h :
  (∀ h' b ts, h `prefix_of` h' → pvcChanged = true →
     object_allowed name ns h' (Patch kVRC b
       (set_meta kVRC b (SetAnnotation (vrc_Meta b) AnnotationMirrorSyncRequestedAt ts)))) →
  W (after_vgr_patch key name ns scName vscr pvcChanged err) h (fun _ _ => True).
Proof.
  intros HP. unfold after_vgr_patch. destruct err as [e|]; [done|]. apply wp_bind.
  assert (Hend : ∀ h' e, W (match e with
      | Some e => mret (Some (ErrWrap ("touch secondary VRCs after primary PVC list change on VGR " +:+
                                       ns +:+ "/" +:+ name +:+ ": ") e ""))
      | None => call (BackoffReset key);; mret None
      end) h' (fun _ _ => True)).
  { intros h' [e|]; [done|]. by apply wp_bind_call; [|intros []]. }
  destruct pvcChanged; [|exact (Hend h None)]. cbn [andb]. case_bool_decide; [|exact (Hend h None)].
  unfold TouchSecondaryVRCs, touchVRCsForStorageClasses. apply wp_bind, wp_bind_call; [done|]. intros ts.
  apply wp_touch_loop.
  - intros h' b Hh. apply HP; [|done]. etrans; [|exact Hh]. by apply prefix_app_r.
  - intros h' r _. exact (Hend h' r.2).
Qed.

(** The two syncs of the VGR branch in one. *)
Lemma vgr_syncs v pvcs state v1 c1 v2 c2 :
  syncVRCPVCs v pvcs = (v1, c1) → syncVRCReplicationState v1 state = (v2, c2) →
  let state' := if bool_decide (state = "") then vrc_ReplicationState (vrc_Spec v) else state in
  vrc_PVCs (vrc_Spec v2) = pvcs ∧ vrc_ReplicationState (vrc_Spec v2) = state' ∧
  (c1 = true → pvcs ≠ vrc_PVCs (vrc_Spec v)) ∧
  (c2 || c1 = true → pvcs ≠ vrc_PVCs (vrc_Spec v) ∨ state' ≠ vrc_ReplicationState (vrc_Spec v)).
Proof.
  unfold syncVRCPVCs, syncVRCReplicationState.
  destruct (DisplayableList_Equal pvcs (vrc_PVCs (vrc_Spec v))) eqn:Heq.
  - apply DisplayableList_Equal_spec in Heq. intros [= <- <-].
    destruct (bool_decide (state = "") || _) eqn:Hs; intros [= <- <-].
    + apply orb_true_iff in Hs. rewrite !bool_decide_eq_true in Hs. case_bool_decide; naive_solver.
    + apply orb_false_iff in Hs as [Hs1%bool_decide_eq_false Hs2%bool_decide_eq_false].
      rewrite bool_decide_false by done. simpl. naive_solver.
  - assert (pvcs ≠ vrc_PVCs (vrc_Spec v)) by (rewrite <-DisplayableList_Equal_spec; congruence).
    intros [= <- <-]. simpl.
    destruct (bool_decide (state = "") || _) eqn:Hs; intros [= <- <-].
    + apply orb_true_iff in Hs. rewrite !bool_decide_eq_true in Hs. case_bool_decide; naive_solver.
    + apply orb_false_iff in Hs as [Hs1%bool_decide_eq_false Hs2%bool_decide_eq_false].
      rewrite bool_decide_false by done. naive_solver.
Qed.

Lemma wp_reconcileVGR h : W (reconcileVGR key name ns) h (fun _ _ => True).
Proof.
  unfold reconcileVGR, GetVolumeGroupReplication. apply wp_bind_call; [done|].
  intros [e|vgr]; [by case_match|]. set (h1 := h ++ _).
  assert (Hvgr : Ev (Get kVGR name ns) (inr vgr) ∈ h1) by apply in_snoc.
  destruct (Deleting (vgr_Meta vgr)) eqn:Hd; [apply wp_delete_content; right; by exists vgr|].
  destruct (ParentCRFromObject _ _ _ _) as [pn pns]. case_bool_decide; [done|].
  unfold GetVastStorageClassReplication. apply wp_bind, wp_bind_call; [done|]. intros [e|vscr]; [done|]. apply wp_ret.
  case_bool_decide; [done|]. destruct (lk_GetStorageClass _) as [|sc]; [done|].
  set (h2 := h1 ++ _). apply wp_bind_call; [done|]. intros r. set (h3 := h2 ++ _).
  assert (Hr3 : vgr_read h3 name ns false vgr).
  { split; [|done]. unfold h3, h2. set_solver. }
  destruct r as [e|v].
  - destruct (IsNotFound (Some e)) eqn:He; [|done]. apply wp_create_content.
    + exists e. split; [apply in_snoc|done].
    + apply (origin_vgr _ _ _ vgr vscr pn pns); [done|]. unfold h3, h2. set_solver.
  - destruct (Deleting (vrc_Meta v)) eqn:Hdv; [done|].
    assert (Hc3 : content_read h3 name ns v) by (split; [apply in_snoc|done]).
    destruct (syncVRCPVCs v _) as [v1 c1] eqn:H1. destruct (syncVRCReplicationState v1 _) as [v2 c2] eqn:H2.
    destruct (vgr_syncs _ _ _ _ _ _ _ H1 H2) as (Hp & Hs & Hc1 & Hc).
    assert (Hafter : ∀ h' err, h3 `prefix_of` h' →
      W (after_vgr_patch key name ns (map_get (default ∅ (vgr_Selector vgr)) LabelStorageClass) vscr c1 err) h'
        (fun _ _ => True)).
    { intros h' err Hh. apply wp_after_vgr_patch. intros h4 b ts Hh4 Hc1'. right. right. split; [by exists ts|].
      exists vgr, v. split_and!; [eapply vgr_read_mono; [|done]; by etrans| |by apply Hc1].
      eapply content_read_mono; [|done]. by etrans. }
    apply wp_bind. destruct (c2 || c1) eqn:Hc'; [|by apply wp_ret, Hafter].
    eapply wp_post; [apply wp_PatchSpec|intros h' err Hh; by apply Hafter].
    intros h' b Hh. left. exists vgr, v.
    split_and!; [by eapply vgr_read_mono|by eapply content_read_mono|]. rewrite Hp, Hs. auto.
Qed.

End Runs.

(** The object a request names. *)
Definition requested (req : string * string) : string * string :=
  (if has_prefix req.2 vrPrefix then trim_prefix req.2 vrPrefix else trim_prefix req.2 vgrPrefix, req.1).

Lemma runs_object_allowed `{RetrySteps, Lookups, VastErrors, OwnerRefs} req t a t1 c r t2 :
  runs (Reconcile req) t a → t = t1 ++ Ev c r :: t2 →
  object_allowed (requested req).1 (requested req).2 t1 c.
Proof.
  intros Hr Ht.
  assert (Hw : wp (object_allowed (requested req).1 (requested req).2) (Reconcile req) [] (fun _ _ => True)).
  { unfold Reconcile, requested. destruct req as [ns name]. cbn [fst snd].
    destruct (has_prefix name vrPrefix); [|destruct (has_prefix name vgrPrefix); [|done]];
      (apply wp_bind; eapply wp_post; [apply wp_reconcileVR || apply wp_reconcileVGR|]);
      intros h err _; apply wp_maybeBackoffRetry'. }
  destruct (wp_sound _ _ [] _ _ _ Hw Hr) as [_ HG]. by eapply HG.
Qed.

(** ** Properties *)


(** A content follows its VR or VGR exactly: it is only deleted when the
    object was read as terminating and the content was not terminating, and it
    is only patched when the content that was read differs from the object;
    the patch then sets PVCs and state to those of the object, an unknown
    state leaving the old one in place, and changes nothing else.  The only
    other patch is the timestamp on contents of the constellation after the
    PVC list of a VGR changed. *)
Theorem contents_follow_objects `{RetrySteps, Lookups, VastErrors, OwnerRefs} (req : string * string)
    (t : Trace) (a : Result * option error) :
  runs (Reconcile req) t a →
  let '(name, ns) := requested req in
  (∀ t1 v r t2, t = t1 ++ Ev (Delete kVRC v) r :: t2 →
     content_read t1 name ns v ∧ ((∃ vr, vr_read t1 name ns true vr) ∨ ∃ vgr, vgr_read t1 name ns true vgr)) ∧
  (∀ t1 b o r t2, t = t1 ++ Ev (Patch kVRC b o) r :: t2 →
     vgr_patch t1 name ns b o ∨ vr_patch t1 name ns b o ∨ mirror_touch t1 name ns b o).
Proof.
  intros Hr. destruct (requested req) as [name ns] eqn:Hreq. split.
  - intros t1 v r t2 Ht. pose proof (runs_object_allowed req t a t1 (Delete kVRC v) r t2 Hr Ht) as Hg.
    by rewrite Hreq in Hg.
  - intros t1 b o r t2 Ht. pose proof (runs_object_allowed req t a t1 (Patch kVRC b o) r t2 Hr Ht) as Hg.
    by rewrite Hreq in Hg.
Qed.

(** *** Witnesses *)

Definition demo_refs : OwnerRefs := {|
  SetOwnerReference := fun k o m => inr (mkOwnerRef "v1" k (Name o) (UID o) None None :: OwnerReferences m);
  SetControllerReference := fun k o m => inr (mkOwnerRef "v1" k (Name o) (UID o) (Some true) (Some true) :: OwnerReferences m)
|}.

#[local] Existing Instances demo_lookups demo_errors demo_refs.

Definition demo_owner : VSCR :=
  mkVSCR (mkMeta "a" "apps" "u2" ∅ ∅ [] [] 1 false)
    (mkVSCRSpec "gold" [mkTarget "gold" "silver" "gs" ""] (mkTemplate []) FailoverTypeUngraceful false 0 false true
       DestVolReclaimPolicyRetain "") (mkStatus FailoverTypeUnset "gold" "" ∅ ∅ "a" "").
Definition demo_group (deleting : bool) : VolumeGroupReplication :=
  mkVGR (mkMeta "a-gold" "apps" "u3" {[LabelSourceVSCR := "a"]} ∅ [] [] 1 deleting) Primary "" "c" "c" true
    (Some {[LabelStorageClass := "gold"]}) PrimaryState ["b"; "a"].

(** [existing]: the content in the API server. *)
Definition demo_objects (deleting : bool) (existing : option VRC) (c : Call) (s : unit) : unit * resp c :=
  (s,
   match c return resp c with
   | Get k n ns =>
       match k return result (kobj k) with
       | kVGR => inr (demo_group deleting)
       | kVSCR => inr demo_owner
       | kVRC => match existing with
                 | Some v => inr v
                 | None => inl (ErrStatus ReasonNotFound "not found")
                 end
       | _ => inl (ErrStatus ReasonNotFound "not found")
       end
   | Vms _ q => match q return vms_resp q with
                | PpathGet n => inr (mkPpath 9 n true "ACTIVE" "" "Source" "/k8s" [] 1)
                | q => vms_quiet q
                end
   | c => quiet c
   end).


Lemma contents_follow_objects_witness :
  let v := demo_content false ["data"] in
  let t := (exec (demo_objects true (Some v)) (@Reconcile 4 _ _ _ ("apps", "vgr/a-gold")) tt).1.2 in
  t = take 2 t ++ [Ev (Delete kVRC v) (inr tt)] ∧ content_read (take 2 t) "a-gold" "apps" v.
Proof.
  intros v t. assert (Ht : t = take 2 t ++ [Ev (Delete kVRC v) (inr tt)]) by evaluates.
  split; [exact Ht|].
  destruct (@contents_follow_objects 4 _ _ _ ("apps", "vgr/a-gold") t _
             (exec_runs (demo_objects true (Some v)) (@Reconcile 4 _ _ _ ("apps", "vgr/a-gold")) tt)) as [Hdel _].
  exact (proj1 (Hdel _ _ _ _ Ht)).
Defined.
