(* ===== verification/ReplicationCR.v ===== *)
(** * What the VSCR and VVR controllers have in common

    [internal/controller/vaststorageclassreplication_controller.go] and
    [vastvolumereplication_controller.go] are two controllers of the same
    shape: a resource that lists StorageClasses, one child object per class
    (a VGR or a VR), a protected path and a status.  [CR] is the interface
    between the shared steps and the two resources; its instances are
    [vscr_cr] and [vvr_cr].

    A step works on the resource in memory, which every successful write
    replaces by the answer of the API server, and may fail or panic: [M].

    Events and log lines are left out, and so are the parts of error messages
    that print a REST client. *)

From S2P Require Import Prelude GoErrors Topology Kube Naming Peers PpathDir Lookups Programs Api ContentController Client Builders Ppath ReplicationObjects.
From stdpp Require Import options.

(** ** The interface *)

Class CR (k : kind) := mkCR {
  cr_kindName : string;
  cr_Primary : kobj k → string;
  cr_Topology : kobj k → list ReplicationTarget;
  cr_set_topology : kobj k → list ReplicationTarget → kobj k;
  cr_Template : kobj k → ProtectionPolicyTemplate;
  cr_FailoverType : kobj k → FailoverAction;
  cr_Resync : kobj k → bool;
  cr_Status : kobj k → ReplicationStatus;
  cr_set_status : kobj k → ReplicationStatus → kobj k;
  cr_PVCNamespace : kobj k → string;
  cr_finalizer : string;
  cr_sourceLabel : string;
  (* the child object: its kind, an object with only a name, whether csi-addons
     reports it as primary *)
  cr_child : kind;
  cr_childKind : string;
  cr_child_named : string → string → kobj cr_child;
  cr_child_primary : kobj cr_child → bool;
  cr_child_state : kobj cr_child → ReplicationState;
  cr_child_set_state : kobj cr_child → ReplicationState → kobj cr_child;
}.

(** What the accessors of a resource have to do with each other. *)
Class CRLaws (k : kind) `{CR k} := mkCRLaws {
  own_kind : k = kVSCR ∨ k = kVVR;
  child_kind : cr_child = kVGR ∨ cr_child = kVR;
  status_set_status v s : cr_Status (cr_set_status v s) = s;
  meta_set_status v s : meta k (cr_set_status v s) = meta k v;
  set_status_twice v s s' : cr_set_status (cr_set_status v s) s' = cr_set_status v s';
  set_status_id v : cr_set_status v (cr_Status v) = v;
  set_status_set_meta v s m : cr_set_status (set_meta k v m) s = set_meta k (cr_set_status v s) m;
  status_set_topology v l : cr_Status (cr_set_topology v l) = cr_Status v;
  meta_set_topology v l : meta k (cr_set_topology v l) = meta k v;
  primary_set v m s : cr_Primary (cr_set_status (set_meta k v m) s) = cr_Primary v;
  topology_set v m s : cr_Topology (cr_set_status (set_meta k v m) s) = cr_Topology v;
  resync_set v m s : cr_Resync (cr_set_status (set_meta k v m) s) = cr_Resync v;
  pvcns_set v m s : Namespace m = Namespace (meta k v) →
    cr_PVCNamespace (cr_set_status (set_meta k v m) s) = cr_PVCNamespace v;
  child_named_meta name ns : meta cr_child (cr_child_named name ns) = named_meta name ns;
}.

#[export] Instance vscr_cr : CR kVSCR := {|
  cr_kindName := "VastStorageClassReplication";
  cr_Primary (v : kobj kVSCR) := vscr_PrimaryStorageClass (vscr_Spec v);
  cr_Topology (v : kobj kVSCR) := vscr_ProtectionTopology (vscr_Spec v);
  cr_set_topology (v : kobj kVSCR) l :=
    let s := vscr_Spec v in
    mkVSCR (vscr_Meta v)
      (mkVSCRSpec (vscr_PrimaryStorageClass s) l (vscr_ProtectionPolicyTemplate s) (vscr_FailoverType s)
         (vscr_Resync s) (vscr_SyncIntervalSeconds s) (vscr_PVCRemap s) (vscr_SyncPVCPV s)
         (vscr_DestVolReclaimPolicy s) (vscr_VolumeNamespace s)) (vscr_Status v);
  cr_Template (v : kobj kVSCR) := vscr_ProtectionPolicyTemplate (vscr_Spec v);
  cr_FailoverType (v : kobj kVSCR) := vscr_FailoverType (vscr_Spec v);
  cr_Resync (v : kobj kVSCR) := vscr_Resync (vscr_Spec v);
  cr_Status := vscr_Status;
  cr_set_status (v : kobj kVSCR) s := mkVSCR (vscr_Meta v) (vscr_Spec v) s;
  cr_PVCNamespace := VSCR_PVCNamespace;
  cr_finalizer := FinalizerVSCR;
  cr_sourceLabel := LabelSourceVSCR;
  cr_child := kVGR;
  cr_childKind := "VolumeGroupReplication";
  cr_child_named := named_vgr;
  cr_child_primary (o : kobj kVGR) := bool_decide (vgr_State o = PrimaryState);
  cr_child_state := vgr_ReplicationState;
  cr_child_set_state := vgr_set_state
|}.

#[export] Instance vvr_cr : CR kVVR := {|
  cr_kindName := "VastVolumeReplication";
  cr_Primary (v : kobj kVVR) := vvr_PrimaryStorageClass (vvr_Spec v);
  cr_Topology (v : kobj kVVR) := vvr_ProtectionTopology (vvr_Spec v);
  cr_set_topology (v : kobj kVVR) l :=
    let s := vvr_Spec v in
    mkVVR (vvr_Meta v)
      (mkVVRSpec (vvr_VolumeName s) (vvr_VolumeNamespace s) (vvr_PrimaryStorageClass s) l
         (vvr_ProtectionPolicyTemplate s) (vvr_FailoverType s) (vvr_Resync s) (vvr_SyncIntervalSeconds s)
         (vvr_PVCRemap s) (vvr_DestVolReclaimPolicy s)) (vvr_Status v);
  cr_Template (v : kobj kVVR) := vvr_ProtectionPolicyTemplate (vvr_Spec v);
  cr_FailoverType (v : kobj kVVR) := vvr_FailoverType (vvr_Spec v);
  cr_Resync (v : kobj kVVR) := vvr_Resync (vvr_Spec v);
  cr_Status := vvr_Status;
  cr_set_status (v : kobj kVVR) s := mkVVR (vvr_Meta v) (vvr_Spec v) s;
  cr_PVCNamespace := VVR_PVCNamespace;
  cr_finalizer := FinalizerVVR;
  cr_sourceLabel := LabelSourceVVR;
  cr_child := kVR;
  cr_childKind := "VolumeReplication";
  cr_child_named := named_vr;
  cr_child_primary (o : kobj kVR) := bool_decide (vr_State o = PrimaryState);
  cr_child_state := vr_ReplicationState;
  cr_child_set_state := vr_set_state
|}.

#[export] Instance vscr_laws : CRLaws kVSCR.
Proof.
  split; try (by auto); try (by intros []); try (by intros [? []]).
  intros v m s Hm. cbn. unfold VSCR_PVCNamespace. cbn. by rewrite Hm.
Qed.
#[export] Instance vvr_laws : CRLaws kVVR.
Proof.
  split; try (by auto); try (by intros []); try (by intros [? []]).
  intros v m s Hm. cbn. unfold VVR_PVCNamespace. cbn. by rewrite Hm.
Qed.

Definition all_classes `{CR k} (v : kobj k) : list string := topology_AllStorageClasses (cr_Topology v).
Definition classes_primary_first `{CR k} (v : kobj k) : list string := primary_first (cr_Primary v) (cr_Topology v).

(** [vgrNameForSC] and [vrNameForSC] agree. *)
Definition child_name (crName scName : string) : string := vgrNameForSC crName scName.

(** ** Steps: the resource is threaded, errors end the step *)

(** How a step ends: with a value, with an error, or with a nil dereference,
    which the reconciler's deferred function and controller-runtime survive. *)
Inductive outcome (A : Type) := Done (a : A) | Failed (e : error) | Panicked.
Arguments Done {A} _.
Arguments Failed {A} _.
Arguments Panicked {A}.

Definition of_result {A} (r : result A) : outcome A :=
  match r with inl e => Failed e | inr a => Done a end.
Definition of_err (err : option error) : outcome unit :=
  match err with Some e => Failed e | None => Done tt end.
(** A lookup in a map of pointers whose result is dereferenced. *)
Definition deref {A} (o : option A) : outcome A :=
  match o with Some a => Done a | None => Panicked end.

Definition M (k : kind) (A : Type) : Type := kobj k → Prog (kobj k * outcome A).

#[export] Instance M_ret k : MRet (M k) := fun A a v => mret (v, Done a).
#[export] Instance M_bind k : MBind (M k) := fun A B f p v =>
  '(v', r) ← p v;
  match r with
  | Done a => f a v'
  | Failed e => mret (v', Failed e)
  | Panicked => mret (v', Panicked)
  end.

Definition current {k} : M k (kobj k) := fun v => mret (v, Done v).
Definition lift {k A} (p : Prog (outcome A)) : M k A := fun v => r ← p; mret (v, r).
Definition pure {k A} (r : outcome A) : M k A := fun v => mret (v, r).
(** A call that also changes the object behind the pointer. *)
Definition on_object {k} (p : kobj k → Prog (kobj k * option error)) : M k unit := fun v =>
  '(v', err) ← p v; mret (v', of_err err).
Definition modify {k} (f : kobj k → kobj k) : M k unit := fun v => mret (f v, Done tt).

Lemma runs_Mbind {k A B} (m : M k A) (f : A → M k B) v t1 v1 a t2 x :
  runs (m v) t1 (v1, Done a) → runs (f a v1) t2 x → runs ((m ≫= f) v) (t1 ++ t2) x.
Proof. intros Hm Hf. by eapply runs_bind; [exact Hm|]. Qed.

(** The controllers' configuration. *)
Class Config := mkConfig {
  ApplyExistingPVCs_enabled : bool;
  config_PVCNameFormat : string;
}.

Section Steps.

Context {steps : RetrySteps} {lk : Lookups} {ve : VastErrors} {sd : ShowDuration} {mo : MapOrder}
  {refs : OwnerRefs} {cfg : Config} {k : kind} {cr : CR k}.

Definition update_status_of (v : kobj k) : Prog (kobj k * option error) :=
  update_object_status k cr_kindName v.

Definition set_status_field (f : ReplicationStatus → ReplicationStatus) : M k unit :=
  modify (fun v => cr_set_status v (f (cr_Status v))).
Definition save_status : M k unit := on_object update_status_of.
(** A field is assigned and the status written. *)
Definition store_status (f : ReplicationStatus → ReplicationStatus) : M k unit :=
  set_status_field f;; save_status.

(** *** Status fields *)

Definition with_primary (p : string) (s : ReplicationStatus) : ReplicationStatus :=
  mkStatus (LastFailoverType s) p (StorageClassesPreview s) (PpathDirMapping s) (TenantMapping s) (PpathName s) (SyncStatus s).
Definition with_preview (p : string) (s : ReplicationStatus) : ReplicationStatus :=
  mkStatus (LastFailoverType s) (CurrentPrimaryStorageClass s) p (PpathDirMapping s) (TenantMapping s) (PpathName s) (SyncStatus s).
Definition with_failover (f : FailoverAction) (s : ReplicationStatus) : ReplicationStatus :=
  mkStatus f (CurrentPrimaryStorageClass s) (StorageClassesPreview s) (PpathDirMapping s) (TenantMapping s) (PpathName s) (SyncStatus s).
Definition with_dirs (m : gmap string string) (s : ReplicationStatus) : ReplicationStatus :=
  mkStatus (LastFailoverType s) (CurrentPrimaryStorageClass s) (StorageClassesPreview s) m (TenantMapping s) (PpathName s) (SyncStatus s).
Definition with_tenants (m : gmap string TenantInfo) (s : ReplicationStatus) : ReplicationStatus :=
  mkStatus (LastFailoverType s) (CurrentPrimaryStorageClass s) (StorageClassesPreview s) (PpathDirMapping s) m (PpathName s) (SyncStatus s).
Definition with_ppath (p : string) (s : ReplicationStatus) : ReplicationStatus :=
  mkStatus (LastFailoverType s) (CurrentPrimaryStorageClass s) (StorageClassesPreview s) (PpathDirMapping s) (TenantMapping s) p (SyncStatus s).
Definition with_sync (x : string) (s : ReplicationStatus) : ReplicationStatus :=
  mkStatus (LastFailoverType s) (CurrentPrimaryStorageClass s) (StorageClassesPreview s) (PpathDirMapping s) (TenantMapping s) (PpathName s) x.

(** The three [ensure] functions: change the field when it differs. *)
Definition ensurePrimaryStorageClass (v : kobj k) : kobj k * bool :=
  if bool_decide (CurrentPrimaryStorageClass (cr_Status v) = cr_Primary v) then (v, false)
  else (cr_set_status v (with_primary (cr_Primary v) (cr_Status v)), true).

Definition ensureStorageClassPreview (v : kobj k) : kobj k * bool :=
  let preview := DisplayableList_String (all_classes v) in
  if bool_decide (StorageClassesPreview (cr_Status v) = preview) then (v, false)
  else (cr_set_status v (with_preview preview (cr_Status v)), true).

Definition ensureLastFailoverType (v : kobj k) : kobj k * bool :=
  if bool_decide (LastFailoverType (cr_Status v) = cr_FailoverType v) then (v, false)
  else (cr_set_status v (with_failover (cr_FailoverType v) (cr_Status v)), true).

(** [ensureStorageClassPreview || primaryChanged || ensureLastFailoverType]:
    evaluated left to right until one is true. *)
Definition status_fields_changed (primaryChanged : bool) (v : kobj k) : kobj k * bool :=
  let '(v1, previewChanged) := ensureStorageClassPreview v in
  if previewChanged then (v1, true)
  else if primaryChanged then (v1, true)
  else ensureLastFailoverType v1.

(** *** The sync status, written after every reconciliation *)

Definition child_key (v : kobj k) (scName : string) : string := child_name (Name (meta k v)) scName.

(** [None]: nothing is written. *)
Definition desired_sync (v : kobj k) (reconcileErr : option error) : Prog (option string) :=
  if Deleting (meta k v) then mret (Some SyncStatusDeleting)
  else if IsNetworkError reconcileErr then mret (Some SyncStatusUnreachable)
  else if isValidationError reconcileErr then mret (Some SyncStatusInvalid)
  else if isPermanentError reconcileErr then mret (Some SyncStatusFailed)
  else
    r ← call (Get cr_child (child_key v (cr_Primary v)) (cr_PVCNamespace v));
    mret (match r with
          | inl _ => None
          | inr o => Some (if cr_child_primary o then SyncStatusCompleted else SyncStatusInProgress)
          end).

Definition reconcileSyncStatus (v : kobj k) (reconcileErr : option error) : Prog unit :=
  d ← desired_sync v reconcileErr;
  match d with
  | None => mret tt
  | Some desired =>
      if bool_decide (SyncStatus (cr_Status v) = desired) then mret tt
      else _ ← update_status_of (cr_set_status v (with_sync desired (cr_Status v))); mret tt
  end.

(** *** Deletion *)

Fixpoint delete_children (v : kobj k) (scs : list string) : Prog (option error) :=
  match scs with
  | [] => mret None
  | scName :: scs' =>
      let name := child_key v scName in
      let ns := cr_PVCNamespace v in
      err ← delete_object cr_child (cr_childKind +:+ " " +:+ ns +:+ "/" +:+ name) (cr_child_named name ns);
      match err with
      | Some e => mret (Some (ErrWrap ("failed to delete " +:+ cr_childKind +:+ " " +:+ ns +:+ "/" +:+ name +:+ ": ") e ""))
      | None => delete_children v scs'
      end
  end.

(** [countOwnedVGRs], [countOwnedVRs]: a child whose lookup fails for any
    reason is not counted. *)
Fixpoint count_children (v : kobj k) (scs : list string) : Prog nat :=
  match scs with
  | [] => mret 0
  | scName :: scs' =>
      r ← call (Get cr_child (child_key v scName) (cr_PVCNamespace v));
      n ← count_children v scs';
      mret (match r with inl _ => n | inr _ => S n end)
  end.

(** The protected path is disabled and deleted; failures are only logged. *)
Definition delete_ppath (v : kobj k) : Prog unit :=
  let sc := cr_Primary v in
  let ppathName := PpathName (cr_Status v) in
  if bool_decide (sc ≠ "") && bool_decide (ppathName ≠ "") then
    match NewFromStorageClassName sc with
    | inl _ => mret tt
    | inr _ =>
        r ← call (Vms sc (PpathGet ppathName));
        match r with
        | inl _ => mret tt
        | inr p =>
            _ ← if pp_Enabled p then call (Vms sc (PpathSetEnabled (pp_Id p) false)) else mret (inr tt);
            _ ← call (Vms sc (PpathDeleteById (pp_Id p)));
            mret tt
        end
    end
  else mret tt.

Definition handleDeletion (key : string * string) : M k Result := fun v =>
  if negb (HasFinalizer (meta k v) cr_finalizer) then mret (v, Done (mkResult 0))
  else
    err ← delete_children v (all_classes v);
    match err with
    | Some e => mret (v, Failed e)
    | None =>
        remaining ← count_children v (all_classes v);
        if bool_decide (0 < remaining) then d ← call (BackoffNext key); mret (v, Done (mkResult d))
        else
          r ← ListVastReplicationContentsByLabelSelector (cr_PVCNamespace v) {[cr_sourceLabel := Name (meta k v)]};
          match r with
          | inl e => mret (v, Failed (ErrWrap "failed to list VastReplicationContents: " e ""))
          | inr (_ :: _) => d ← call (BackoffNext key); mret (v, Done (mkResult d))
          | inr [] =>
              call (BackoffReset key);;
              delete_ppath v;;
              (if bool_decide (cr_Primary v ≠ "")
               then DeleteProtectionPolicies (Name (meta k v)) (cr_Primary v) (cr_Topology v) else mret tt);;
              '(v', err) ← RemoveFinalizer k v cr_finalizer;
              mret (v', match err with
                        | Some e => Failed (ErrWrap "failed to remove finalizer: " e "")
                        | None => Done (mkResult 0)
                        end)
          end
    end.

(** *** Steps of a live resource *)

(** The finalizer, and the validation that runs when it was added. *)
Definition finalizer_step (validateOnce : kobj k → Prog (outcome unit)) : M k unit := fun v =>
  '(v1, (ensured, err)) ← EnsureFinalizer k v cr_finalizer;
  match err with
  | Some e => mret (v1, Failed (ErrWrap "failed to add finalizer: " e ""))
  | None =>
      if (ensured : bool) then
        r ← validateOnce v1;
        match r with
        | Failed e => '(v2, _) ← RemoveFinalizer k v1 cr_finalizer; mret (v2, Failed e)
        | r => mret (v1, r)
        end
      else mret (v1, Done tt)
  end.

(** Primary class, backfill, preview and failover type; whether the primary
    changed.  A failed backfill is only logged. *)
Definition status_step (scs : gmap string StorageClass) : M k bool := fun v =>
  let '(v1, primaryChanged) := ensurePrimaryStorageClass v in
  r ← (if ApplyExistingPVCs_enabled && primaryChanged
       then match scs !! cr_Primary v1 with
            | Some sc => ApplyExistingPVCs (cr_Primary v1) sc;; mret (Done tt)
            | None => mret Panicked
            end
       else mret (Done tt));
  match r with
  | Done _ =>
      let '(v2, changed) := status_fields_changed primaryChanged v1 in
      if changed then
        '(v3, err) ← update_status_of v2;
        mret (v3, match err with Some e => Failed e | None => Done primaryChanged end)
      else mret (v2, Done primaryChanged)
  | Failed e => mret (v1, Failed e)
  | Panicked => mret (v1, Panicked)
  end.

Definition hasUnresolvedPeers (topology : list ReplicationTarget) : bool :=
  existsb (fun t => bool_decide (PeerName t = "")) topology.

(** Whether the topology was completed and written back; the entries are
    updated in place, also when the resolution fails. *)
Definition peers_step (clients : gset string) : M k bool := fun v =>
  if hasUnresolvedPeers (cr_Topology v) then
    let '(topology, err) := ResolveAndFetchTopologyPeers (map_order "peer clients" clients) (cr_Topology v) in
    let v1 := cr_set_topology v topology in
    match err with
    | Some e => mret (v1, Failed (ErrWrap "failed to resolve replication peers: " e ""))
    | None =>
        '(v2, err) ← update_spec k cr_kindName v1;
        mret (v2, match err with Some e => Failed e | None => Done true end)
    end
  else mret (v, Done false).

Definition predict (sc : StorageClass) (volumeName namespace : string) : Prog (result string) :=
  let view sc := lk_ViewPath (sc_Name sc) in
  if bool_decide (volumeName = "")
  then mret (Predict NewFromStorageClass view (fun _ _ => inr None) sc volumeName namespace)
  else
    r ← GetPVCandPV volumeName namespace;
    let bound := '(_, pv) ← r;
                 mret ((fun pv => mkBoundPV (Name (pv_Meta pv)) (csi_VolumeHandle <$> pv_CSI pv)) <$> pv) in
    mret (Predict NewFromStorageClass view (fun _ _ => bound) sc volumeName namespace).

(** One prediction per class. *)
Fixpoint predict_dirs (volumeName namespace : string) (scNames : list string) (acc : gmap string string)
    : Prog (result (gmap string string)) :=
  match scNames with
  | [] => mret (inr acc)
  | scName :: scNames' =>
      match lk_GetStorageClass scName with
      | inl e => mret (inl (ErrWrap ("failed to get StorageClass " +:+ scName +:+ ": ") e ""))
      | inr sc =>
          r ← predict sc volumeName namespace;
          match r with
          | inl e => mret (inl (ErrWrap ("failed to compute PpathDir for StorageClass " +:+ scName +:+ ": ") e ""))
          | inr dir => predict_dirs volumeName namespace scNames' (<[scName := dir]> acc)
          end
      end
  end.

(** The directories, predicted only while there are none. *)
Definition dirs_step (predictAll : kobj k → Prog (result (gmap string string))) : M k unit :=
  v ← current;
  if bool_decide (PpathDirMapping (cr_Status v) = ∅) then
    mapping ← lift (r ← predictAll v; mret (of_result r));
    store_status (with_dirs mapping)
  else mret tt.

Fixpoint resolve_tenants (scs : gmap string StorageClass) (scNames : list string) (acc : gmap string TenantInfo)
    : outcome (gmap string TenantInfo) :=
  match scNames with
  | [] => Done acc
  | scName :: scNames' =>
      match scs !! scName with
      | None => Panicked
      | Some sc =>
          match ResolveTenant scName sc with
          | inl e => Failed (ErrWrap ("failed to resolve tenant for StorageClass " +:+ scName +:+ ": ") e "")
          | inr tenant => resolve_tenants scs scNames' (<[scName := tenant]> acc)
          end
      end
  end.

Definition tenants_step (scs : gmap string StorageClass) : M k unit :=
  v ← current;
  if bool_decide (TenantMapping (cr_Status v) = ∅) then
    mapping ← pure (resolve_tenants scs (all_classes v) ∅);
    store_status (with_tenants mapping)
  else mret tt.

(** An established protected path is checked; when it was deleted behind the
    controller's back the name is cleared.  The name to go on with. *)
Definition verify_ppath (clients : gset string) (ppathName : string) : M k string :=
  v ← current;
  if bool_decide (cr_Primary v ∈ clients) then
    err ← lift (err ← IsPpathActive (cr_Primary v) ppathName; mret (Done err));
    match err with
    | None => mret ppathName
    | Some e =>
        if vast_IsNotFoundErr e then store_status (with_ppath "");; mret ""
        else pure (Failed e)
    end
  else pure Panicked.

(** Policies and protected path of the whole topology. *)
Definition establish_ppath (clients : gset string) (scs : gmap string StorageClass) : M k string :=
  v ← current;
  let edges := NewReplicationEdgesList (cr_Topology v) (cr_Primary v) in
  let tmpl := SpecTemplateToParams (Name (meta k v)) (cr_Template v) in
  pairs ← lift (r ← DiscoverLinkPolicies clients (TenantMapping (cr_Status v)) edges tmpl;
                mret (of_result (wrap_err "failed to ensure protection policies: " r)));
  sc ← pure (deref (scs !! cr_Primary v));
  ppathName ← lift ('(ppathName, err) ← EnsureConstellationPpath clients pairs (cr_Primary v) (Name (meta k v))
                       (PpathDirMapping (cr_Status v)) (negb (IsBlockStorageClass sc));
                    mret (match err with Some e => Failed e | None => Done ppathName end));
  store_status (with_ppath ppathName);;
  mret ppathName.

(** *** The children, the primary's first *)

Section Children.

(** [ensureVGR] or [ensureVR]: the name, whether it was created, an error. *)
Variable ensureChild : string → Prog (string * bool * option error).

Fixpoint ensure_children (namespace : string) (scs : list string) (errs : list error) : Prog (list error) :=
  match scs with
  | [] => mret errs
  | scName :: scs' =>
      '(name, created, err) ← ensureChild scName;
      let errs' := DeferredError_Add errs (wrap_opt ("SC " +:+ scName +:+ ": ") err) in
      (* a timeout is only logged *)
      (if (created : bool) && negb (bool_decide (scs' = []))
       then _ ← WaitForVRC namespace name (30 * Second); mret tt else mret tt);;
      ensure_children namespace scs' errs'
  end.

End Children.

Definition children_step (key : string * string)
    (ensureChild : kobj k → string → Prog (string * bool * option error))
    (syncStates : kobj k → Prog (option error)) : M k Result := fun v =>
  errs ← ensure_children (ensureChild v) (cr_PVCNamespace v) (classes_primary_first v) [];
  err ← syncStates v;
  match DeferredError_Err (DeferredError_Add errs err) with
  | None => call (BackoffReset key);; mret (v, Done (mkResult 0))
  | Some e => mret (v, Failed e)
  end.

(** *** Checks of the first reconciliation *)

Definition invalid (msg : string) : Prog (outcome unit) := mret (Failed (NewValidationError msg)).

(** [rest.Views.Exists] on the cluster of a class, whose client must exist. *)
Definition subsystem_exists (clients : gset string) (scName subsystem : string) (tenant : option string)
    : Prog (outcome bool) :=
  if bool_decide (scName ∈ clients) then
    r ← call (Vms scName (ViewExists subsystem tenant));
    mret (of_result (wrap_err ("StorageClass " +:+ quote scName +:+ ": failed to check subsystem " +:+
                               quote subsystem +:+ ": ") r))
  else mret Panicked.

(** A block class names a subsystem that is there. *)
Definition check_subsystem (what : string) (clients : gset string) (scName : string) (sc : StorageClass)
    : Prog (outcome unit) :=
  let subsystemName := map_get (sc_Parameters sc) StorageClassParameterSubsystem in
  if bool_decide (subsystemName = "") then
    invalid ("StorageClass " +:+ quote scName +:+ " is missing required parameter " +:+
             quote StorageClassParameterSubsystem)
  else
    let tn := map_get (sc_Parameters sc) "tenant_name" in
    r ← subsystem_exists clients scName subsystemName (if bool_decide (tn = "") then None else Some tn);
    match r with
    | Done true => mret (Done tt)
    | Done false => invalid ("StorageClass " +:+ quote scName +:+ ": subsystem " +:+ quote subsystemName +:+
                             " does not exist; for " +:+ what +:+
                             "block replication the subsystem must be pre-created on all clusters")
    | Failed e => mret (Failed e)
    | Panicked => mret Panicked
    end.

(** Before the first primary is recorded there must be no protected path of
    the resource's name. *)
Definition check_ppath_name (clients : gset string) (v : kobj k) : Prog (outcome unit) :=
  if bool_decide (CurrentPrimaryStorageClass (cr_Status v) = "") && bool_decide (cr_Primary v ∈ clients) then
    r ← call (Vms (cr_Primary v) (PpathExists (Name (meta k v))));
    match r with
    | inl e => mret (Failed (ErrWrap ("failed to check if protected path " +:+ quote (Name (meta k v)) +:+
                                      " exists on primary cluster: ") e ""))
    | inr true => invalid ("protected path " +:+ quote (Name (meta k v)) +:+
                           " already exists on the primary VAST cluster; please remove it manually before creating this resource")
    | inr false => mret (Done tt)
    end
  else mret (Done tt).

(** One check after the other. *)
Definition andThen (p q : Prog (outcome unit)) : Prog (outcome unit) :=
  r ← p;
  match r with Done _ => q | r => mret r end.

(** *** Reconciliation: [live] is the part for a resource that is not being
    deleted; the sync status is written after it in any case. *)

Definition outcome_err {A} (r : outcome A) : option error :=
  match r with Failed e => Some e | _ => None end.

Definition recovered : error := ErrNew "panic: runtime error: invalid memory address or nil pointer dereference [recovered]".

Definition reconcile (get : string → string → Prog (result (kobj k))) (handleDeletion : string * string → M k Result)
    (reconcileSyncStatus : kobj k → option error → Prog unit) (live : M k Result)
    (key : string * string) : Prog (Result * option error) :=
  r ← get key.2 key.1;
  match r with
  | inl e => if IsNotFound (Some e) then mret (mkResult 0, None) else mret (mkResult 0, Some e)
  | inr v =>
      '(v', r) ← (if Deleting (meta k v) then handleDeletion key v else live v);
      reconcileSyncStatus v' (outcome_err r);;
      match r with
      | Done res => mret (res, None)
      | Failed e => maybeBackoffRetry key (Some e)
      | Panicked => mret (mkResult 0, Some recovered)
      end
  end.

End Steps.

(** *** Replication classes *)

Section Classes.

Context {steps : RetrySteps} {lk : Lookups}.

(** What [ensureReplicationClasses] and [ensureVolumeReplicationClass] read
    from the StorageClass: the class name and the secret. *)
Definition class_inputs (format crName scName : string) : result (StorageClass * string * string * string) :=
  sc ← wrap_err ("failed to get StorageClass " +:+ scName +:+ ": ") (lk_GetStorageClass scName);
  baseClassName ← wrap_err ("failed to format replication class name for SC " +:+ scName +:+ ": ")
                    (FormatReplicationClassName format sc);
  let className := SanitizeK8sName (crName +:+ "-" +:+ baseClassName) in
  let csiParams := ExtractPrefixedParams CSIParameterPrefix (sc_Parameters sc) in
  let secretName := map_get csiParams "provisioner-secret-name" in
  let secretNamespace := map_get csiParams "provisioner-secret-namespace" in
  if bool_decide (secretName = "") || bool_decide (secretNamespace = "") then
    Errorf ("StorageClass " +:+ scName +:+
            " is missing provisioner-secret-name / provisioner-secret-namespace parameters")
  else mret (sc, className, secretName, secretNamespace).

Definition CSIAddonsParamReplicationSecretName := "replication.storage.openshift.io/replication-secret-name".
Definition CSIAddonsParamReplicationSecretNamespace := "replication.storage.openshift.io/replication-secret-namespace".
Definition CSIAddonsParamGroupReplicationSecretName := "replication.storage.openshift.io/group-replication-secret-name".
Definition CSIAddonsParamGroupReplicationSecretNamespace := "replication.storage.openshift.io/group-replication-secret-namespace".
Definition ReplicationParamStorageClass := Domain +:+ "/storage-class".
Definition ReplicationParamSubsystem := Domain +:+ "/subsystem".
Definition ReplicationParamPpathName := Domain +:+ "/ppath-name".

Definition vrclass_for (sc : StorageClass) (className secretName secretNamespace ppathName scName : string)
    : ReplicationClass :=
  let subsystem := map_get (sc_Parameters sc) StorageClassParameterSubsystem in
  let b := NewVolumeReplicationClass className ""
           |> vrclass_WithProvisioner (sc_Provisioner sc)
           |> vrclass_WithParameter CSIAddonsParamReplicationSecretName secretName
           |> vrclass_WithParameter CSIAddonsParamReplicationSecretNamespace secretNamespace
           |> vrclass_WithParameter ReplicationParamPpathName ppathName
           |> vrclass_WithParameter ReplicationParamStorageClass scName
           |> WithManagedByLabel in
  builder_Result (if bool_decide (subsystem = "") then b
                  else vrclass_WithParameter ReplicationParamSubsystem subsystem b).

Definition vgrclass_for (sc : StorageClass) (className secretName secretNamespace ppathName scName : string)
    : ReplicationClass :=
  let subsystem := map_get (sc_Parameters sc) StorageClassParameterSubsystem in
  let b := NewVolumeGroupReplicationClass className ""
           |> vgrclass_WithProvisioner (sc_Provisioner sc)
           |> vgrclass_WithParameter CSIAddonsParamGroupReplicationSecretName secretName
           |> vgrclass_WithParameter CSIAddonsParamGroupReplicationSecretNamespace secretNamespace
           |> vgrclass_WithParameter ReplicationParamPpathName ppathName
           |> vgrclass_WithParameter ReplicationParamStorageClass scName
           |> WithManagedByLabel in
  builder_Result (if bool_decide (subsystem = "") then b
                  else vgrclass_WithParameter ReplicationParamSubsystem subsystem b).

Definition ensure_vrclass (c : ReplicationClass) : Prog (option error) :=
  r ← EnsureVolumeReplicationClass c;
  mret (match r with
        | inl e => Some (ErrWrap ("failed to ensure VolumeReplicationClass " +:+ Name (class_Meta c) +:+ ": ") e "")
        | inr _ => None
        end).

Lemma vrclass_for_name sc className sn sns ppathName scName :
  let c := vrclass_for sc className sn sns ppathName scName in
  Name (class_Meta c) = className ∧ Namespace (class_Meta c) = "".
Proof. unfold vrclass_for. cbv zeta. by case_bool_decide. Qed.

Lemma vgrclass_for_name sc className sn sns ppathName scName :
  let c := vgrclass_for sc className sn sns ppathName scName in
  Name (class_Meta c) = className ∧ Namespace (class_Meta c) = "".
Proof. unfold vgrclass_for. cbv zeta. by case_bool_decide. Qed.

End Classes.
