(* ===== verification/ReplicationCRRules.v ===== *)
(** * What the shared steps of the VSCR and VVR controllers write

    Rules for the steps of [ReplicationCR], for any guard [G] that admits
    reads, requests to VAST clusters and the three kinds of writes described
    here: [status_allowed], [update_allowed] and [delete_allowed].  The
    controllers instantiate [G] and add what they do to the children. *)

From S2P Require Import Prelude GoErrors Topology Kube Naming Peers PpathDir Lookups Programs Api ContentController Client Builders Ppath ReplicationObjects ReplicationCR.
From stdpp Require Import options.

#[local] Set Default Proof Using "Type*".

#[export] Instance kind_eq_dec : EqDecision kind.
Proof. solve_decision. Defined.

Section Writes.

Context {k : kind} {cr : CR k}.

(** ** The resource in memory and the answers of the API server *)

Definition answered (t : Trace) (u : kobj k) : Prop :=
  (∃ name ns, @Ev Call resp (Get k name ns) (inr u) ∈ t) ∨
  (∃ w, @Ev Call resp (Update k w) (inr u) ∈ t) ∨
  (∃ w, @Ev Call resp (UpdateStatus k w) (inr u) ∈ t) ∨
  (∃ b w, @Ev Call resp (Patch k b w) (inr u) ∈ t).

(** The mappings are immutable once filled. *)
Definition kept (s s' : ReplicationStatus) : Prop :=
  (PpathDirMapping s ≠ ∅ → PpathDirMapping s' = PpathDirMapping s) ∧
  (TenantMapping s ≠ ∅ → TenantMapping s' = TenantMapping s) ∧
  SyncStatus s' = SyncStatus s.

(** [v] is [u] but for status fields, and metadata other than name, namespace
    and finalizers. *)
Definition agree (u v : kobj k) : Prop :=
  ∃ m s, v = cr_set_status (set_meta k u m) s ∧
    Name m = Name (meta k u) ∧ Namespace m = Namespace (meta k u) ∧
    Finalizers m = Finalizers (meta k u) ∧ kept (cr_Status u) s.

(** [v] has the name of [u], and a status that may replace it. *)
Definition loose (u v : kobj k) : Prop :=
  Name (meta k v) = Name (meta k u) ∧ Namespace (meta k v) = Namespace (meta k u) ∧
  kept (cr_Status u) (cr_Status v).

Definition current_of (t : Trace) (v : kobj k) : Prop := ∃ u, answered t u ∧ agree u v.
Definition roughly (t : Trace) (v : kobj k) : Prop := ∃ u, answered t u ∧ loose u v.

(** ** The writes *)

(** The child of the primary class was read, with this verdict. *)
Definition primary_child_read (t : Trace) (v : kobj k) (primary : bool) : Prop :=
  ∃ o, @Ev Call resp (Get cr_child (child_key v (cr_Primary v)) (cr_PVCNamespace v)) (inr o) ∈ t ∧
       cr_child_primary o = primary.

Definition sync_reported (t : Trace) (v : kobj k) (desired : string) : Prop :=
  (desired = SyncStatusCompleted → primary_child_read t v true) ∧
  (desired = SyncStatusInProgress → primary_child_read t v false) ∧
  (desired = SyncStatusDeleting ↔ Deleting (meta k v) = true).

Definition status_allowed (t : Trace) (w : kobj k) : Prop :=
  roughly t w ∨
  ∃ v desired, roughly t v ∧ sync_reported t v desired ∧
    w = cr_set_status v (with_sync desired (cr_Status v)).

(** Every child was deleted, then looked up without success, and no content
    of the resource is left. *)
Definition deletion_complete (t : Trace) (u : kobj k) : Prop :=
  answered t u ∧ Deleting (meta k u) = true ∧
  (∀ sc, sc ∈ all_classes u →
     (∃ r, @Ev Call resp (Delete cr_child (cr_child_named (child_key u sc) (cr_PVCNamespace u))) r ∈ t ∧
           ∀ e, r = inl e → IsNotFound (Some e) = true) ∧
     ∃ e, @Ev Call resp (Get cr_child (child_key u sc) (cr_PVCNamespace u)) (inl e) ∈ t) ∧
  @Ev Call resp (List kVRC (cr_PVCNamespace u) {[cr_sourceLabel := Name (meta k u)]}) (inr []) ∈ t.

(** Calls that change nothing. *)
Definition read_only (c : Call) : bool :=
  match c with
  | Get _ _ _ | List _ _ _ | Now | Sleep _ | SleepOrDone _ | Timestamp => true
  | Vms _ (ViewExists _ _) | Vms _ (PpathExists _) | Vms _ (PpathGet _) | Vms _ (PolicyGet _)
  | Vms _ (PolicyExists _) | Vms _ (FolderStatPath _ _) => true
  | _ => false
  end.

(** The finalizer was added in this run, and nothing else was written. *)
Definition only_finalizer_added (t : Trace) : Prop :=
  (∃ w r, @Ev Call resp (Update k w) r ∈ t ∧ HasFinalizer (meta k w) cr_finalizer = true) ∧
  ∀ e, e ∈ t → read_only (ev_call e) = true ∨
    ∃ w, ev_call e = Update k w ∧ HasFinalizer (meta k w) cr_finalizer = true.

Definition update_allowed (t : Trace) (w : kobj k) : Prop :=
  HasFinalizer (meta k w) cr_finalizer = true ∨
  (∃ u, answered t u ∧ Finalizers (meta k w) = Finalizers (meta k u)) ∨
  (∃ u, deletion_complete t u ∧ Name (meta k w) = Name (meta k u) ∧ Namespace (meta k w) = Namespace (meta k u)) ∨
  (∃ t', t' `prefix_of` t ∧ only_finalizer_added t' ∧
     ∀ e, e ∈ t → e ∈ t' ∨ read_only (ev_call e) = true ∨ ∃ w', ev_call e = Update k w').

Definition delete_allowed (t : Trace) (o : kobj cr_child) : Prop :=
  ∃ u sc, answered t u ∧ Deleting (meta k u) = true ∧ HasFinalizer (meta k u) cr_finalizer = true ∧
    sc ∈ all_classes u ∧ o = cr_child_named (child_key u sc) (cr_PVCNamespace u).

(** A call that writes neither the resource nor one of its children. *)
Definition other_call (c : Call) : bool :=
  match c with
  | Create k' _ | Update k' _ | UpdateStatus k' _ | Patch k' _ _ | Delete k' _ =>
      bool_decide (k' ≠ k) && bool_decide (k' ≠ cr_child)
  | _ => true
  end.

(** The guards for which the steps are proved: what a controller may do at
    least. *)
Class Guard (G : Trace → Call → Prop) := mkGuard {
  G_other : ∀ t c, other_call c = true → G t c;
  G_status : ∀ t w, status_allowed t w → G t (UpdateStatus k w);
  G_update : ∀ t w, update_allowed t w → G t (Update k w);
  G_delete : ∀ t o, delete_allowed t o → G t (Delete cr_child o);
}.

(** ** Monotonicity *)

Lemma answered_mono t t' u : t `prefix_of` t' → answered t u → answered t' u.
Proof.
  intros [x ->]. unfold answered. setoid_rewrite elem_of_app. naive_solver.
Qed.
Lemma current_of_mono t t' v : t `prefix_of` t' → current_of t v → current_of t' v.
Proof. intros Ht (u & ? & ?). exists u. split; [by eapply answered_mono|done]. Qed.
Lemma roughly_mono t t' v : t `prefix_of` t' → roughly t v → roughly t' v.
Proof. intros Ht (u & ? & ?). exists u. split; [by eapply answered_mono|done]. Qed.

Lemma kept_refl s : kept s s.
Proof. done. Qed.
Lemma kept_trans s1 s2 s3 : kept s1 s2 → kept s2 s3 → kept s1 s3.
Proof.
  intros (A1 & B1 & C1) (A2 & B2 & C2). split_and!; [| |congruence].
  - intros H. rewrite <-(A1 H). apply A2. by rewrite A1.
  - intros H. rewrite <-(B1 H). apply B2. by rewrite B1.
Qed.

Context {laws : CRLaws k}.

Lemma agree_refl u : agree u u.
Proof.
  exists (meta k u), (cr_Status u). rewrite set_meta_meta, set_status_id. done.
Qed.

Lemma agree_loose u v : agree u v → loose u v.
Proof.
  intros (m & s & -> & ? & ? & ? & ?). unfold loose. by rewrite meta_set_status, meta_set_meta, status_set_status.
Qed.

Lemma answered_current t u : answered t u → current_of t u.
Proof. intros. exists u. split; [done|apply agree_refl]. Qed.
Lemma current_roughly t v : current_of t v → roughly t v.
Proof. intros (u & ? & ?). exists u. split; [done|by apply agree_loose]. Qed.

(** The spec, the name and the namespace of the resource in memory are those
    of the answer it comes from. *)
Lemma agree_fields u v :
  agree u v →
  cr_Primary v = cr_Primary u ∧ cr_Topology v = cr_Topology u ∧ cr_Resync v = cr_Resync u ∧
  cr_PVCNamespace v = cr_PVCNamespace u ∧ Name (meta k v) = Name (meta k u) ∧
  Namespace (meta k v) = Namespace (meta k u) ∧ Finalizers (meta k v) = Finalizers (meta k u) ∧
  kept (cr_Status u) (cr_Status v).
Proof.
  intros (m & s & -> & Hn & Hns & Hf & Hk).
  rewrite primary_set, topology_set, resync_set, pvcns_set by done.
  rewrite meta_set_status, meta_set_meta, status_set_status. done.
Qed.

Lemma agree_set_status u v s : agree u v → kept (cr_Status v) s → agree u (cr_set_status v s).
Proof.
  intros (m & s0 & -> & ? & ? & ? & Hk). rewrite set_status_twice, status_set_status. intros Hs.
  exists m, s. split_and!; try done; by eapply kept_trans.
Qed.

Lemma loose_set_topology u v l : agree u v → loose u (cr_set_topology v l).
Proof. intros (? & ? & ?)%agree_loose. unfold loose. by rewrite meta_set_topology, status_set_topology. Qed.

Lemma set_meta_fields v m :
  cr_Status (set_meta k v m) = cr_Status v ∧ cr_Primary (set_meta k v m) = cr_Primary v ∧
  (Namespace m = Namespace (meta k v) → cr_PVCNamespace (set_meta k v m) = cr_PVCNamespace v).
Proof.
  assert (E : set_meta k v m = cr_set_status (set_meta k v m) (cr_Status v)).
  { by rewrite set_status_set_meta, set_status_id. }
  rewrite E. rewrite status_set_status, primary_set. split_and!; [done..|]. intros. by rewrite pvcns_set.
Qed.

Lemma set_meta_loose u v m :
  loose u v → Name m = Name (meta k v) → Namespace m = Namespace (meta k v) → loose u (set_meta k v m).
Proof.
  intros (Hn & Hns & Hk) H1 H2. destruct (set_meta_fields v m) as (Hs & _).
  unfold loose. rewrite meta_set_meta, Hs. split_and!; [congruence..|done].
Qed.

Lemma loose_same u v v' : loose u v → same_object k v v' → loose u v'.
Proof. intros Hl (-> & ? & ? & _). rewrite meta_set_meta in *. by apply set_meta_loose. Qed.

Lemma roughly_same t v v' : roughly t v → same_object k v v' → roughly t v'.
Proof. intros (u & ? & ?) ?. exists u. split; [done|by eapply loose_same]. Qed.

End Writes.

Arguments Guard k {cr} G.

(** ** What a run has seen *)

Section Observations.

Context {k : kind} {cr : CR k} {ve : VastErrors}.
Implicit Types v : kobj k.

Definition primary_switched (t : Trace) : Prop :=
  ∃ u : kobj k, answered t u ∧ CurrentPrimaryStorageClass (cr_Status u) ≠ cr_Primary u.

Lemma primary_switched_mono t t' : t `prefix_of` t' → primary_switched t → primary_switched t'.
Proof. intros Ht (u & ? & ?). exists u. split; [by eapply answered_mono|done]. Qed.

(** The path was read on the cluster of [sc] in a state that counts as
    active. *)
Definition ppath_active (t : Trace) (sc name : string) : Prop :=
  ∃ p, Ev (Vms sc (PpathGet name)) (inr p) ∈ t ∧
       checkPpathState (pp_Name p) (pp_State p) (pp_FailureReason p) = None.

(** The path was looked for on the cluster of [sc], with an error that says
    it is missing. *)
Definition ppath_lost (t : Trace) (sc name : string) : Prop :=
  ∃ r e, Ev (Vms sc (PpathGet name)) r ∈ t ∧
    match wrap_err ("failed to get protected path " +:+ quote name +:+ ": ") r with
    | inl e => Some e
    | inr p => checkPpathState (pp_Name p) (pp_State p) (pp_FailureReason p)
    end = Some e ∧ vast_IsNotFoundErr e = true.

(** In this run the protected path of the resource was read as active on the
    cluster of its primary class, or a stream of it was. *)
Definition ppath_ready (t : Trace) : Prop :=
  ∃ (w : kobj k) name, current_of t w ∧
    (ppath_active t (cr_Primary w) name ∨ first_stream_active (cr_Primary w) (Name (meta k w)) t name).

Lemma ppath_ready_mono t t' : t `prefix_of` t' → ppath_ready t → ppath_ready t'.
Proof.
  intros Ht (w & name & Hw & Hp). exists w, name. split; [by eapply current_of_mono|].
  destruct Hp as [(p & ? & ?)|Hp]; [left; exists p; split; [by eapply elem_of_prefix|done]|].
  right. by eapply first_stream_active_mono.
Qed.

Lemma ppath_lost_mono t t' sc name : t `prefix_of` t' → ppath_lost t sc name → ppath_lost t' sc name.
Proof. intros Ht (r & e & ? & ?). exists r, e. split; [by eapply elem_of_prefix|done]. Qed.

Definition child_deleted (t : Trace) (v : kobj k) (sc : string) : Prop :=
  ∃ r, @Ev Call resp (Delete cr_child (cr_child_named (child_key v sc) (cr_PVCNamespace v))) r ∈ t ∧
       ∀ e, r = inl e → IsNotFound (Some e) = true.
Definition child_missing (t : Trace) (v : kobj k) (sc : string) : Prop :=
  ∃ e, @Ev Call resp (Get cr_child (child_key v sc) (cr_PVCNamespace v)) (inl e) ∈ t.

Lemma child_deleted_mono t t' v sc : t `prefix_of` t' → child_deleted t v sc → child_deleted t' v sc.
Proof. intros [x ->] (r & ? & ?). exists r. split; [set_solver|done]. Qed.
Lemma child_missing_mono t t' v sc : t `prefix_of` t' → child_missing t v sc → child_missing t' v sc.
Proof. intros [x ->] (e & ?). exists e. set_solver. Qed.

Lemma sync_reported_mono t t' v d : t `prefix_of` t' → sync_reported t v d → sync_reported t' v d.
Proof.
  intros Ht (A & B & C). split_and!; [| |done]; intros Hd; [destruct (A Hd) as (o & ? & ?)|destruct (B Hd) as (o & ? & ?)];
    exists o; (split; [by eapply elem_of_prefix|done]).
Qed.

End Observations.

(** ** Objects that are created when missing *)

(** An object of this name exists: it was read, created, or creating it failed
    because it exists. *)
Definition object_seen (k : kind) (t : Trace) (name ns : string) : Prop :=
  (∃ o, @Ev Call resp (Get k name ns) (inr o) ∈ t) ∨
  (∃ o r, @Ev Call resp (Create k o) r ∈ t ∧ Name (meta k o) = name ∧ Namespace (meta k o) = ns ∧
          ∀ e, r = inl e → IsAlreadyExists (Some e) = true).

Lemma object_seen_mono k t t' name ns : t `prefix_of` t' → object_seen k t name ns → object_seen k t' name ns.
Proof. intros [x ->] [(o & ?)|(o & r & ? & ?)]; [left; exists o|right; exists o, r; split; [|done]]; set_solver. Qed.

Lemma wp_ensure (G : Trace → Call → Prop) k what (o : kobj k) h (Q : Trace → result bool → Prop) :
  G h (Get k (Name (meta k o)) (Namespace (meta k o))) →
  (∀ r, G (h ++ [Ev (Get k (Name (meta k o)) (Namespace (meta k o))) r]) (Create k o)) →
  (∀ h' r, h `prefix_of` h' →
     (∀ b, r = inr b → object_seen k h' (Name (meta k o)) (Namespace (meta k o))) → Q h' r) →
  wp G (ensure k what o) h Q.
Proof.
  intros HG HC HQ. unfold ensure. apply wp_bind_call; [exact HG|]. intros [e|o'].
  2: { apply wp_ret, HQ; [by apply prefix_app_r|]. intros _ _. left. exists o'. apply in_snoc. }
  destruct (negb _); [by apply wp_ret, HQ; [apply prefix_app_r|]|].
  apply wp_bind_call; [apply HC|]. intros r. apply wp_ret, HQ; [by do 2 apply prefix_app_r|].
  intros b Hb. right. exists o, r. split; [apply in_snoc|]. split_and!; [done..|].
  intros e' ->. by destruct (IsAlreadyExists (Some e')).
Qed.

(** ** A PVC with its PV *)

Lemma wp_GetPVCandPV (G : Trace → Call → Prop) name ns h (Q : Trace → result (PVC * option PV) → Prop) :
  (∀ h' k n n', G h' (Get k n n')) →
  (∀ h' r, h `prefix_of` h' →
     (∀ pvc pv, r = inr (pvc, Some pv) →
        Ev (Get kPVC name ns) (inr pvc) ∈ h' ∧ Ev (Get kPV (pvc_VolumeName pvc) "") (inr pv) ∈ h') → Q h' r) →
  wp G (GetPVCandPV name ns) h Q.
Proof.
  intros HG HQ. unfold GetPVCandPV. apply wp_bind_call; [done|].
  intros [e|pvc]; [apply wp_ret, HQ; [by apply prefix_app_r|done]|].
  apply wp_bind. unfold GetPVFromPVC. case_bool_decide; [do 2 apply wp_ret; apply HQ; [by apply prefix_app_r|done]|].
  apply wp_bind_call; [done|]. intros [e|pv]; do 2 apply wp_ret.
  - destruct (IsNotFound (Some e)); (apply HQ; [by do 2 apply prefix_app_r|done]).
  - apply HQ; [by do 2 apply prefix_app_r|]. intros ? ? [= <- <-].
    split; [apply elem_of_app; left|]; apply in_snoc.
Qed.

(** ** Predictions only read *)

Lemma reads_predict `{Lookups} sc vol ns : calls_in (fun c => read_only c = true) (predict sc vol ns).
Proof. unfold predict, GetPVCandPV, GetPVFromPVC. repeat (calls_step || done). Qed.

Lemma reads_predict_dirs `{Lookups} vol ns scs m :
  calls_in (fun c => read_only c = true) (predict_dirs vol ns scs m).
Proof.
  revert m. induction scs as [|sc scs IH]; intros m; cbn [predict_dirs]; [done|].
  destruct (lk_GetStorageClass sc); [done|]. apply calls_in_bind; [apply reads_predict|].
  intros [e|dir]; [done|apply IH].
Qed.

Lemma read_other `{CR k} c : read_only c = true → other_call (k := k) c = true.
Proof. by destruct c. Qed.

Lemma reads_others `{CR k} {A} (p : Prog A) :
  calls_in (fun c => read_only c = true) p → calls_in (fun c => other_call (k := k) c = true) p.
Proof. apply calls_in_mono. intros c. apply read_other. Qed.

(** ** Programs that write neither the resource nor its children *)

Section Others.

Context {steps : RetrySteps} {lk : Lookups} {mo : MapOrder} {k : kind} {cr : CR k} {laws : CRLaws k}.
Implicit Types v : kobj k.

Lemma other_kind k' :
  k' ∉ [kVSCR; kVVR; kVGR; kVR] → bool_decide (k' ≠ k) && bool_decide (k' ≠ cr_child) = true.
Proof.
  intros Hk. rewrite andb_true_iff, !bool_decide_eq_true.
  destruct own_kind as [E|E], child_kind as [E'|E']; rewrite E' at 1; rewrite E; set_solver.
Qed.

Lemma others_ApplyExistingPVCs sc cls :
  calls_in (fun c => other_call (k := k) c = true) (ApplyExistingPVCs sc cls).
Proof. client_calls; try done; intros; apply other_kind; set_solver. Qed.

Lemma others_touch vscr :
  calls_in (fun c => other_call (k := k) c = true) (TouchConstellationVRCs vscr).
Proof.
  unfold TouchConstellationVRCs, touchVRCsForStorageClasses. apply calls_in_bind; [by apply calls_in_call|].
  intros ts. apply calls_in_touch_loop; [done|]. intros b o. apply other_kind. set_solver.
Qed.

Lemma others_delete_ppath v : calls_in (fun c => other_call (k := k) c = true) (delete_ppath v).
Proof. unfold delete_ppath. repeat (calls_step || done). Qed.

Lemma others_DeleteProtectionPolicies owner primary topo :
  calls_in (fun c => other_call (k := k) c = true) (DeleteProtectionPolicies owner primary topo).
Proof.
  unfold DeleteProtectionPolicies. cbv zeta. generalize (map_order "policies" (dom (ProtectionPolicyNamesByStorageClass owner primary topo))).
  intros scs. induction scs as [|sc scs IH]; cbn [delete_policies_by_class]; [done|].
  destruct (NewFromStorageClassName sc); [done|]. apply calls_in_bind; [|done].
  induction (default [] _) as [|n ns IHn]; cbn [delete_policies]; [done|].
  repeat (exact IHn || calls_step || done).
Qed.

End Others.

(** ** Rules *)

Section Rules.

Context {steps : RetrySteps} {lk : Lookups} {ve : VastErrors} {sd : ShowDuration} {mo : MapOrder}
  {refs : OwnerRefs} {cfg : Config} {k : kind} {cr : CR k} {laws : CRLaws k}.

Context (G : Trace → Call → Prop) {guard : Guard k G}.

Implicit Types (h : Trace) (v : kobj k).

(** What a step leaves behind. *)
Definition post {A} (R : Trace → kobj k → A → Prop) (h : Trace) (x : kobj k * outcome A) : Prop :=
  roughly h x.1 ∧ ∀ a, x.2 = Done a → current_of h x.1 ∧ R h x.1 a.

Lemma wpM_bind {A B} (m : M k A) (f : A → M k B) h v R R' :
  wp G (m v) h (post R) →
  (∀ h' v' a, h `prefix_of` h' → current_of h' v' → R h' v' a → wp G (f a v') h' (post R')) →
  wp G ((m ≫= f) v) h (post R').
Proof.
  intros Hm Hf. change ((m ≫= f) v) with (M_bind k A B f m v). unfold M_bind. apply wp_bind.
  eapply wp_post; [by apply wp_prefix|]. intros h' [v' [a|e|]] [Hh [Hr Hd]].
  - destruct (Hd a eq_refl). by apply Hf.
  - split; [done|]. done.
  - split; [done|]. done.
Qed.

Lemma wpM_seq {A B} (m : M k A) (f : A → M k B) h v Q :
  wp G (m v) h (fun h' x =>
    match x.2 with
    | Done a => wp G (f a x.1) h' Q
    | Failed e => Q h' (x.1, Failed e)
    | Panicked => Q h' (x.1, Panicked)
    end) →
  wp G ((m ≫= f) v) h Q.
Proof.
  intros Hm. change ((m ≫= f) v) with (M_bind k A B f m v). unfold M_bind. apply wp_bind.
  eapply wp_post; [exact Hm|]. by intros h' [v' [a|e|]].
Qed.

Lemma wpM_ret {A} (a : A) h v (R : Trace → kobj k → A → Prop) :
  current_of h v → R h v a → wp G ((mret a : M k A) v) h (post R).
Proof. intros Hc HR. split; [by apply current_roughly|]. by intros ? [= <-]. Qed.

Lemma wpM_current h v (R : Trace → kobj k → kobj k → Prop) :
  current_of h v → R h v v → wp G ((current : M k (kobj k)) v) h (post R).
Proof. intros Hc HR. split; [by apply current_roughly|]. by intros ? [= <-]. Qed.

Lemma wpM_pure {A} (r : outcome A) h v (R : Trace → kobj k → A → Prop) :
  current_of h v → (∀ a, r = Done a → R h v a) → wp G ((pure r : M k A) v) h (post R).
Proof. intros Hc HR. split; [by apply current_roughly|]. intros a Ha. split; [done|by apply HR]. Qed.

Lemma wpM_lift {A} (p : Prog (outcome A)) h v (R : Trace → kobj k → A → Prop) :
  current_of h v → wp G p h (fun h' r => ∀ a, r = Done a → R h' v a) →
  wp G ((lift p : M k A) v) h (post R).
Proof.
  intros Hc Hp. apply wp_bind. eapply wp_post; [by apply wp_prefix|]. intros h' r [Hh HR].
  assert (current_of h' v) by (by eapply current_of_mono).
  split; [by apply current_roughly|]. intros a Ha. split; [done|by apply HR].
Qed.

(** Programs that write neither the resource nor its children. *)
Lemma wp_others {A} (p : Prog A) h (Q : Trace → A → Prop) :
  calls_in (fun c => other_call (k := k) c = true) p →
  (∀ h' a, h `prefix_of` h' → Q h' a) → wp G p h Q.
Proof. intros Hp HQ. eapply wp_calls_in; [exact Hp| |done]. intros h' c _ Hc. by apply G_other. Qed.

(** *** Status updates *)

Lemma wp_update_status_of h v (Q : Trace → kobj k * option error → Prop) :
  (∀ h' v', h `prefix_of` h' → same_object k v v' → status_allowed h' v') →
  (∀ h' v', h `prefix_of` h' → answered h' v' → Q h' (v', None)) →
  (∀ h' v' e, h `prefix_of` h' → same_object k v v' → Q h' (v', Some e)) →
  wp G (update_status_of v) h Q.
Proof.
  intros HS HQ HE. unfold update_status_of, update_object_status, UpdateStatusWithRetry. apply wp_bind.
  apply (wp_retried_write _ _ _ _ _ (fun h' v' => answered h' v')).
  - intros h' v' Hh Hv. split; [by apply G_status, HS|]. intros r. split; [by apply prefix_app_r|].
    destruct r as [e|o]; [done|]. right; right; left. exists v'. set_solver.
  - intros h' v' Hh Hv. by apply G_other.
  - intros h' v' Hh Hv. by apply wp_ret, HQ.
  - intros h' v' e Hh Hv. by apply wp_ret, HE.
Qed.

Lemma wp_save_status h v (R : Trace → kobj k → unit → Prop) :
  roughly h v → (∀ h' v', h `prefix_of` h' → R h' v' tt) → wp G (save_status v) h (post R).
Proof.
  intros Hr HR. unfold save_status, on_object. apply wp_bind, wp_update_status_of.
  - intros h' v' Hh Hv. left. eapply roughly_same; [|done]. by eapply roughly_mono.
  - intros h' v' Hh Hv. assert (current_of h' v') by (by apply answered_current).
    split; [by apply current_roughly|]. intros [] _. split; [done|by apply HR].
  - intros h' v' e Hh Hv. split; [|done]. eapply roughly_same; [|done]. by eapply roughly_mono.
Qed.

(** A status field is changed and saved. *)
Lemma wp_set_and_save f h v (R : Trace → kobj k → unit → Prop) :
  current_of h v → kept (cr_Status v) (f (cr_Status v)) → (∀ h' v', h `prefix_of` h' → R h' v' tt) →
  wp G (store_status f v) h (post R).
Proof.
  intros (u & Hu & Hv) Hk HR.
  apply (wp_save_status h (cr_set_status v (f (cr_Status v)))); [|done].
  apply current_roughly. exists u. split; [done|]. by apply agree_set_status.
Qed.

(** *** Finalizer *)

Lemma wp_EnsureFinalizer h v (Q : Trace → kobj k * (bool * option error) → Prop) :
  (∀ h' v', h `prefix_of` h' → answered h' v' →
     (∃ w r, @Ev Call resp (Update k w) r ∈ h' ∧ HasFinalizer (meta k w) cr_finalizer = true) →
     Q h' (v', (true, None))) →
  (∀ h' v' e, h `prefix_of` h' → same_object k (set_meta k v (add_finalizer (meta k v) cr_finalizer).1) v' →
     Q h' (v', (true, Some e))) →
  (HasFinalizer (meta k v) cr_finalizer = true → Q h (v, (false, None))) →
  wp (fun h' c => G h' c ∧ (read_only c = true ∨ ∃ w, c = Update k w ∧ HasFinalizer (meta k w) cr_finalizer = true))
    (EnsureFinalizer k v cr_finalizer) h Q.
Proof.
  intros HQ HE HN. unfold EnsureFinalizer, add_finalizer in *.
  destruct (HasFinalizer (meta k v) cr_finalizer) eqn:Hf.
  { apply wp_ret. rewrite set_meta_meta. auto. }
  simpl in HE. unfold updateFinalizerWithRetry. apply wp_bind.
  set (v0 := set_meta k v _) in *.
  assert (Hv0 : ∀ v', same_object k v0 v' → HasFinalizer (meta k v') cr_finalizer = true).
  { intros v' (_ & _ & _ & _ & _ & Hv & _). unfold HasFinalizer. rewrite Hv. unfold v0. rewrite meta_set_meta.
    apply bool_decide_eq_true. simpl. set_solver. }
  apply (wp_retried_write _ _ _ _ _ (fun h' v' => answered h' v' ∧
     ∃ w r, @Ev Call resp (Update k w) r ∈ h' ∧ HasFinalizer (meta k w) cr_finalizer = true)).
  - intros h' v' Hh Hv. split.
    { split; [apply G_update; left; by apply Hv0|]. right. exists v'. split; [done|by apply Hv0]. }
    intros r. split; [by apply prefix_app_r|]. destruct r as [e|o]; [done|]. split.
    + right; left. exists v'. set_solver.
    + exists v', (inr o). split; [set_solver|by apply Hv0].
  - intros h' v' Hh Hv. split; [by apply G_other|by left].
  - intros h' v' Hh [Ha Hw]. apply wp_ret. by apply HQ.
  - intros h' v' e Hh Hv. apply wp_ret. by apply HE.
Qed.

(** Taking the finalizer back. *)
Lemma wp_rollback h1 h2 v :
  answered h2 v → h1 `prefix_of` h2 → only_finalizer_added h1 →
  (∀ e, e ∈ h2 → e ∈ h1 ∨ read_only (ev_call e) = true) →
  let P c := read_only c = true ∨ ∃ w : kobj k, c = Update k w in
  wp (fun h' c => (∀ e, e ∈ h' → e ∈ h2 ∨ P (ev_call e)) → G h' c ∧ P c)
    (RemoveFinalizer k v cr_finalizer) h2 (fun h' x => roughly h' x.1).
Proof.
  intros Hv Hh1 Hof Htr P. apply wp_RemoveFinalizer.
  - intros h3 w Hh3 Hw Hall. split; [apply G_update|right; by exists w].
    right; right; right. exists h1. split; [by etrans|]. split; [done|].
    intros e [He|He]%Hall; [|by right]. destruct (Htr e He); auto.
  - intros h3 Hh3 _. split; [by apply G_other|by left].
  - intros h3 v3 err Hh3 [Hs|(u & _ & Hu)].
    + eapply roughly_same; [|exact Hs]. eapply roughly_mono; [exact Hh3|]. exists v. split; [done|].
      by apply set_meta_loose; [apply agree_loose, agree_refl|..].
    + apply current_roughly, answered_current. right; left. by exists u.
Qed.

Lemma wp_finalizer_step validateOnce h v (R : Trace → kobj k → unit → Prop) :
  answered h v → (∀ e, e ∈ h → read_only (ev_call e) = true) →
  (∀ v, calls_in (fun c => read_only c = true) (validateOnce v)) →
  (∀ h' v', h `prefix_of` h' → answered h' v' → R h' v' tt) →
  wp G (finalizer_step validateOnce v) h (post R).
Proof.
  intros Hv Hro Hval HR. unfold finalizer_step. apply wp_bind.
  eapply wp_post; [apply wp_prefix, (wp_guard_trace (fun c => read_only c = true ∨
      ∃ w, c = Update k w ∧ HasFinalizer (meta k w) cr_finalizer = true))|].
  { eapply wp_mono; [by intros ? ? Hg _; exact Hg|by intros ? ? HQ; exact HQ|].
    eapply (wp_EnsureFinalizer h v (fun h' x =>
      (∀ e, x.2.2 = Some e → same_object k (set_meta k v (add_finalizer (meta k v) cr_finalizer).1) x.1) ∧
      (x.2.2 = None → answered h' x.1 ∧ (x.2.1 = true → ∃ w r,
         @Ev Call resp (Update k w) r ∈ h' ∧ HasFinalizer (meta k w) cr_finalizer = true)))).
    - intros h' v' Hh Ha Hw. split; [done|]. done.
    - intros h' v' e Hh Hs. split; [|done]. done.
    - intros _. split; [done|]. done. }
  intros h1 [v1 [ensured [e|]]] [Hh1 [[HE HN] Htr]]; simpl in HE, HN.
  { apply wp_ret. split; [|done]. simpl. eapply roughly_same; [|by apply (HE e)].
    eapply roughly_mono; [done|]. exists v. split; [done|]. apply set_meta_loose.
    - apply agree_loose, agree_refl.
    - unfold add_finalizer. by case_match.
    - unfold add_finalizer. by case_match. }
  destruct (HN eq_refl) as [Ha Hadd]. assert (Hc : current_of h1 v1) by (by apply answered_current).
  assert (Hdone : post R h1 (v1, Done tt)).
  { split; [by apply current_roughly|]. intros [] _. split; [done|by apply HR]. }
  destruct ensured; [|exact Hdone]. specialize (Hadd eq_refl).
  assert (Hof : only_finalizer_added h1).
  { split; [exact Hadd|]. intros e [He|He]%Htr; [left; by apply Hro|exact He]. }
  apply wp_bind. eapply wp_post; [apply wp_prefix, (wp_guard_trace (fun c => read_only c = true))|].
  { eapply wp_calls_in; [apply Hval| |by intros; exact I].
    intros h' c Hh Hr _. split; [apply G_other|done]. by destruct c. }
  intros h2 [[]|e|] [Hh2 [_ Htr2]].
  - apply wp_ret. split; [simpl; apply current_roughly; by eapply current_of_mono|].
    intros [] _. split; [by eapply current_of_mono|apply HR; [by etrans|by eapply answered_mono]].
  - apply wp_bind. eapply wp_post; [apply (wp_guard_trace (fun c => read_only c = true ∨ ∃ w, c = Update k w))|].
    { apply (wp_rollback h1 h2); try done. by eapply answered_mono. }
    intros h3 [v2 err] [Hr _]. apply wp_ret. by split.
  - apply wp_ret. split; [|done]. simpl. apply current_roughly. by eapply current_of_mono.
Qed.

(** *** Status fields and backfill *)

Lemma agree_ensures v changed :
  (∀ v1 c, ensurePrimaryStorageClass v = (v1, c) →
     agree v v1 ∧ (c = true → CurrentPrimaryStorageClass (cr_Status v) ≠ cr_Primary v)) ∧
  agree v (status_fields_changed changed v).1.
Proof.
  assert (Hset : ∀ v s, kept (cr_Status v) s → agree v (cr_set_status v s)).
  { intros v0 s Hs. apply agree_set_status; [apply agree_refl|done]. }
  split.
  - intros v1 c. unfold ensurePrimaryStorageClass. case_bool_decide; intros [= <- <-]; [by split; [apply agree_refl|]|].
    split; [by apply Hset|done].
  - unfold status_fields_changed, ensureStorageClassPreview, ensureLastFailoverType.
    case_bool_decide; [|by apply Hset]. destruct changed; [apply agree_refl|].
    case_bool_decide; [apply agree_refl|by apply Hset].
Qed.

Lemma agree_trans v1 v2 v3 : agree v1 v2 → agree v2 v3 → agree v1 v3.
Proof.
  intros (m & s & -> & ? & ? & ? & ?) (m' & s' & -> & Hn & Hns & Hf & Hk).
  rewrite meta_set_status, meta_set_meta in Hn, Hns, Hf. rewrite status_set_status in Hk.
  exists m', s'. rewrite set_status_set_meta, set_status_twice, set_status_set_meta, set_meta_twice,
    <-set_status_set_meta. split_and!; [done|congruence..|by eapply kept_trans].
Qed.

Lemma wp_status_step scs h v (R : Trace → kobj k → bool → Prop) :
  answered h v →
  (∀ h' v' changed, h `prefix_of` h' → (changed = true → primary_switched h') → R h' v' changed) →
  wp G (status_step scs v) h (post R).
Proof.
  intros Hv HR. unfold status_step. destruct (agree_ensures v true) as [Hens _].
  destruct (ensurePrimaryStorageClass v) as [v1 pc]. destruct (Hens _ _ eq_refl) as [Hv1 Hpc].
  assert (Hsw : ∀ h', h `prefix_of` h' → pc = true → primary_switched h').
  { intros h' Hh Ht. exists v. split; [by eapply answered_mono|auto]. }
  assert (Hcur : ∀ h' w, h `prefix_of` h' → agree v1 w → current_of h' w).
  { intros h' w Hh Hw. exists v. split; [by eapply answered_mono|by eapply agree_trans]. }
  apply wp_bind, wp_others.
  { destruct (_ && _); [|done]. destruct (scs !! _); [|done]. apply calls_in_bind; [apply others_ApplyExistingPVCs|done]. }
  intros h1 r Hh1. assert (Hc1 : current_of h1 v1) by (apply Hcur; [done|apply agree_refl]).
  destruct r as [[]|e|]; [|by split; [apply current_roughly|]..].
  destruct (agree_ensures v1 pc) as [_ Hv2].
  destruct (status_fields_changed pc v1) as [v2 changed]. simpl in Hv2.
  assert (Hc2 : current_of h1 v2) by (by apply Hcur).
  destruct changed; [|split; [by apply current_roughly|]; intros a [= <-]; split; [done|by apply HR; auto]].
  apply wp_bind, wp_update_status_of.
  - intros h2 v' Hh2 Hs. left. eapply roughly_same; [|exact Hs]. eapply roughly_mono; [exact Hh2|].
    by apply current_roughly.
  - intros h2 v' Hh2 Ha. assert (current_of h2 v') by (by apply answered_current). apply wp_ret.
    split; [by apply current_roughly|]. intros a [= <-].
    assert (h `prefix_of` h2) by (by etrans). split; [done|by apply HR; auto].
  - intros h2 v' e Hh2 Hs. apply wp_ret. split; [|done]. simpl. eapply roughly_same; [|exact Hs].
    eapply roughly_mono; [exact Hh2|]. by apply current_roughly.
Qed.

(** *** Peers, directories, tenants *)

Lemma wp_peers_step clients h v (R : Trace → kobj k → bool → Prop) :
  current_of h v → (∀ h' v' a, h `prefix_of` h' → R h' v' a) → wp G (peers_step clients v) h (post R).
Proof.
  intros (u & Hu & Hv) HR. assert (Hc : current_of h v) by (by exists u). unfold peers_step.
  destruct (hasUnresolvedPeers _); [|split; [by apply current_roughly|]; intros a [= <-]; auto].
  destruct (ResolveAndFetchTopologyPeers _ _) as [l err]. set (v1 := cr_set_topology v l).
  assert (Hr : roughly h v1) by (exists u; split; [done|by apply loose_set_topology]).
  destruct err as [e|]; [by split|]. unfold update_spec.
  apply wp_bind, wp_bind.
  apply (wp_retried_write _ _ _ _ _ (fun h' v' => answered h' v')).
  - intros h' v' Hh Hs. split.
    + apply G_update. right; left. exists u. split; [by eapply answered_mono|].
      destruct Hs as (_ & _ & _ & _ & _ & -> & _). unfold v1. rewrite meta_set_topology.
      by destruct (agree_fields _ _ Hv) as (_ & _ & _ & _ & _ & _ & -> & _).
    + intros r. split; [by apply prefix_app_r|]. destruct r as [e|o]; [done|].
      right; left. exists v'. set_solver.
  - intros h' v' Hh Hs. by apply G_other.
  - intros h' v' Hh Ha. assert (current_of h' v') by (by apply answered_current). do 2 apply wp_ret.
    split; [by apply current_roughly|]. intros a [= <-]. auto.
  - intros h' v' e Hh Hs. do 2 apply wp_ret. split; [|done]. simpl. eapply roughly_same; [|exact Hs].
    by eapply roughly_mono.
Qed.

Lemma wp_dirs_step predictAll h v (R : Trace → kobj k → unit → Prop) :
  current_of h v → (∀ v, calls_in (fun c => other_call (k := k) c = true) (predictAll v)) →
  (∀ h' v', h `prefix_of` h' → R h' v' tt) →
  wp G (dirs_step predictAll v) h (post R).
Proof.
  intros Hc Hp HR. unfold dirs_step.
  eapply wpM_bind; [by apply (wpM_current _ _ (fun _ v a => v = a))|]. intros h1 v1 ? Hh1 Hc1 <-.
  case_bool_decide as Hm; [|apply wpM_ret; auto].
  eapply wpM_bind; [apply (wpM_lift _ _ _ (fun _ v' _ => v' = v1)); [done|]|].
  { apply wp_others; [|done]. apply calls_in_bind; [apply Hp|done]. }
  intros h2 v2 m Hh2 Hc2 ->. apply wp_set_and_save; [done| |intros; apply HR; by do 2 (etrans; [done|])].
  by split; [rewrite Hm|].
Qed.

Lemma wp_tenants_step scs h v (R : Trace → kobj k → unit → Prop) :
  current_of h v → (∀ h' v', h `prefix_of` h' → R h' v' tt) → wp G (tenants_step scs v) h (post R).
Proof.
  intros Hc HR. unfold tenants_step.
  eapply wpM_bind; [by apply (wpM_current _ _ (fun _ v a => v = a))|]. intros h1 v1 ? Hh1 Hc1 <-.
  case_bool_decide as Hm; [|apply wpM_ret; auto].
  eapply wpM_bind; [by apply (wpM_pure _ _ _ (fun _ v' _ => v' = v1))|].
  intros h2 v2 m Hh2 Hc2 ->. apply wp_set_and_save; [done| |intros; apply HR; by do 2 (etrans; [done|])].
  by split_and!; [|rewrite Hm|].
Qed.

(** *** The protected path *)

Lemma wp_verify_ppath clients name h v (R : Trace → kobj k → string → Prop) :
  current_of h v →
  (∀ h' v', h `prefix_of` h' → current_of h' v' → ppath_ready h' → R h' v' name) →
  (∀ h' v' sc, h `prefix_of` h' → current_of h' v' → ppath_lost h' sc name → R h' v' "") →
  wp G (verify_ppath clients name v) h (post R).
Proof.
  intros Hc HA HN. unfold verify_ppath.
  eapply wpM_bind; [by apply (wpM_current _ _ (fun _ v a => v = a))|]. intros h1 v1 ? Hh1 Hc1 <-.
  case_bool_decide; [|by apply wpM_pure].
  eapply wpM_bind; [apply (wpM_lift _ _ _ (fun h' v' err => v' = v1 ∧
    (err = None → ppath_active h' (cr_Primary v1) name) ∧
    (IsNotFoundErr err = true → ppath_lost h' (cr_Primary v1) name))); [done|]|].
  { unfold IsPpathActive, GetPpath, getPpathRecord. apply wp_bind_call; [by apply G_other|].
    intros r a. cbn. intros [= <-]. split; [done|]. split.
    - destruct r as [e|p]; simpl; [done|]. intros Hs. exists p. split; [set_solver|done].
    - destruct (match wrap_err _ r with inl e => Some e | inr p => _ end) as [e|] eqn:He; [|done].
      intros Hnf. exists r, e. split; [set_solver|done]. }
  intros h2 v2 [e|] Hh2 Hc2 (-> & Ha & Hl).
  - destruct (vast_IsNotFoundErr e) eqn:He; [|by apply wpM_pure].
    eapply wpM_bind; [by apply (wp_set_and_save _ _ _ (fun _ _ _ => True))|].
    intros h3 v3 [] Hh3 Hc3 _. apply wpM_ret; [done|].
    destruct (Hl He) as (r & e' & ? & ?).
    apply (HN _ _ (cr_Primary v1)); [by do 2 (etrans; [done|])|done|].
    exists r, e'. split; [by eapply elem_of_prefix|done].
  - apply wpM_ret; [done|]. apply HA; [by etrans|done|]. exists v1, name. split; [done|]. left. by apply Ha.
Qed.

Lemma wp_DiscoverLinkPolicies clients tenants edges tmpl h (Q : Trace → result (gmap string (list ReplicationLink)) → Prop) :
  (∀ h' r, h `prefix_of` h' → Q h' r) → wp G (DiscoverLinkPolicies clients tenants edges tmpl) h Q.
Proof.
  intros HQ. unfold DiscoverLinkPolicies.
  destruct (buildNativeReplicaTargetsBySC _ _ _) as [e|targets]; [by apply wp_ret, HQ|].
  eapply wp_mono; [|intros ? ? HQ'; exact HQ'|].
  2: { apply (wp_link_policies clients tenants targets tmpl edges); [done| |].
       - intros sc l. unfold links_at. by rewrite lookup_empty, elem_of_nil.
       - intros h' r Hh _. by apply HQ. }
  intros h' c Hc. apply G_other. by destruct c.
Qed.

Lemma wp_establish_ppath clients scs h v (R : Trace → kobj k → string → Prop) :
  current_of h v →
  (∀ h' v' name, h `prefix_of` h' → current_of h' v' → ppath_ready h' → R h' v' name) →
  wp G (establish_ppath clients scs v) h (post R).
Proof.
  intros Hc HR. unfold establish_ppath.
  eapply wpM_bind; [by apply (wpM_current _ _ (fun _ v a => v = a))|]. intros h1 v1 ? Hh1 Hc1 <-. cbv zeta.
  eapply wpM_bind; [apply (wpM_lift _ _ _ (fun _ v' _ => v' = v1)); [done|]|].
  { apply wp_bind, wp_DiscoverLinkPolicies. done. }
  intros h2 v2 pairs Hh2 Hc2 ->.
  eapply wpM_bind; [by apply (wpM_pure _ _ _ (fun _ v' _ => v' = v1))|]. intros h3 v3 sc Hh3 Hc3 ->.
  eapply wpM_bind; [apply (wpM_lift _ _ _ (fun h' v' name => v' = v1 ∧
    first_stream_active (cr_Primary v1) (Name (meta k v1)) h' name)); [done|]|].
  { apply wp_bind. eapply wp_mono; [|intros ? ? HQ'; exact HQ'|].
    2: { apply (wp_EnsureConstellationPpath pairs (cr_Primary v1) (Name (meta k v1)) (PpathDirMapping (cr_Status v1))
           (negb (IsBlockStorageClass sc))).
         intros h' name err Hh Hest. apply wp_ret. destruct err as [e|]; [done|].
         intros ? [= <-]. split; [done|]. by apply Hest. }
    intros h' c Hg. apply G_other. by destruct c. }
  intros h4 v4 name Hh4 Hc4 [-> Hact].
  eapply wpM_bind; [by apply (wp_set_and_save _ _ _ (fun _ _ _ => True))|].
  intros h5 v5 [] Hh5 Hc5 _. apply wpM_ret; [done|].
  assert (h4 `prefix_of` h5) by done. apply HR; [by do 4 (etrans; [done|])|done|].
  exists v1, name. split; [by eapply current_of_mono|right; by eapply first_stream_active_mono].
Qed.

(** *** The children *)

Lemma wp_ensure_children ensureChild ns (I : list string → Trace → Prop) scs errs h :
  (∀ sc scs h, I (sc :: scs) h → wp G (ensureChild sc) h (fun h' _ => I scs h')) →
  (∀ scs h h', I scs h → h `prefix_of` h' → (∀ e, e ∈ h' → e ∈ h ∨ read_only (ev_call e) = true) → I scs h') →
  I scs h → wp G (ensure_children ensureChild ns scs errs) h (fun h' _ => I [] h').
Proof.
  intros Hch Hro. revert errs h. induction scs as [|sc scs IH]; intros errs h Hi; cbn [ensure_children]; [done|].
  apply wp_bind. eapply wp_post; [by apply Hch|]. intros h1 [[name created] err] Hi1. cbv zeta.
  apply wp_bind.
  assert (Hrest : ∀ h2, I scs h2 → wp G (ensure_children ensureChild ns scs
            (DeferredError_Add errs (wrap_opt ("SC " +:+ sc +:+ ": ") err))) h2 (fun h' _ => I [] h')) by auto.
  destruct (_ && _); [|by apply wp_ret, Hrest].
  eapply wp_post; [apply wp_prefix, (wp_guard_trace (fun c => read_only c = true))|].
  { eapply (wp_calls_in (fun c => read_only c = true)); [|intros h' c _ Hc _; split; [apply G_other; by destruct c|done]|by intros; exact Logic.I].
    client_calls; done. }
  intros h2 [] [Hh2 [_ Htr]]. apply Hrest. by eapply Hro.
Qed.

(** The state of a child is patched on a fresh copy of it. *)
Lemma wp_patch_state what up existing s h (Q : Trace → option error → Prop) :
  (∀ h' b, h `prefix_of` h' →
     @Ev Call resp (Get cr_child (Name (meta cr_child existing)) (Namespace (meta cr_child existing))) (inr b) ∈ h' →
     G h' (Patch cr_child b (cr_child_set_state b s))) →
  (∀ h' err, h `prefix_of` h' → Q h' err) →
  wp G (patch_fresh cr_child what up (fun b => cr_child_set_state b s) existing) h Q.
Proof.
  intros HG HQ. unfold patch_fresh. apply wp_bind.
  apply (wp_RetryOnConflict _ _ _ _ _ (fun h' _ => h `prefix_of` h')); [done|].
  intros h' [] Hh. apply wp_bind_call; [by apply G_other|]. intros [e|b].
  { split; [by apply wp_ret, HQ, prefix_app_r|intros _; by apply prefix_app_r]. }
  destruct (up b); [split; [by apply wp_ret, HQ, prefix_app_r|intros _; by apply prefix_app_r]|].
  apply wp_bind_call; [apply HG; [by apply prefix_app_r|apply in_snoc]|].
  intros r. split; [apply wp_ret, HQ|intros _]; by do 2 apply prefix_app_r.
Qed.

(** [Work] is what the children's steps need of the history, [fresh] says that
    no child was created yet; the first class is the primary one. *)
Lemma wp_children_step key (Work : Trace → Prop) (fresh : Trace → Prop) ensureChild syncStates h v :
  (∀ h h', h `prefix_of` h' → Work h → Work h') → (∀ h, Work h → current_of h v) →
  (∀ h h', fresh h → (∀ e, e ∈ h' → e ∈ h ∨ read_only (ev_call e) = true) → fresh h') →
  (∀ sc h, Work h → sc ∈ all_classes v → (sc = cr_Primary v → fresh h) →
     wp G (ensureChild v sc) h (fun h' _ => Work h')) →
  (∀ h, Work h → wp G (syncStates v) h (fun h' _ => Work h')) →
  Work h → fresh h →
  wp G (children_step key ensureChild syncStates v) h (fun h' x => roughly h' x.1).
Proof.
  intros Hmono Hcur Hfresh Hensure Hsync Hw Hf. unfold children_step. apply wp_bind.
  eapply wp_post; [apply (wp_ensure_children _ _ (fun scs h => Work h ∧ (∀ sc, sc ∈ scs → sc ∈ all_classes v) ∧
    ((fresh h ∧ scs = classes_primary_first v) ∨ cr_Primary v ∉ scs)))|].
  - intros sc scs h' (Hw' & Hin & Hfirst).
    eapply wp_post; [apply Hensure; [done|set_solver|]|].
    { intros ->. destruct Hfirst as [[? _]|Hni]; [done|]. set_solver. }
    intros h2 x Hw2. split_and!; [done|set_solver|]. right. clear x Hw2.
    destruct Hfirst as [[_ Hl]|Hni]; [|set_solver].
    assert (Ht := primary_not_in_tail (cr_Primary v) (cr_Topology v)).
    change (primary_first _ _) with (classes_primary_first v) in Ht. by rewrite <-Hl in Ht.
  - intros scs h1 h2 (Hw1 & Hin & Hfirst) Hh Htr. split_and!; [by eapply Hmono|done|].
    destruct Hfirst as [[Hn1 Hl]|]; [left|by right]. split; [by eapply Hfresh|done].
  - split_and!; [done| |by left]. intros sc. apply elem_of_primary_first.
  - intros h1 errs (Hw1 & _). apply wp_bind. eapply wp_post; [by apply Hsync|].
    intros h2 err Hw2%Hcur%current_roughly. destruct (DeferredError_Err _); [done|].
    apply wp_bind_call; [by apply G_other|]. intros []. eapply roughly_mono; [|exact Hw2]. by apply prefix_app_r.
Qed.

(** *** The resync branch clears the flag it acts on *)

Lemma wp_clear_resync (clear : kobj k → kobj k) h v (Q : Trace → kobj k * option error → Prop) :
  (∀ h' b, h `prefix_of` h' → G h' (Patch k b (clear b))) → (∀ b, loose b (clear b)) → current_of h v →
  (∀ h' v' err, h `prefix_of` h' → roughly h' v' → (err = None → current_of h' v') → Q h' (v', err)) →
  wp G (PatchWithRetry k v clear) h Q.
Proof.
  intros HG Hcl Hc HQ. unfold PatchWithRetry. apply wp_bind, wp_patched.
  - intros h' c Hh [->|(b & ->)]; [by apply G_other|by apply HG].
  - intros h' o x e Hh Ho. apply wp_ret, HQ; [done| |done].
    destruct Ho as [->|(b & Hb & ->)]; [apply current_roughly; by eapply current_of_mono|].
    exists b. split; [left; by eexists _, _|apply Hcl].
  - intros h' b o Hh Ho. assert (current_of h' o) by (apply answered_current; right; right; right; by eexists _, _).
    apply wp_ret, HQ; [done|by apply current_roughly|done].
Qed.

(** *** Deletion *)

Lemma wp_delete_children v scs h :
  answered h v → Deleting (meta k v) = true → HasFinalizer (meta k v) cr_finalizer = true →
  (∀ sc, sc ∈ scs → sc ∈ all_classes v) →
  wp G (delete_children v scs) h (fun h' err => err = None → ∀ sc, sc ∈ scs → child_deleted h' v sc).
Proof.
  intros Hv Hd Hf. revert h Hv. induction scs as [|sc scs IH]; intros h Hv Hin; cbn [delete_children].
  { apply wp_ret. intros _ sc Hsc. by apply elem_of_nil in Hsc. }
  cbv zeta. apply wp_bind. unfold delete_object. apply wp_bind_call.
  { apply G_delete. exists v, sc. split_and!; [done..|set_solver|done]. }
  intros r. set (h1 := h ++ _). assert (Hh1 : h `prefix_of` h1) by (by apply prefix_app_r).
  assert (Hrest : child_deleted h1 v sc → wp G (delete_children v scs) h1
            (fun h' err => err = None → ∀ sc', sc' ∈ sc :: scs → child_deleted h' v sc')).
  { intros Hsc. eapply wp_post; [apply wp_prefix, IH; [by eapply answered_mono|set_solver]|].
    intros h' err [Hh Hall] He sc' [->|Hs]%elem_of_cons; [by eapply child_deleted_mono|by apply Hall]. }
  destruct r as [e|[]].
  - apply wp_ret. destruct (IsNotFound (Some e)) eqn:He; [|by apply wp_ret].
    apply Hrest. exists (inl e). split; [apply in_snoc|]. by intros ? [= <-].
  - apply wp_ret, Hrest. exists (inr tt). split; [apply in_snoc|done].
Qed.

Lemma wp_count_children v scs h :
  wp G (count_children v scs) h (fun h' n => n = 0 → ∀ sc, sc ∈ scs → child_missing h' v sc).
Proof.
  revert h. induction scs as [|sc scs IH]; intros h; cbn [count_children].
  { apply wp_ret. intros _ sc Hsc. by apply elem_of_nil in Hsc. }
  apply wp_bind_call; [by apply G_other|]. intros r. apply wp_bind.
  eapply wp_post; [apply wp_prefix, IH|]. intros h' n [Hh Hall]. apply wp_ret.
  destruct r as [e|o]; [|done]. intros Hn sc' [->|Hs]%elem_of_cons; [|by apply Hall].
  eapply child_missing_mono; [exact Hh|]. exists e. apply in_snoc.
Qed.

Lemma wp_handleDeletion key v h :
  answered h v → Deleting (meta k v) = true → wp G (handleDeletion key v) h (fun h' x => roughly h' x.1).
Proof.
  intros Hv Hd. unfold handleDeletion.
  assert (Hr : ∀ h', h `prefix_of` h' → roughly h' v).
  { intros h' Hh. apply current_roughly, answered_current. by eapply answered_mono. }
  destruct (HasFinalizer _ _) eqn:Hf; [|by apply wp_ret, Hr]. cbn [negb]. apply wp_bind.
  eapply wp_post; [by apply wp_prefix, wp_delete_children|].
  intros h1 [e|] [Hh1 Hdel]; [by apply wp_ret, Hr|]. specialize (Hdel eq_refl).
  apply wp_bind. eapply wp_post; [apply wp_prefix, wp_count_children|]. intros h2 n [Hh2 Hmiss].
  assert (Hh02 : h `prefix_of` h2) by (by etrans).
  case_bool_decide; [apply wp_bind_call; [by apply G_other|]; intros d; by apply Hr, prefix_app_r|].
  assert (Hm := Hmiss ltac:(lia)). clear Hmiss. apply wp_bind.
  unfold ListVastReplicationContentsByLabelSelector. apply wp_bind_call; [by apply G_other|].
  intros r. set (h3 := h2 ++ _). assert (Hh03 : h `prefix_of` h3) by (by apply prefix_app_r).
  destruct r as [e|[|v1 l]]; [by apply wp_ret, Hr| |].
  2: { apply wp_ret. apply wp_bind_call; [by apply G_other|]. intros d. by apply Hr, prefix_app_r. }
  assert (Hdc : deletion_complete h3 v).
  { split_and!; [by eapply answered_mono|done| |apply in_snoc]. intros sc Hsc. split.
    - apply (child_deleted_mono h1); [by apply prefix_app_r|by apply Hdel].
    - apply (child_missing_mono h2); [by apply prefix_app_r|by apply Hm]. }
  apply wp_ret. apply wp_bind_call; [by apply G_other|]. intros [].
  apply wp_bind, wp_others; [apply others_delete_ppath|]. intros h4 [] Hh4.
  apply wp_bind, wp_others; [case_match; [apply others_DeleteProtectionPolicies|done]|]. intros h5 [] Hh5.
  assert (Hh35 : h3 `prefix_of` h5) by (etrans; [|exact Hh5]; etrans; [|exact Hh4]; by apply prefix_app_r).
  apply wp_bind, wp_RemoveFinalizer.
  - intros h6 w Hh6 (_ & Hn & Hns & _). apply G_update. right; right; left. exists v.
    rewrite Hn, Hns, meta_set_meta. split; [|done].
    assert (Hh36 : h3 `prefix_of` h6) by (by etrans). destruct Hdc as (A & B & C & D). split_and!; [by eapply answered_mono|done| |].
    + intros sc Hsc. destruct (C sc Hsc). split; [by eapply child_deleted_mono|by eapply child_missing_mono].
    + by eapply elem_of_prefix.
  - intros h6 Hh6. by apply G_other.
  - intros h6 v6 err Hh6 [Hs|(u & _ & Hu)]; apply wp_ret; cbn [fst].
    + eapply roughly_same; [|exact Hs]. exists v. split; [eapply answered_mono; [|exact Hv]; by do 2 (etrans; [done|])|].
      by apply set_meta_loose; [apply agree_loose, agree_refl|..].
    + apply current_roughly, answered_current. right; left. by exists u.
Qed.

(** *** The sync status *)

Lemma wp_desired_sync v err h (Q : Trace → option string → Prop) :
  (∀ h' d, h `prefix_of` h' → (∀ s, d = Some s → sync_reported h' v s) → Q h' d) →
  wp G (desired_sync v err) h Q.
Proof.
  intros HQ. unfold desired_sync.
  destruct (Deleting (meta k v)) eqn:Hd.
  { apply wp_ret, HQ; [done|]. by intros ? [= <-]. }
  assert (Hq : ∀ s, s ∈ [SyncStatusUnreachable; SyncStatusInvalid; SyncStatusFailed] → Q h (Some s)).
  { intros s Hs. apply HQ; [done|]. intros ? [= <-]. unfold sync_reported. rewrite Hd.
    set_unfold in Hs. destruct Hs as [->|[->|[->|[]]]]; done. }
  repeat (case_match; [by apply wp_ret, Hq; set_solver|]).
  apply wp_bind_call; [by apply G_other|]. intros r. apply wp_ret, HQ; [by apply prefix_app_r|].
  destruct r as [e|o]; [done|]. intros s [= <-]. unfold sync_reported. rewrite Hd.
  destruct (cr_child_primary o) eqn:Ho; split_and!; try done; intros _; exists o; (split; [apply in_snoc|done]).
Qed.

Lemma sync_reported_same t v d w :
  roughly t v → sync_reported t v d → same_object k (cr_set_status v (with_sync d (cr_Status v))) w →
  status_allowed t w.
Proof.
  intros Hr Hd (Hw & Hn & Hns & _ & _ & _ & Hdel). rewrite meta_set_status in Hn, Hns, Hdel.
  right. exists (set_meta k v (meta k w)), d.
  destruct (set_meta_fields v (meta k w)) as (Hs & Hp & Hpn).
  split_and!.
  - destruct Hr as (u & Hu & Hl). exists u. split; [done|]. by apply set_meta_loose.
  - unfold sync_reported, primary_child_read, child_key in *.
    rewrite Hp, Hpn, meta_set_meta, Hn, Hdel by done. done.
  - rewrite Hw at 1. by rewrite Hs, set_status_set_meta.
Qed.

Lemma wp_reconcileSyncStatus v err h (Q : Trace → unit → Prop) :
  roughly h v → (∀ h', h `prefix_of` h' → Q h' tt) → wp G (reconcileSyncStatus v err) h Q.
Proof.
  intros Hr HQ. unfold reconcileSyncStatus. apply wp_bind, wp_desired_sync. intros h1 [d|] Hh1 Hd; [|by apply wp_ret, HQ].
  case_bool_decide; [by apply wp_ret, HQ|]. apply wp_bind, wp_update_status_of.
  - intros h2 w Hh2 Hs. eapply sync_reported_same; [| |exact Hs].
    + eapply roughly_mono; [|exact Hr]. by etrans.
    + eapply sync_reported_mono; [exact Hh2|by apply Hd].
  - intros h2 w Hh2 _. apply wp_ret, HQ. by etrans.
  - intros h2 w e Hh2 _. apply wp_ret, HQ. by etrans.
Qed.

(** *** The whole reconciliation *)

Lemma wp_reconcile get live key :
  (∀ name ns h, wp G (get name ns) h (fun h' r => ∀ v, r = inr v → answered h' v ∧
     ∀ e, e ∈ h' → e ∈ h ∨ read_only (ev_call e) = true)) →
  (∀ h v, answered h v → (∀ e, e ∈ h → read_only (ev_call e) = true) →
     wp G (live v) h (fun h' x => roughly h' x.1)) →
  wp G (reconcile get handleDeletion reconcileSyncStatus live key) [] (fun _ _ => True).
Proof.
  intros Hget Hlive. unfold reconcile. apply wp_bind. eapply wp_post; [apply Hget|].
  intros h1 [e|v] Hv; [by case_match|]. destruct (Hv v eq_refl) as [Ha Hro].
  assert (Hro' : ∀ e, e ∈ h1 → read_only (ev_call e) = true).
  { intros e [He|He]%Hro; [by apply elem_of_nil in He|done]. }
  apply wp_bind. apply (wp_post _ _ _ (fun h' x => roughly h' x.1)).
  { destruct (Deleting (meta k v)) eqn:Hd; [by apply wp_handleDeletion|by apply Hlive]. }
  intros h2 [v' r] Hr. apply wp_bind, wp_reconcileSyncStatus; [done|]. intros h3 Hh3.
  destruct r as [res|e|]; [done| |done]. unfold maybeBackoffRetry.
  destruct (Some e ≫= as_retryable); [done|]. apply wp_bind_call; [by apply G_other|done].
Qed.

End Rules.

(** ** Children that were ensured *)

Section Ensured.

Context {sd : ShowDuration} {k : kind} {cr : CR k}.

(** Children that were ensured without an error have been seen. *)
Lemma wp_ensure_children_seen (ensureChild : string → Prog (string * bool * option error)) ns
    (seen : string → Trace → Prop) scs errs h :
  (∀ sc t t', t `prefix_of` t' → seen sc t → seen sc t') →
  (∀ sc h, wp (fun _ _ => True) (ensureChild sc) h (fun h' x => x.2 = None → seen sc h')) →
  wp (fun _ _ => True) (ensure_children ensureChild ns scs errs) h (fun h' errs' =>
    errs `prefix_of` errs' ∧ (errs' = [] → ∀ sc, sc ∈ scs → seen sc h')).
Proof.
  intros Hmono Hch. revert errs h. induction scs as [|sc scs IH]; intros errs h; cbn [ensure_children].
  { apply wp_ret. split; [done|]. intros _ sc Hsc. by apply elem_of_nil in Hsc. }
  apply wp_bind. eapply wp_post; [apply Hch|]. intros h1 [[name created] err] Hseen.
  cbn [snd] in Hseen. cbv zeta. apply wp_bind.
  eapply wp_post; [apply wp_prefix; by apply (wp_true _ _ _ (fun _ _ => True))|]. intros h2 [] [Hh2 _].
  eapply wp_post; [apply wp_prefix, IH|]. intros h3 errs' (Hh3 & Hp & Hall). split.
  { etrans; [|exact Hp]. destruct err; simpl; [by apply prefix_app_r|done]. }
  intros -> sc' [->|Hs]%elem_of_cons; [|by apply Hall].
  assert (err = None) as Herr.
  { destruct err as [e|]; [|done]. simpl in Hp. apply prefix_nil_inv in Hp. by destruct errs. }
  eapply Hmono; [|by apply Hseen]. by etrans.
Qed.

Lemma children_seen key ensureChild syncStates (v v' : kobj k) (seen : string → Trace → Prop) t res :
  (∀ sc t t', t `prefix_of` t' → seen sc t → seen sc t') →
  (∀ sc h, wp (fun _ _ => True) (ensureChild v sc) h (fun h' x => x.2 = None → seen sc h')) →
  runs (children_step key ensureChild syncStates v) t (v', Done res) →
  ∀ sc, sc ∈ all_classes v → seen sc t.
Proof.
  intros Hmono Hch Hr sc Hsc. unfold children_step in Hr. apply runs_bind_inv in Hr as (t1 & errs & t2 & H1 & H2 & ->).
  destruct (wp_sound _ _ _ _ _ _ (wp_ensure_children_seen _ _ seen _ [] [] Hmono Hch) H1) as [[_ Hall] _].
  apply runs_bind_inv in H2 as (t3 & err & t4 & _ & H4 & ->).
  destruct (DeferredError_Err (DeferredError_Add errs err)) as [e|] eqn:He.
  { apply runs_invert in H4 as [_ [=]]. }
  assert (errs = []) as ->.
  { destruct errs as [|e es]; [done|]. unfold DeferredError_Err, DeferredError_IsEmpty in He.
    by destruct err. }
  eapply (Hmono _ t1); [by eexists|]. apply Hall; [done|]. by apply elem_of_primary_first.
Qed.

End Ensured.
