(* ===== verification/StorageClassController.v ===== *)
(** * The VastStorageClassReplication controller

    [internal/controller/vaststorageclassreplication_controller.go]: one
    VolumeGroupReplication per StorageClass of the topology, on top of a
    protected path that spans their clusters.  The steps it shares with the
    VVR controller are those of [ReplicationCR]. *)

From S2P Require Import Prelude GoErrors Topology Kube Naming Peers PpathDir Lookups Programs Api ContentController Client Builders Ppath ReplicationObjects ReplicationCR ReplicationCRRules.
From stdpp Require Import options.

Section Controller.

Context {steps : RetrySteps} {lk : Lookups} {ve : VastErrors} {sd : ShowDuration} {mo : MapOrder}
  {refs : OwnerRefs} {cfg : Config} {clk : Clock}.

(** ** Validation *)

(** Subsystem-level replication: the subsystem is not there yet on any
    secondary cluster. *)
Fixpoint subsystems_absent (clients : gset string) (primary : string) (scNames : list string)
    : Prog (outcome unit) :=
  match scNames with
  | [] => mret (Done tt)
  | scName :: scNames' =>
      if bool_decide (scName = primary) then subsystems_absent clients primary scNames'
      else
        match lk_GetStorageClass scName with
        | inl e => mret (Failed (ErrWrap ("failed to get StorageClass " +:+ scName +:+ ": ") e ""))
        | inr sc =>
            let scSubsystem := map_get (nonPrefixed sc) StorageClassParameterSubsystem in
            let tenantName := map_get (sc_Parameters sc) "tenant_name" in
            if bool_decide (scSubsystem = "") then
              invalid ("StorageClass " +:+ quote scName +:+ " is missing required parameter " +:+
                       quote StorageClassParameterSubsystem)
            else if bool_decide (tenantName = "") then
              invalid ("subsystem-level block replication requires " +:+ quote "tenant_name" +:+
                       " parameter on secondary StorageClass " +:+ quote scName +:+
                       ": the subsystem does not exist yet on secondary clusters (VAST creates it via replication), so tenant resolution must use "
                       +:+ quote "tenant_name" +:+ " directly")
            else
              r ← subsystem_exists clients scName scSubsystem (Some tenantName);
              match r with
              | Done true => invalid ("subsystem-level block replication requires that the subsystem " +:+
                                      quote scSubsystem +:+ " does not pre-exist (StorageClass " +:+ quote scName +:+ ")")
              | Done false => subsystems_absent clients primary scNames'
              | Failed e => mret (Failed e)
              | Panicked => mret Panicked
              end
        end
  end.

(** Other block replication: the subsystem is there on every cluster. *)
Fixpoint subsystems_present (clients : gset string) (scNames : list string) : Prog (outcome unit) :=
  match scNames with
  | [] => mret (Done tt)
  | scName :: scNames' =>
      match lk_GetStorageClass scName with
      | inl e => mret (Failed (ErrWrap ("failed to get StorageClass " +:+ scName +:+ ": ") e ""))
      | inr sc => andThen (check_subsystem "" clients scName sc) (subsystems_present clients scNames')
      end
  end.

Definition validateOnce (clients : gset string) (v : VSCR) : Prog (outcome unit) :=
  match VSCR_Validate (vscr_Spec v) with
  | inl e => invalid (error_msg e)
  | inr _ =>
      match lk_GetStorageClass (vscr_PrimaryStorageClass (vscr_Spec v)) with
      | inl e => mret (Failed (ErrWrap ("failed to get primary StorageClass " +:+
                                        vscr_PrimaryStorageClass (vscr_Spec v) +:+ ": ") e ""))
      | inr primarySC =>
          andThen
            (if IsSubsystemLevel primarySC
             then subsystems_absent clients (vscr_PrimaryStorageClass (vscr_Spec v)) (VSCR_AllStorageClasses (vscr_Spec v))
             else if IsBlockStorageClass primarySC
             then subsystems_present clients (VSCR_AllStorageClasses (vscr_Spec v))
             else mret (Done tt))
            (check_ppath_name (k := kVSCR) clients v)
      end
  end.

(** ** Directories *)

(** [targetExportedDir] overrides the directory of its destination. *)
Fixpoint apply_overrides (primaryDir : string) (i : nat) (topology : list ReplicationTarget)
    (mapping : gmap string string) : result (gmap string string) :=
  match topology with
  | [] => mret mapping
  | t :: topology' =>
      if bool_decide (TargetExportedDir t = "") then apply_overrides primaryDir (S i) topology' mapping
      else
        let existing := mapping !! Destination t in
        if bool_decide (is_Some existing) && bool_decide (existing ≠ Some primaryDir)
           && bool_decide (existing ≠ Some (TargetExportedDir t)) then
          Errorf ("protectionTopology[" +:+ show_nat i +:+ "]: conflicting targetExportedDir for StorageClass " +:+
                  quote (Destination t) +:+ ": " +:+ quote (default "" existing) +:+ " vs " +:+
                  quote (TargetExportedDir t))
        else apply_overrides primaryDir (S i) topology' (<[Destination t := TargetExportedDir t]> mapping)
  end.

(** Every class mapped to one directory. *)
Definition uniform (dir : string) (scNames : list string) : gmap string string :=
  foldl (fun m scName => <[scName := dir]> m) ∅ scNames.

Definition predict_all (v : VSCR) : Prog (result (gmap string string)) :=
  let primary := vscr_PrimaryStorageClass (vscr_Spec v) in
  match lk_GetStorageClass primary with
  | inl e => mret (inl (ErrWrap ("failed to get primary StorageClass " +:+ primary +:+ ": ") e ""))
  | inr primarySC =>
      if IsSubsystemLevel primarySC then
        r ← predict primarySC "" "";
        mret (primaryDir ← wrap_err ("failed to compute PpathDir for primary StorageClass " +:+ primary +:+ ": ") r;
              apply_overrides primaryDir 0 (vscr_ProtectionTopology (vscr_Spec v))
                (uniform primaryDir (VSCR_AllStorageClasses (vscr_Spec v))))
      else predict_dirs "" "" (VSCR_AllStorageClasses (vscr_Spec v)) ∅
  end.

Definition this : M kVSCR VSCR := current.

(** ** Protected path: a path that was found missing is forgotten, and
    recreated only by a later reconciliation *)

Definition ppath_step (clients : gset string) (scs : gmap string StorageClass) : M kVSCR string :=
  v ← this;
  let ppathName := PpathName (vscr_Status v) in
  if bool_decide (ppathName ≠ "") then verify_ppath clients ppathName
  else establish_ppath clients scs.

(** ** VolumeGroupReplications *)

Definition ensureReplicationClasses (v : VSCR) (scName ppathName : string) : Prog (result string) :=
  match class_inputs VSCRReplicationClassFormat (Name (vscr_Meta v)) scName with
  | inl e => mret (inl e)
  | inr (sc, className, secretName, secretNamespace) =>
      err ← ensure_vrclass (vrclass_for sc className secretName secretNamespace ppathName scName);
      match err with
      | Some e => mret (inl e)
      | None =>
          r ← EnsureVolumeGroupReplicationClass (vgrclass_for sc className secretName secretNamespace ppathName scName);
          mret (match r with
                | inl e => inl (ErrWrap ("failed to ensure VolumeGroupReplicationClass " +:+ className +:+ ": ") e "")
                | inr _ => inr className
                end)
      end
  end.

Definition ensureReplicationState (namespace vgrName : string) (desired : ReplicationState) : Prog (option error) :=
  let here := "VolumeGroupReplication " +:+ namespace +:+ "/" +:+ vgrName in
  r ← GetVolumeGroupReplication vgrName namespace;
  match r with
  | inl e => mret (Some (ErrWrap ("failed to get " +:+ here +:+ ": ") e ""))
  | inr existing =>
      if bool_decide (vgr_ReplicationState existing = desired) then mret None
      else
        err ← PatchVolumeGroupReplicationState existing desired;
        mret (wrap_opt ("failed to patch replicationState on " +:+ here +:+ ": ") err)
  end.

Definition vgr_state_for (v : VSCR) (scName : string) : ReplicationState :=
  if bool_decide (scName = vscr_PrimaryStorageClass (vscr_Spec v)) then Primary else Secondary.

Definition build_vgr (v : VSCR) (scName className : string) : result VolumeGroupReplication :=
  let pvcNS := VSCR_PVCNamespace v in
  let b := NewVolumeGroupReplication (vgrNameForSC (Name (vscr_Meta v)) scName) pvcNS
           |> WithLabelsMap (<[LabelManagedBy := LabelManagedByValue]> (<[LabelStorageClass := scName]>
                (<[LabelSourceVSCR := Name (vscr_Meta v)]> {[LabelSourceVSCRNamespace := Namespace (vscr_Meta v)]})))
           |> vgr_WithVolumeGroupReplicationClassName className
           |> vgr_WithVolumeReplicationClassName className
           |> vgr_WithReplicationState (vgr_state_for v scName)
           |> vgr_WithAutoResync true
           |> vgr_WithSourceMatchLabels {[LabelStorageClass := scName]} in
  Build (if bool_decide (pvcNS = Namespace (vscr_Meta v))
         then WithOwnerRef "VolumeGroupReplication" "VastStorageClassReplication" (vscr_Meta v) b else b).

Definition ensureVGR (v : VSCR) (scName ppathName : string) : Prog (string * bool * option error) :=
  r ← ensureReplicationClasses v scName ppathName;
  match r with
  | inl e => mret ("", false, Some e)
  | inr className =>
      let vgrName := vgrNameForSC (Name (vscr_Meta v)) scName in
      let pvcNS := VSCR_PVCNamespace v in
      match build_vgr v scName className with
      | inl e => mret ("", false, Some e)
      | inr vgr =>
          r ← EnsureVolumeGroupReplication vgr;
          match r with
          | inl e => mret ("", false, Some (ErrWrap ("failed to ensure VolumeGroupReplication " +:+ pvcNS +:+ "/" +:+
                                                     vgrName +:+ ": ") e ""))
          | inr true => mret (vgrName, true, None)
          | inr false =>
              if bool_decide (scName ≠ vscr_PrimaryStorageClass (vscr_Spec v)) then mret (vgrName, false, None)
              else
                err ← ensureReplicationState pvcNS vgrName (vgr_state_for v scName);
                mret (vgrName, false, err)
          end
      end
  end.

(** The classes whose VGR csi-addons confirms as primary. *)
Fixpoint confirmed_primaries (v : VSCR) (scNames : list string) : Prog (result (list string)) :=
  match scNames with
  | [] => mret (inr [])
  | scName :: scNames' =>
      r ← GetVolumeGroupReplication (vgrNameForSC (Name (vscr_Meta v)) scName) (VSCR_PVCNamespace v);
      match r with
      | inl e =>
          if IsNotFound (Some e) then confirmed_primaries v scNames'
          else mret (inl (ErrWrap ("failed to get VolumeGroupReplication for SC " +:+ scName +:+ ": ") e ""))
      | inr vgr =>
          r ← confirmed_primaries v scNames';
          mret (candidates ← r; mret (if IsVGRConfirmedPrimary vgr then scName :: candidates else candidates))
      end
  end.

Fixpoint demote (v : VSCR) (candidates : list string) (errs : list error) : Prog (list error) :=
  match candidates with
  | [] => mret errs
  | scName :: candidates' =>
      if bool_decide (scName = vscr_PrimaryStorageClass (vscr_Spec v)) then demote v candidates' errs
      else
        err ← ensureReplicationState (VSCR_PVCNamespace v) (vgrNameForSC (Name (vscr_Meta v)) scName) Secondary;
        demote v candidates' (DeferredError_Add errs (wrap_opt ("SC " +:+ scName +:+ ": ") err))
  end.

Definition syncVGRReplicationStates (v : VSCR) : Prog (option error) :=
  r ← confirmed_primaries v (VSCR_AllStorageClasses (vscr_Spec v));
  match r with
  | inl e => mret (Some e)
  | inr candidates => errs ← demote v candidates []; mret (DeferredError_Err errs)
  end.

(** ** Resync *)

Definition ensureResync (v : VSCR) : Prog (VSCR * option error) :=
  let vgrName := vgrNameForSC (Name (vscr_Meta v)) (vscr_PrimaryStorageClass (vscr_Spec v)) in
  let here := VSCR_PVCNamespace v +:+ "/" +:+ vgrName in
  r ← GetVolumeGroupReplication vgrName (VSCR_PVCNamespace v);
  match r with
  | inl e =>
      if IsNotFound (Some e) then PatchVSCRResync v
      else mret (v, Some (ErrWrap ("ensureResync: failed to get VolumeGroupReplication " +:+ here +:+ ": ") e ""))
  | inr existing =>
      err ← PatchVolumeGroupReplicationState existing Resync;
      match err with
      | Some e => mret (v, Some (ErrWrap ("ensureResync: failed to patch replicationState on VolumeGroupReplication " +:+
                                          here +:+ ": ") e ""))
      | None =>
          '(_, err) ← TouchConstellationVRCs v;
          match err with
          | Some e => mret (v, Some (ErrWrap "ensureResync: failed to touch constellation VRCs: " e ""))
          | None =>
              '(v', err) ← PatchVSCRResync v;
              mret (v', wrap_opt ("ensureResync: failed to clear Resync flag on VSCR " +:+
                                  in_namespace (vscr_Meta v') +:+ ": ") err)
          end
      end
  end.

(** ** Reconcile *)

Definition reconcileSyncStatus : VSCR → option error → Prog unit := ReplicationCR.reconcileSyncStatus (k := kVSCR).
Definition handleDeletion : string * string → M kVSCR Result := ReplicationCR.handleDeletion.

(** A VSCR that is not being deleted: clients, finalizer, status fields. *)
Definition accept_resource : M kVSCR (gset string * gmap string StorageClass) :=
  v ← this;
  let scNames := VSCR_AllStorageClasses (vscr_Spec v) in
  clients ← pure (of_result (wrap_err "failed to build VMS REST clients: " (RestFromStorageClasses scNames ∅)));
  scs ← pure (of_result (wrap_err "failed to fetch StorageClass objects: " (ScsFromStorageClasses scNames)));
  finalizer_step (k := kVSCR) (validateOnce clients);;
  status_step scs;;
  mret (clients, scs).

(** Peers, mappings and protected path; [None] when the pass ends before the
    path. *)
Definition prepare (clients : gset string) (scs : gmap string StorageClass) : M kVSCR (option string) :=
  written ← peers_step clients;
  if (written : bool) then mret None
  else
    dirs_step (k := kVSCR) predict_all;;
    tenants_step scs;;
    ppathName ← ppath_step clients scs;
    mret (Some ppathName).

Definition live (key : string * string) : M kVSCR Result :=
  '(clients, scs) ← accept_resource;
  v ← this;
  if vscr_Resync (vscr_Spec v) then on_object (k := kVSCR) ensureResync;; mret (mkResult 0)
  else
    r ← prepare clients scs;
    match r with
    | None => mret (mkResult 0)
    | Some ppathName =>
        children_step (k := kVSCR) key (fun v scName => ensureVGR v scName ppathName) syncVGRReplicationStates
    end.

Definition Reconcile (key : string * string) : Prog (Result * option error) :=
  reconcile (k := kVSCR) GetVastStorageClassReplication handleDeletion reconcileSyncStatus (live key) key.

End Controller.

(** ** What a reconciliation may do *)

#[local] Set Default Proof Using "Type*".

Section Guard.

Context {steps : RetrySteps} {lk : Lookups} {ve : VastErrors} {sd : ShowDuration} {mo : MapOrder}
  {refs : OwnerRefs} {cfg : Config} {clk : Clock}.

Notation answered := (answered (k := kVSCR)).
Notation current_of := (current_of (k := kVSCR)).
Notation ppath_ready := (ppath_ready (k := kVSCR)).

Definition no_vgr_created (t : Trace) : Prop := ∀ o r, Ev (Create kVGR o) r ∉ t.

(** A replication class of this name exists. *)
Definition class_seen (k : kind) (t : Trace) (className : string) : Prop := object_seen k t className "".

Definition vgr_created (t : Trace) (o : VolumeGroupReplication) : Prop :=
  ∃ u v sc className, answered t u ∧ agree (k := kVSCR) u v ∧
    sc ∈ VSCR_AllStorageClasses (vscr_Spec v) ∧ build_vgr v sc className = inr o ∧
    class_seen kVRClass t className ∧ class_seen kVGRClass t className ∧
    (sc = vscr_PrimaryStorageClass (vscr_Spec v) → no_vgr_created t) ∧
    (ppath_ready t ∨ ∃ cluster name, ppath_lost t cluster name).

(** The VGR of class [sc] of [v] was read, and is about to be written from a
    fresh copy [b]. *)
Definition vgr_at_hand (t : Trace) (v : VSCR) (sc : string) (b : VolumeGroupReplication) : Prop :=
  ∃ e, Ev (Get kVGR (vgrNameForSC (Name (vscr_Meta v)) sc) (VSCR_PVCNamespace v)) (inr e) ∈ t ∧
       Ev (Get kVGR (Name (vgr_Meta e)) (Namespace (vgr_Meta e))) (inr b) ∈ t.

Definition vgr_driven (t : Trace) (b o : VolumeGroupReplication) : Prop :=
  ∃ u v sc s, answered t u ∧ agree (k := kVSCR) u v ∧ vgr_at_hand t v sc b ∧ o = vgr_set_state b s ∧
    ((s = Primary ∧ sc = vscr_PrimaryStorageClass (vscr_Spec v)) ∨
     (s = Resync ∧ sc = vscr_PrimaryStorageClass (vscr_Spec v) ∧ vscr_Resync (vscr_Spec v) = true) ∨
     (s = Secondary ∧ sc ≠ vscr_PrimaryStorageClass (vscr_Spec v) ∧
      sc ∈ VSCR_AllStorageClasses (vscr_Spec v) ∧
      ∃ e, Ev (Get kVGR (vgrNameForSC (Name (vscr_Meta v)) sc) (VSCR_PVCNamespace v)) (inr e) ∈ t ∧
           IsVGRConfirmedPrimary e = true)).

Definition vscr_allowed (t : Trace) (c : Call) : Prop :=
  match c with
  | UpdateStatus kVSCR w => status_allowed (k := kVSCR) t w
  | Update kVSCR w => update_allowed (k := kVSCR) t w
  | Patch kVSCR b o => o = vscr_clear_resync b ∧ ∃ u, answered t u ∧ vscr_Resync (vscr_Spec u) = true
  | Create kVSCR _ | Delete kVSCR _ => False
  | Create kVGR o => vgr_created t o
  | Patch kVGR b o => vgr_driven t b o
  | Delete kVGR o => delete_allowed (k := kVSCR) t o
  | Update kVGR _ | UpdateStatus kVGR _ => False
  | _ => True
  end.

#[local] Instance vscr_guard : Guard kVSCR vscr_allowed.
Proof.
  split; try done.
  intros t c. destruct c as [| |k|k|k|k|k| | | | | | | | | | | |]; try done; destruct k; try done; by vm_compute.
Qed.

(** Calls that do not trigger a resync, and calls that write no VGR. *)
Definition no_resync_call (c : Call) : Prop :=
  match c with Patch kVGR _ o => vgr_ReplicationState o ≠ Resync | _ => True end.
Definition no_vgr_call (c : Call) : Prop :=
  match c with Create kVGR _ | Patch kVGR _ _ => False | _ => True end.

Definition no_resync (t : Trace) : Prop := ∀ e, e ∈ t → no_resync_call (ev_call e).

Definition before_children (t : Trace) (c : Call) : Prop := vscr_allowed t c ∧ no_vgr_call c.
Definition with_children (t : Trace) (c : Call) : Prop := vscr_allowed t c ∧ no_resync_call c.

(** Once a resync was triggered no VGR is created, promoted or demoted. *)
Definition vscr_guarded (t : Trace) (c : Call) : Prop :=
  vscr_allowed t c ∧
  match c with
  | Create kVGR _ => no_resync t
  | Patch kVGR _ o => vgr_ReplicationState o ≠ Resync → no_resync t
  | _ => True
  end.

#[local] Instance before_children_guard : Guard kVSCR before_children.
Proof.
  split; try done. intros t c Hc. split; [by apply G_other|].
  destruct c as [| |k| | |k| | | | | | | | | | | | |]; try done; destruct k; try done; by vm_compute in Hc.
Qed.
#[local] Instance with_children_guard : Guard kVSCR with_children.
Proof.
  split; try done. intros t c Hc. split; [by apply G_other|].
  destruct c as [| | | | |k| | | | | | | | | | | | |]; try done; destruct k; try done; by vm_compute in Hc.
Qed.
#[local] Instance vscr_guarded_guard : Guard kVSCR vscr_guarded.
Proof.
  split; try done. intros t c Hc. split; [by apply G_other|].
  destruct c as [| |k| | |k| | | | | | | | | | | | |]; try done; destruct k; try done; by vm_compute in Hc.
Qed.

Notation W := (wp with_children).

(** *** Read-only parts *)

Lemma reads_vscr_validateOnce clients v : calls_in (fun c => read_only c = true) (validateOnce clients v).
Proof.
  unfold validateOnce. destruct (VSCR_Validate _); [done|]. destruct (lk_GetStorageClass _) as [|primarySC]; [done|].
  assert (Hex : ∀ sc sub tn, calls_in (fun c => read_only c = true) (subsystem_exists clients sc sub tn)).
  { intros. unfold subsystem_exists. repeat (calls_step || done). }
  unfold andThen. apply calls_in_bind.
  - destruct (IsSubsystemLevel primarySC); [|destruct (IsBlockStorageClass primarySC); [|done]].
    + induction (VSCR_AllStorageClasses _) as [|sc scs IH]; cbn [subsystems_absent]; [done|].
      unfold invalid. repeat (exact IH || apply Hex || calls_step || done).
    + induction (VSCR_AllStorageClasses _) as [|sc scs IH]; cbn [subsystems_present]; [done|].
      destruct (lk_GetStorageClass sc); [done|]. unfold andThen, check_subsystem, invalid.
      repeat (exact IH || apply Hex || calls_step || done).
  - intros [[]|e|]; [|done..]. unfold check_ppath_name, invalid. repeat (calls_step || done).
Qed.

Lemma reads_predict_all v : calls_in (fun c => read_only c = true) (predict_all v).
Proof.
  unfold predict_all. cbv zeta. destruct (lk_GetStorageClass _) as [|primarySC]; [done|].
  destruct (IsSubsystemLevel primarySC); [apply calls_in_bind; [apply reads_predict|done]|].
  apply reads_predict_dirs.
Qed.

(** *** The group's classes and its VGR *)

Lemma vgr_state_for_primary v sc :
  vgr_state_for v sc = Primary ↔ sc = vscr_PrimaryStorageClass (vscr_Spec v).
Proof. unfold vgr_state_for. by case_bool_decide. Qed.

Lemma built_vgr v sc className o :
  build_vgr v sc className = inr o →
  Name (vgr_Meta o) = vgrNameForSC (Name (vscr_Meta v)) sc ∧ Namespace (vgr_Meta o) = VSCR_PVCNamespace v ∧
  Labels (vgr_Meta o) = <[LabelManagedBy := LabelManagedByValue]> (<[LabelStorageClass := sc]>
    (<[LabelSourceVSCR := Name (vscr_Meta v)]> {[LabelSourceVSCRNamespace := Namespace (vscr_Meta v)]})) ∧
  vgr_Selector o = Some {[LabelStorageClass := sc]} ∧ vgr_AutoResync o = true ∧
  vgr_ReplicationState o = vgr_state_for v sc ∧ vgr_ClassName o = className ∧ vgr_GroupClassName o = className ∧
  (VSCR_PVCNamespace v ≠ Namespace (vscr_Meta v) → OwnerReferences (vgr_Meta o) = []).
Proof.
  unfold build_vgr. cbv zeta. case_bool_decide.
  - intros (_ & orefs & _ & ->)%(Build_WithOwnerRef (k := kVGR)). cbn. rewrite !(right_id_L ∅ (∪)). done.
  - intros [= <-]. cbn. rewrite !(right_id_L ∅ (∪)). done.
Qed.

Definition creates_no_vgr (c : Call) : Prop := match c with Create kVGR _ => False | _ => True end.

Lemma no_vgr_created_more t t' :
  no_vgr_created t → (∀ e, e ∈ t' → e ∈ t ∨ creates_no_vgr (ev_call e)) → no_vgr_created t'.
Proof. intros Hn Ht o r [Hin|Hc]%Ht; [by apply (Hn o r)|done]. Qed.

Lemma wp_ensureReplicationClasses v sc ppath h :
  W (ensureReplicationClasses v sc ppath) h (fun h' r =>
    (∀ className, r = inr className → class_seen kVRClass h' className ∧ class_seen kVGRClass h' className) ∧
    ∀ e, e ∈ h' → e ∈ h ∨ creates_no_vgr (ev_call e)).
Proof.
  apply wp_guard_trace. unfold ensureReplicationClasses.
  destruct (class_inputs _ _ _) as [e|[[[cls className] sn] sns]]; [by apply wp_ret|].
  unfold ensure_vrclass, EnsureVolumeReplicationClass, EnsureVolumeGroupReplicationClass.
  apply wp_bind, wp_bind, wp_ensure; [done..|].
  intros h1 r1 Hh1 Hs1. apply wp_ret. destruct r1 as [e|b1]; [by apply wp_ret|].
  apply wp_bind, wp_ensure; [done..|]. intros h2 r2 Hh2 Hs2. apply wp_ret. destruct r2 as [e|b2]; [done|].
  intros ? [= <-]. split.
  - eapply object_seen_mono; [exact Hh2|]. specialize (Hs1 b1 eq_refl). cbn [meta] in Hs1.
    by destruct (vrclass_for_name cls className sn sns ppath sc) as [E1 E2]; rewrite E1, E2 in Hs1.
  - specialize (Hs2 b2 eq_refl). cbn [meta] in Hs2.
    by destruct (vgrclass_for_name cls className sn sns ppath sc) as [E1 E2]; rewrite E1, E2 in Hs2.
Qed.

(** The object in memory, the spec and name of which those lemmas are about. *)
Definition working (h : Trace) (v : VSCR) : Prop :=
  current_of h v ∧
  (ppath_ready h ∨ ∃ cluster name, ppath_lost h cluster name).

Lemma vscr_working_mono h h' v : h `prefix_of` h' → working h v → working h' v.
Proof.
  intros Hh (Hc & Hp). split; [by eapply current_of_mono|].
  destruct Hp as [Hp|(c & n & Hp)]; [left; by eapply ppath_ready_mono|right; exists c, n; by eapply ppath_lost_mono].
Qed.

Lemma wp_vscr_ensureReplicationState v sc s h (Q : Trace → option error → Prop) :
  (∀ h' b, h `prefix_of` h' → vgr_at_hand h' v sc b → with_children h' (Patch kVGR b (vgr_set_state b s))) →
  (∀ h' err, h `prefix_of` h' → Q h' err) →
  W (ensureReplicationState (VSCR_PVCNamespace v) (vgrNameForSC (Name (vscr_Meta v)) sc) s) h Q.
Proof.
  intros HG HQ. unfold ensureReplicationState. cbv zeta. apply wp_bind_call; [done|].
  intros [e|existing]; [by apply wp_ret, HQ, prefix_app_r|]. set (h1 := h ++ _).
  assert (Hh1 : h `prefix_of` h1) by (by apply prefix_app_r).
  case_bool_decide; [by apply wp_ret, HQ|]. apply wp_bind.
  refine (wp_patch_state (k := kVSCR) with_children _ _ existing s h1 _ _ _).
  - intros h' b Hh Hb. apply HG; [by etrans|]. exists existing. split; [|done].
    eapply elem_of_prefix; [exact Hh|]. apply in_snoc.
  - intros h' err Hh. apply wp_ret, HQ. by etrans.
Qed.

Lemma wp_ensureVGR v sc ppath h :
  working h v → sc ∈ VSCR_AllStorageClasses (vscr_Spec v) →
  (sc = vscr_PrimaryStorageClass (vscr_Spec v) → no_vgr_created h) →
  W (ensureVGR v sc ppath) h (fun h' _ => working h' v).
Proof.
  intros Hw Hsc Hfirst. unfold ensureVGR. apply wp_bind.
  eapply wp_post; [apply wp_prefix, wp_ensureReplicationClasses|].
  intros h1 [e|className] (Hh1 & Hseen & Htr); [by eapply vscr_working_mono|].
  destruct (Hseen _ eq_refl) as [Hs1 Hs2]. clear Hseen. cbv zeta.
  assert (Hw1 : working h1 v) by (by eapply vscr_working_mono).
  destruct (build_vgr v sc className) as [e|vgr] eqn:Hb; [done|].
  apply wp_bind. unfold EnsureVolumeGroupReplication. apply wp_ensure; [done| |].
  { intros r. split; [|done]. set (h2 := h1 ++ _).
    assert (Hh2 : h1 `prefix_of` h2) by (by apply prefix_app_r).
    destruct (vscr_working_mono _ _ _ Hh2 Hw1) as ((u & Hu & Ha) & Hp).
    exists u, v, sc, className. split_and!; try done; [exact (object_seen_mono _ _ _ _ _ Hh2 Hs1)|exact (object_seen_mono _ _ _ _ _ Hh2 Hs2)|].
    intros Hpr. eapply no_vgr_created_more; [by apply Hfirst|]. intros e.
    unfold h2. rewrite elem_of_app, list_elem_of_singleton. intros [He| ->]; [by apply Htr|by right]. }
  intros h2 r Hh2 _. assert (Hw2 : working h2 v) by (by eapply vscr_working_mono).
  destruct r as [e|[]]; [done..|]. case_bool_decide as Hpr; [done|].
  apply wp_bind, wp_vscr_ensureReplicationState.
  - intros h' b Hh Hhand. destruct (vscr_working_mono _ _ _ Hh Hw2) as ((u & Hu & Ha) & _).
    unfold vgr_state_for. rewrite bool_decide_true by done. split; [|done].
    exists u, v, sc, Primary. split_and!; try done. by left.
  - intros h' err Hh. apply wp_ret. by eapply vscr_working_mono.
Qed.

(** *** Demotion *)

Definition candidate (t : Trace) (v : VSCR) (sc : string) : Prop :=
  sc ∈ VSCR_AllStorageClasses (vscr_Spec v) ∧
  ∃ e, Ev (Get kVGR (vgrNameForSC (Name (vscr_Meta v)) sc) (VSCR_PVCNamespace v)) (inr e) ∈ t ∧
       IsVGRConfirmedPrimary e = true.

Lemma vscr_candidate_mono t t' v sc : t `prefix_of` t' → candidate t v sc → candidate t' v sc.
Proof. intros Ht (? & e & ? & ?). split; [done|]. exists e. split; [by eapply elem_of_prefix|done]. Qed.

Lemma wp_vscr_confirmed_primaries v scs h :
  (∀ sc, sc ∈ scs → sc ∈ VSCR_AllStorageClasses (vscr_Spec v)) →
  W (confirmed_primaries v scs) h (fun h' r => ∀ cs, r = inr cs → ∀ sc, sc ∈ cs → candidate h' v sc).
Proof.
  revert h. induction scs as [|sc scs IH]; intros h Hin; cbn [confirmed_primaries].
  { apply wp_ret. intros cs [= <-] sc Hsc. by apply elem_of_nil in Hsc. }
  apply wp_bind_call; [done|]. intros [e|vgr].
  - destruct (IsNotFound (Some e)); [apply IH; set_solver|done].
  - apply wp_bind. eapply wp_post; [apply wp_prefix, IH; set_solver|]. intros h' r [Hh Hall].
    apply wp_ret. intros cs Hcs. destruct r as [e|cs0]; [done|]. injection Hcs as <-.
    destruct (IsVGRConfirmedPrimary vgr) eqn:Hp; [|by apply Hall].
    intros sc' [->|Hs]%elem_of_cons; [|by eapply Hall]. split; [set_solver|].
    exists vgr. split; [eapply elem_of_prefix; [exact Hh|apply in_snoc]|done].
Qed.

Lemma wp_vscr_demote v cs errs h :
  working h v → (∀ sc, sc ∈ cs → candidate h v sc) → W (demote v cs errs) h (fun h' _ => working h' v).
Proof.
  revert errs h. induction cs as [|sc cs IH]; intros errs h Hw Hcs; cbn [demote]; [done|].
  case_bool_decide as Hpr; [apply IH; [done|set_solver]|]. apply wp_bind, wp_vscr_ensureReplicationState.
  - intros h' b Hh Hhand. destruct (vscr_working_mono _ _ _ Hh Hw) as ((u & Hu & Ha) & _).
    destruct (vscr_candidate_mono _ _ _ _ Hh (Hcs sc ltac:(set_solver))) as [Hin He].
    split; [|done]. exists u, v, sc, Secondary. split_and!; try done. right; right. done.
  - intros h' err Hh. apply IH; [by eapply vscr_working_mono|]. intros sc' Hs.
    eapply vscr_candidate_mono; [exact Hh|]. apply Hcs. set_solver.
Qed.

Lemma wp_syncVGRReplicationStates v h :
  working h v → W (syncVGRReplicationStates v) h (fun h' _ => working h' v).
Proof.
  intros Hw. unfold syncVGRReplicationStates. apply wp_bind.
  eapply wp_post; [by apply wp_prefix, wp_vscr_confirmed_primaries|].
  intros h1 [e|cs] [Hh1 Hcs]; [by eapply vscr_working_mono|]. apply wp_bind.
  eapply wp_post; [apply wp_vscr_demote; [by eapply vscr_working_mono|by apply Hcs]|]. done.
Qed.

(** *** The parts of a reconciliation *)

Lemma read_no_vgr c : read_only c = true → creates_no_vgr c.
Proof. by destruct c as [| |[]| | | | | | | | | | | | | | | |]. Qed.

Lemma wp_vgr_children key ppath v h :
  working h v → no_vgr_created h →
  W (children_step (k := kVSCR) key (fun v scName => ensureVGR v scName ppath) syncVGRReplicationStates v) h
    (fun h' x => roughly (k := kVSCR) h' x.1).
Proof.
  intros Hw Hn. apply (wp_children_step (k := kVSCR) with_children _ (fun h => working h v) no_vgr_created); try done.
  - intros h1 h2 Hh. by apply vscr_working_mono.
  - by intros h1 [? _].
  - intros h1 h2 Hn1 Htr. eapply no_vgr_created_more; [exact Hn1|].
    intros e [He|He]%Htr; [by left|right; by apply read_no_vgr].
  - intros sc h1 Hw1 Hsc Hf. by apply wp_ensureVGR.
  - intros h1 Hw1. by apply wp_syncVGRReplicationStates.
Qed.

Lemma wp_PatchVSCRResync v h (Q : Trace → VSCR * option error → Prop) :
  current_of h v → vscr_Resync (vscr_Spec v) = true →
  (∀ h' v' err, h `prefix_of` h' → roughly (k := kVSCR) h' v' → (err = None → current_of h' v') → Q h' (v', err)) →
  wp vscr_guarded (PatchVSCRResync v) h Q.
Proof.
  intros Hc Hr HQ. unfold PatchVSCRResync. apply wp_bind.
  apply (wp_clear_resync (k := kVSCR) vscr_guarded vscr_clear_resync); [|done|done|].
  - intros h' b Hh. split; [|done]. split; [done|]. destruct Hc as (u & Hu & Ha). exists u.
    split; [by eapply answered_mono|]. destruct (agree_fields _ _ Ha) as (_ & _ & E & _). cbn in E. congruence.
  - intros h' v' err Hh Hr' Hc'. apply wp_ret, HQ; [done..|]. destruct err; [done|auto].
Qed.

Lemma wp_vscr_ensureResync v h :
  current_of h v → vscr_Resync (vscr_Spec v) = true →
  wp vscr_guarded (ensureResync v) h
    (fun h' x => roughly (k := kVSCR) h' x.1 ∧ (x.2 = None → current_of h' x.1)).
Proof.
  intros Hc Hr. unfold ensureResync. cbv zeta. apply wp_bind_call; [by split|]. intros r. set (h1 := h ++ _).
  assert (Hc1 : current_of h1 v) by (eapply current_of_mono; [|exact Hc]; by apply prefix_app_r).
  destruct r as [e|existing].
  { destruct (IsNotFound (Some e)); [apply wp_PatchVSCRResync; auto|]. by split; [apply current_roughly|]. }
  apply wp_bind. refine (wp_patch_state (k := kVSCR) vscr_guarded _ _ existing Resync h1 _ _ _).
  - intros h' b Hh Hb. split; [|by intros []]. destruct Hc1 as (u & Hu & Ha). exists u, v, (vscr_PrimaryStorageClass (vscr_Spec v)), Resync.
    split_and!; [by eapply answered_mono|done| |done|by right; left].
    exists existing. split; [|done]. eapply elem_of_prefix; [exact Hh|]. apply in_snoc.
  - intros h2 err Hh2. assert (Hc2 : current_of h2 v) by (by eapply current_of_mono).
    destruct err as [e|]; [by split; [apply current_roughly|]|]. apply wp_bind.
    apply (wp_others (k := kVSCR) vscr_guarded); [apply others_touch|].
    intros h3 [names err] Hh3. assert (Hc3 : current_of h3 v) by (by eapply current_of_mono).
    destruct err as [e|]; [by split; [apply current_roughly|]|].
    apply wp_bind, wp_PatchVSCRResync; [done..|]. intros h4 v' err Hh4 Hr4 Hc4.
    destruct err; apply wp_ret; by split; [|auto].
Qed.

Lemma wp_vscr_accept_resource v h :
  answered h v → (∀ e, e ∈ h → read_only (ev_call e) = true) →
  wp before_children (accept_resource v) h (post (k := kVSCR) (fun _ _ _ => True)).
Proof.
  intros Ha Hro. unfold accept_resource, this.
  eapply (wpM_bind (k := kVSCR) before_children); [apply (wpM_current (k := kVSCR) before_children _ _ (fun h' v' a => h' = h ∧ v' = v)); [by apply answered_current|done]|].
  intros h1 ? v1 _ _ [-> ->]. cbv zeta.
  assert (Hc : current_of h v) by (by apply answered_current).
  eapply (wpM_bind (k := kVSCR) before_children); [by apply (wpM_pure (k := kVSCR) before_children _ _ _ (fun h' v' _ => h' = h ∧ v' = v))|]. intros h2 ? clients _ _ [-> ->].
  eapply (wpM_bind (k := kVSCR) before_children); [by apply (wpM_pure (k := kVSCR) before_children _ _ _ (fun h' v' _ => h' = h ∧ v' = v))|]. intros h2 ? scs _ _ [-> ->].
  eapply (wpM_bind (k := kVSCR) before_children); [apply (wp_finalizer_step (k := kVSCR) before_children _ _ _ (fun h' v' _ => answered h' v')); [done..| |done]|].
  { intros w. apply reads_vscr_validateOnce. }
  intros h2 v2 [] Hh2 Hc2 Ha2.
  eapply (wpM_bind (k := kVSCR) before_children); [by apply (wp_status_step (k := kVSCR) before_children _ _ _ (fun _ _ _ => True))|].
  intros h3 v3 changed Hh3 Hc3 _. by apply (wpM_ret (k := kVSCR) before_children).
Qed.

Lemma wp_vscr_ppath_step clients scs v h :
  current_of h v →
  wp before_children (ppath_step clients scs v) h (post (k := kVSCR) (fun h' v' _ => working h' v')).
Proof.
  intros Hc. unfold ppath_step, this.
  eapply (wpM_bind (k := kVSCR) before_children); [by apply (wpM_current (k := kVSCR) before_children _ _ (fun _ v' a => v' = a))|]. intros h1 ? v1 Hh1 Hc1 ->. cbv zeta.
  case_bool_decide.
  - apply (wp_verify_ppath (k := kVSCR) before_children); [done|..].
    + intros h' v' Hh Hc' Hp. split; [done|by left].
    + intros h' v' sc Hh Hc' Hl. split; [done|right]. by eexists _, _.
  - apply (wp_establish_ppath (k := kVSCR) before_children); [done|]. intros h' v' name Hh Hc' Hp. split; [done|by left].
Qed.

Lemma wp_vscr_prepare clients scs v h :
  current_of h v →
  wp before_children (prepare clients scs v) h
    (post (k := kVSCR) (fun h' v' r => ∀ name, r = Some name → working h' v')).
Proof.
  intros Hc. unfold prepare.
  eapply (wpM_bind (k := kVSCR) before_children); [by apply (wp_peers_step (k := kVSCR) before_children _ _ _ (fun _ _ _ => True))|].
  intros h1 v1 [] Hh1 Hc1 _; [by apply (wpM_ret (k := kVSCR) before_children)|].
  eapply (wpM_bind (k := kVSCR) before_children); [apply (wp_dirs_step (k := kVSCR) before_children _ _ _ (fun _ _ _ => True)); [done| |done]|].
  { intros w. apply reads_others, reads_predict_all. }
  intros h2 v2 [] Hh2 Hc2 _.
  eapply (wpM_bind (k := kVSCR) before_children); [by apply (wp_tenants_step (k := kVSCR) before_children _ _ _ (fun _ _ _ => True))|].
  intros h3 v3 [] Hh3 Hc3 _.
  eapply (wpM_bind (k := kVSCR) before_children); [by apply wp_vscr_ppath_step|]. intros h4 v4 name Hh4 Hc4 Hw.
  apply (wpM_ret (k := kVSCR) before_children); [done|]. by intros ? [= <-].
Qed.

Lemma wp_vscr_before {A} (p : Prog A) h Q :
  wp before_children p h Q →
  wp vscr_guarded p h (fun h' a => Q h' a ∧ ∀ e, e ∈ h' → e ∈ h ∨ no_vgr_call (ev_call e)).
Proof.
  intros Hp. apply wp_guard_trace. eapply wp_mono; [|by intros ? ? HQ; exact HQ|exact Hp].
  intros h' c [Ha Hn] _. split; [|done]. split; [done|].
  by destruct c as [| |[]| | |[]| | | | | | | | | | | | |].
Qed.

Lemma wp_vscr_with {A} (p : Prog A) h Q :
  no_resync h → wp with_children p h Q → wp vscr_guarded p h Q.
Proof.
  intros Hn Hp.
  eapply wp_post; [apply (wp_guard_trace no_resync_call)|by intros h' a [HQ _]; exact HQ].
  eapply wp_mono; [|by intros ? ? HQ; exact HQ|exact Hp].
  intros h' c [Ha Hc] Htr. split; [|done]. split; [done|].
  assert (no_resync h') by (intros e [He|He]%Htr; auto).
  by destruct c as [| |[]| | |[]| | | | | | | | | | | | |].
Qed.

Lemma wp_vscr_live key v h :
  answered h v → (∀ e, e ∈ h → read_only (ev_call e) = true) →
  wp vscr_guarded (live key v) h (fun h' x => roughly (k := kVSCR) h' x.1).
Proof.
  intros Ha Hro.
  assert (Hclean : ∀ h h' : Trace, (∀ e, e ∈ h → no_vgr_call (ev_call e)) →
            (∀ e, e ∈ h' → e ∈ h ∨ no_vgr_call (ev_call e)) → ∀ e, e ∈ h' → no_vgr_call (ev_call e)).
  { intros ? ? H1 H2 e [He|He]%H2; auto. }
  assert (H0 : ∀ e, e ∈ h → no_vgr_call (ev_call e)).
  { intros [c r] He%Hro. by destruct c as [| |[]| | |[]| | | | | | | | | | | | |]. }
  unfold live. apply (wpM_seq (k := kVSCR) vscr_guarded). eapply wp_post; [by apply wp_vscr_before, wp_vscr_accept_resource|].
  intros h1 [v1 [[clients scs]|e|]] [[Hr1 Hd1] Htr1]; [|exact Hr1..].
  destruct (Hd1 _ eq_refl) as [Hc1 _]. cbn [fst snd] in *. specialize (Hclean _ _ H0 Htr1) as H1.
  apply (wpM_seq (k := kVSCR) vscr_guarded). unfold this, current. apply wp_ret. cbn [fst snd].
  destruct (vscr_Resync (vscr_Spec v1)) eqn:Hres.
  { apply (wpM_seq (k := kVSCR) vscr_guarded). unfold on_object. apply wp_bind. eapply wp_post; [by apply wp_vscr_ensureResync|].
    intros h2 [v2 [e|]] [Hr2 Hc2]; exact Hr2. }
  apply (wpM_seq (k := kVSCR) vscr_guarded). eapply wp_post; [by apply wp_vscr_before, wp_vscr_prepare|].
  intros h2 [v2 [[name|]|e|]] [[Hr2 Hd2] Htr2]; [|exact Hr2..].
  destruct (Hd2 _ eq_refl) as [Hc2 Hw]. cbn [fst snd] in *. specialize (Hclean _ _ H1 Htr2) as H2.
  apply wp_vscr_with; [|apply wp_vgr_children; [by eapply Hw|]].
  - intros [c r] He%H2. by destruct c as [| |[]| | |[]| | | | | | | | | | | | |].
  - intros o r He%H2. done.
Qed.

Lemma wp_vscr_Reconcile key : wp vscr_guarded (Reconcile key) [] (fun _ _ => True).
Proof.
  unfold Reconcile. apply (wp_reconcile (k := kVSCR) vscr_guarded).
  - intros name ns h. unfold GetVastStorageClassReplication. apply wp_bind_call; [by split|].
    intros r. apply wp_ret. intros v Hv. destruct r as [e|o]; [done|]. injection Hv as <-. split.
    + left. exists name, ns. apply in_snoc.
    + intros e. rewrite elem_of_app, list_elem_of_singleton. intros [?| ->]; auto.
  - intros h v Ha Hro. by apply wp_vscr_live.
Qed.

Lemma runs_vscr_guarded key t a t1 c r t2 :
  runs (Reconcile key) t a → t = t1 ++ Ev c r :: t2 → vscr_guarded t1 c.
Proof. intros Hr Ht. destruct (wp_sound _ _ _ _ _ _ (wp_vscr_Reconcile key) Hr) as [_ HG]. by eapply HG. Qed.

End Guard.

(** ** Properties *)

Section Properties.

Context {steps : RetrySteps} {lk : Lookups} {ve : VastErrors} {sd : ShowDuration} {mo : MapOrder}
  {refs : OwnerRefs} {cfg : Config} {clk : Clock}.

(** C4. A VSCR loses its finalizer only when nothing is left of it: an update
    that writes a VSCR without the finalizer either repeats finalizers the API
    server reported, or comes after every VolumeGroupReplication of the
    topology was deleted and then looked up in vain and a listing of the
    VSCR's contents came back empty, or takes the finalizer back in the very
    reconciliation that added it and has written nothing else. *)
Theorem vscr_finalizer_removed_last (key : string * string) (t : Trace) (a : Result * option error) (t1 : Trace) (w : VSCR)
    (r : result VSCR) (t2 : Trace) :
  runs (Reconcile key) t a → t = t1 ++ Ev (Update kVSCR w) r :: t2 →
  HasFinalizer (vscr_Meta w) FinalizerVSCR = false →
  (∃ u, answered (k := kVSCR) t1 u ∧ Finalizers (vscr_Meta w) = Finalizers (vscr_Meta u)) ∨
  (∃ u, deletion_complete (k := kVSCR) t1 u ∧
     Name (vscr_Meta w) = Name (vscr_Meta u) ∧ Namespace (vscr_Meta w) = Namespace (vscr_Meta u)) ∨
  (∃ t', t' `prefix_of` t1 ∧ only_finalizer_added (k := kVSCR) t' ∧
     ∀ e, e ∈ t1 → e ∈ t' ∨ read_only (ev_call e) = true ∨ ∃ w', ev_call e = Update kVSCR w').
Proof.
  intros Hr Ht Hf. destruct (runs_vscr_guarded _ _ _ _ _ _ _ Hr Ht) as [[Hyes|Hrest] _]; [|exact Hrest].
  cbn in Hyes. congruence.
Qed.



(** C1. The requested state of an existing VolumeGroupReplication is changed
    in three cases only, each time on a copy read just before: to Primary for
    the primary class; to Resync for the primary class of a VSCR whose
    [spec.resync] is set; to Secondary for another class of the topology whose
    VGR was read as confirmed primary.  A reconciliation that asked for a
    resync drives no other state. *)
Theorem vgr_states_driven (key : string * string) (t : Trace) (a : Result * option error)
    (t1 : Trace) (b o : VolumeGroupReplication) (r : result VolumeGroupReplication) (t2 : Trace) :
  runs (Reconcile key) t a → t = t1 ++ Ev (Patch kVGR b o) r :: t2 →
  ∃ u sc s, answered (k := kVSCR) t1 u ∧ vgr_at_hand t1 u sc b ∧ o = vgr_set_state b s ∧
    ((s = Primary ∧ sc = vscr_PrimaryStorageClass (vscr_Spec u)) ∨
     (s = Resync ∧ sc = vscr_PrimaryStorageClass (vscr_Spec u) ∧ vscr_Resync (vscr_Spec u) = true) ∨
     (s = Secondary ∧ sc ≠ vscr_PrimaryStorageClass (vscr_Spec u) ∧ sc ∈ VSCR_AllStorageClasses (vscr_Spec u) ∧
      ∃ e, Ev (Get kVGR (vgrNameForSC (Name (vscr_Meta u)) sc) (VSCR_PVCNamespace u)) (inr e) ∈ t1 ∧
           IsVGRConfirmedPrimary e = true)) ∧
    (s ≠ Resync → no_resync t1).
Proof.
  intros Hr Ht. destruct (runs_vscr_guarded _ _ _ _ _ _ _ Hr Ht) as [(u & v & sc & s & Hu & Ha & Hb & -> & Hs) Hn].
  destruct (agree_fields _ _ Ha) as (E1 & E2 & E3 & E4 & E5 & _). cbn in E1, E2, E3, E4, E5.
  exists u, sc, s. unfold vgr_at_hand, VSCR_AllStorageClasses in *. rewrite <-E1, <-E2, <-E3, <-E4, <-E5.
  split_and!; try done.
Qed.

(** *** Every class has its VGR *)

Lemma wp_ensureVGR_seen v sc ppath h :
  wp (fun _ _ => True) (ensureVGR v sc ppath) h (fun h' x => x.2 = None →
    object_seen kVGR h' (vgrNameForSC (Name (vscr_Meta v)) sc) (VSCR_PVCNamespace v)).
Proof.
  unfold ensureVGR. apply wp_bind. eapply wp_post; [by apply (wp_true _ _ _ (fun _ _ => True))|].
  intros h1 [e|cn] _; [done|]. cbv zeta. destruct (build_vgr v sc cn) as [e|vgr] eqn:Hb; [done|].
  destruct (built_vgr _ _ _ _ Hb) as (<- & <- & _).
  apply wp_bind. unfold EnsureVolumeGroupReplication. apply wp_ensure; [done..|].
  intros h2 [e|[]] Hh2 Hs; [done|by intros _; apply (Hs true)|]. specialize (Hs false eq_refl).
  case_bool_decide; [by intros _|]. apply wp_bind.
  eapply wp_post; [apply wp_prefix; by apply (wp_true _ _ _ (fun _ _ => True))|].
  intros h3 err [Hh3 _] _. by eapply object_seen_mono.
Qed.

(** C21. A pass that succeeds leaves no class without its VGR: when the part of
    the reconciliation that deals with the children ends without an error,
    the VolumeGroupReplication of every StorageClass of the topology was read
    or created in it. *)
Theorem vgrs_ensured (key : string * string) (ppathName : string) (v v' : VSCR) (t : Trace) (res : Result) :
  runs (children_step (k := kVSCR) key (fun v scName => ensureVGR v scName ppathName) syncVGRReplicationStates v)
    t (v', Done res) →
  ∀ sc, sc ∈ VSCR_AllStorageClasses (vscr_Spec v) →
    object_seen kVGR t (vgrNameForSC (Name (vscr_Meta v)) sc) (VSCR_PVCNamespace v).
Proof.
  intros Hr. refine (children_seen (k := kVSCR) key _ _ v v'
    (fun sc t => object_seen kVGR t (vgrNameForSC (Name (vscr_Meta v)) sc) (VSCR_PVCNamespace v)) t res _ _ Hr).
  - intros sc t1 t2. apply object_seen_mono.
  - intros sc h. apply wp_ensureVGR_seen.
Qed.

(** *** A protected path that was deleted behind the controller's back *)

(** When the recorded protected path is reported missing, the VSCR
    controller forgets its name and goes on to the children with no name at
    all instead of establishing a path: nothing but the status update happens
    in this step. *)
Theorem lost_ppath_leaves_no_name (clients : gset string) (scs : gmap string StorageClass) (v v' : VSCR) (e : error) :
  let name := PpathName (vscr_Status v) in
  let primary := vscr_PrimaryStorageClass (vscr_Spec v) in
  name ≠ "" → primary ∈ clients →
  vast_IsNotFoundErr (ErrWrap ("failed to get protected path " +:+ quote name +:+ ": ") e "") = true →
  runs (ppath_step clients scs v)
    [Ev (Vms primary (PpathGet name)) (inl e);
     Ev (UpdateStatus kVSCR (mkVSCR (vscr_Meta v) (vscr_Spec v) (with_ppath "" (vscr_Status v)))) (inr v')]
    (v', Done "").
Proof.
  intros name primary Hname Hin He.
  apply (runs_Mbind (k := kVSCR) this _ v [] v v); [constructor|]. cbv zeta. rewrite bool_decide_true by done.
  apply (runs_Mbind (k := kVSCR) current _ v [] v v); [constructor|]. rewrite bool_decide_true by done.
  change (?x :: ?l) with ([x] ++ l).
  apply (runs_Mbind (k := kVSCR) _ _ v _ v
    (Some (ErrWrap ("failed to get protected path " +:+ quote name +:+ ": ") e ""))); [apply runs_vis; constructor|].
  cbv beta iota. rewrite He. rewrite <-(app_nil_r [Ev (UpdateStatus kVSCR _) _]).
  apply (runs_Mbind (k := kVSCR) _ _ v _ v' tt); [|constructor].
  apply (runs_Mbind (k := kVSCR) _ _ v [] (mkVSCR (vscr_Meta v) (vscr_Spec v) (with_ppath "" (vscr_Status v))) tt); [constructor|].
  unfold save_status, on_object, update_status_of, update_object_status, UpdateStatusWithRetry.
  unfold retry_steps. destruct steps; apply runs_vis; cbn; constructor.
Qed.

End Properties.

(** *** Directory overrides *)

Definition override_of (sc : string) (t : ReplicationTarget) : option string :=
  if bool_decide (Destination t = sc) && bool_decide (TargetExportedDir t ≠ "")
  then Some (TargetExportedDir t) else None.

(** What the overrides make of a mapping: the first one for a class wins. *)
Definition overridden (topology : list ReplicationTarget) (m : gmap string string) (sc : string) : option string :=
  match omap (override_of sc) topology with d :: _ => Some d | [] => m !! sc end.

Lemma apply_overrides_spec primaryDir i topology m :
  (∀ sc d, d ∈ omap (override_of sc) topology →
     (∀ d', d' ∈ omap (override_of sc) topology → d' = d) ∧
     (m !! sc = None ∨ m !! sc = Some primaryDir ∨ m !! sc = Some d)) →
  ∃ m', apply_overrides primaryDir i topology m = inr m' ∧ ∀ sc, m' !! sc = overridden topology m sc.
Proof.
  revert i m. induction topology as [|t topology IH]; intros i m Hok; cbn [apply_overrides]; [by exists m|].
  assert (Hdir : ∀ sc, omap (override_of sc) (t :: topology) =
            match override_of sc t with Some d => d :: omap (override_of sc) topology
            | None => omap (override_of sc) topology end) by done.
  unfold overridden. setoid_rewrite Hdir. setoid_rewrite Hdir in Hok.
  case_bool_decide as Hdt.
  { assert (Hnone : ∀ sc, override_of sc t = None).
    { intros sc. unfold override_of. rewrite (bool_decide_false (TargetExportedDir t ≠ "")) by auto. by rewrite andb_false_r. }
    setoid_rewrite Hnone. setoid_rewrite Hnone in Hok. by apply IH. }
  assert (Hov : ∀ sc, override_of sc t = if bool_decide (Destination t = sc) then Some (TargetExportedDir t) else None).
  { intros sc. unfold override_of. rewrite (bool_decide_true (TargetExportedDir t ≠ "")) by done. by rewrite andb_true_r. }
  setoid_rewrite Hov. setoid_rewrite Hov in Hok.
  set (dst := Destination t) in *. set (dir := TargetExportedDir t) in *. clearbody dst dir.
  assert (Hdst := Hok dst dir). rewrite bool_decide_true in Hdst by done.
  destruct Hdst as [Hsame Hm]; [set_solver|].
  assert (Hguard : bool_decide (is_Some (m !! dst)) && bool_decide (m !! dst ≠ Some primaryDir) &&
            bool_decide (m !! dst ≠ Some dir) = false).
  { destruct Hm as [-> | [-> | ->]].
    - by rewrite bool_decide_false by (by intros [? [=]]).
    - rewrite (bool_decide_false (Some primaryDir ≠ _)) by auto. by rewrite andb_false_r.
    - rewrite (bool_decide_false (Some dir ≠ Some dir)) by auto. by rewrite andb_false_r. }
  rewrite Hguard. destruct (IH (S i) (<[dst := dir]> m)) as (m' & -> & Hm').
  { intros sc d Hd. destruct (decide (dst = sc)) as [<-|Hsc].
    - assert (d = dir) as -> by (apply Hsame; set_solver). rewrite lookup_insert_eq.
      split; [intros d' Hd'; apply Hsame; set_solver|auto].
    - rewrite lookup_insert_ne by done. specialize (Hok sc d). rewrite bool_decide_false in Hok by done.
      by apply Hok. }
  exists m'. split; [done|]. intros sc. rewrite Hm'. unfold overridden.
  destruct (decide (dst = sc)) as [<-|Hsc]; [rewrite bool_decide_true by done|rewrite bool_decide_false by done].
  - destruct (omap (override_of dst) topology) as [|d l]; [by rewrite lookup_insert_eq|].
    f_equal. apply Hsame. set_solver.
  - rewrite lookup_insert_ne by done. done.
Qed.

Lemma lookup_uniform dir scs sc : sc ∈ scs → uniform dir scs !! sc = Some dir.
Proof.
  unfold uniform.
  assert (Hgen : ∀ m : gmap string string, sc ∈ scs ∨ m !! sc = Some dir →
            foldl (fun m s => <[s := dir]> m) m scs !! sc = Some dir); [|auto].
  induction scs as [|s scs IH]; intros m Hsc; simpl; [set_solver|].
  apply IH. destruct (decide (sc = s)) as [->|]; [right; by rewrite lookup_insert_eq|].
  rewrite lookup_insert_ne by done. set_solver.
Qed.

Lemma uniform_values dir scs sc : uniform dir scs !! sc = None ∨ uniform dir scs !! sc = Some dir.
Proof.
  unfold uniform.
  assert (Hgen : ∀ m : gmap string string, m !! sc = None ∨ m !! sc = Some dir →
            foldl (fun m s => <[s := dir]> m) m scs !! sc = None ∨
            foldl (fun m s => <[s := dir]> m) m scs !! sc = Some dir); [|apply Hgen; auto].
  induction scs as [|s scs IH]; intros m Hm; simpl; [done|].
  apply IH. destruct (decide (sc = s)) as [->|]; [right; by rewrite lookup_insert_eq|].
  by rewrite lookup_insert_ne.
Qed.

(** Directory overrides of subsystem-level replication: when the entries
    for one destination that set [targetExportedDir] agree, every class is
    mapped to its override, and to the primary directory without one. *)
Theorem overrides_applied (primaryDir : string) (scs : list string) (topology : list ReplicationTarget) :
  (∀ t t', t ∈ topology → t' ∈ topology → Destination t = Destination t' →
     TargetExportedDir t ≠ "" → TargetExportedDir t' ≠ "" → TargetExportedDir t = TargetExportedDir t') →
  ∃ m, apply_overrides primaryDir 0 topology (uniform primaryDir scs) = inr m ∧
    ∀ sc, sc ∈ scs →
      (∀ t, t ∈ topology → Destination t = sc → TargetExportedDir t ≠ "" → m !! sc = Some (TargetExportedDir t)) ∧
      ((∀ t, t ∈ topology → Destination t = sc → TargetExportedDir t = "") → m !! sc = Some primaryDir).
Proof.
  intros Hagree.
  assert (Hel : ∀ sc d, d ∈ omap (override_of sc) topology ↔
            ∃ t, t ∈ topology ∧ Destination t = sc ∧ TargetExportedDir t ≠ "" ∧ TargetExportedDir t = d).
  { intros sc d. rewrite list_elem_of_omap. unfold override_of.
    split; intros (t & Ht & Hd); exists t; (split; [done|]).
    - revert Hd. destruct (bool_decide (Destination t = sc)) eqn:E1; [|done].
      destruct (bool_decide (TargetExportedDir t ≠ _)) eqn:E2; [|done]. intros [= <-].
      apply bool_decide_eq_true in E1, E2. done.
    - destruct Hd as (<- & ? & <-). by rewrite !bool_decide_true. }
  destruct (apply_overrides_spec primaryDir 0 topology (uniform primaryDir scs)) as (m & Hm & Hlook).
  { intros sc d (t & Ht & Hd & Hne & <-)%Hel. split.
    - intros d' (t' & Ht' & Hd' & Hne' & <-)%Hel. apply Hagree; congruence.
    - destruct (uniform_values primaryDir scs sc); auto. }
  exists m. split; [done|]. intros sc Hsc. rewrite Hlook. unfold overridden. split.
  - intros t Ht Hd Hne. assert (Hin : TargetExportedDir t ∈ omap (override_of sc) topology) by (apply Hel; eauto).
    destruct (omap (override_of sc) topology) as [|d l] eqn:Hl; [by apply elem_of_nil in Hin|].
    assert (Hd1 : d ∈ omap (override_of sc) topology) by (rewrite Hl; set_solver).
    apply Hel in Hd1 as (t' & Ht' & Hd' & Hne' & <-). f_equal. apply Hagree; congruence.
  - intros Hno. destruct (omap (override_of sc) topology) as [|d l] eqn:Hl; [by apply lookup_uniform|].
    assert (Hd1 : d ∈ omap (override_of sc) topology) by (rewrite Hl; set_solver).
    apply Hel in Hd1 as (t' & Ht' & Hd' & Hne' & <-). by rewrite Hno in Hne'.
Qed.

(** The conflict check of the overrides depends on the order of the
    topology: two entries that give one destination different directories, one
    of them the primary directory, are refused in one order and accepted in
    the other, where the later one wins. *)
Theorem override_conflict_order_dependent (primaryDir dir : string) (scs : list string) (t t' : ReplicationTarget) :
  Destination t = Destination t' → primaryDir ≠ "" → dir ≠ "" → dir ≠ primaryDir →
  TargetExportedDir t = primaryDir → TargetExportedDir t' = dir →
  (∃ m, apply_overrides primaryDir 0 [t; t'] (uniform primaryDir scs) = inr m ∧ m !! Destination t = Some dir) ∧
  ∃ e, apply_overrides primaryDir 0 [t'; t] (uniform primaryDir scs) = inl e.
Proof.
  intros Hd Hp He Hne Ht Ht'. cbn [apply_overrides]. rewrite Ht, Ht', <-Hd.
  rewrite !(bool_decide_false (_ = "")) by done. rewrite !lookup_insert_eq.
  assert (Hfree : bool_decide (is_Some (uniform primaryDir scs !! Destination t)) &&
            bool_decide (uniform primaryDir scs !! Destination t ≠ Some primaryDir) = false).
  { destruct (uniform_values primaryDir scs (Destination t)) as [-> | ->].
    - by rewrite bool_decide_false by (by intros [? [=]]).
    - rewrite (bool_decide_false (Some primaryDir ≠ _)) by auto. by rewrite andb_false_r. }
  rewrite Hfree. cbn [andb]. split.
  - rewrite (bool_decide_false (Some primaryDir ≠ Some primaryDir)) by auto. rewrite andb_false_r. cbn [andb].
    eexists. split; [reflexivity|]. by rewrite lookup_insert_eq.
  - rewrite (bool_decide_true (is_Some (Some dir))) by done.
    rewrite !(bool_decide_true (Some dir ≠ _)) by congruence. cbn [andb]. by eexists.
Qed.

(** ** Concrete runs *)

#[local] Existing Instances demo_lookups demo_errors demo_show demo_order demo_refs demo_clock.
Definition demo_config : Config := mkConfig false "{pvc_name}".
Definition demo_steps : RetrySteps := 4.
#[local] Existing Instances demo_config demo_steps.

Definition demo_status : ReplicationStatus :=
  mkStatus FailoverTypeUngraceful "gold" (DisplayableList_String ["gold"; "silver"])
    {["gold" := "/k8s"; "silver" := "/k8s"]} {["gold" := mkTenant "t" "g1" 1; "silver" := mkTenant "t" "g2" 1]} "a" "".
Definition demo_resource (deleting : bool) : VSCR :=
  mkVSCR (mkMeta "a" "apps" "u2" ∅ ∅ [FinalizerVSCR] [] 1 deleting)
    (mkVSCRSpec "gold" [mkTarget "gold" "silver" "gs" ""] (mkTemplate []) FailoverTypeUngraceful false 0 false true
       DestVolReclaimPolicyRetain "") demo_status.
Definition demo_child (name : string) (s : ReplicationState) : VolumeGroupReplication :=
  mkVGR (mkMeta name "apps" "u3" ∅ ∅ [] [] 1 false) s "" "c" "c" true None PrimaryState [].

(** An API server with one VSCR and some VGRs, and clusters on which every
    path is active. *)
Definition demo_api (v : VSCR) (groups : list VolumeGroupReplication) (c : Call) (s : unit) : unit * resp c :=
  (s,
   match c return resp c with
   | Get k n ns =>
       match k return result (kobj k) with
       | kVGR => match filter (fun g => Name (vgr_Meta g) = n) groups with
                 | g :: _ => inr g
                 | [] => inl (ErrStatus ReasonNotFound "not found")
                 end
       | kVSCR => inr v
       | kVRC => inr (demo_content false [])
       | _ => inl (ErrStatus ReasonNotFound "not found")
       end
   | Vms _ q => match q return vms_resp q with
                | PpathGet n => inr (mkPpath 9 n true "ACTIVE" "" "Source" "/k8s" [] 1)
                | q => vms_quiet q
                end
   | c => quiet c
   end).

Definition demo_reconcile (deleting : bool) (groups : list VolumeGroupReplication) :=
  exec (demo_api (demo_resource deleting) groups) (Reconcile ("apps", "a")) tt.
Definition demo_trace (deleting : bool) (groups : list VolumeGroupReplication) : Trace :=
  (demo_reconcile deleting groups).1.2.
Definition demo_two : list VolumeGroupReplication := [demo_child "a-gold" Secondary; demo_child "a-silver" Primary].

Lemma demo_vscr_runs deleting groups :
  runs (Reconcile ("apps", "a")) (demo_trace deleting groups) (demo_reconcile deleting groups).2.
Proof. apply exec_runs. Qed.

Lemma vscr_finalizer_removed_last_witness :
  let t := demo_trace true [] in
  let v := demo_resource true in
  let w := mkVSCR (set_finalizers (vscr_Meta v) []) (vscr_Spec v) (vscr_Status v) in
  t = take 12 t ++ Ev (Update kVSCR w) (inr w) :: drop 13 t ∧
  ((∃ u, answered (k := kVSCR) (take 12 t) u ∧ Finalizers (vscr_Meta w) = Finalizers (vscr_Meta u)) ∨
   (∃ u, deletion_complete (k := kVSCR) (take 12 t) u ∧
      Name (vscr_Meta w) = Name (vscr_Meta u) ∧ Namespace (vscr_Meta w) = Namespace (vscr_Meta u)) ∨
   (∃ t', t' `prefix_of` take 12 t ∧ only_finalizer_added (k := kVSCR) t' ∧
      ∀ e, e ∈ take 12 t → e ∈ t' ∨ read_only (ev_call e) = true ∨ ∃ w', ev_call e = Update kVSCR w')).
Proof.
  intros t v w.
  assert (Ht : t = take 12 t ++ Ev (Update kVSCR w) (inr w) :: drop 13 t) by (vm_compute; reflexivity).
  split; [exact Ht|].
  apply (vscr_finalizer_removed_last ("apps", "a") t _ (take 12 t) w (inr w) (drop 13 t) (demo_vscr_runs true []) Ht).
  vm_compute. reflexivity.
Defined.


Definition demo_built (sc className : string) : VolumeGroupReplication :=
  match build_vgr (demo_resource false) sc className with inr o => o | inl _ => demo_child "" Primary end.


Lemma vgr_states_driven_witness :
  let t := demo_trace false demo_two in
  let b := demo_child "a-silver" Primary in
  t = take 19 t ++ Ev (Patch kVGR b (vgr_set_state b Secondary)) (inr (vgr_set_state b Secondary)) :: drop 20 t ∧
  ∃ u sc s, answered (k := kVSCR) (take 19 t) u ∧ vgr_at_hand (take 19 t) u sc b ∧
    vgr_set_state b Secondary = vgr_set_state b s.
Proof.
  intros t b.
  assert (Ht : t = take 19 t ++ Ev (Patch kVGR b (vgr_set_state b Secondary)) (inr (vgr_set_state b Secondary)) :: drop 20 t)
    by (vm_compute; reflexivity).
  split; [exact Ht|].
  destruct (vgr_states_driven ("apps", "a") t _ (take 19 t) _ _ _ (drop 20 t) (demo_vscr_runs false demo_two) Ht)
    as (u & sc & s & Hu & Hb & Hs & _).
  exists u, sc, s. split; [exact Hu|]. split; [exact Hb|exact Hs].
Defined.

Lemma vgrs_ensured_witness :
  let p := children_step (k := kVSCR) ("apps", "a") (fun v scName => ensureVGR v scName "a") syncVGRReplicationStates
             (demo_resource false) in
  object_seen kVGR (exec (demo_api (demo_resource false) demo_two) p tt).1.2 "a-silver" "apps".
Proof.
  intros p.
  apply (vgrs_ensured ("apps", "a") "a" (demo_resource false) (demo_resource false)
           (exec (demo_api (demo_resource false) demo_two) p tt).1.2 (mkResult 0)) with (sc := "silver").
  - exact (exec_runs (demo_api (demo_resource false) demo_two) p tt).
  - vm_compute. set_solver.
Defined.

Lemma lost_ppath_leaves_no_name_witness :
  let not_found : VastErrors := mkVastErrors (fun _ => true) (fun _ _ => false) in
  let v := demo_resource false in
  runs (@ppath_step 4 _ not_found _ _ {["gold"; "silver"]} ∅ v)
    [Ev (Vms "gold" (PpathGet "a")) (inl (ErrRest 404 "not found"));
     Ev (UpdateStatus kVSCR (mkVSCR (vscr_Meta v) (vscr_Spec v) (with_ppath "" (vscr_Status v)))) (inr v)]
    (v, Done "").
Proof.
  intros not_found v.
  apply (@lost_ppath_leaves_no_name 4 _ not_found _ _ {["gold"; "silver"]} ∅ v v (ErrRest 404 "not found")).
  - vm_compute. discriminate.
  - set_solver.
  - reflexivity.
Defined.

Lemma overrides_applied_witness :
  ∃ m, apply_overrides "/sub" 0 [mkTarget "a" "b" "" "/x"; mkTarget "a" "c" "" ""; mkTarget "c" "b" "" "/x"]
         (uniform "/sub" ["a"; "b"; "c"]) = inr m ∧ m !! "b" = Some "/x" ∧ m !! "c" = Some "/sub".
Proof.
  destruct (overrides_applied "/sub" ["a"; "b"; "c"]
              [mkTarget "a" "b" "" "/x"; mkTarget "a" "c" "" ""; mkTarget "c" "b" "" "/x"]) as (m & Hm & Hl).
  - intros t t' Ht Ht'. set_unfold in Ht. set_unfold in Ht'.
    destruct Ht as [->|[->|[->|[]]]], Ht' as [->|[->|[->|[]]]]; cbn; congruence.
  - exists m. split; [exact Hm|]. split.
    + destruct (Hl "b" ltac:(set_solver)) as [Hb _].
      refine (Hb (mkTarget "a" "b" "" "/x") _ _ _); [set_solver|reflexivity|discriminate].
    + destruct (Hl "c" ltac:(set_solver)) as [_ Hc]. apply Hc. intros t Ht Hd. set_unfold in Ht.
      destruct Ht as [->|[->|[->|[]]]]; cbn in Hd |- *; congruence.
Defined.

Lemma override_conflict_order_dependent_witness :
  let t := mkTarget "a" "c" "" "/sub" in
  let t' := mkTarget "b" "c" "" "/x" in
  (∃ m, apply_overrides "/sub" 0 [t; t'] (uniform "/sub" ["a"; "b"; "c"]) = inr m ∧ m !! "c" = Some "/x") ∧
  ∃ e, apply_overrides "/sub" 0 [t'; t] (uniform "/sub" ["a"; "b"; "c"]) = inl e.
Proof.
  intros t t'.
  apply (override_conflict_order_dependent "/sub" "/x" ["a"; "b"; "c"] t t'); try reflexivity; discriminate.
Defined.
