(* ===== verification/VolumeController.v ===== *)
(** * The VastVolumeReplication controller

    [internal/controller/vastvolumereplication_controller.go]: one
    VolumeReplication per StorageClass of the topology of a single volume.
    The steps it shares with the VSCR controller are those of
    [ReplicationCR]. *)

From S2P Require Import Prelude GoErrors Topology Kube Naming Peers PpathDir Lookups Programs Api ContentController Client Builders Ppath ReplicationObjects ReplicationCR ReplicationCRRules.
From stdpp Require Import options.

Section Controller.

Context {steps : RetrySteps} {lk : Lookups} {ve : VastErrors} {sd : ShowDuration} {mo : MapOrder}
  {refs : OwnerRefs} {cfg : Config} {clk : Clock}.

Definition this : M kVVR VVR := current.

(** ** Validation *)

(** The subsystem of every block class is there. *)
Fixpoint block_subsystems_present (clients : gset string) (scs : gmap string StorageClass) (scNames : list string)
    : Prog (outcome unit) :=
  match scNames with
  | [] => mret (Done tt)
  | scName :: scNames' =>
      match scs !! scName with
      | None => mret Panicked
      | Some sc =>
          if negb (IsBlockStorageClass sc) then block_subsystems_present clients scs scNames'
          else andThen (check_subsystem "VVR " clients scName sc) (block_subsystems_present clients scs scNames')
      end
  end.

Definition validateOnce (clients : gset string) (scs : gmap string StorageClass) (v : VVR) : Prog (outcome unit) :=
  match VVR_Validate (vvr_Spec v) with
  | inl e => invalid (error_msg e)
  | inr _ =>
      andThen (check_ppath_name (k := kVVR) clients v)
        (block_subsystems_present clients scs (VVR_AllStorageClasses (vvr_Spec v)))
  end.

Definition predict_all (v : VVR) : Prog (result (gmap string string)) :=
  predict_dirs (vvr_VolumeName (vvr_Spec v)) (VVR_PVCNamespace v) (VVR_AllStorageClasses (vvr_Spec v)) ∅.

(** ** Protected path: a path that was found missing is recreated at once *)

Definition ppath_step (clients : gset string) (scs : gmap string StorageClass) : M kVVR string :=
  v ← this;
  let ppathName := PpathName (vvr_Status v) in
  ppathName ← (if bool_decide (ppathName ≠ "") then verify_ppath clients ppathName else mret ppathName);
  if bool_decide (ppathName = "") then establish_ppath clients scs else mret ppathName.

(** ** VolumeReplications *)

Definition ensureVolumeReplicationClass (v : VVR) (scName ppathName : string) : Prog (result string) :=
  match class_inputs VVRReplicationClassFormat (Name (vvr_Meta v)) scName with
  | inl e => mret (inl e)
  | inr (sc, className, secretName, secretNamespace) =>
      err ← ensure_vrclass (vrclass_for sc className secretName secretNamespace ppathName scName);
      mret (match err with Some e => inl e | None => inr className end)
  end.

(** Promotion does not interrupt a resync unless the primary has changed. *)
Definition ensureReplicationState (namespace vrName : string) (desired : ReplicationState) (primaryChanged : bool)
    : Prog (option error) :=
  let here := "VolumeReplication " +:+ namespace +:+ "/" +:+ vrName in
  r ← GetVolumeReplication vrName namespace;
  match r with
  | inl e => mret (Some (ErrWrap ("failed to get " +:+ here +:+ ": ") e ""))
  | inr existing =>
      if bool_decide (vr_ReplicationState existing = desired) then mret None
      else if bool_decide (desired = Primary) && bool_decide (vr_ReplicationState existing = Resync)
              && negb primaryChanged then mret None
      else
        err ← PatchVolumeReplicationState existing desired;
        mret (wrap_opt ("failed to patch replicationState on " +:+ here +:+ ": ") err)
  end.

Definition mirrorPVCName (v : VVR) (destSCName : string) : Prog (result string) :=
  let vol := VVR_PVCNamespace v +:+ "/" +:+ vvr_VolumeName (vvr_Spec v) in
  r ← GetPVCandPV (vvr_VolumeName (vvr_Spec v)) (VVR_PVCNamespace v);
  match r with
  | inl e => mret (inl (ErrWrap ("failed to get source PVC/PV " +:+ vol +:+ ": ") e ""))
  | inr (_, None) => mret (inl (NewRetryAfterError (ErrNew ("PVC " +:+ vol +:+ " not yet bound")) (15 * Second)))
  | inr (sourcePVC, Some sourcePV) =>
      mret (destSC ← wrap_err ("failed to get destination StorageClass " +:+ destSCName +:+ ": ")
                       (lk_GetStorageClass destSCName);
            FormatPVCName config_PVCNameFormat (Name (pvc_Meta sourcePVC)) (Name (pv_Meta sourcePV)) destSC)
  end.

Definition vr_state_for (v : VVR) (scName : string) : ReplicationState :=
  if bool_decide (scName = vvr_PrimaryStorageClass (vvr_Spec v)) then Primary else Secondary.

Definition build_vr (v : VVR) (scName className dataSourcePVC : string) : result VolumeReplication :=
  let pvcNS := VVR_PVCNamespace v in
  let b := NewVolumeReplication (vrNameForSC (Name (vvr_Meta v)) scName) pvcNS
           |> WithManagedByLabel
           |> WithLabelsMap (<[LabelStorageClass := scName]> (<[LabelSourceVVR := Name (vvr_Meta v)]>
                {[LabelSourceVVRNamespace := Namespace (vvr_Meta v)]}))
           |> vr_WithVolumeReplicationClass className
           |> vr_WithReplicationState (vr_state_for v scName)
           |> vr_WithDataSource dataSourcePVC
           |> vr_WithAutoResync true in
  Build (if bool_decide (pvcNS = Namespace (vvr_Meta v))
         then WithOwnerRef "VolumeReplication" "VastVolumeReplication" (vvr_Meta v) b else b).

Definition ensureVR (v : VVR) (scName ppathName : string) (primaryChanged : bool)
    : Prog (string * bool * option error) :=
  r ← ensureVolumeReplicationClass v scName ppathName;
  match r with
  | inl e => mret ("", false, Some e)
  | inr className =>
      let vrName := vrNameForSC (Name (vvr_Meta v)) scName in
      let pvcNS := VVR_PVCNamespace v in
      let isPrimary := bool_decide (scName = vvr_PrimaryStorageClass (vvr_Spec v)) in
      r ← (if isPrimary then mret (inr (vvr_VolumeName (vvr_Spec v)))
           else r ← mirrorPVCName v scName;
                mret (wrap_err ("failed to compute mirror PVC name for SC " +:+ scName +:+ ": ") r));
      match r with
      | inl e => mret ("", false, Some e)
      | inr dataSourcePVC =>
          match build_vr v scName className dataSourcePVC with
          | inl e => mret ("", false, Some e)
          | inr vr =>
              r ← EnsureVolumeReplication vr;
              match r with
              | inl e => mret ("", false, Some (ErrWrap ("failed to ensure VolumeReplication " +:+ pvcNS +:+ "/" +:+
                                                         vrName +:+ ": ") e ""))
              | inr true => mret (vrName, true, None)
              | inr false =>
                  if negb isPrimary then mret (vrName, false, None)
                  else
                    err ← ensureReplicationState pvcNS vrName (vr_state_for v scName) primaryChanged;
                    mret (vrName, false, err)
              end
          end
      end
  end.

(** ** Split brain: several VRs are confirmed primary *)

Fixpoint confirmed_primaries (v : VVR) (scNames : list string) : Prog (result (list string)) :=
  match scNames with
  | [] => mret (inr [])
  | scName :: scNames' =>
      r ← GetVolumeReplication (vrNameForSC (Name (vvr_Meta v)) scName) (VVR_PVCNamespace v);
      match r with
      | inl e =>
          if IsNotFound (Some e) then confirmed_primaries v scNames'
          else mret (inl (ErrWrap ("failed to get VolumeReplication for SC " +:+ scName +:+ ": ") e ""))
      | inr vr =>
          r ← confirmed_primaries v scNames';
          mret (candidates ← r; mret (if IsVRConfirmedPrimary vr then scName :: candidates else candidates))
      end
  end.

(** The first candidate whose cluster says it is the source; [""] when none
    does. *)
Fixpoint true_primary (v : VVR) (candidates : list string) : Prog (result string) :=
  match candidates with
  | [] => mret (inr "")
  | scName :: candidates' =>
      match NewFromStorageClassName scName with
      | inl e => mret (inl (ErrWrap ("failed to build REST client for SC " +:+ scName +:+ ": ") e ""))
      | inr _ =>
          r ← GetPpath scName (PpathName (vvr_Status v));
          match r with
          | inl e => mret (inl (ErrWrap ("failed to get ppath " +:+ quote (PpathName (vvr_Status v)) +:+
                                         " for SC " +:+ scName +:+ ": ") e ""))
          | inr ppath =>
              if bool_decide (to_lower (pp_Role ppath) = "source") then mret (inr scName)
              else true_primary v candidates'
          end
      end
  end.

Fixpoint demote (v : VVR) (truePrimarySC : string) (candidates : list string) (errs : list error)
    : Prog (list error) :=
  match candidates with
  | [] => mret errs
  | scName :: candidates' =>
      if bool_decide (scName = truePrimarySC) then demote v truePrimarySC candidates' errs
      else
        err ← ensureReplicationState (VVR_PVCNamespace v) (vrNameForSC (Name (vvr_Meta v)) scName) Secondary false;
        demote v truePrimarySC candidates' (DeferredError_Add errs (wrap_opt ("SC " +:+ scName +:+ ": ") err))
  end.

Definition syncVRReplicationStates (v : VVR) : Prog (option error) :=
  r ← confirmed_primaries v (VVR_AllStorageClasses (vvr_Spec v));
  match r with
  | inl e => mret (Some e)
  | inr candidates =>
      if bool_decide (length candidates ≤ 1) then mret None
      else
        r ← true_primary v candidates;
        match r with
        | inl e => mret (Some e)
        | inr truePrimarySC =>
            if bool_decide (truePrimarySC = "") then mret None
            else errs ← demote v truePrimarySC candidates []; mret (DeferredError_Err errs)
        end
  end.

(** ** Resync *)

Definition ensureResync (v : VVR) : Prog (VVR * option error) :=
  let vrName := vrNameForSC (Name (vvr_Meta v)) (vvr_PrimaryStorageClass (vvr_Spec v)) in
  let here := VVR_PVCNamespace v +:+ "/" +:+ vrName in
  r ← GetVolumeReplication vrName (VVR_PVCNamespace v);
  match r with
  | inl e =>
      if IsNotFound (Some e) then PatchVVRResync v
      else mret (v, Some (ErrWrap ("ensureResync: failed to get VolumeReplication " +:+ here +:+ ": ") e ""))
  | inr existing =>
      err ← PatchVolumeReplicationState existing Resync;
      match err with
      | Some e => mret (v, Some (ErrWrap ("ensureResync: failed to patch replicationState on VolumeReplication " +:+
                                          here +:+ ": ") e ""))
      | None =>
          '(v', err) ← PatchVVRResync v;
          mret (v', wrap_opt ("ensureResync: failed to clear Resync flag on VVR " +:+
                              in_namespace (vvr_Meta v') +:+ ": ") err)
      end
  end.

(** ** Reconcile *)

Definition reconcileSyncStatus : VVR → option error → Prog unit := ReplicationCR.reconcileSyncStatus (k := kVVR).
Definition handleDeletion : string * string → M kVVR Result := ReplicationCR.handleDeletion.

(** A VVR that is not being deleted: clients, finalizer, status fields; and
    whether the primary class changed. *)
Definition accept_resource : M kVVR (gset string * gmap string StorageClass * bool) :=
  v ← this;
  let scNames := VVR_AllStorageClasses (vvr_Spec v) in
  clients ← pure (of_result (wrap_err "failed to build VMS REST clients: " (RestFromStorageClasses scNames ∅)));
  scs ← pure (of_result (wrap_err "failed to fetch StorageClass objects: " (ScsFromStorageClasses scNames)));
  finalizer_step (k := kVVR) (validateOnce clients scs);;
  primaryChanged ← status_step scs;
  mret (clients, scs, primaryChanged).

(** Mappings, peers and protected path; [None] when the pass ends before the
    path. *)
Definition prepare (clients : gset string) (scs : gmap string StorageClass) : M kVVR (option string) :=
  dirs_step (k := kVVR) predict_all;;
  tenants_step scs;;
  written ← peers_step clients;
  if (written : bool) then mret None
  else
    ppathName ← ppath_step clients scs;
    mret (Some ppathName).

Definition live (key : string * string) : M kVVR Result :=
  '(clients, scs, primaryChanged) ← accept_resource;
  v ← this;
  if vvr_Resync (vvr_Spec v) then on_object (k := kVVR) ensureResync;; mret (mkResult 0)
  else
    r ← prepare clients scs;
    match r with
    | None => mret (mkResult 0)
    | Some ppathName =>
        children_step (k := kVVR) key (fun v scName => ensureVR v scName ppathName primaryChanged)
          syncVRReplicationStates
    end.

Definition Reconcile (key : string * string) : Prog (Result * option error) :=
  reconcile (k := kVVR) GetVastVolumeReplication handleDeletion reconcileSyncStatus (live key) key.

End Controller.

(** ** What a reconciliation may do *)

#[local] Set Default Proof Using "Type*".

Section Guard.

Context {steps : RetrySteps} {lk : Lookups} {ve : VastErrors} {sd : ShowDuration} {mo : MapOrder}
  {refs : OwnerRefs} {cfg : Config} {clk : Clock}.

Notation answered := (answered (k := kVVR)).
Notation current_of := (current_of (k := kVVR)).
Notation ppath_ready := (ppath_ready (k := kVVR)).
Notation primary_switched := (primary_switched (k := kVVR)).

Definition no_vr_created (t : Trace) : Prop := ∀ o r, Ev (Create kVR o) r ∉ t.

(** The PVC a VR of class [sc] replicates: the volume itself on the primary
    class, elsewhere the mirror, named after the bound PVC and PV. *)
Definition data_source (t : Trace) (v : VVR) (sc pvcName : string) : Prop :=
  if bool_decide (sc = vvr_PrimaryStorageClass (vvr_Spec v)) then pvcName = vvr_VolumeName (vvr_Spec v)
  else ∃ pvc pv destSC,
    Ev (Get kPVC (vvr_VolumeName (vvr_Spec v)) (VVR_PVCNamespace v)) (inr pvc) ∈ t ∧
    Ev (Get kPV (pvc_VolumeName pvc) "") (inr pv) ∈ t ∧ lk_GetStorageClass sc = inr destSC ∧
    FormatPVCName config_PVCNameFormat (Name (pvc_Meta pvc)) (Name (pv_Meta pv)) destSC = inr pvcName.

Definition vr_created (t : Trace) (o : VolumeReplication) : Prop :=
  ∃ u v sc className dataSource, answered t u ∧ agree (k := kVVR) u v ∧
    sc ∈ VVR_AllStorageClasses (vvr_Spec v) ∧ build_vr v sc className dataSource = inr o ∧
    data_source t v sc dataSource ∧ object_seen kVRClass t className "" ∧
    (sc = vvr_PrimaryStorageClass (vvr_Spec v) → no_vr_created t) ∧ ppath_ready t.

(** The VR [e] of class [sc] of [v] was read, and is about to be written from
    a fresh copy [b]. *)
Definition vr_at_hand (t : Trace) (v : VVR) (sc : string) (e b : VolumeReplication) : Prop :=
  Ev (Get kVR (vrNameForSC (Name (vvr_Meta v)) sc) (VVR_PVCNamespace v)) (inr e) ∈ t ∧
  Ev (Get kVR (Name (vr_Meta e)) (Namespace (vr_Meta e))) (inr b) ∈ t.

Definition candidate (t : Trace) (v : VVR) (sc : string) : Prop :=
  sc ∈ VVR_AllStorageClasses (vvr_Spec v) ∧
  ∃ e, Ev (Get kVR (vrNameForSC (Name (vvr_Meta v)) sc) (VVR_PVCNamespace v)) (inr e) ∈ t ∧
       IsVRConfirmedPrimary e = true.

(** The cluster of [sc] said that it is the source. *)
Definition is_source (t : Trace) (sc : string) : Prop :=
  ∃ name p, Ev (Vms sc (PpathGet name)) (inr p) ∈ t ∧ to_lower (pp_Role p) = "source".

Definition vr_driven (t : Trace) (b o : VolumeReplication) : Prop :=
  ∃ u v sc e s, answered t u ∧ agree (k := kVVR) u v ∧ vr_at_hand t v sc e b ∧ o = vr_set_state b s ∧
    ((s = Primary ∧ sc = vvr_PrimaryStorageClass (vvr_Spec v) ∧ vr_ReplicationState e ≠ Primary ∧
      (vr_ReplicationState e = Resync → primary_switched t)) ∨
     (s = Resync ∧ sc = vvr_PrimaryStorageClass (vvr_Spec v) ∧ vvr_Resync (vvr_Spec v) = true) ∨
     (s = Secondary ∧ candidate t v sc ∧ ∃ sc', sc' ≠ sc ∧ candidate t v sc' ∧ is_source t sc')).

Definition vvr_allowed (t : Trace) (c : Call) : Prop :=
  match c with
  | UpdateStatus kVVR w => status_allowed (k := kVVR) t w
  | Update kVVR w => update_allowed (k := kVVR) t w
  | Patch kVVR b o => o = vvr_clear_resync b ∧ ∃ u, answered t u ∧ vvr_Resync (vvr_Spec u) = true
  | Create kVVR _ | Delete kVVR _ => False
  | Create kVR o => vr_created t o
  | Patch kVR b o => vr_driven t b o
  | Delete kVR o => delete_allowed (k := kVVR) t o
  | Update kVR _ | UpdateStatus kVR _ => False
  | _ => True
  end.

#[local] Instance vvr_guard : Guard kVVR vvr_allowed.
Proof.
  split; try done.
  intros t c. destruct c as [| |k|k|k|k|k| | | | | | | | | | | |]; try done; destruct k; try done; by vm_compute.
Qed.

(** Calls that do not trigger a resync, and calls that write no VR. *)
Definition no_resync_call (c : Call) : Prop :=
  match c with Patch kVR _ o => vr_ReplicationState o ≠ Resync | _ => True end.
Definition no_vr_call (c : Call) : Prop :=
  match c with Create kVR _ | Patch kVR _ _ => False | _ => True end.

Definition no_resync (t : Trace) : Prop := ∀ e, e ∈ t → no_resync_call (ev_call e).

Definition before_children (t : Trace) (c : Call) : Prop := vvr_allowed t c ∧ no_vr_call c.
Definition with_children (t : Trace) (c : Call) : Prop := vvr_allowed t c ∧ no_resync_call c.

(** Once a resync was triggered no VR is created, promoted or demoted. *)
Definition vvr_guarded (t : Trace) (c : Call) : Prop :=
  vvr_allowed t c ∧
  match c with
  | Create kVR _ => no_resync t
  | Patch kVR _ o => vr_ReplicationState o ≠ Resync → no_resync t
  | _ => True
  end.

#[local] Instance before_children_guard : Guard kVVR before_children.
Proof.
  split; try done. intros t c Hc. split; [by apply G_other|].
  destruct c as [| |k| | |k| | | | | | | | | | | | |]; try done; destruct k; try done; by vm_compute in Hc.
Qed.
#[local] Instance with_children_guard : Guard kVVR with_children.
Proof.
  split; try done. intros t c Hc. split; [by apply G_other|].
  destruct c as [| | | | |k| | | | | | | | | | | | |]; try done; destruct k; try done; by vm_compute in Hc.
Qed.
#[local] Instance vvr_guarded_guard : Guard kVVR vvr_guarded.
Proof.
  split; try done. intros t c Hc. split; [by apply G_other|].
  destruct c as [| |k| | |k| | | | | | | | | | | | |]; try done; destruct k; try done; by vm_compute in Hc.
Qed.

Notation W := (wp with_children).

Lemma reads_vvr_validateOnce clients scs v : calls_in (fun c => read_only c = true) (validateOnce clients scs v).
Proof.
  unfold validateOnce. destruct (VVR_Validate _); [done|].
  unfold andThen. apply calls_in_bind; [unfold check_ppath_name, invalid; repeat (calls_step || done)|].
  intros [[]|e|]; [|done..].
  induction (VVR_AllStorageClasses _) as [|sc scNames IH]; cbn [block_subsystems_present]; [done|].
  destruct (scs !! sc); [|done]. destruct (negb _); [done|].
  unfold andThen, check_subsystem, subsystem_exists, invalid. repeat (exact IH || calls_step || done).
Qed.

(** *** The class and the VR *)

Lemma vr_state_for_primary v sc : vr_state_for v sc = Primary ↔ sc = vvr_PrimaryStorageClass (vvr_Spec v).
Proof. unfold vr_state_for. by case_bool_decide. Qed.

Lemma built_vr v sc className dataSource o :
  build_vr v sc className dataSource = inr o →
  Name (vr_Meta o) = vrNameForSC (Name (vvr_Meta v)) sc ∧ Namespace (vr_Meta o) = VVR_PVCNamespace v ∧
  Labels (vr_Meta o) = <[LabelStorageClass := sc]> (<[LabelSourceVVR := Name (vvr_Meta v)]>
    {[LabelSourceVVRNamespace := Namespace (vvr_Meta v)]}) ∪ {[LabelManagedBy := LabelManagedByValue]} ∧
  vr_DataSource o = dataSource ∧ vr_AutoResync o = true ∧
  vr_ReplicationState o = vr_state_for v sc ∧ vr_VolumeReplicationClass o = className ∧
  (VVR_PVCNamespace v ≠ Namespace (vvr_Meta v) → OwnerReferences (vr_Meta o) = []).
Proof.
  unfold build_vr. cbv zeta. case_bool_decide.
  - intros (_ & orefs & _ & ->)%(Build_WithOwnerRef (k := kVR)). cbn. rewrite !(right_id_L ∅ (∪)). done.
  - intros [= <-]. cbn. rewrite !(right_id_L ∅ (∪)). done.
Qed.

Definition creates_no_vr (c : Call) : Prop := match c with Create kVR _ => False | _ => True end.

Lemma no_vr_created_more t t' :
  no_vr_created t → (∀ e, e ∈ t' → e ∈ t ∨ creates_no_vr (ev_call e)) → no_vr_created t'.
Proof. intros Hn Ht o r [Hin|Hc]%Ht; [by apply (Hn o r)|done]. Qed.

Lemma wp_ensureVolumeReplicationClass v sc ppath h :
  W (ensureVolumeReplicationClass v sc ppath) h (fun h' r =>
    (∀ className, r = inr className → object_seen kVRClass h' className "") ∧
    ∀ e, e ∈ h' → e ∈ h ∨ creates_no_vr (ev_call e)).
Proof.
  apply wp_guard_trace. unfold ensureVolumeReplicationClass.
  destruct (class_inputs _ _ _) as [e|[[[cls className] sn] sns]]; [by apply wp_ret|].
  unfold ensure_vrclass, EnsureVolumeReplicationClass.
  apply wp_bind, wp_bind, wp_ensure; [done..|].
  intros h1 r1 Hh1 Hs1. apply wp_ret. destruct r1 as [e|b1]; [by apply wp_ret|].
  intros ? [= <-]. specialize (Hs1 b1 eq_refl). cbn [meta] in Hs1.
  by destruct (vrclass_for_name cls className sn sns ppath sc) as [E1 E2]; rewrite E1, E2 in Hs1.
Qed.

Lemma wp_mirrorPVCName v sc h :
  W (mirrorPVCName v sc) h (fun h' r =>
    (∀ name, r = inr name → sc ≠ vvr_PrimaryStorageClass (vvr_Spec v) → data_source h' v sc name) ∧
    ∀ e, e ∈ h' → e ∈ h ∨ creates_no_vr (ev_call e)).
Proof.
  apply wp_guard_trace. unfold mirrorPVCName. cbv zeta. apply wp_bind, wp_GetPVCandPV; [done|].
  intros h1 [e|[pvc [pv|]]] Hh1 Hev; [by apply wp_ret| |by apply wp_ret]. apply wp_ret.
  unfold wrap_err. destruct (lk_GetStorageClass sc) as [e|destSC] eqn:Hsc; [done|].
  intros name Hname Hne. unfold data_source. rewrite bool_decide_false by done.
  destruct (Hev _ _ eq_refl) as [H1 H2]. by exists pvc, pv, destSC.
Qed.

Definition working (h : Trace) (v : VVR) : Prop := current_of h v ∧ ppath_ready h.

Lemma vvr_working_mono h h' v : h `prefix_of` h' → working h v → working h' v.
Proof. intros Hh (Hc & Hp). split; [by eapply current_of_mono|by eapply ppath_ready_mono]. Qed.

Lemma wp_vvr_ensureReplicationState v sc s changed h (Q : Trace → option error → Prop) :
  (∀ h' e b, h `prefix_of` h' → vr_at_hand h' v sc e b → vr_ReplicationState e ≠ s →
     ¬ (s = Primary ∧ vr_ReplicationState e = Resync ∧ changed = false) →
     with_children h' (Patch kVR b (vr_set_state b s))) →
  (∀ h' err, h `prefix_of` h' → Q h' err) →
  W (ensureReplicationState (VVR_PVCNamespace v) (vrNameForSC (Name (vvr_Meta v)) sc) s changed) h Q.
Proof.
  intros HG HQ. unfold ensureReplicationState. cbv zeta. apply wp_bind_call; [done|].
  intros [e|existing]; [by apply wp_ret, HQ, prefix_app_r|]. set (h1 := h ++ _).
  assert (Hh1 : h `prefix_of` h1) by (by apply prefix_app_r).
  case_bool_decide as Hne; [by apply wp_ret, HQ|].
  destruct (bool_decide (s = Primary) && bool_decide (vr_ReplicationState existing = Resync) && negb changed) eqn:Hres;
    [by apply wp_ret, HQ|]. apply wp_bind.
  refine (wp_patch_state (k := kVVR) with_children _ _ existing s h1 _ _ _).
  - intros h' b Hh Hb. apply (HG _ existing); [by etrans| |done|].
    + split; [|done]. eapply elem_of_prefix; [exact Hh|]. apply in_snoc.
    + intros (-> & Hr & ->). by rewrite bool_decide_true, bool_decide_true in Hres.
  - intros h' err Hh. apply wp_ret, HQ. by etrans.
Qed.

Lemma data_source_mono t t' v sc name : t `prefix_of` t' → data_source t v sc name → data_source t' v sc name.
Proof.
  intros Ht. unfold data_source. case_bool_decide; [done|].
  intros (pvc & pv & d & ? & ? & ?). exists pvc, pv, d. split; [by eapply elem_of_prefix|].
  split; [by eapply elem_of_prefix|done].
Qed.

(** Where the VR gets its data from is settled without creating a VR. *)
Lemma wp_data_source v sc h (isPrimary := bool_decide (sc = vvr_PrimaryStorageClass (vvr_Spec v))) :
  W (if isPrimary then mret (inr (vvr_VolumeName (vvr_Spec v)))
     else r ← mirrorPVCName v sc;
          mret (wrap_err ("failed to compute mirror PVC name for SC " +:+ sc +:+ ": ") r)) h
    (fun h' r => (∀ name, r = inr name → data_source h' v sc name) ∧
       ∀ e, e ∈ h' → e ∈ h ∨ creates_no_vr (ev_call e)).
Proof.
  unfold isPrimary. case_bool_decide as Hp.
  - apply wp_ret. split; [|auto]. intros name [= <-]. unfold data_source. by rewrite bool_decide_true.
  - apply wp_bind. eapply wp_post; [apply wp_mirrorPVCName|]. intros h1 r [Hs Htr]. apply wp_ret. split; [|done].
    intros name Hn. destruct r as [e|n]; [done|]. injection Hn as <-. by apply Hs.
Qed.

Lemma wp_ensureVR v sc ppath changed h :
  working h v → sc ∈ VVR_AllStorageClasses (vvr_Spec v) → (changed = true → primary_switched h) →
  (sc = vvr_PrimaryStorageClass (vvr_Spec v) → no_vr_created h) →
  W (ensureVR v sc ppath changed) h (fun h' _ => working h' v).
Proof.
  intros Hw Hsc Hch Hfirst. unfold ensureVR. apply wp_bind.
  eapply wp_post; [apply wp_prefix, wp_ensureVolumeReplicationClass|].
  intros h1 [e|className] (Hh1 & Hseen & Htr); [by eapply vvr_working_mono|].
  specialize (Hseen _ eq_refl). cbv zeta. apply wp_bind.
  eapply wp_post; [apply wp_prefix, wp_data_source|]. intros h2 r (Hh2 & Hds & Htr2).
  assert (Hw2 : working h2 v) by (eapply vvr_working_mono; [|exact Hw]; by etrans).
  destruct r as [e|dataSource]; [done|]. specialize (Hds _ eq_refl).
  destruct (build_vr v sc className dataSource) as [e|vr] eqn:Hb; [done|].
  apply wp_bind. unfold EnsureVolumeReplication. apply wp_ensure; [done| |].
  { intros r. split; [|done]. set (h3 := h2 ++ _).
    assert (Hh3 : h2 `prefix_of` h3) by (by apply prefix_app_r).
    destruct (vvr_working_mono _ _ _ Hh3 Hw2) as ((u & Hu & Ha) & Hp).
    exists u, v, sc, className, dataSource. split_and!; try done.
    - exact (data_source_mono _ _ _ _ _ Hh3 Hds).
    - eapply (object_seen_mono _ h1); [by etrans|done].
    - intros Hpr. eapply no_vr_created_more; [by apply Hfirst|]. intros e.
      unfold h3. rewrite elem_of_app, list_elem_of_singleton. intros [[He|He]%Htr2| ->]; [by apply Htr|by right|by right]. }
  intros h3 r Hh3 _. assert (Hw3 : working h3 v) by (by eapply vvr_working_mono).
  destruct r as [e|[]]; [done..|]. case_bool_decide as Hpr; cbn [negb]; [|done].
  apply wp_bind, wp_vvr_ensureReplicationState.
  - intros h' e b Hh Hhand Hne Hres. destruct (vvr_working_mono _ _ _ Hh Hw3) as ((u & Hu & Ha) & _).
    unfold vr_state_for in *. rewrite bool_decide_true in Hne, Hres |- * by done. split; [|done].
    exists u, v, sc, e, Primary. split_and!; try done. left. split_and!; try done.
    intros Hr. destruct changed; [|by destruct Hres]. eapply primary_switched_mono; [|by apply Hch].
    by do 3 (etrans; [done|]).
  - intros h' err Hh. apply wp_ret. by eapply vvr_working_mono.
Qed.

(** *** Split brain *)

Lemma vvr_candidate_mono t t' v sc : t `prefix_of` t' → candidate t v sc → candidate t' v sc.
Proof. intros Ht (? & e & ? & ?). split; [done|]. exists e. split; [by eapply elem_of_prefix|done]. Qed.
Lemma is_source_mono t t' sc : t `prefix_of` t' → is_source t sc → is_source t' sc.
Proof. intros Ht (n & p & ? & ?). exists n, p. split; [by eapply elem_of_prefix|done]. Qed.

Lemma wp_vvr_confirmed_primaries v scs h :
  (∀ sc, sc ∈ scs → sc ∈ VVR_AllStorageClasses (vvr_Spec v)) →
  W (confirmed_primaries v scs) h (fun h' r => ∀ cs, r = inr cs → ∀ sc, sc ∈ cs → candidate h' v sc).
Proof.
  revert h. induction scs as [|sc scs IH]; intros h Hin; cbn [confirmed_primaries].
  { apply wp_ret. intros cs [= <-] sc Hsc. by apply elem_of_nil in Hsc. }
  apply wp_bind_call; [done|]. intros [e|vr].
  - destruct (IsNotFound (Some e)); [apply IH; set_solver|done].
  - apply wp_bind. eapply wp_post; [apply wp_prefix, IH; set_solver|]. intros h' r [Hh Hall].
    apply wp_ret. intros cs Hcs. destruct r as [e|cs0]; [done|]. injection Hcs as <-.
    destruct (IsVRConfirmedPrimary vr) eqn:Hp; [|by apply Hall].
    intros sc' [->|Hs]%elem_of_cons; [|by eapply Hall]. split; [set_solver|].
    exists vr. split; [eapply elem_of_prefix; [exact Hh|apply in_snoc]|done].
Qed.

Lemma wp_true_primary v cs h :
  W (true_primary v cs) h (fun h' r => ∀ sc, r = inr sc → sc ≠ "" → sc ∈ cs ∧ is_source h' sc).
Proof.
  revert h. induction cs as [|sc cs IH]; intros h; cbn [true_primary]; [by apply wp_ret; intros ? [= <-]|].
  destruct (NewFromStorageClassName sc); [done|]. unfold GetPpath, getPpathRecord. apply wp_bind.
  apply wp_bind_call; [done|]. intros [e|p]; apply wp_ret; [done|]. cbn [wrap_err]. case_bool_decide as Hrole.
  - apply wp_ret. intros ? [= <-] _. split; [set_solver|]. exists (PpathName (vvr_Status v)), p. split; [apply in_snoc|done].
  - eapply wp_post; [apply IH|]. intros h' r Hr sc' E Hne. destruct (Hr sc' E Hne). split; [set_solver|done].
Qed.

Lemma wp_vvr_demote v source cs errs h :
  working h v → candidate h v source → is_source h source → (∀ sc, sc ∈ cs → candidate h v sc) →
  W (demote v source cs errs) h (fun h' _ => working h' v).
Proof.
  revert errs h. induction cs as [|sc cs IH]; intros errs h Hw Hc Hs Hcs; cbn [demote]; [done|].
  case_bool_decide as Hpr; [apply IH; [done..|set_solver]|]. apply wp_bind, wp_vvr_ensureReplicationState.
  - intros h' e b Hh Hhand _ _. destruct (vvr_working_mono _ _ _ Hh Hw) as ((u & Hu & Ha) & _).
    split; [|done]. exists u, v, sc, e, Secondary. split_and!; try done. right; right. split; [done|].
    split; [eapply vvr_candidate_mono; [exact Hh|]; apply Hcs; set_solver|].
    exists source. split_and!; [done|by eapply vvr_candidate_mono|by eapply is_source_mono].
  - intros h' err Hh. apply IH; [by eapply vvr_working_mono|by eapply vvr_candidate_mono|by eapply is_source_mono|].
    intros sc' Hs'. eapply vvr_candidate_mono; [exact Hh|]. apply Hcs. set_solver.
Qed.

Lemma wp_syncVRReplicationStates v h :
  working h v → W (syncVRReplicationStates v) h (fun h' _ => working h' v).
Proof.
  intros Hw. unfold syncVRReplicationStates. apply wp_bind.
  eapply wp_post; [by apply wp_prefix, wp_vvr_confirmed_primaries|].
  intros h1 [e|cs] [Hh1 Hcs]; [by eapply vvr_working_mono|]. specialize (Hcs _ eq_refl).
  assert (Hw1 : working h1 v) by (by eapply vvr_working_mono). case_bool_decide; [done|]. apply wp_bind.
  eapply wp_post; [apply wp_prefix, wp_true_primary|]. intros h2 [e|source] [Hh2 Hsrc]; [by eapply vvr_working_mono|].
  assert (Hw2 : working h2 v) by (by eapply vvr_working_mono). case_bool_decide as Hne; [done|].
  destruct (Hsrc _ eq_refl Hne) as [Hin His]. apply wp_bind.
  eapply wp_post; [apply wp_vvr_demote; [done|by eapply vvr_candidate_mono, Hcs|done|]|done].
  intros sc Hsc. by eapply vvr_candidate_mono, Hcs.
Qed.

(** *** The parts of a reconciliation *)

Lemma read_no_vr c : read_only c = true → creates_no_vr c.
Proof. by destruct c as [| |[]| | | | | | | | | | | | | | | |]. Qed.

Lemma wp_vr_children key ppath changed v h :
  working h v → (changed = true → primary_switched h) → no_vr_created h →
  W (children_step (k := kVVR) key (fun v scName => ensureVR v scName ppath changed) syncVRReplicationStates v) h
    (fun h' x => roughly (k := kVVR) h' x.1).
Proof.
  intros Hw Hch Hn.
  apply (wp_children_step (k := kVVR) with_children _
           (fun h => working h v ∧ (changed = true → primary_switched h)) no_vr_created); try done.
  - intros h1 h2 Hh [Hw1 Hc1]. split; [by eapply vvr_working_mono|]. intros E. eapply primary_switched_mono; [exact Hh|auto].
  - by intros h1 [[? _] _].
  - intros h1 h2 Hn1 Htr. eapply no_vr_created_more; [exact Hn1|].
    intros e [He|He]%Htr; [by left|right; by apply read_no_vr].
  - intros sc h1 [Hw1 Hc1] Hsc Hf. eapply wp_post; [by apply wp_prefix, wp_ensureVR|].
    intros h2 x [Hh Hw2]. split; [done|]. intros E. eapply primary_switched_mono; [exact Hh|auto].
  - intros h1 [Hw1 Hc1]. eapply wp_post; [by apply wp_prefix, wp_syncVRReplicationStates|].
    intros h2 x [Hh Hw2]. split; [done|]. intros E. eapply primary_switched_mono; [exact Hh|auto].
Qed.

Lemma wp_PatchVVRResync v h (Q : Trace → VVR * option error → Prop) :
  current_of h v → vvr_Resync (vvr_Spec v) = true →
  (∀ h' v' err, h `prefix_of` h' → roughly (k := kVVR) h' v' → (err = None → current_of h' v') → Q h' (v', err)) →
  wp vvr_guarded (PatchVVRResync v) h Q.
Proof.
  intros Hc Hr HQ. unfold PatchVVRResync. apply wp_bind.
  apply (wp_clear_resync (k := kVVR) vvr_guarded vvr_clear_resync); [|done|done|].
  - intros h' b Hh. split; [|done]. split; [done|]. destruct Hc as (u & Hu & Ha). exists u.
    split; [by eapply answered_mono|]. destruct (agree_fields _ _ Ha) as (_ & _ & E & _). cbn in E. congruence.
  - intros h' v' err Hh Hr' Hc'. apply wp_ret, HQ; [done..|]. destruct err; [done|auto].
Qed.

Lemma wp_vvr_ensureResync v h :
  current_of h v → vvr_Resync (vvr_Spec v) = true →
  wp vvr_guarded (ensureResync v) h
    (fun h' x => roughly (k := kVVR) h' x.1 ∧ (x.2 = None → current_of h' x.1)).
Proof.
  intros Hc Hr. unfold ensureResync. cbv zeta. apply wp_bind_call; [by split|]. intros r. set (h1 := h ++ _).
  assert (Hc1 : current_of h1 v) by (eapply current_of_mono; [|exact Hc]; by apply prefix_app_r).
  destruct r as [e|existing].
  { destruct (IsNotFound (Some e)); [apply wp_PatchVVRResync; auto|]. by split; [apply current_roughly|]. }
  apply wp_bind. refine (wp_patch_state (k := kVVR) vvr_guarded _ _ existing Resync h1 _ _ _).
  - intros h' b Hh Hb. split; [|by intros []]. destruct Hc1 as (u & Hu & Ha).
    exists u, v, (vvr_PrimaryStorageClass (vvr_Spec v)), existing, Resync.
    split_and!; [by eapply answered_mono|done| |done|by right; left].
    split; [|done]. eapply elem_of_prefix; [exact Hh|]. apply in_snoc.
  - intros h2 err Hh2. assert (Hc2 : current_of h2 v) by (by eapply current_of_mono).
    destruct err as [e|]; [by split; [apply current_roughly|]|].
    apply wp_bind, wp_PatchVVRResync; [done..|]. intros h4 v' err Hh4 Hr4 Hc4.
    destruct err; apply wp_ret; by split; [|auto].
Qed.

Lemma wp_vvr_accept_resource v h :
  answered h v → (∀ e, e ∈ h → read_only (ev_call e) = true) →
  wp before_children (accept_resource v) h
    (post (k := kVVR) (fun h' _ x => x.2 = true → primary_switched h')).
Proof.
  intros Ha Hro. unfold accept_resource, this.
  eapply (wpM_bind (k := kVVR) before_children); [apply (wpM_current (k := kVVR) before_children _ _ (fun h' v' a => h' = h ∧ v' = v)); [by apply answered_current|done]|].
  intros h1 ? v1 _ _ [-> ->]. cbv zeta.
  assert (Hc : current_of h v) by (by apply answered_current).
  eapply (wpM_bind (k := kVVR) before_children); [by apply (wpM_pure (k := kVVR) before_children _ _ _ (fun h' v' _ => h' = h ∧ v' = v))|]. intros h2 ? clients _ _ [-> ->].
  eapply (wpM_bind (k := kVVR) before_children); [by apply (wpM_pure (k := kVVR) before_children _ _ _ (fun h' v' _ => h' = h ∧ v' = v))|]. intros h2 ? scs _ _ [-> ->].
  eapply (wpM_bind (k := kVVR) before_children); [apply (wp_finalizer_step (k := kVVR) before_children _ _ _ (fun h' v' _ => answered h' v')); [done..| |done]|].
  { intros w. apply reads_vvr_validateOnce. }
  intros h2 v2 [] Hh2 Hc2 Ha2.
  eapply (wpM_bind (k := kVVR) before_children); [by apply (wp_status_step (k := kVVR) before_children _ _ _ (fun h' _ c => c = true → primary_switched h'))|].
  intros h3 v3 changed Hh3 Hc3 Hch. by apply (wpM_ret (k := kVVR) before_children).
Qed.

(** A VVR always has its path by the time its children are worked on: one that
    was found missing is established anew. *)
Lemma wp_vvr_ppath_step clients scs v h :
  current_of h v →
  wp before_children (ppath_step clients scs v) h (post (k := kVVR) (fun h' v' _ => working h' v')).
Proof.
  intros Hc. unfold ppath_step, this.
  eapply (wpM_bind (k := kVVR) before_children); [by apply (wpM_current (k := kVVR) before_children _ _ (fun _ v' a => v' = a))|]. intros h1 ? v1 Hh1 Hc1 ->. cbv zeta.
  eapply (wpM_bind (k := kVVR) before_children _ _ _ _ (fun h' v' name => name ≠ "" → working h' v')).
  - case_bool_decide as Hne.
    + apply (wp_verify_ppath (k := kVVR) before_children); [done|..]; [by intros h' v' Hh Hc' Hp _; split|done].
    + by apply (wpM_ret (k := kVVR) before_children).
  - intros h2 v2 name Hh2 Hc2 Hw. case_bool_decide.
    + apply (wp_establish_ppath (k := kVVR) before_children); [done|]. by intros h' v' name' Hh Hc' Hp; split.
    + apply (wpM_ret (k := kVVR) before_children); auto.
Qed.

Lemma wp_vvr_prepare clients scs v h :
  current_of h v →
  wp before_children (prepare clients scs v) h
    (post (k := kVVR) (fun h' v' r => ∀ name, r = Some name → working h' v')).
Proof.
  intros Hc. unfold prepare.
  eapply (wpM_bind (k := kVVR) before_children); [apply (wp_dirs_step (k := kVVR) before_children _ _ _ (fun _ _ _ => True)); [done| |done]|].
  { intros w. apply reads_others, reads_predict_dirs. }
  intros h2 v2 [] Hh2 Hc2 _.
  eapply (wpM_bind (k := kVVR) before_children); [by apply (wp_tenants_step (k := kVVR) before_children _ _ _ (fun _ _ _ => True))|].
  intros h3 v3 [] Hh3 Hc3 _.
  eapply (wpM_bind (k := kVVR) before_children); [by apply (wp_peers_step (k := kVVR) before_children _ _ _ (fun _ _ _ => True))|].
  intros h1 v1 [] Hh1 Hc1 _; [by apply (wpM_ret (k := kVVR) before_children)|].
  eapply (wpM_bind (k := kVVR) before_children); [by apply wp_vvr_ppath_step|]. intros h4 v4 name Hh4 Hc4 Hw.
  apply (wpM_ret (k := kVVR) before_children); [done|]. by intros ? [= <-].
Qed.

Lemma wp_vvr_before {A} (p : Prog A) h Q :
  wp before_children p h Q →
  wp vvr_guarded p h (fun h' a => Q h' a ∧ ∀ e, e ∈ h' → e ∈ h ∨ no_vr_call (ev_call e)).
Proof.
  intros Hp. apply wp_guard_trace. eapply wp_mono; [|by intros ? ? HQ; exact HQ|exact Hp].
  intros h' c [Ha Hn] _. split; [|done]. split; [done|].
  by destruct c as [| |[]| | |[]| | | | | | | | | | | | |].
Qed.

Lemma wp_vvr_with {A} (p : Prog A) h Q :
  no_resync h → wp with_children p h Q → wp vvr_guarded p h Q.
Proof.
  intros Hn Hp.
  eapply wp_post; [apply (wp_guard_trace no_resync_call)|by intros h' a [HQ _]; exact HQ].
  eapply wp_mono; [|by intros ? ? HQ; exact HQ|exact Hp].
  intros h' c [Ha Hc] Htr. split; [|done]. split; [done|].
  assert (no_resync h') by (intros e [He|He]%Htr; auto).
  by destruct c as [| |[]| | |[]| | | | | | | | | | | | |].
Qed.

Lemma wp_vvr_live key v h :
  answered h v → (∀ e, e ∈ h → read_only (ev_call e) = true) →
  wp vvr_guarded (live key v) h (fun h' x => roughly (k := kVVR) h' x.1).
Proof.
  intros Ha Hro.
  assert (Hclean : ∀ h h' : Trace, (∀ e, e ∈ h → no_vr_call (ev_call e)) →
            (∀ e, e ∈ h' → e ∈ h ∨ no_vr_call (ev_call e)) → ∀ e, e ∈ h' → no_vr_call (ev_call e)).
  { intros ? ? H1 H2 e [He|He]%H2; auto. }
  assert (H0 : ∀ e, e ∈ h → no_vr_call (ev_call e)).
  { intros [c r] He%Hro. by destruct c as [| |[]| | |[]| | | | | | | | | | | | |]. }
  unfold live. apply (wpM_seq (k := kVVR) vvr_guarded). eapply wp_post; [by apply wp_vvr_before, wp_vvr_accept_resource|].
  intros h1 [v1 [[[clients scs] changed]|e|]] [[Hr1 Hd1] Htr1]; [|exact Hr1..].
  destruct (Hd1 _ eq_refl) as [Hc1 Hch]. cbn [fst snd] in *. specialize (Hclean _ _ H0 Htr1) as H1.
  apply (wpM_seq (k := kVVR) vvr_guarded). unfold this, current. apply wp_ret. cbn [fst snd].
  destruct (vvr_Resync (vvr_Spec v1)) eqn:Hres.
  { apply (wpM_seq (k := kVVR) vvr_guarded). unfold on_object. apply wp_bind. eapply wp_post; [by apply wp_vvr_ensureResync|].
    intros h2 [v2 [e|]] [Hr2 Hc2]; exact Hr2. }
  apply (wpM_seq (k := kVVR) vvr_guarded). eapply wp_post; [by apply wp_prefix, wp_vvr_before, wp_vvr_prepare|].
  intros h2 [v2 [[name|]|e|]] [Hh2 [[Hr2 Hd2] Htr2]]; [|exact Hr2..].
  destruct (Hd2 _ eq_refl) as [Hc2 Hw]. cbn [fst snd] in *. specialize (Hclean _ _ H1 Htr2) as H2.
  apply wp_vvr_with; [|apply wp_vr_children; [by eapply Hw| |]].
  - intros [c r] He%H2. by destruct c as [| |[]| | |[]| | | | | | | | | | | | |].
  - intros E. eapply primary_switched_mono; [exact Hh2|auto].
  - intros o r He%H2. done.
Qed.

Lemma wp_vvr_Reconcile key : wp vvr_guarded (Reconcile key) [] (fun _ _ => True).
Proof.
  unfold Reconcile. apply (wp_reconcile (k := kVVR) vvr_guarded).
  - intros name ns h. unfold GetVastVolumeReplication. apply wp_bind_call; [by split|].
    intros r. apply wp_ret. intros v Hv. destruct r as [e|o]; [done|]. injection Hv as <-. split.
    + left. exists name, ns. apply in_snoc.
    + intros e. rewrite elem_of_app, list_elem_of_singleton. intros [?| ->]; auto.
  - intros h v Ha Hro. by apply wp_vvr_live.
Qed.

Lemma runs_vvr_guarded key t a t1 c r t2 :
  runs (Reconcile key) t a → t = t1 ++ Ev c r :: t2 → vvr_guarded t1 c.
Proof. intros Hr Ht. destruct (wp_sound _ _ _ _ _ _ (wp_vvr_Reconcile key) Hr) as [_ HG]. by eapply HG. Qed.

End Guard.

(** ** Properties *)

Section Properties.

Context {steps : RetrySteps} {lk : Lookups} {ve : VastErrors} {sd : ShowDuration} {mo : MapOrder}
  {refs : OwnerRefs} {cfg : Config} {clk : Clock}.

(** A VVR loses its finalizer only when nothing is left of it: an update
    that writes a VVR without the finalizer either repeats finalizers the API
    server reported, or comes after every VolumeReplication of the topology was
    deleted and then looked up in vain and a listing of the VVR's contents came
    back empty, or takes the finalizer back in the very reconciliation that
    added it and has written nothing else. *)
Theorem vvr_finalizer_removed_last (key : string * string) (t : Trace) (a : Result * option error) (t1 : Trace) (w : VVR)
    (r : result VVR) (t2 : Trace) :
  runs (Reconcile key) t a → t = t1 ++ Ev (Update kVVR w) r :: t2 →
  HasFinalizer (vvr_Meta w) FinalizerVVR = false →
  (∃ u, answered (k := kVVR) t1 u ∧ Finalizers (vvr_Meta w) = Finalizers (vvr_Meta u)) ∨
  (∃ u, deletion_complete (k := kVVR) t1 u ∧
     Name (vvr_Meta w) = Name (vvr_Meta u) ∧ Namespace (vvr_Meta w) = Namespace (vvr_Meta u)) ∨
  (∃ t', t' `prefix_of` t1 ∧ only_finalizer_added (k := kVVR) t' ∧
     ∀ e, e ∈ t1 → e ∈ t' ∨ read_only (ev_call e) = true ∨ ∃ w', ev_call e = Update kVVR w').
Proof.
  intros Hr Ht Hf. destruct (runs_vvr_guarded _ _ _ _ _ _ _ Hr Ht) as [[Hyes|Hrest] _]; [|exact Hrest].
  cbn in Hyes. congruence.
Qed.

(** The status of a VVR keeps its mappings and tells what was seen: every
    status a reconciliation writes belongs to a VVR [u] the API server returned
    in this run, with the directories and tenants of [u] unless they were
    empty; and when it says [Completed], the VR of the primary class was read
    in this run with state Primary, unless [u] said so already. *)
Theorem vvr_status_writes (key : string * string) (t : Trace) (a : Result * option error) (t1 : Trace) (w : VVR)
    (r : result VVR) (t2 : Trace) :
  runs (Reconcile key) t a → t = t1 ++ Ev (UpdateStatus kVVR w) r :: t2 →
  ∃ u, answered (k := kVVR) t1 u ∧
    Name (vvr_Meta w) = Name (vvr_Meta u) ∧ Namespace (vvr_Meta w) = Namespace (vvr_Meta u) ∧
    (PpathDirMapping (vvr_Status u) ≠ ∅ → PpathDirMapping (vvr_Status w) = PpathDirMapping (vvr_Status u)) ∧
    (TenantMapping (vvr_Status u) ≠ ∅ → TenantMapping (vvr_Status w) = TenantMapping (vvr_Status u)) ∧
    (SyncStatus (vvr_Status w) = SyncStatusCompleted → SyncStatus (vvr_Status u) = SyncStatusCompleted ∨
       ∃ vr, Ev (Get kVR (vrNameForSC (Name (vvr_Meta w)) (vvr_PrimaryStorageClass (vvr_Spec w)))
                  (VVR_PVCNamespace w)) (inr vr) ∈ t1 ∧ vr_State vr = PrimaryState).
Proof.
  intros Hr Ht. destruct (runs_vvr_guarded _ _ _ _ _ _ _ Hr Ht) as [Hg _].
  destruct Hg as [(u & Hu & Hn & Hns & Hd & Htn & Hs)|(v & d & (u & Hu & Hn & Hns & Hd & Htn & Hs) & (Hc & _) & ->)].
  - exists u. split_and!; try done. intros E. left. cbn in *. congruence.
  - exists u. split_and!; try done. intros E. right. destruct (Hc E) as (vr & ? & Hp).
    exists vr. split; [done|]. by apply bool_decide_eq_true in Hp.
Qed.

Lemma agree_vvr (u v : VVR) :
  agree (k := kVVR) u v → vvr_Spec v = vvr_Spec u ∧ VVR_PVCNamespace v = VVR_PVCNamespace u ∧
    Name (vvr_Meta v) = Name (vvr_Meta u) ∧ Namespace (vvr_Meta v) = Namespace (vvr_Meta u).
Proof.
  intros Ha. destruct (agree_fields _ _ Ha) as (_ & _ & _ & E1 & E2 & E3 & _).
  destruct Ha as (m & st & -> & _). by split_and!.
Qed.

(** VolumeReplications are created in step with the VVR: each one is that
    of a class [sc] of the topology of a VVR [u] the API server returned in
    this run, with [u]'s name for it, in the namespace of the volume, owned by
    the VVR if that is in the same namespace; it asks for Primary exactly if
    [sc] is the primary class, replicates the volume itself there and the
    mirror of the bound volume elsewhere; the VR of the primary class is created
    before any other, its replication class exists, and the protected path was
    read as active in this run. *)
Theorem vrs_created_faithfully (key : string * string) (t : Trace) (a : Result * option error)
    (t1 : Trace) (o : VolumeReplication) (r : result VolumeReplication) (t2 : Trace) :
  runs (Reconcile key) t a → t = t1 ++ Ev (Create kVR o) r :: t2 →
  ∃ u sc, answered (k := kVVR) t1 u ∧ sc ∈ VVR_AllStorageClasses (vvr_Spec u) ∧
    Name (vr_Meta o) = vrNameForSC (Name (vvr_Meta u)) sc ∧
    Namespace (vr_Meta o) = VVR_PVCNamespace u ∧
    Labels (vr_Meta o) = <[LabelStorageClass := sc]> (<[LabelSourceVVR := Name (vvr_Meta u)]>
      {[LabelSourceVVRNamespace := Namespace (vvr_Meta u)]}) ∪ {[LabelManagedBy := LabelManagedByValue]} ∧
    vr_AutoResync o = true ∧
    (vr_ReplicationState o = Primary ↔ sc = vvr_PrimaryStorageClass (vvr_Spec u)) ∧
    data_source t1 u sc (vr_DataSource o) ∧
    (sc = vvr_PrimaryStorageClass (vvr_Spec u) → no_vr_created t1) ∧
    (VVR_PVCNamespace u ≠ Namespace (vvr_Meta u) → OwnerReferences (vr_Meta o) = []) ∧
    object_seen kVRClass t1 (vr_VolumeReplicationClass o) "" ∧ ppath_ready (k := kVVR) t1.
Proof.
  intros Hr Ht. destruct (runs_vvr_guarded _ _ _ _ _ _ _ Hr Ht) as [Hg _].
  destruct Hg as (u & v & sc & cn & ds & Hu & Ha & Hsc & Hb & Hds & Hc1 & Hfirst & Hp).
  destruct (agree_vvr _ _ Ha) as (E1 & E2 & E3 & E4).
  exists u, sc. unfold data_source in *. rewrite <-E1, <-E2, <-E3, <-E4.
  destruct (built_vr _ _ _ _ _ Hb) as (-> & -> & -> & -> & -> & -> & -> & Ho).
  split_and!; try done. apply vr_state_for_primary.
Qed.

(** C3. The requested state of an existing VolumeReplication is changed in
    three cases only, each time on a copy read just before: to Primary for the
    primary class, where a VR in Resync is left alone unless this run recorded
    a new primary class; to Resync for the primary class of a VVR whose
    [spec.resync] is set; to Secondary for a class whose VR was read as
    confirmed primary while another one was too and its cluster said it is the
    source.  A reconciliation that asked for a resync drives no other state. *)
Theorem vr_states_driven (key : string * string) (t : Trace) (a : Result * option error)
    (t1 : Trace) (b o : VolumeReplication) (r : result VolumeReplication) (t2 : Trace) :
  runs (Reconcile key) t a → t = t1 ++ Ev (Patch kVR b o) r :: t2 →
  ∃ u sc e s, answered (k := kVVR) t1 u ∧ vr_at_hand t1 u sc e b ∧ o = vr_set_state b s ∧
    ((s = Primary ∧ sc = vvr_PrimaryStorageClass (vvr_Spec u) ∧ vr_ReplicationState e ≠ Primary ∧
      (vr_ReplicationState e = Resync → primary_switched (k := kVVR) t1)) ∨
     (s = Resync ∧ sc = vvr_PrimaryStorageClass (vvr_Spec u) ∧ vvr_Resync (vvr_Spec u) = true) ∨
     (s = Secondary ∧ candidate t1 u sc ∧ ∃ sc', sc' ≠ sc ∧ candidate t1 u sc' ∧ is_source t1 sc')) ∧
    (s ≠ Resync → no_resync t1).
Proof.
  intros Hr Ht. destruct (runs_vvr_guarded _ _ _ _ _ _ _ Hr Ht) as [(u & v & sc & e & s & Hu & Ha & Hb & -> & Hs) Hn].
  destruct (agree_vvr _ _ Ha) as (E1 & E2 & E3 & E4).
  exists u, sc, e, s. unfold vr_at_hand, candidate in *. rewrite <-E1, <-E2, <-E3.
  exact (conj Hu (conj Hb (conj eq_refl (conj Hs Hn)))).
Qed.

(** *** Every class has its VR *)

Lemma wp_ensureVR_seen v sc ppath changed h :
  wp (fun _ _ => True) (ensureVR v sc ppath changed) h (fun h' x => x.2 = None →
    object_seen kVR h' (vrNameForSC (Name (vvr_Meta v)) sc) (VVR_PVCNamespace v)).
Proof.
  unfold ensureVR. apply wp_bind. eapply wp_post; [by apply (wp_true _ _ _ (fun _ _ => True))|].
  intros h1 [e|cn] _; [done|]. cbv zeta. apply wp_bind. eapply wp_post; [by apply (wp_true _ _ _ (fun _ _ => True))|].
  intros h2 [e|ds] _; [done|]. destruct (build_vr v sc cn ds) as [e|vr] eqn:Hb; [done|].
  destruct (built_vr _ _ _ _ _ Hb) as (<- & <- & _).
  apply wp_bind. unfold EnsureVolumeReplication. apply wp_ensure; [done..|].
  intros h3 [e|[]] Hh3 Hs; [done|by intros _; apply (Hs true)|]. specialize (Hs false eq_refl).
  case_bool_decide; cbn [negb]; [|by intros _]. apply wp_bind.
  eapply wp_post; [apply wp_prefix; by apply (wp_true _ _ _ (fun _ _ => True))|].
  intros h4 err [Hh4 _] _. by eapply object_seen_mono.
Qed.

(** When the part of the reconciliation that deals with the children ends
    without an error, the VolumeReplication of every StorageClass of the
    topology was read or created in it. *)
Theorem vrs_ensured (key : string * string) (ppathName : string) (changed : bool) (v v' : VVR) (t : Trace) (res : Result) :
  runs (children_step (k := kVVR) key (fun v scName => ensureVR v scName ppathName changed) syncVRReplicationStates v)
    t (v', Done res) →
  ∀ sc, sc ∈ VVR_AllStorageClasses (vvr_Spec v) →
    object_seen kVR t (vrNameForSC (Name (vvr_Meta v)) sc) (VVR_PVCNamespace v).
Proof.
  intros Hr. refine (children_seen (k := kVVR) key _ _ v v'
    (fun sc t => object_seen kVR t (vrNameForSC (Name (vvr_Meta v)) sc) (VVR_PVCNamespace v)) t res _ _ Hr).
  - intros sc t1 t2. apply object_seen_mono.
  - intros sc h. apply wp_ensureVR_seen.
Qed.

End Properties.

(** ** Concrete runs *)

#[local] Existing Instances demo_lookups demo_errors demo_show demo_order demo_refs demo_clock.
Definition demo_config : Config := mkConfig false "{pvc_name}".
Definition demo_steps : RetrySteps := 4.
#[local] Existing Instances demo_config demo_steps.

Definition demo_status : ReplicationStatus :=
  mkStatus FailoverTypeUngraceful "gold" (DisplayableList_String ["gold"; "silver"])
    {["gold" := "/k8s"; "silver" := "/k8s"]} {["gold" := mkTenant "t" "g1" 1; "silver" := mkTenant "t" "g2" 1]} "a" "".
Definition demo_resource (deleting : bool) : VVR :=
  mkVVR (mkMeta "a" "apps" "u2" ∅ ∅ [FinalizerVVR] [] 1 deleting)
    (mkVVRSpec "data" "" "gold" [mkTarget "gold" "silver" "gs" ""] (mkTemplate []) FailoverTypeUngraceful false 0 false
       DestVolReclaimPolicyRetain) demo_status.
Definition demo_child (name : string) (s : ReplicationState) : VolumeReplication :=
  mkVR (mkMeta name "apps" "u3" ∅ ∅ [] [] 1 false) s "c" "data" true PrimaryState.
Definition demo_pvc : PVC := mkPVC (mkMeta "data" "apps" "u4" ∅ ∅ [] [] 1 false) (Some "gold") "pv-1" (mkShape [] ∅ None).
Definition demo_pv : PV := mkPV (mkMeta "pv-1" "" "u5" ∅ ∅ [] [] 1 false) "gold" None false (mkShape [] ∅ None).

(** An API server with one VVR, its bound volume and some VRs, and clusters on
    which every path is active, with the given role. *)
Definition demo_api (v : VVR) (children : list VolumeReplication) (c : Call) (s : unit) : unit * resp c :=
  (s,
   match c return resp c with
   | Get k n ns =>
       match k return result (kobj k) with
       | kVR => match filter (fun g => Name (vr_Meta g) = n) children with
                | g :: _ => inr g
                | [] => inl (ErrStatus ReasonNotFound "not found")
                end
       | kVVR => inr v
       | kPVC => inr demo_pvc
       | kPV => inr demo_pv
       | kVRC => inr (demo_content false [])
       | _ => inl (ErrStatus ReasonNotFound "not found")
       end
   | Vms sc q => match q return vms_resp q with
                 | PpathGet n => inr (mkPpath 9 n true "ACTIVE" "" (if bool_decide (sc = "gold") then "Source" else "Destination") "/k8s" [] 1)
                 | q => vms_quiet q
                 end
   | c => quiet c
   end).

Definition demo_reconcile (deleting : bool) (children : list VolumeReplication) :=
  exec (demo_api (demo_resource deleting) children) (Reconcile ("apps", "a")) tt.
Definition demo_trace (deleting : bool) (children : list VolumeReplication) : Trace :=
  (demo_reconcile deleting children).1.2.
Definition demo_two : list VolumeReplication := [demo_child "a-gold" Primary; demo_child "a-silver" Primary].

Lemma demo_vvr_runs deleting children :
  runs (Reconcile ("apps", "a")) (demo_trace deleting children) (demo_reconcile deleting children).2.
Proof. apply exec_runs. Qed.

Lemma vvr_finalizer_removed_last_witness :
  let t := demo_trace true [] in
  let v := demo_resource true in
  let w := mkVVR (set_finalizers (vvr_Meta v) []) (vvr_Spec v) (vvr_Status v) in
  t = take 12 t ++ Ev (Update kVVR w) (inr w) :: drop 13 t ∧
  ((∃ u, answered (k := kVVR) (take 12 t) u ∧ Finalizers (vvr_Meta w) = Finalizers (vvr_Meta u)) ∨
   (∃ u, deletion_complete (k := kVVR) (take 12 t) u ∧
      Name (vvr_Meta w) = Name (vvr_Meta u) ∧ Namespace (vvr_Meta w) = Namespace (vvr_Meta u)) ∨
   (∃ t', t' `prefix_of` take 12 t ∧ only_finalizer_added (k := kVVR) t' ∧
      ∀ e, e ∈ take 12 t → e ∈ t' ∨ read_only (ev_call e) = true ∨ ∃ w', ev_call e = Update kVVR w')).
Proof.
  intros t v w.
  assert (Ht : t = take 12 t ++ Ev (Update kVVR w) (inr w) :: drop 13 t) by (vm_compute; reflexivity).
  split; [exact Ht|].
  apply (vvr_finalizer_removed_last ("apps", "a") t _ (take 12 t) w (inr w) (drop 13 t) (demo_vvr_runs true []) Ht).
  vm_compute. reflexivity.
Defined.

Lemma vvr_status_writes_witness :
  let t := demo_trace true [] in
  let v := demo_resource true in
  let w := mkVVR (set_finalizers (vvr_Meta v) []) (vvr_Spec v) (with_sync SyncStatusDeleting (vvr_Status v)) in
  t = take 13 t ++ Ev (UpdateStatus kVVR w) (inr w) :: drop 14 t ∧
  ∃ u, answered (k := kVVR) (take 13 t) u ∧
    (PpathDirMapping (vvr_Status u) ≠ ∅ → PpathDirMapping (vvr_Status w) = PpathDirMapping (vvr_Status u)).
Proof.
  intros t v w.
  assert (Ht : t = take 13 t ++ Ev (UpdateStatus kVVR w) (inr w) :: drop 14 t) by (vm_compute; reflexivity).
  split; [exact Ht|].
  destruct (vvr_status_writes ("apps", "a") t _ (take 13 t) w (inr w) (drop 14 t) (demo_vvr_runs true []) Ht)
    as (u & Hu & _ & _ & Hd & _).
  exists u. split; [exact Hu|exact Hd].
Defined.

Definition demo_built (sc className dataSource : string) : VolumeReplication :=
  match build_vr (demo_resource false) sc className dataSource with inr o => o | inl _ => demo_child "" Primary end.

Lemma vrs_created_faithfully_witness :
  let t := demo_trace false [] in
  let o := demo_built "silver" "a-silver-csi-vastdata-com-vvr" "data" in
  t = take 13 t ++ Ev (Create kVR o) (inr o) :: drop 14 t ∧ vr_ReplicationState o = Secondary ∧
    ∃ u sc, answered (k := kVVR) (take 13 t) u ∧ Name (vr_Meta o) = vrNameForSC (Name (vvr_Meta u)) sc ∧
      data_source (take 13 t) u sc (vr_DataSource o).
Proof.
  intros t o.
  assert (Ht : t = take 13 t ++ Ev (Create kVR o) (inr o) :: drop 14 t) by (vm_compute; reflexivity).
  split; [exact Ht|]. split; [vm_compute; reflexivity|].
  destruct (vrs_created_faithfully ("apps", "a") t _ (take 13 t) o (inr o) (drop 14 t) (demo_vvr_runs false []) Ht)
    as (u & sc & Hu & _ & Hn & _ & _ & _ & _ & Hs & _).
  exists u, sc. split; [exact Hu|]. split; [exact Hn|exact Hs].
Defined.

Lemma vr_states_driven_witness :
  let t := demo_trace false demo_two in
  let b := demo_child "a-silver" Primary in
  t = take 16 t ++ Ev (Patch kVR b (vr_set_state b Secondary)) (inr (vr_set_state b Secondary)) :: drop 17 t ∧
  ∃ u sc e s, answered (k := kVVR) (take 16 t) u ∧ vr_at_hand (take 16 t) u sc e b ∧
    vr_set_state b Secondary = vr_set_state b s.
Proof.
  intros t b.
  assert (Ht : t = take 16 t ++ Ev (Patch kVR b (vr_set_state b Secondary)) (inr (vr_set_state b Secondary)) :: drop 17 t)
    by (vm_compute; reflexivity).
  split; [exact Ht|].
  destruct (vr_states_driven ("apps", "a") t _ (take 16 t) _ _ _ (drop 17 t) (demo_vvr_runs false demo_two) Ht)
    as (u & sc & e & s & Hu & Hb & Hs & _).
  exists u, sc, e, s. split; [exact Hu|]. split; [exact Hb|exact Hs].
Defined.
