(* ===== verification/Mirrors.v ===== *)
(** * Mirror PVCs and PVs

    The part of [internal/provisioner/base.go] that lives in Kubernetes: which
    source PVCs a content sees, the static PVC+PV pairs it creates for them on
    its own StorageClass, and what happens to pairs whose source is gone.  The
    cluster-specific half (views, quotas, volumes on the VAST cluster) is
    behind the calls [ProvisionVolumeCb] and [VolumeMapping], as it is behind
    the Go interfaces. *)

From S2P Require Import Prelude GoErrors Topology Kube Naming PpathDir Programs Api ContentController.
From stdpp Require Import options.

Definition LabelSourcePVC := Domain +:+ "/source-pvc".
Definition LabelSourcePVCNamespace := Domain +:+ "/source-pvc-namespace".
Definition FinalizerPVC := Domain +:+ "/pvc-protection".

Definition VolumePair : Type := PVC * PV.

(** The fields of [baseProvisioner] the functions below read; the name
    formats come from the configuration, [BackendObjectKey] from the concrete
    provisioner. *)
Record base := mkBase {
  rp : VRC;
  sourceSc : StorageClass;
  primaryStorageClass : string;
  PVCNameFormat : string;
  PVNameFormat : string;
  BackendObjectKey : string → string;
}.

Section Mirrors.

Context {steps : RetrySteps}.

(** [url.Parse] and the secret holding the endpoint, for the name formats. *)
Variable url_host : string → option string.
Variable GetSecretValue : string → string → string → result string.

Definition is_managed (m : ObjectMeta) : bool :=
  bool_decide (map_get (Labels m) LabelManagedBy = LabelManagedByValue).

Definition isVolumeGroup (b : base) : bool :=
  bool_decide (vrc_Kind (vrc_Spec (rp b)) = DestinationKindVolumeGroupReplication).

(** ** Parents *)

Definition sourceVSCR (v : VRC) : Prog (result (option VSCR)) :=
  let name := map_get (Labels (vrc_Meta v)) LabelSourceVSCR in
  if bool_decide (name = "") then mret (inr None)
  else
    let ns := ParentNamespace (Labels (vrc_Meta v)) LabelSourceVSCRNamespace (Namespace (vrc_Meta v)) in
    r ← GetVastStorageClassReplication name ns;
    mret (match r with
          | inl e => inl (ErrWrap ("get VastStorageClassReplication " +:+ ns +:+ "/" +:+ name +:+ ": ") e "")
          | inr o => inr (Some o)
          end).

Definition sourceVVR (v : VRC) : Prog (result (option VVR)) :=
  let name := map_get (Labels (vrc_Meta v)) LabelSourceVVR in
  if bool_decide (name = "") then mret (inr None)
  else
    let ns := ParentNamespace (Labels (vrc_Meta v)) LabelSourceVVRNamespace (Namespace (vrc_Meta v)) in
    r ← GetVastVolumeReplication name ns;
    mret (match r with
          | inl e => inl (ErrWrap ("get VastVolumeReplication " +:+ ns +:+ "/" +:+ name +:+ ": ") e "")
          | inr o => inr (Some o)
          end).

Definition no_parent_label {A} (v : VRC) : result A :=
  Errorf ("VastReplicationContent " +:+ Namespace (vrc_Meta v) +:+ "/" +:+ Name (vrc_Meta v) +:+
          " has neither " +:+ LabelSourceVSCR +:+ " nor " +:+ LabelSourceVVR +:+ " label").

(** Asks the VSCR, then the VVR named by the labels. *)
Definition from_parent {A} (v : VRC) (onVSCR : VSCR → result A) (onVVR : VVR → result A) : Prog (result A) :=
  r ← sourceVSCR v;
  match r with
  | inl e => mret (inl e)
  | inr (Some vscr) => mret (onVSCR vscr)
  | inr None =>
      r ← sourceVVR v;
      match r with
      | inl e => mret (inl e)
      | inr (Some vvr) => mret (onVVR vvr)
      | inr None => mret (no_parent_label v)
      end
  end.

(** Without either label the code panics. *)
Definition lookupPrimaryStorageClass (v : VRC) : Prog (result string) :=
  r ← sourceVSCR v;
  match r with
  | inl e => mret (inl e)
  | inr (Some vscr) => mret (inr (vscr_PrimaryStorageClass (vscr_Spec vscr)))
  | inr None =>
      r ← sourceVVR v;
      mret (match r with
            | inl e => inl e
            | inr (Some vvr) => inr (vvr_PrimaryStorageClass (vvr_Spec vvr))
            | inr None => Errorf "panic: neither source VSCR not VVR exists"
            end)
  end.

Definition lookupDestVolReclaimPolicy (v : VRC) : Prog (result DestVolReclaimPolicy) :=
  from_parent v (fun vscr => inr (vscr_DestVolReclaimPolicy (vscr_Spec vscr)))
                (fun vvr => inr (vvr_DestVolReclaimPolicy (vvr_Spec vvr))).

Definition shouldRetainDestVolumes (b : base) : Prog (result bool) :=
  r ← lookupDestVolReclaimPolicy (rp b);
  mret (match r with
        | inl e => inl e
        | inr policy => inr (bool_decide (policy = DestVolReclaimPolicyRetain))
        end).

Definition handle_of (pv : PV) : string := from_option csi_VolumeHandle "" (pv_CSI pv).

Definition mirrorVolumeHandle (b : base) (sourcePV : PV) (sibSc : StorageClass) : Prog (result string) :=
  let volumeBaseName := path_Base (handle_of sourcePV) in
  if IsBlockStorageClass sibSc then
    mret (inr (path_Join ["/"; volume_group (nonPrefixed sibSc); volumeBaseName]))
  else
    from_parent (rp b)
      (fun vscr =>
         match PpathDirMapping (vscr_Status vscr) !! sc_Name sibSc with
         | None => Errorf ("StorageClass " +:+ quote (sc_Name sibSc) +:+ " has no entry in VSCR " +:+
                           Name (vscr_Meta vscr) +:+ " PpathDirMapping")
         | Some dir => inr (path_Join [dir; volumeBaseName])
         end)
      (fun vvr =>
         match PpathDirMapping (vvr_Status vvr) !! sc_Name sibSc with
         | None => Errorf ("StorageClass " +:+ quote (sc_Name sibSc) +:+ " has no entry in VVR " +:+
                           Name (vvr_Meta vvr) +:+ " PpathDirMapping")
         | Some dir => inr dir
         end).

(** ** Source PVCs *)

Fixpoint classify_pvcs (ns : string) (pvcNames : list string) (acc : list VolumePair)
    : Prog (result (list VolumePair)) :=
  match pvcNames with
  | [] => mret (inr acc)
  | pvcName :: rest =>
      r ← GetPVCandPV pvcName ns;
      match r with
      | inl e =>
          if IsNotFound (Some e) then classify_pvcs ns rest acc
          else mret (inl (ErrWrap ("get PVC+PV " +:+ ns +:+ "/" +:+ pvcName +:+ ": ") e ""))
      | inr (_, None) =>
          mret (inl (RetryAfterError (ErrNew ("PVC " +:+ ns +:+ "/" +:+ pvcName +:+ " not yet bound"))
                       (15 * 1000000000)))
      | inr (pvc, Some pv) =>
          if is_managed (pvc_Meta pvc) then classify_pvcs ns rest acc
          else classify_pvcs ns rest (acc ++ [(pvc, pv)])
      end
  end.

Fixpoint classify_vrcs (vrcs : list VRC) (acc : list VolumePair) : Prog (result (list VolumePair)) :=
  match vrcs with
  | [] => mret (inr acc)
  | vrc :: rest =>
      r ← classify_pvcs (Namespace (vrc_Meta vrc)) (vrc_PVCs (vrc_Spec vrc)) acc;
      match r with inl e => mret (inl e) | inr acc' => classify_vrcs rest acc' end
  end.

Definition classifyConstellationPVCs (b : base) : Prog (result (list VolumePair)) :=
  r ← constellation (rp b);
  match r with
  | inl e => mret (inl (ErrWrap "list constellation VastReplicationContents: " e ""))
  | inr vrcs => classify_vrcs (default [] vrcs) []
  end.

Fixpoint compute_to_delete (ns : string) (specPVCs statusPVCs : list string) (acc : list string)
    : Prog (result (list string)) :=
  match statusPVCs with
  | [] => mret (inr acc)
  | pvcName :: rest =>
      if bool_decide (pvcName ∈ specPVCs) then compute_to_delete ns specPVCs rest acc
      else
        r ← call (Get kPVC pvcName ns);
        match r with
        | inl e =>
            if IsNotFound (Some e) then compute_to_delete ns specPVCs rest (acc ++ [pvcName])
            else mret (inl (ErrWrap ("get PVC " +:+ ns +:+ "/" +:+ pvcName +:+ ": ") e ""))
        | inr pvc =>
            if is_managed (pvc_Meta pvc) then compute_to_delete ns specPVCs rest acc
            else compute_to_delete ns specPVCs rest (acc ++ [pvcName])
        end
  end.

Definition computeSourceToDelete (b : base) : Prog (result (list string)) :=
  compute_to_delete (Namespace (vrc_Meta (rp b))) (vrc_PVCs (vrc_Spec (rp b)))
    (vrcs_PVCs (vrc_Status (rp b))) [].

(** ** Creating a mirror *)

Definition mirror_pv_labels (sourcePVC : PVC) : gmap string string :=
  {[LabelManagedBy := LabelManagedByValue; LabelSourcePVC := Name (pvc_Meta sourcePVC);
    LabelSourcePVCNamespace := Namespace (pvc_Meta sourcePVC)]}.

Definition add_parent_labels (v : VRC) (nameLabel nsLabel : string) (labels : gmap string string)
    : gmap string string :=
  let name := map_get (Labels (vrc_Meta v)) nameLabel in
  if bool_decide (name = "") then labels
  else
    let labels' := <[nameLabel := name]> labels in
    let ns := ParentNamespace (Labels (vrc_Meta v)) nsLabel "" in
    if bool_decide (ns = "") then labels' else <[nsLabel := ns]> labels'.

Definition mirror_pvc_labels (v : VRC) (sourcePVC : PVC) (sibSc : StorageClass) : gmap string string :=
  add_parent_labels v LabelSourceVVR LabelSourceVVRNamespace
    (add_parent_labels v LabelSourceVSCR LabelSourceVSCRNamespace
       {[LabelManagedBy := LabelManagedByValue; LabelStorageClass := sc_Name sibSc;
         LabelSourcePVC := Name (pvc_Meta sourcePVC);
         LabelSourcePVCNamespace := Namespace (pvc_Meta sourcePVC)]}).

(** The objects the two builders produce. *)
Definition mirror_pv (name : string) (sourcePVC : PVC) (sourcePV : PV) (sibSc : StorageClass)
    (driver handle : string) (secretRef : string * string) : PV :=
  mkPV (mkMeta name "" "" (mirror_pv_labels sourcePVC)
          {["pv.kubernetes.io/provisioned-by" := driver]} [] [] 0 false)
    (sc_Name sibSc)
    (Some (mkCSI driver handle (nonPrefixed sibSc) (Some secretRef)))
    true (pv_Shape sourcePV).

Definition mirror_pvc (b : base) (name pvName : string) (sourcePVC : PVC) (sourcePV : PV)
    (sibSc : StorageClass) : PVC :=
  mkPVC (mkMeta name (Namespace (pvc_Meta sourcePVC)) "" (mirror_pvc_labels (rp b) sourcePVC sibSc)
           ∅ [FinalizerPVC] [] 0 false)
    (if bool_decide (sc_Name sibSc = "") then None else Some (sc_Name sibSc)) pvName (pv_Shape sourcePV).

(** The checks before anything is created: driver, and the secret reference. *)
Definition mirror_inputs (sourcePV : PV) (sibSc : StorageClass) : result (string * (string * string)) :=
  let csiSecrets := ExtractPrefixedParams CSIParameterPrefix (sc_Parameters sibSc) in
  let secretName := map_get csiSecrets "provisioner-secret-name" in
  let secretNS := map_get csiSecrets "provisioner-secret-namespace" in
  let csiDriver := from_option csi_Driver "" (pv_CSI sourcePV) in
  if bool_decide (secretName = "") || bool_decide (secretNS = "") then
    Errorf ("StorageClass " +:+ sc_Name sibSc +:+ " is missing provisioner secret parameters")
  else if bool_decide (csiDriver = "") then
    Errorf ("source PV " +:+ Name (pv_Meta sourcePV) +:+ " has no CSI driver")
  else if bool_decide (size (Capacity (pv_Shape sourcePV)) = 0) then
    Errorf ("source PV " +:+ Name (pv_Meta sourcePV) +:+ " has no capacity")
  else mret (csiDriver, (secretName, secretNS)).

Definition ensureMirrorPVCPV (b : base) (sourcePVC : PVC) (sourcePV : PV) (sibSc : StorageClass)
    : Prog (result bool) :=
  if bool_decide (handle_of sourcePV = "") then
    mret (Errorf ("source PV " +:+ Name (pv_Meta sourcePV) +:+ " has no CSI volume handle"))
  else
    let pvcName := Name (pvc_Meta sourcePVC) in
    let pvName := Name (pv_Meta sourcePV) in
    match wrap_err "format mirror PVC name: "
            (FormatPVCName url_host GetSecretValue (PVCNameFormat b) pvcName pvName sibSc),
          wrap_err "format mirror PV name: "
            (FormatPVName url_host GetSecretValue (PVNameFormat b) pvcName pvName sibSc),
          mirror_inputs sourcePV sibSc with
    | inl e, _, _ | inr _, inl e, _ | inr _, inr _, inl e => mret (inl e)
    | inr destPVCName, inr destPVName, inr (driver, secretRef) =>
        r ← mirrorVolumeHandle b sourcePV sibSc;
        match r with
        | inl e => mret (inl (ErrWrap "compute mirror volume handle: " e ""))
        | inr mirrorHandle =>
            r ← EnsurePV (mirror_pv destPVName sourcePVC sourcePV sibSc driver mirrorHandle secretRef);
            match r with
            | inl e => mret (inl (ErrWrap ("ensure mirror PV " +:+ destPVName +:+ ": ") e ""))
            | inr pvCreated =>
                r ← EnsurePVC (mirror_pvc b destPVCName destPVName sourcePVC sourcePV sibSc);
                mret (match r with
                      | inl e => inl (ErrWrap ("ensure mirror PVC " +:+ Namespace (pvc_Meta sourcePVC) +:+
                                               "/" +:+ destPVCName +:+ ": ") e "")
                      | inr pvcCreated => inr (pvCreated || pvcCreated)
                      end)
            end
        end
    end.

Definition hasVolume (sc : StorageClass) (vol : string) : Prog (result bool) :=
  r ← call (VolumeMapping sc);
  mret (match r with
        | inl e => inl e
        | inr mapping => inr (bool_decide (trim_right_set (is_char "/"%char) vol ∈ mapping))
        end).

(** A PV without CSI source makes the code panic; controller-runtime turns
    that into an error of the reconciliation. *)
Definition nil_dereference : error := ErrNew "runtime error: invalid memory address or nil pointer dereference".

(** [errs] are the deferred errors so far. *)
Fixpoint ensureReplicaMirrors (b : base) (sc : StorageClass) (pairs : list VolumePair)
    (errs : list error) : Prog (option error) :=
  match pairs with
  | [] => mret (DeferredError_Err errs)
  | (pvc, pv) :: rest =>
      let mirror : Prog (option error) :=
        r ← ensureMirrorPVCPV b pvc pv sc;
        ensureReplicaMirrors b sc rest
          (match r with
           | inl e => DeferredError_Add errs
                        (Some (ErrWrap ("mirror " +:+ Name (pvc_Meta pvc) +:+ " → " +:+ sc_Name sc +:+ ": ") e ""))
           | inr _ => errs
           end) in
      if isVolumeGroup b then
        match pv_CSI pv with
        | None => mret (Some nil_dereference)
        | Some csi =>
            r ← hasVolume sc (BackendObjectKey b (csi_VolumeHandle csi));
            match r with
            | inl e => if IsNetworkError (Some e) then mret None else mret (Some e)
            | inr _ => mirror
            end
        end
      else mirror
  end.

(** ** Releasing a mirror *)

Definition mirrorReplicationLabelKeys : list string :=
  [LabelManagedBy; LabelSourcePVC; LabelSourcePVCNamespace; LabelStorageClass;
   LabelSourceVSCR; LabelSourceVSCRNamespace; LabelSourceVVR; LabelSourceVVRNamespace].

Definition stripMirrorReplicationLabels (m : ObjectMeta) : ObjectMeta :=
  fold_left RemoveLabel mirrorReplicationLabelKeys m.

Definition managedPVForPVC (pvc : PVC) : Prog (result (option PV)) :=
  if bool_decide (pvc_VolumeName pvc = "") then mret (inr None)
  else
    r ← call (Get kPV (pvc_VolumeName pvc) "");
    mret (match r with
          | inl e =>
              if IsNotFound (Some e) then inr None
              else inl (ErrWrap ("failed to get PV " +:+ pvc_VolumeName pvc +:+ ": ") e "")
          | inr pv => inr (if is_managed (pv_Meta pv) then Some pv else None)
          end).

Definition detachMirrorFromReplication (pvc : PVC) : Prog (option error) :=
  r ← managedPVForPVC pvc;
  match r with
  | inl e => mret (Some e)
  | inr pv =>
      '(pvc1, err) ← RemoveFinalizer kPVC pvc FinalizerPVC;
      match err with
      | Some e => mret (Some (ErrWrap ("remove finalizer on mirror PVC " +:+ Namespace (pvc_Meta pvc1) +:+
                                       "/" +:+ Name (pvc_Meta pvc1) +:+ ": ") e ""))
      | None =>
          '(pvc2, err) ← PatchPVCLabels (set_meta kPVC pvc1 (stripMirrorReplicationLabels (pvc_Meta pvc1)));
          match err with
          | Some e => mret (Some (ErrWrap ("strip replication labels on mirror PVC " +:+
                                           Namespace (pvc_Meta pvc2) +:+ "/" +:+ Name (pvc_Meta pvc2) +:+ ": ") e ""))
          | None =>
              match pv with
              | None => mret None
              | Some pv =>
                  '(pv', err) ← PatchPVLabels (set_meta kPV pv (stripMirrorReplicationLabels (pv_Meta pv)));
                  mret (match err with
                        | Some e => Some (ErrWrap ("strip replication labels on mirror PV " +:+
                                                   Name (pv_Meta pv') +:+ ": ") e "")
                        | None => None
                        end)
              end
          end
      end
  end.

(** Removing one mirror under the Delete policy: [inl] aborts the loop. *)
Definition delete_mirror (pvc : PVC) : Prog (result (option error)) :=
  '(_, podErr) ← IsPVCUsedByPod pvc;
  match podErr with
  | Some e => mret (inl e)
  | None =>
      let failed (what : string) (e : error) : error :=
        ErrWrap ("delete orphaned mirror PVC " +:+ Name (pvc_Meta pvc) +:+ ": " +:+ what) e "" in
      '(pvc', err) ← RemoveFinalizer kPVC pvc FinalizerPVC;
      match err with
      | Some e => mret (inr (Some (failed "remove vastdata finalizer: " e)))
      | None =>
          r ← call (Delete kPVC pvc');
          mret (inr (match r with
                     | inr _ => None
                     | inl e => if IsNotFound (Some e) then None else Some (failed "" e)
                     end))
      end
  end.

Fixpoint clean_orphans (retain : bool) (keep : gset string) (pvcs : list PVC) (errs : list error)
    : Prog (option error) :=
  match pvcs with
  | [] => mret (DeferredError_Err errs)
  | pvc :: rest =>
      let sourcePVCName := default "" (GetLabel (pvc_Meta pvc) LabelSourcePVC) in
      if bool_decide (sourcePVCName ∈ keep) then clean_orphans retain keep rest errs
      else if retain then
        err ← detachMirrorFromReplication pvc;
        clean_orphans retain keep rest
          (match err with
           | None => errs
           | Some e => DeferredError_Add errs
               (Some (ErrWrap ("detach orphaned mirror PVC " +:+ Name (pvc_Meta pvc) +:+ ": ") e ""))
           end)
      else
        r ← delete_mirror pvc;
        match r with
        | inl e => mret (Some e)
        | inr err => clean_orphans retain keep rest (DeferredError_Add errs err)
        end
  end.

Definition mirror_selector (v : VRC) (sc : StorageClass) : gmap string string :=
  let sel : gmap string string := {[LabelManagedBy := LabelManagedByValue; LabelStorageClass := sc_Name sc]} in
  let vvrName := map_get (Labels (vrc_Meta v)) LabelSourceVVR in
  let vscrName := map_get (Labels (vrc_Meta v)) LabelSourceVSCR in
  if bool_decide (vvrName ≠ "") then <[LabelSourceVVR := vvrName]> sel
  else if bool_decide (vscrName ≠ "") then <[LabelSourceVSCR := vscrName]> sel
  else sel.

Definition cleanReplicaMirrorOrphans (b : base) (v : VRC) (sc : StorageClass) (keep : gset string)
    : Prog (option error) :=
  r ← shouldRetainDestVolumes b;
  match r with
  | inl e => mret (Some e)
  | inr retain =>
      r ← ListPVCsByLabelSelector (Namespace (vrc_Meta (rp b))) (mirror_selector v sc);
      match r with
      | inl e => mret (Some (ErrWrap ("failed to list mirror PVCs for " +:+ Name (vrc_Meta v) +:+ ": ") e ""))
      | inr pvcs => clean_orphans retain keep pvcs []
      end
  end.

(** ** ProvisionVolumes *)

Definition own_class (b : base) (p : VolumePair) : bool :=
  bool_decide (pvc_StorageClassName p.1 = Some (vrc_StorageClass (vrc_Spec (rp b)))).

(** [ProvisionVolumes] of [baseProvisioner]. *)
Definition base_ProvisionVolumes (b : base) : Prog (option error) :=
  r ← classifyConstellationPVCs b;
  match r with
  | inl e => mret (Some e)
  | inr unmanaged =>
      r ← computeSourceToDelete b;
      match r with
      | inl e => mret (Some e)
      | inr toDelete =>
          err ← call (ProvisionVolumeCb (rp b) unmanaged toDelete);
          match err with
          | Some e => mret (Some e)
          | None =>
              if vrc_SyncPVCPV (vrc_Spec (rp b)) then
                let otherPairs := filter (fun p => own_class b p = false) unmanaged in
                let keepNames : gset string := list_to_set (map (fun p => Name (pvc_Meta p.1)) otherPairs) in
                err1 ← ensureReplicaMirrors b (sourceSc b) otherPairs [];
                err2 ← cleanReplicaMirrorOrphans b (rp b) (sourceSc b) keepNames;
                let errs1 := DeferredError_Add []
                  (match err1 with None => None | Some e => Some (ErrWrap "ensure mirrors: " e "") end) in
                mret (DeferredError_Err (DeferredError_Add errs1
                  (match err2 with None => None | Some e => Some (ErrWrap "orphan cleanup: " e "") end)))
              else mret (DeferredError_Err [])
          end
      end
  end.

End Mirrors.

(** ** Orphan cleanup: what a run may do *)

Section OrphanCleanup.

Context {steps : RetrySteps}.
Variable b : base.
Variable v : VRC.
Variable sc : StorageClass.
Variable keep : gset string.

Definition without_finalizer (p : PVC) : PVC :=
  set_meta kPVC p (remove_finalizer (pvc_Meta p) FinalizerPVC).1.

(** A PVC from the listing of this content's mirrors whose source is not kept. *)
Definition orphan (t : Trace) (p : PVC) : Prop :=
  ∃ l, Ev (List kPVC (Namespace (vrc_Meta (rp b))) (mirror_selector v sc)) (inr l) ∈ t ∧ p ∈ l ∧
    default "" (GetLabel (pvc_Meta p) LabelSourcePVC) ∉ keep.

(** The parent was answered to have the policy. *)
Definition policy_read (policy : DestVolReclaimPolicy) (t : Trace) : Prop :=
  (∃ n ns s, Ev (Get kVSCR n ns) (inr s) ∈ t ∧ vscr_DestVolReclaimPolicy (vscr_Spec s) = policy) ∨
  (∃ n ns s, Ev (Get kVVR n ns) (inr s) ∈ t ∧ vvr_DestVolReclaimPolicy (vvr_Spec s) = policy).

Definition unlabelled (m : ObjectMeta) : Prop :=
  ∀ key, key ∈ mirrorReplicationLabelKeys → Labels m !! key = None.

Definition orphan_allowed (t : Trace) (c : Call) : Prop :=
  match c with
  | Get _ _ _ | List _ _ _ => True
  | Update kPVC o => ∃ p, orphan t p ∧ same_object kPVC (without_finalizer p) o
  | Delete kPVC o =>
      policy_read DestVolReclaimPolicyDelete t ∧
      ∃ p, orphan t p ∧
        (same_object kPVC (without_finalizer p) o ∨
         ∃ u, same_object kPVC (without_finalizer p) u ∧ Ev (Update kPVC u) (inr o) ∈ t)
  | Patch kPVC _ o => policy_read DestVolReclaimPolicyRetain t ∧ unlabelled (pvc_Meta o)
  | Patch kPV _ o => policy_read DestVolReclaimPolicyRetain t ∧ unlabelled (pv_Meta o)
  | _ => False
  end.

Notation W := (wp orphan_allowed).

Lemma orphan_mono t t' p : t `prefix_of` t' → orphan t p → orphan t' p.
Proof. intros [k ->] (l & ? & ?). exists l. set_solver. Qed.

Lemma policy_read_mono policy t t' : t `prefix_of` t' → policy_read policy t → policy_read policy t'.
Proof.
  intros [k ->] [(n & ns & s & ? & ?)|(n & ns & s & ? & ?)];
    [left|right]; exists n, ns, s; set_solver.
Qed.

Lemma stripped_unlabelled m : unlabelled (stripMirrorReplicationLabels m).
Proof.
  unfold unlabelled, stripMirrorReplicationLabels. generalize mirrorReplicationLabelKeys as ks.
  intros ks. revert m.
  assert (Hkeep : ∀ ks m key, Labels m !! key = None → Labels (fold_left RemoveLabel ks m) !! key = None).
  { intros ks'. induction ks' as [|k' ks' IH]; intros m key Hm; simpl; [done|]. apply IH. simpl.
    rewrite lookup_delete_None. auto. }
  induction ks as [|k ks IH]; intros m key Hin; [by apply not_elem_of_nil in Hin|].
  apply elem_of_cons in Hin as [->|Hin]; simpl; [|by apply IH].
  apply Hkeep. simpl. apply lookup_delete_eq.
Qed.

Lemma wp_from_parent {A} (onVSCR : VSCR → result A) (onVVR : VVR → result A) w h
    (Q : Trace → result A → Prop) :
  (∀ h' r, h `prefix_of` h' →
     (∀ a, r = inr a →
        (∃ n ns s, Ev (Get kVSCR n ns) (inr s) ∈ h' ∧ onVSCR s = inr a) ∨
        (∃ n ns s, Ev (Get kVVR n ns) (inr s) ∈ h' ∧ onVVR s = inr a)) → Q h' r) →
  W (from_parent w onVSCR onVVR) h Q.
Proof.
  intros HQ. unfold from_parent. apply wp_bind.
  assert (HVVR : ∀ h1, h `prefix_of` h1 → W (r ← sourceVVR w;
            match r with
            | inl e => mret (inl e)
            | inr (Some vvr) => mret (onVVR vvr)
            | inr None => mret (no_parent_label w)
            end) h1 Q).
  { intros h1 Hh. unfold sourceVVR, GetVastVolumeReplication. case_bool_decide.
    - apply wp_bind, wp_ret, wp_ret, HQ; [done|]. by intros a.
    - apply wp_bind, wp_bind, wp_bind_call; [done|].
      intros [e|o]; do 3 apply wp_ret; (apply HQ; [by apply prefix_app_r|]); [by intros a|].
      intros a Ha. right. do 3 eexists. split; [|exact Ha]. apply in_snoc. }
  unfold sourceVSCR, GetVastStorageClassReplication. case_bool_decide.
  - apply wp_ret. by apply HVVR.
  - apply wp_bind, wp_bind_call; [done|].
    intros [e|o]; do 3 apply wp_ret; (apply HQ; [by apply prefix_app_r|]); [by intros a|].
    intros a Ha. left. do 3 eexists. split; [|exact Ha]. apply in_snoc.
Qed.

Lemma wp_shouldRetain h (Q : Trace → result bool → Prop) :
  (∀ h' r, h `prefix_of` h' →
     (r = inr true → policy_read DestVolReclaimPolicyRetain h') →
     (r = inr false → policy_read DestVolReclaimPolicyDelete h') → Q h' r) →
  W (shouldRetainDestVolumes b) h Q.
Proof.
  intros HQ. unfold shouldRetainDestVolumes, lookupDestVolReclaimPolicy.
  apply wp_bind, wp_from_parent. intros h' [e|p] Hh Hp; apply wp_ret, HQ; try done.
  - intros [= Hr]. case_bool_decide; [subst|done]. 
    destruct (Hp _ eq_refl) as [(n & ns & s & ? & [= ?])|(n & ns & s & ? & [= ?])];
      [left|right]; by exists n, ns, s.
  - intros [= Hr]. destruct p; [by rewrite bool_decide_true in Hr|].
    destruct (Hp _ eq_refl) as [(n & ns & s & ? & [= ?])|(n & ns & s & ? & [= ?])];
      [left|right]; by exists n, ns, s.
Qed.

Lemma wp_remove_pvc_finalizer p h (Q : Trace → PVC * option error → Prop) :
  orphan h p →
  (∀ h' o' err, h `prefix_of` h' →
     (same_object kPVC (without_finalizer p) o' ∨
      ∃ u, same_object kPVC (without_finalizer p) u ∧ Ev (Update kPVC u) (inr o') ∈ h') → Q h' (o', err)) →
  W (RemoveFinalizer kPVC p FinalizerPVC) h Q.
Proof.
  intros Ho HQ. apply (wp_RemoveFinalizer _ kPVC).
  - intros h' o' Hh Hs. exists p. split; [by eapply orphan_mono|exact Hs].
  - done.
  - intros h' o' err Hh Hs. by apply HQ.
Qed.

Lemma wp_patch_labels k (o : kobj k) h (Q : Trace → kobj k * option error → Prop) labels :
  (k = kPVC ∨ k = kPV) → policy_read DestVolReclaimPolicyRetain h →
  (∀ key, key ∈ mirrorReplicationLabelKeys → labels !! key = None) →
  (∀ h' x, h `prefix_of` h' → Q h' x) →
  W (PatchWithRetry k o (fun o => set_meta k o (set_labels (meta k o) labels))) h Q.
Proof.
  intros Hk Hp Hl HQ. unfold PatchWithRetry. apply wp_bind, wp_PatchWithRetry_capturing.
  - intros h' c Hh [->|[b0 ->]]; [done|].
    destruct Hk as [-> | ->]; (split; [by eapply policy_read_mono|exact Hl]).
  - intros h' o' x' e Hh. apply wp_ret. by apply HQ.
  - intros h' b0 o' Hh _. apply wp_ret. by apply HQ.
Qed.

Lemma wp_detach p h (Q : Trace → option error → Prop) :
  orphan h p → policy_read DestVolReclaimPolicyRetain h → (∀ h' e, h `prefix_of` h' → Q h' e) →
  W (detachMirrorFromReplication p) h Q.
Proof.
  intros Ho Hp HQ. unfold detachMirrorFromReplication. apply wp_bind.
  apply (wp_post _ _ _ (fun h' _ => h `prefix_of` h')).
  { unfold managedPVForPVC. case_bool_decide; [by apply wp_ret|]. apply wp_bind_call; [done|].
    intros r. by apply prefix_app_r. }
  intros h1 [e|pv] Hh1; [by apply HQ|].
  apply wp_bind, wp_remove_pvc_finalizer; [by eapply orphan_mono|].
  intros h2 p1 [e|] Hh2 _; [apply HQ; by etrans|].
  unfold PatchPVCLabels. apply wp_bind, wp_bind, (wp_patch_labels kPVC); [by left| | |].
  { eapply policy_read_mono; [|done]. by etrans. }
  { apply stripped_unlabelled. }
  intros h3 [p2 [e|]] Hh3; [apply HQ; by do 2 (etrans; [done|])|].
  destruct pv as [pv|]; [|apply HQ; by do 2 (etrans; [done|])].
  unfold PatchPVLabels. apply wp_bind, wp_bind, (wp_patch_labels kPV); [by right| | |].
  { eapply policy_read_mono; [|done]. by do 2 (etrans; [done|]). }
  { apply stripped_unlabelled. }
  intros h4 [pv' err] Hh4. apply HQ. by do 3 (etrans; [done|]).
Qed.

Lemma wp_delete_mirror p h (Q : Trace → result (option error) → Prop) :
  orphan h p → policy_read DestVolReclaimPolicyDelete h → (∀ h' r, h `prefix_of` h' → Q h' r) →
  W (delete_mirror p) h Q.
Proof.
  intros Ho Hp HQ. unfold delete_mirror, IsPVCUsedByPod.
  apply wp_bind, wp_bind_call; [done|]. intros r. apply wp_ret.
  destruct (Kube.IsPVCUsedByPod _ _) as [inUse [e|]]; [by apply HQ, prefix_app_r|].
  set (h1 := h ++ _). assert (Hh1 : h `prefix_of` h1) by (by apply prefix_app_r).
  apply wp_bind, wp_remove_pvc_finalizer; [by eapply orphan_mono|].
  intros h2 p1 [e|] Hh2 Hp1; [apply HQ; by etrans|]. apply wp_bind_call.
  { split; [eapply policy_read_mono; [|done]; by etrans|].
    exists p. split; [eapply orphan_mono; [|done]; by etrans|exact Hp1]. }
  intros r2. apply HQ. apply prefix_app_r. by etrans.
Qed.

Lemma wp_clean_orphans (retain : bool) (pvcs : list PVC) errs h (l : list PVC) :
  Ev (List kPVC (Namespace (vrc_Meta (rp b))) (mirror_selector v sc)) (inr l) ∈ h → pvcs ⊆ l →
  policy_read (if retain then DestVolReclaimPolicyRetain else DestVolReclaimPolicyDelete) h →
  W (clean_orphans retain keep pvcs errs) h (fun _ _ => True).
Proof.
  revert errs h. induction pvcs as [|p pvcs IH]; intros errs h Hl Hsub Hp; cbn [clean_orphans]; [done|].
  assert (Hnext : ∀ h' errs', h `prefix_of` h' → W (clean_orphans retain keep pvcs errs') h' (fun _ _ => True)).
  { intros h' errs' Hh. apply IH; [destruct Hh as [k ->]; set_solver|set_solver|by eapply policy_read_mono]. }
  case_bool_decide as Hk; [by apply Hnext|].
  assert (Ho : orphan h p) by (exists l; set_solver).
  destruct retain; cbv iota; apply wp_bind.
  - apply wp_detach; [done..|]. intros h' e Hh. by apply Hnext.
  - apply wp_delete_mirror; [done..|]. intros h' [e|e] Hh; [done|]. by apply Hnext.
Qed.

Lemma wp_cleanReplicaMirrorOrphans h :
  W (cleanReplicaMirrorOrphans b v sc keep) h (fun _ _ => True).
Proof.
  unfold cleanReplicaMirrorOrphans. apply wp_bind, wp_shouldRetain. intros h1 [e|retain] _ H1 H2; [done|].
  unfold ListPVCsByLabelSelector. apply wp_bind_call; [done|]. intros [e|l]; [done|].
  eapply wp_clean_orphans; [apply in_snoc|done|]. apply (policy_read_mono _ h1); [by apply prefix_app_r|].
  destruct retain; auto.
Qed.

End OrphanCleanup.


(** ** Creation of mirrors: what a run may do *)

Section Creation.

Context {steps : RetrySteps}.
Variable b : base.

(** A bound PVC that was read, with its PV, and is no mirror itself. *)
Definition source_read (t : Trace) (p : VolumePair) : Prop :=
  (∃ n ns, Ev (Get kPVC n ns) (inr p.1) ∈ t) ∧
  Ev (Get kPV (pvc_VolumeName p.1) "") (inr p.2) ∈ t ∧ is_managed (pvc_Meta p.1) = false.

(** The PV of that name exists as far as the answers tell. *)
Definition pv_ensured (t : Trace) (name : string) : Prop :=
  (∃ pv, Ev (Get kPV name "") (inr pv) ∈ t) ∨
  (∃ pv r, Ev (Create kPV pv) r ∈ t ∧ Name (pv_Meta pv) = name ∧
           match r with inl e => IsAlreadyExists (Some e) = true | inr _ => True end).

Definition creation_allowed (t : Trace) (c : Call) : Prop :=
  match c with
  | Create kPVC o =>
      pv_ensured t (pvc_VolumeName o) ∧
      ∃ p name pvName, source_read t p ∧ own_class b p = false ∧
        o = mirror_pvc b name pvName p.1 p.2 (sourceSc b)
  | Create kPV o =>
      ∃ p name driver handle secretRef, source_read t p ∧ own_class b p = false ∧
        o = mirror_pv name p.1 p.2 (sourceSc b) driver handle secretRef
  | Create _ _ => False
  | ProvisionVolumeCb v pairs _ => v = rp b ∧ Forall (source_read t) pairs
  | VolumeMapping sc => sc = sourceSc b
  | Update k _ => k = kPVC
  | Vms _ _ | NewProvisioner _ | ProvisionVolumes _ | CleanVolumes _ => False
  | _ => True
  end.

Notation W := (wp creation_allowed).

Lemma source_read_mono t t' p : t `prefix_of` t' → source_read t p → source_read t' p.
Proof. intros [k ->] ((n & ns & ?) & ? & ?). split_and!; [exists n, ns| |done]; set_solver. Qed.

Lemma wp_mirror_GetPVCandPV n ns h (Q : Trace → result (PVC * option PV) → Prop) :
  (∀ h' r, h `prefix_of` h' →
     (∀ pvc pv, r = inr (pvc, Some pv) →
        Ev (Get kPVC n ns) (inr pvc) ∈ h' ∧ Ev (Get kPV (pvc_VolumeName pvc) "") (inr pv) ∈ h') → Q h' r) →
  W (GetPVCandPV n ns) h Q.
Proof.
  intros HQ. unfold GetPVCandPV, GetPVFromPVC. apply wp_bind_call; [done|].
  intros [e|pvc]; [by apply wp_ret, HQ; [apply prefix_app_r|]|].
  apply wp_bind. case_bool_decide; [by apply wp_ret, wp_ret, HQ; [apply prefix_app_r|]|].
  apply wp_bind_call; [done|].
  intros [e|pv]; apply wp_ret, wp_ret, HQ; [by do 2 apply prefix_app_r| |by do 2 apply prefix_app_r|].
  { intros pvc' pv'. by destruct (IsNotFound (Some e)). }
  intros pvc' pv' [= <- <-]. split; [|apply in_snoc]. apply elem_of_app. left. apply in_snoc.
Qed.

Lemma wp_classify_pvcs ns names acc h (Q : Trace → result (list VolumePair) → Prop) :
  Forall (source_read h) acc →
  (∀ h' e, h `prefix_of` h' → Q h' (inl e)) →
  (∀ h' l, h `prefix_of` h' → Forall (source_read h') l → Q h' (inr l)) →
  W (classify_pvcs ns names acc) h Q.
Proof.
  revert acc h. induction names as [|n names IH]; intros acc h Hacc He HQ; [by apply HQ|].
  cbn [classify_pvcs]. apply wp_bind, wp_mirror_GetPVCandPV. intros h1 r Hh1 Hr.
  assert (Hnext : ∀ acc', Forall (source_read h1) acc' → W (classify_pvcs ns names acc') h1 Q).
  { intros acc' Ha. apply IH; [done|intros; apply He; by etrans|intros; apply HQ; [by etrans|done]]. }
  assert (Hacc1 : Forall (source_read h1) acc).
  { eapply Forall_impl; [exact Hacc|]. intros p. by apply source_read_mono. }
  destruct r as [e|[pvc [pv|]]].
  - case_match; [by apply Hnext|by apply wp_ret, He].
  - destruct (is_managed (pvc_Meta pvc)) eqn:Hm; [by apply Hnext|]. apply Hnext.
    apply Forall_app. split; [done|]. apply Forall_singleton.
    destruct (Hr pvc pv eq_refl). split_and!; [by exists n, ns|done|done].
  - by apply wp_ret, He.
Qed.

Lemma wp_classify_vrcs vrcs acc h (Q : Trace → result (list VolumePair) → Prop) :
  Forall (source_read h) acc →
  (∀ h' e, h `prefix_of` h' → Q h' (inl e)) →
  (∀ h' l, h `prefix_of` h' → Forall (source_read h') l → Q h' (inr l)) →
  W (classify_vrcs vrcs acc) h Q.
Proof.
  revert acc h. induction vrcs as [|v vrcs IH]; intros acc h Hacc He HQ; [by apply HQ|].
  cbn [classify_vrcs]. apply wp_bind, wp_classify_pvcs; [done|by intros; apply wp_ret, He|].
  intros h1 l Hh1 Hl. apply IH; [done|intros; apply He; by etrans|intros; apply HQ; [by etrans|done]].
Qed.

Lemma wp_constellation v h (Q : Trace → result (option (list VRC)) → Prop) :
  (∀ h' r, h `prefix_of` h' → Q h' r) → W (constellation v) h Q.
Proof.
  intros HQ. unfold constellation, ListVastReplicationContentsByLabelSelector. case_match; [|by apply HQ].
  apply wp_bind, wp_bind_call; [done|]. intros r. by apply HQ, prefix_app_r.
Qed.

Lemma wp_compute_to_delete ns spec status acc h (Q : Trace → result (list string) → Prop) :
  (∀ h' r, h `prefix_of` h' → Q h' r) → W (compute_to_delete ns spec status acc) h Q.
Proof.
  revert acc h. induction status as [|n status IH]; intros acc h HQ; [by apply HQ|].
  cbn [compute_to_delete]. case_bool_decide; [by apply IH|]. apply wp_bind_call; [done|].
  assert (HQ' : ∀ e h', h ++ [e] `prefix_of` h' → ∀ r, Q h' r).
  { intros e h' Hh r. apply HQ. etrans; [|exact Hh]. by apply prefix_app_r. }
  intros [e|pvc]; case_match; try (apply IH; intros; by eapply HQ'). by apply wp_ret, HQ, prefix_app_r.
Qed.

Lemma wp_from_parent_creation {A} (onVSCR : VSCR → result A) (onVVR : VVR → result A) w h
    (Q : Trace → result A → Prop) :
  (∀ h' r, h `prefix_of` h' → Q h' r) → W (from_parent w onVSCR onVVR) h Q.
Proof.
  intros HQ. apply (wp_mono (orphan_allowed b w (sourceSc b) ∅) _ _ _ Q).
  - intros h' c. by destruct c; try match goal with k : kind |- _ => destruct k end.
  - done.
  - apply wp_from_parent. intros h' r Hh _. by apply HQ.
Qed.

Lemma wp_mirror_ensure k what (o : kobj k) h (Q : Trace → result bool → Prop) :
  (∀ h', h `prefix_of` h' → creation_allowed h' (Create k o)) →
  (∀ h' r, h `prefix_of` h' →
     (∀ x, r = inr x →
        (∃ o', Ev (Get k (Name (meta k o)) (Namespace (meta k o))) (inr o') ∈ h') ∨
        (∃ a, Ev (Create k o) a ∈ h' ∧ match a with inl e => IsAlreadyExists (Some e) = true | inr _ => True end)) →
     Q h' r) →
  W (ensure k what o) h Q.
Proof.
  intros HC HQ. unfold ensure. apply wp_bind_call; [done|]. intros [e|o'].
  - case_match; [by apply wp_ret, HQ; [apply prefix_app_r|]|].
    apply wp_bind_call; [by apply HC, prefix_app_r|]. intros a. apply wp_ret, HQ; [by do 2 apply prefix_app_r|].
    intros x Hx. right. exists a. split; [apply in_snoc|]. destruct a as [e'|]; [|done].
    by destruct (IsAlreadyExists (Some e')).
  - apply wp_ret, HQ; [by apply prefix_app_r|]. intros x _. left. exists o'. apply in_snoc.
Qed.

Variable url_host : string → option string.
Variable GetSecretValue : string → string → string → result string.

Lemma wp_ensureMirrorPVCPV p h (Q : Trace → result bool → Prop) :
  source_read h p → own_class b p = false → (∀ h' r, h `prefix_of` h' → Q h' r) →
  W (ensureMirrorPVCPV url_host GetSecretValue b p.1 p.2 (sourceSc b)) h Q.
Proof.
  intros Hs Ho HQ. unfold ensureMirrorPVCPV. case_bool_decide; [by apply wp_ret, HQ|].
  destruct (wrap_err _ _) as [e|pvcName]; [by apply wp_ret, HQ|].
  destruct (wrap_err _ _) as [e|pvName]; [by apply wp_ret, HQ|].
  destruct (mirror_inputs p.2 (sourceSc b)) as [e|[driver ref]]; [by apply wp_ret, HQ|].
  apply wp_bind. apply (wp_post _ _ _ (fun h' _ => h `prefix_of` h')).
  { unfold mirrorVolumeHandle. case_match; [by apply wp_ret|]. by apply wp_from_parent_creation. }
  intros h1 [e|handle] Hh1; [by apply wp_ret, HQ|].
  apply wp_bind, (wp_mirror_ensure kPV).
  { intros h2 Hh2. exists p, pvName, driver, handle, ref. split_and!; [|done|done].
    eapply source_read_mono; [|exact Hs]. by etrans. }
  intros h2 [e|created] Hh2 Hpv; [apply wp_ret, HQ; by etrans|].
  apply wp_bind, (wp_mirror_ensure kPVC).
  { intros h3 Hh3. split; [|exists p, pvcName, pvName; split_and!; [|done|done];
      eapply source_read_mono; [|exact Hs]; etrans; [done|]; by etrans].
    destruct Hh3 as [k ->]. destruct (Hpv _ eq_refl) as [[pv Hpv']|(a & Ha & Ha')].
    - left. exists pv. apply elem_of_app. left. exact Hpv'.
    - right. eexists _, a. split; [apply elem_of_app; left; exact Ha|]. split; [done|exact Ha']. }
  intros h3 r Hh3 _. apply wp_ret, HQ. etrans; [done|]. by etrans.
Qed.

Lemma wp_ensureReplicaMirrors pairs errs h (Q : Trace → option error → Prop) :
  Forall (fun p => source_read h p ∧ own_class b p = false) pairs →
  (∀ h' e, h `prefix_of` h' → Q h' e) →
  W (ensureReplicaMirrors url_host GetSecretValue b (sourceSc b) pairs errs) h Q.
Proof.
  revert errs h. induction pairs as [|[pvc pv] pairs IH]; intros errs h Hall HQ; [by apply HQ|].
  apply Forall_cons in Hall as [[Hs Ho] Hall]. cbn [ensureReplicaMirrors]. cbv zeta.
  assert (Hmirror : ∀ h1, h `prefix_of` h1 →
    W (r ← ensureMirrorPVCPV url_host GetSecretValue b pvc pv (sourceSc b);
       ensureReplicaMirrors url_host GetSecretValue b (sourceSc b) pairs
         (match r with
          | inl e => DeferredError_Add errs
              (Some (ErrWrap ("mirror " +:+ Name (pvc_Meta pvc) +:+ " → " +:+ sc_Name (sourceSc b) +:+ ": ") e ""))
          | inr _ => errs
          end)) h1 Q).
  { intros h1 Hh1. apply wp_bind, (wp_ensureMirrorPVCPV (pvc, pv)); [by eapply source_read_mono|done|].
    intros h2 r Hh2. apply IH; [|intros h3 e Hh3; apply HQ; by do 2 (etrans; [done|])].
    eapply Forall_impl; [exact Hall|]. intros p [Hp ?]. split; [|done].
    eapply source_read_mono; [|exact Hp]. by etrans. }
  destruct (isVolumeGroup b); [|by apply Hmirror].
  destruct (pv_CSI pv) as [csi|]; [|by apply wp_ret, HQ].
  unfold hasVolume. apply wp_bind, wp_bind_call; [done|]. intros [e|m]; apply wp_ret.
  - case_match; apply wp_ret, HQ; by apply prefix_app_r.
  - apply Hmirror. by apply prefix_app_r.
Qed.

Lemma wp_base_ProvisionVolumes :
  W (base_ProvisionVolumes url_host GetSecretValue b) [] (fun _ _ => True).
Proof.
  unfold base_ProvisionVolumes, classifyConstellationPVCs.
  apply wp_bind, wp_bind, wp_constellation. intros h0 [e|vrcs] _; [done|].
  apply wp_classify_vrcs; [done|done|]. intros h1 l _ Hl.
  apply wp_bind, wp_compute_to_delete. intros h2 [e|del] Hh2; [done|].
  apply wp_bind_call.
  { split; [done|]. eapply Forall_impl; [exact Hl|]. intros p. by apply source_read_mono. }
  intros [e|]; [done|]. case_match; [|done].
  apply wp_bind, wp_ensureReplicaMirrors.
  - apply Forall_forall. intros p [Ho Hp]%list_elem_of_filter. split; [|done].
    rewrite Forall_forall in Hl. eapply source_read_mono; [|by apply Hl]. by apply prefix_app_r.
  - intros h3 err1 Hh3. apply wp_bind.
    eapply (wp_mono (orphan_allowed b (rp b) (sourceSc b) _) _ _ _ (fun _ _ => True));
      [|done|apply wp_cleanReplicaMirrorOrphans].
    intros h' c. by destruct c; try match goal with k : kind |- _ => destruct k end.
Qed.

End Creation.

Lemma add_parent_labels_managed v nameLabel nsLabel labels :
  nameLabel ≠ LabelManagedBy → nsLabel ≠ LabelManagedBy →
  add_parent_labels v nameLabel nsLabel labels !! LabelManagedBy = labels !! LabelManagedBy.
Proof.
  intros H1 H2. unfold add_parent_labels.
  repeat case_bool_decide; by rewrite ?lookup_insert_ne.
Qed.

Lemma mirror_pvc_managed b name pvName src pv sc :
  is_managed (pvc_Meta (mirror_pvc b name pvName src pv sc)) = true.
Proof.
  unfold is_managed, mirror_pvc, mirror_pvc_labels, map_get. cbn [pvc_Meta Labels].
  rewrite !add_parent_labels_managed by (vm_compute; discriminate).
  by rewrite lookup_insert_eq, bool_decide_true.
Qed.


(** ** Witnesses *)

Definition demo_meta (name ns : string) (labels : gmap string string) : ObjectMeta :=
  mkMeta name ns "u" labels ∅ [] [] 1 false.
Definition demo_shape : VolumeShape := mkShape ["ReadWriteMany"] {["storage" := "1Gi"]} None.
Definition demo_source : PVC := mkPVC (demo_meta "data" "apps" ∅) (Some "gold") "pv-1" demo_shape.
Definition demo_source_pv : PV :=
  mkPV (demo_meta "pv-1" "" ∅) "gold" (Some (mkCSI "csi.vastdata.com" "/k8s/pvc-1" ∅ None)) true demo_shape.
Definition demo_orphan : PVC :=
  mkPVC (mkMeta "old-mirror" "apps" "u" {[LabelManagedBy := LabelManagedByValue; LabelSourcePVC := "old"]}
           ∅ [FinalizerPVC] [] 1 false) (Some "silver") "pv-9" demo_shape.
Definition demo_silver : StorageClass :=
  mkSC "silver" "csi.vastdata.com"
    {["root_export" := "/k8s"; "csi.storage.k8s.io/provisioner-secret-name" := "s";
      "csi.storage.k8s.io/provisioner-secret-namespace" := "ns"]} [].
Definition demo_vrc (name sc : string) (pvcs : list string) : VRC :=
  mkVRC (demo_meta name "apps" {[LabelSourceVSCR := "a"]})
    (mkVRCSpec sc ProvisionerTypeFile DestinationKindVolumeGroupReplication true "/k8s" ["p"] "pp" pvcs "")
    (mkVRCStatus false 0 "" []).
Definition demo_base : base :=
  mkBase (demo_vrc "a-silver" "silver" []) demo_silver "gold" DefaultPVCNameFormat DefaultPVNameFormat id.
Definition demo_parent : VSCR :=
  mkVSCR (demo_meta "a" "apps" ∅)
    (mkVSCRSpec "gold" [] (mkTemplate []) FailoverTypeUngraceful false 0 false true
       DestVolReclaimPolicyDelete "")
    (mkStatus FailoverTypeUnset "" "" {["silver" := "/k8s"]} ∅ "" "").

(** The source PVC with or without its PV, one leftover mirror. *)
Definition mirror_handler (pv : result PV) (c : Call) (s : unit) : unit * resp c :=
  (s,
   match c return resp c with
   | Get kPVC n _ => if bool_decide (n = "data") then inr demo_source else inl (ErrStatus ReasonNotFound "pvc")
   | Get kPV n _ => if bool_decide (n = "pv-1") then pv else inl (ErrStatus ReasonNotFound "pv")
   | Get kVSCR _ _ => inr demo_parent
   | List kVRC _ _ => inr [demo_vrc "a-gold" "gold" ["data"]; demo_vrc "a-silver" "silver" []]
   | List kPVC _ _ => inr [demo_orphan]
   | c => quiet c
   end).

Definition mirror_run (pv : result PV) :=
  exec (mirror_handler pv)
    (@base_ProvisionVolumes 4 (fun _ => None) (fun _ _ _ => inr "10.0.0.1") demo_base) tt.
Definition orphan_run :=
  exec (mirror_handler (inr demo_source_pv))
    (@cleanReplicaMirrorOrphans 4 demo_base (rp demo_base) demo_silver {["data"]}) tt.



(** A source PVC whose PV is answered not to exist is treated like a PVC that
    does not exist: it yields no pair, so no mirror is made for it and its
    name is not among those whose mirrors are kept. *)
Lemma lost_pv_drops_source ns n pvc msg :
  pvc_VolumeName pvc ≠ "" →
  runs (classify_pvcs ns [n] [])
    [Ev (Get kPVC n ns) (inr pvc);
     Ev (Get kPV (pvc_VolumeName pvc) "") (inl (ErrStatus ReasonNotFound msg))] (inr []).
Proof.
  intros Hn. cbn [classify_pvcs]. rewrite <-(app_nil_r [_; _]).
  eapply (runs_bind _ _ _ (inl _)).
  - unfold GetPVCandPV. apply runs_vis. unfold GetPVFromPVC. rewrite bool_decide_false by done.
    rewrite <-(app_nil_r [_]). eapply (runs_bind _ _ _ (inl _)); [|constructor].
    apply runs_vis. constructor.
  - constructor.
Qed.
