(* ===== verification/Provisioner.v ===== *)
(** * Block and file provisioners

    [internal/provisioner]: the objects on the VAST cluster behind a
    VastReplicationContent — block volumes ([block.go]), views and quotas
    ([file.go]) — and what is removed when the content is deleted
    ([CleanVolumes] in [base.go]).

    A provisioner lives for one reconciliation.  What it remembers of the
    cluster is the record [caches]; [M] is the monad of its methods: a program
    over the calls of [Api] that reads and changes the caches and may fail.
    [Mirrors] treats the cluster-specific methods as calls; [run_provision]
    links them to the methods of this file.  Events and log lines are left
    out. *)

From S2P Require Import Prelude GoErrors Topology Kube Naming Peers PpathDir Lookups Programs Api ContentController Client Ppath Mirrors.
From stdpp Require Import options.

(** ** Constants *)

Definition StorageClassParameterQosPolicyId := "qos_policy_id".
Definition AnnotationSnapshotCleanupWaitDone := Domain +:+ "/snapshot-cleanup-wait-done".
Definition VMS_SNAPSHOT_DISCOVERY_INTERVAL : Z := 15 * Second.
Definition LabelSourceVolumeReplicationNamespace := Domain +:+ "/source-volume-replication-namespace".
Definition LabelSourceVolumeGroupReplicationNamespace := Domain +:+ "/source-volume-group-replication-namespace".

Definition resyncAnnotationMaxAge : Z := Minute.
Definition resyncPathWaitTimeout : Z := 30 * Second.
Definition resyncPathWaitSleep : Z := 2 * Second.
Definition pathNotReplicatedRetryAfter : Z := 5 * Minute.

(** ** Library functions *)

(** [vast_client.IgnoreStatusCodes] *)
Class IgnoreCodes := IgnoreStatusCodes : option error → list Z → option error.
(** [resource.Quantity.Value] *)
Class Quantities := quantity_Value : string → Z.
(** [time.Parse(time.RFC3339, _)], in nanoseconds like [Now] *)
Class ParseTime := parse_rfc3339 : string → option Z.

(** [strconv.Atoi] and [strconv.ParseInt] in base 10, 64 bits wide. *)
Definition parse_int64 (fn s : string) : result Z :=
  let fail (why : string) : result Z := Errorf ("strconv." +:+ fn +:+ ": parsing " +:+ quote s +:+ ": " +:+ why) in
  let '(sign, digits) :=
    match chars s with
    | c :: l => if is_char "-"%char c then ((-1)%Z, l) else if is_char "+"%char c then (1%Z, l) else (1%Z, c :: l)
    | [] => (1%Z, [])
    end in
  if bool_decide (digits = []) || negb (forallb is_digit digits) then fail "invalid syntax"
  else
    let n := (sign * dec_value digits)%Z in
    if bool_decide (- 2 ^ 63 ≤ n < 2 ^ 63)%Z then inr n else fail "value out of range".

Definition Atoi : string → result Z := parse_int64 "Atoi".
Definition ParseInt64 : string → result Z := parse_int64 "ParseInt".

Definition trim_slashes (s : string) : string := trim_right_set (is_char "/"%char) s.

(** ** lazy_cache.go *)

(** A bucket of [lazyCacheMap]: [None] until it is loaded. *)
Notation lazyCacheMap V := (gmap string (option V)).

Definition lazyCacheMap_get {V} (m : lazyCacheMap V) (key : string) (fetch : Prog (result V))
    : Prog (lazyCacheMap V * result V) :=
  match m !! key with
  | Some (Some v) => mret (m, inr v)
  | _ =>
      r ← fetch;
      mret (<[key := match r with inr v => Some v | inl _ => None end]> m, r)
  end.

Definition lazyCacheMap_add {V} (m : lazyCacheMap (gmap string V)) (cacheKey entryKey : string) (val : V)
    : lazyCacheMap (gmap string V) :=
  match m !! cacheKey with
  | Some (Some mv) => <[cacheKey := Some (<[trim_slashes entryKey := val]> mv)]> m
  | _ => m
  end.

Definition sortedKeys {V} (m : gmap string V) : list string := sort_strings (elements (dom m)).

(** A listing, keyed by the name without trailing slashes; a later entry
    replaces an earlier one. *)
Definition keyed {V} (key : V → string) (l : list V) : gmap string V :=
  fold_left (fun m v => <[trim_slashes (key v) := v]> m) l ∅.

(** ** The state of a provisioner and its methods *)

Record caches := mkCaches {
  ppathCache : gmap string Ppath;
  volumeCaches : lazyCacheMap (gmap string VolumeModel);
  viewCaches : lazyCacheMap (gmap string ViewModel);
  quotaCaches : lazyCacheMap (gmap string QuotaModel);
  viewPolicyCaches : lazyCacheMap (Z * Z);
}.

Definition no_caches : caches := mkCaches ∅ ∅ ∅ ∅ ∅.

Definition set_ppathCache (s : caches) (m : gmap string Ppath) : caches :=
  mkCaches m (volumeCaches s) (viewCaches s) (quotaCaches s) (viewPolicyCaches s).
Definition set_volumeCaches (s : caches) (m : lazyCacheMap (gmap string VolumeModel)) : caches :=
  mkCaches (ppathCache s) m (viewCaches s) (quotaCaches s) (viewPolicyCaches s).
Definition set_viewCaches (s : caches) (m : lazyCacheMap (gmap string ViewModel)) : caches :=
  mkCaches (ppathCache s) (volumeCaches s) m (quotaCaches s) (viewPolicyCaches s).
Definition set_quotaCaches (s : caches) (m : lazyCacheMap (gmap string QuotaModel)) : caches :=
  mkCaches (ppathCache s) (volumeCaches s) (viewCaches s) m (viewPolicyCaches s).
Definition set_viewPolicyCaches (s : caches) (m : lazyCacheMap (Z * Z)) : caches :=
  mkCaches (ppathCache s) (volumeCaches s) (viewCaches s) (quotaCaches s) m.

Definition M (A : Type) : Type := caches → Prog (caches * result A).

#[export] Instance M_ret : MRet M := fun A a s => mret (s, inr a).
#[export] Instance M_bind : MBind M := fun A B f m s =>
  x ← m s;
  match x.2 with
  | inl e => mret (x.1, inl e)
  | inr a => f a x.1
  end.

Definition throw {A} (e : error) : M A := fun s => mret (s, inl e).
Definition lift {A} (p : Prog (result A)) : M A := fun s => r ← p; mret (s, r).
Definition io {A} (p : Prog A) : M A := fun s => a ← p; mret (s, inr a).
Definition of_pure {A} (r : result A) : M A := fun s => mret (s, r).
Definition update_caches (f : caches → caches) : M unit := fun s => mret (f s, inr tt).
(** The error of a method as a value. *)
Definition attempt {A} (m : M A) : M (result A) := fun s => x ← m s; mret (x.1, inr x.2).
Definition wrapping {A} (pre : string) (m : M A) : M A := fun s => x ← m s; mret (x.1, wrap_err pre x.2).

Definition failure {A} (r : result A) : option error := match r with inl e => Some e | inr _ => None end.

(** A loop that collects what its body reports; an error the body raises
    (a panic) ends it. *)
Fixpoint each {A} (body : A → M (list error)) (l : list A) (errs : list error) : M (list error) :=
  match l with
  | [] => mret errs
  | a :: l' => new ← body a; each body l' (errs ++ new)
  end.

Definition errs_Err (errs : list error) : M unit :=
  match DeferredError_Err errs with Some e => throw e | None => mret tt end.

Definition deref {A} (p : option A) : M A := match p with Some a => mret a | None => throw nil_dereference end.

Section Provisioner.

Context {steps : RetrySteps} {lk : Lookups} {ve : VastErrors} {ic : IgnoreCodes} {sd : ShowDuration}
  {qs : Quantities} {pt : ParseTime}.

(** A request to the cluster of [sc]. *)
Definition vms (sc : StorageClass) (q : VmsCall) : Prog (vms_resp q) := call (Vms (sc_Name sc) q).

(** A deletion that may find nothing. *)
Definition delete_by_id (what : string) (sc : StorageClass) (q : VmsCall)
    (answer : vms_resp q → option error) : M unit := fun s =>
  r ← vms sc q;
  mret (s, match IgnoreStatusCodes (answer r) [404%Z] with
           | None => inr tt
           | Some e => inl (ErrWrap what e "")
           end).

Definition unit_error (r : result unit) : option error := failure r.

(** ** Shared helpers *)

Definition getPPath (b : base) (sc : StorageClass) : M Ppath := fun s =>
  match ppathCache s !! sc_Name sc with
  | Some p => mret (s, inr p)
  | None =>
      match NewFromStorageClass sc with
      | inl e => mret (s, inl (ErrWrap ("build REST client for StorageClass " +:+ sc_Name sc +:+ ": ") e ""))
      | inr _ =>
          r ← vms sc (PpathGet (vrc_ProtectedPathName (vrc_Spec (rp b))));
          match r with
          | inl e => mret (s, inl e)
          | inr p => mret (set_ppathCache s (<[sc_Name sc := p]> (ppathCache s)), inr p)
          end
      end
  end.

Definition getPPathForSource (b : base) : M Ppath := getPPath b (sourceSc b).

Fixpoint sibling_pvcs (ns : string) (pvcNames : list string) (acc : list VolumePair)
    : Prog (result (list VolumePair)) :=
  match pvcNames with
  | [] => mret (inr acc)
  | pvcName :: rest =>
      r ← GetPVCandPV pvcName ns;
      match r with
      | inl e =>
          if IsNotFound (Some e) then sibling_pvcs ns rest acc
          else mret (inl (ErrWrap ("get PVC+PV " +:+ ns +:+ "/" +:+ pvcName +:+ ": ") e ""))
      | inr (_, None) => sibling_pvcs ns rest acc
      | inr (pvc, Some pv) =>
          if is_managed (pvc_Meta pvc) then sibling_pvcs ns rest acc
          else if bool_decide (handle_of pv = "") then sibling_pvcs ns rest acc
          else sibling_pvcs ns rest (acc ++ [(pvc, pv)])
      end
  end.

Fixpoint sibling_vrcs (b : base) (vrcs : list VRC) (acc : list VolumePair)
    : Prog (result (list VolumePair)) :=
  match vrcs with
  | [] => mret (inr acc)
  | vrc :: rest =>
      if bool_decide (vrc_StorageClass (vrc_Spec vrc) = vrc_StorageClass (vrc_Spec (rp b)))
      then sibling_vrcs b rest acc
      else
        r ← sibling_pvcs (Namespace (vrc_Meta vrc)) (vrc_PVCs (vrc_Spec vrc)) acc;
        match r with inl e => mret (inl e) | inr acc' => sibling_vrcs b rest acc' end
  end.

Definition sourcePairsFromSiblingVRCs (b : base) : Prog (result (list VolumePair)) :=
  r ← constellation (rp b);
  match r with
  | inl e => mret (inl (ErrWrap "list constellation VRCs: " e ""))
  | inr vrcs => sibling_vrcs b (default [] vrcs) []
  end.

(** The mirrors of one source PVC on [sc]. *)
Definition mirrors_of (sc : StorageClass) (sourcePVCName : string) : gmap string string :=
  {[LabelManagedBy := LabelManagedByValue; LabelSourcePVC := sourcePVCName; LabelStorageClass := sc_Name sc]}.

(** ** block.go *)

Definition block_BackendObjectKey (sourceSc : StorageClass) (volumeHandle : string) : string :=
  if has_prefix volumeHandle "/" then trim_prefix volumeHandle "/"
  else trim_slashes (path_Join [volume_group (nonPrefixed sourceSc); volumeHandle]).

Definition subsystem_of (sc : StorageClass) : string := map_get (nonPrefixed sc) StorageClassParameterSubsystem.
Definition volume_filter (b : base) : option string :=
  let volumeGroup := volume_group (nonPrefixed (sourceSc b)) in
  if bool_decide (volumeGroup = "") then None else Some volumeGroup.

Definition block_VolumeMapping (b : base) (sc : StorageClass) : M (gmap string VolumeModel) := fun s =>
  '(m, r) ← lazyCacheMap_get (volumeCaches s) (sc_Name sc)
    (match NewFromStorageClass sc with
     | inl e => mret (inl e)
     | inr _ =>
         r ← vms sc (VolumeList (subsystem_of sc) (volume_filter b));
         mret (match r with inl e => inl e | inr l => inr (keyed volume_Name l) end)
     end);
  mret (set_volumeCaches s m, r).

Definition getVolume (b : base) (sc : StorageClass) (vol : string) : M (option VolumeModel) :=
  mapping ← block_VolumeMapping b sc;
  mret (mapping !! trim_slashes vol).

Definition qos_id (parse : string → result Z) (qosPolicyId : string) : result (option Z) :=
  if bool_decide (qosPolicyId = "") then inr None
  else match parse qosPolicyId with
       | inl e => inl (ErrWrap ("invalid qos_policy_id " +:+ quote qosPolicyId +:+ ": ") e "")
       | inr id => inr (Some id)
       end.

(** [csi]: the CSI source of the PV, read before anything else. *)
Definition ensureBlockVastVolume (b : base) (sc : StorageClass) (pvc : PVC) (csi : CSISource)
    (qosPolicyId : string) (viewId : Z) : M unit :=
  let volumeName := BackendObjectKey b (csi_VolumeHandle csi) in
  mapping ← block_VolumeMapping b sc;
  if bool_decide (is_Some (mapping !! trim_slashes volumeName)) then mret tt
  else
    match Capacity (pvc_Shape pvc) !! "storage" with
    | None => throw (ErrNew ("PVC " +:+ Namespace (pvc_Meta pvc) +:+ "/" +:+ Name (pvc_Meta pvc) +:+
                             " has no storage request"))
    | Some storageRequest =>
        qos ← of_pure (qos_id Atoi qosPolicyId);
        created ← wrapping ("create VAST volume " +:+ volumeName +:+ ": ")
          (lift (vms sc (VolumeCreate (mkVolumeParams volumeName viewId (quantity_Value storageRequest) qos))));
        update_caches (fun s => set_volumeCaches s (lazyCacheMap_add (volumeCaches s) (sc_Name sc) volumeName created))
    end.

Definition deleteVastVolumeByName (b : base) (sc : StorageClass) (volumeName : string) : M unit :=
  vol ← getVolume b sc volumeName;
  match vol with
  | None => mret tt
  | Some v =>
      delete_by_id ("delete VAST volume " +:+ volumeName +:+ ": ") sc (VolumeDeleteById (volume_Id v)) unit_error
  end.

(** A mirror PVC whose PV has no handle is passed over. *)
Definition delete_mirror_volume (b : base) (sc : StorageClass) (pvc : PVC) : M (list error) :=
  r ← attempt (lift (managedPVForPVC pvc));
  match r with
  | inl e => mret [e]
  | inr pv =>
      match from_option handle_of "" pv with
      | EmptyString => mret []
      | handle =>
          r ← attempt (deleteVastVolumeByName b sc (BackendObjectKey b handle));
          mret (DeferredError_Add [] (failure r))
      end
  end.

Definition deleteBlockVastVolume (b : base) (sc : StorageClass) (sourcePVCName : string) : M unit :=
  pvcs ← lift (ListPVCsByLabelSelector (Namespace (vrc_Meta (rp b))) (mirrors_of sc sourcePVCName));
  errs ← each (delete_mirror_volume b sc) pvcs [];
  errs_Err errs.

Definition ensure_block_pair (b : base) (sc : StorageClass) (qosPolicyId : string) (viewId : Z)
    (pair_ : VolumePair) : M (list error) :=
  csi ← deref (pv_CSI pair_.2);
  r ← attempt (wrapping ("sync VAST volume for " +:+ Name (pvc_Meta pair_.1) +:+ ": ")
                 (ensureBlockVastVolume b sc pair_.1 csi qosPolicyId viewId));
  mret (DeferredError_Add [] (failure r)).

Definition delete_block_source (b : base) (sc : StorageClass) (pvcName : string) : M (list error) :=
  r ← attempt (wrapping ("delete VAST volume for source " +:+ pvcName +:+ ": ")
                 (deleteBlockVastVolume b sc pvcName));
  mret (DeferredError_Add [] (failure r)).

(** The subsystem is looked up once for all PVCs. *)
Definition block_subsystem (sc : StorageClass) (v : VRC) (ppath : Ppath) : M ViewModel :=
  let subsystemName := subsystem_of sc in
  subsystem ← wrapping ("get subsystem " +:+ subsystemName +:+ " on " +:+ Name (vrc_Meta v) +:+ ": ")
    (lift (vms sc (ViewGet subsystemName (pp_TenantId ppath))));
  if has_prefix (pp_SourceDir ppath) (view_Path subsystem) then mret subsystem
  else throw (ErrNew ("protected path source dir " +:+ quote (pp_SourceDir ppath) +:+
                      " does not match subsystem path " +:+ quote (view_Path subsystem) +:+ " on " +:+
                      Name (vrc_Meta v))).

Definition syncBlockObjects (b : base) (sc : StorageClass) (v : VRC) (ppath : Ppath)
    (toEnsure : list VolumePair) (toDelete : list string) : M unit :=
  let qosPolicyId := map_get (nonPrefixed sc) StorageClassParameterQosPolicyId in
  errs ← match toEnsure with
         | [] => mret []
         | _ =>
             subsystem ← block_subsystem sc v ppath;
             each (ensure_block_pair b sc qosPolicyId (view_Id subsystem)) toEnsure []
         end;
  errs ← (if vrc_SyncPVCPV (vrc_Spec v) then mret errs else each (delete_block_source b sc) toDelete errs);
  errs_Err errs.

Definition block_ProvisionVolumeCb (b : base) (v : VRC) (toEnsure : list VolumePair) (toDelete : list string)
    : M unit :=
  ppath ← getPPath b (sourceSc b);
  if isDestinationRole (pp_Role ppath) then mret tt
  else syncBlockObjects b (sourceSc b) v ppath toEnsure toDelete.

Definition clean_block_pair (b : base) (sc : StorageClass) (pair_ : VolumePair) : M (list error) :=
  r ← attempt (deleteVastVolumeByName b sc (BackendObjectKey b (handle_of pair_.2)));
  mret (DeferredError_Add [] (failure r)).

(** The start of both [CleanVolumeCb]: the PVCs whose objects are to be
    deleted, none when mirrors take care of them or the policy retains them. *)
Definition pairs_to_clean (b : base) (v : VRC) : M (list VolumePair) :=
  if vrc_SyncPVCPV (vrc_Spec v) then mret []
  else
    retain ← lift (shouldRetainDestVolumes b);
    if (retain : bool) then mret []
    else wrapping "list source PVCs from sibling VRCs: " (lift (sourcePairsFromSiblingVRCs b)).

Definition block_CleanVolumeCb (b : base) (v : VRC) (sc : StorageClass) : M unit :=
  pairs ← pairs_to_clean b v;
  errs ← each (clean_block_pair b sc) pairs [];
  errs_Err errs.

(** ** file.go *)

Definition file_BackendObjectKey (sourceSc : StorageClass) (volumeHandle : string) : string :=
  if has_prefix volumeHandle "/" then volumeHandle
  else trim_slashes (path_Join [map_get (nonPrefixed sourceSc) StorageClassParameterRootExport;
                                path_Base volumeHandle]).

Definition root_export (b : base) : string :=
  map_get (nonPrefixed (sourceSc b)) StorageClassParameterRootExport.

Definition file_VolumeMapping (b : base) (sc : StorageClass) : M (gmap string ViewModel) := fun s =>
  '(m, r) ← lazyCacheMap_get (viewCaches s) (sc_Name sc)
    (match NewFromStorageClass sc with
     | inl e => mret (inl e)
     | inr _ =>
         r ← vms sc (ViewListUnder (root_export b));
         mret (match r with
               | inl e => inl (ErrWrap ("failed to list views under " +:+ root_export b +:+ ": ") e "")
               | inr l => inr (keyed view_Path l)
               end)
     end);
  mret (set_viewCaches s m, r).

Definition getView (b : base) (sc : StorageClass) (targetPath : string) : M (option ViewModel) :=
  mapping ← file_VolumeMapping b sc;
  mret (mapping !! trim_slashes targetPath).

Definition quota_mapping (b : base) (sc : StorageClass) : M (gmap string QuotaModel) := fun s =>
  '(m, r) ← lazyCacheMap_get (quotaCaches s) (sc_Name sc)
    (r ← vms sc (QuotaListUnder (root_export b));
     mret (match r with
           | inl e => inl (ErrWrap ("failed to list quotas under " +:+ root_export b +:+ ": ") e "")
           | inr l => inr (keyed quota_Path l)
           end));
  mret (set_quotaCaches s m, r).

Definition getQuota (b : base) (sc : StorageClass) (targetPath : string) : M (option QuotaModel) :=
  m ← quota_mapping b sc;
  mret (m !! trim_slashes targetPath).

(** Id and tenant. *)
Definition getViewPolicy (sc : StorageClass) (policyName : string) : M (Z * Z) := fun s =>
  '(m, r) ← lazyCacheMap_get (viewPolicyCaches s) (sc_Name sc)
    (mret (GetViewPolicyModel (sc_Name sc) policyName));
  mret (set_viewPolicyCaches s m, r).

Definition resyncRecentlyRequested (b : base) : Prog bool :=
  match Annotations (vrc_Meta (rp b)) !! AnnotationResyncRequestedAt with
  | None => mret false
  | Some raw =>
      if bool_decide (raw = "") then mret false
      else
        match parse_rfc3339 raw with
        | None => mret false
        | Some t => now ← call Now; mret (bool_decide (now - t < resyncAnnotationMaxAge)%Z)
        end
  end.

Definition waitForReplicatedPath (sc : StorageClass) (targetPath : string) (tenantId : Z)
    : Prog (result unit) :=
  WaitResource resyncPathWaitTimeout resyncPathWaitSleep
    ("destination path " +:+ quote targetPath +:+ " to be replicated")
    (r ← PathExists (sc_Name sc) targetPath tenantId;
     mret (match (r : result bool) with inl e => inl e | inr found => inr (if found then Some tt else None) end)).

(** The path is there, possibly after waiting for a resync. *)
Definition path_replicated (b : base) (sc : StorageClass) (targetPath : string) (tenantId : Z) : M bool :=
  found ← wrapping ("stat_path " +:+ targetPath +:+ ": ") (lift (PathExists (sc_Name sc) targetPath tenantId));
  if (found : bool) then mret true
  else
    recent ← io (resyncRecentlyRequested b);
    if (recent : bool) then
      r ← attempt (lift (waitForReplicatedPath sc targetPath tenantId));
      mret (match r with inr _ => true | inl _ => false end)
    else mret false.

Definition ensureView (b : base) (sc : StorageClass)
    (targetPath viewPolicyName qosPolicy qosPolicyIdStr : string) : M ViewModel :=
  cached ← getView b sc targetPath;
  match cached with
  | Some view => mret view
  | None =>
      if bool_decide (viewPolicyName = "") then
        throw (ErrNew ("view_policy parameter not found in StorageClass " +:+ sc_Name sc))
      else
        '(policyId, tenantId) ← getViewPolicy sc viewPolicyName;
        qosId ← of_pure (qos_id ParseInt64 qosPolicyIdStr);
        let viewBody := mkViewParams targetPath policyId tenantId (nfsProtocols (sc_MountOptions sc))
          (if bool_decide (qosPolicy = "") then None else Some qosPolicy) qosId in
        found ← path_replicated b sc targetPath tenantId;
        if (found : bool) then
          view ← wrapping ("failed to create view " +:+ targetPath +:+ ": ")
                   (lift (vms sc (ViewCreate viewBody)));
          update_caches (fun s => set_viewCaches s (lazyCacheMap_add (viewCaches s) (sc_Name sc) targetPath view));;
          mret view
        else
          throw (NewRetryAfterError (ErrNew ("destination path " +:+ targetPath +:+ " not yet replicated"))
                   pathNotReplicatedRetryAfter)
  end.

Definition ensureQuota (b : base) (sc : StorageClass) (targetPath quotaName : string) (tenantId hardLimit : Z)
    : M unit :=
  cached ← getQuota b sc targetPath;
  match cached with
  | Some _ => mret tt
  | None =>
      created ← wrapping ("failed to create quota for view " +:+ targetPath +:+ ": ")
        (lift (vms sc (QuotaCreate (mkQuotaParams quotaName targetPath tenantId hardLimit))));
      update_caches (fun s => set_quotaCaches s (lazyCacheMap_add (quotaCaches s) (sc_Name sc) targetPath created))
  end.

Definition ensureFileVastObject (b : base) (sc : StorageClass) (pvc : PVC) (csi : CSISource)
    (viewPolicyName qosPolicy qosPolicyIdStr : string) : M unit :=
  let rawVolumeName := path_Base (csi_VolumeHandle csi) in
  let targetPath := BackendObjectKey b (csi_VolumeHandle csi) in
  view ← wrapping ("ensure view at " +:+ targetPath +:+ ": ")
           (ensureView b sc targetPath viewPolicyName qosPolicy qosPolicyIdStr);
  match Capacity (pvc_Shape pvc) !! "storage" with
  | None => mret tt
  | Some storageRequest =>
      wrapping ("ensure quota at " +:+ targetPath +:+ ": ")
        (ensureQuota b sc targetPath rawVolumeName (view_TenantId view) (quantity_Value storageRequest))
  end.

Definition deleteVastQuota (b : base) (sc : StorageClass) (viewPath : string) : M unit :=
  quota ← getQuota b sc viewPath;
  match quota with
  | None => mret tt
  | Some q =>
      delete_by_id ("delete VAST quota at " +:+ viewPath +:+ ": ") sc (QuotaDeleteById (quota_Id q)) unit_error
  end.

Definition deleteVastView (b : base) (sc : StorageClass) (viewPath : string) : M unit :=
  view ← getView b sc viewPath;
  match view with
  | None => mret tt
  | Some v =>
      delete_by_id ("delete VAST view " +:+ viewPath +:+ ": ") sc (ViewDeleteById (view_Id v)) unit_error
  end.

(** Quota, then view; both are tried. *)
Definition delete_view_and_quota (b : base) (sc : StorageClass) (viewPath : string)
    (quotaFailed viewFailed : error → error) : M (list error) :=
  r1 ← attempt (deleteVastQuota b sc viewPath);
  r2 ← attempt (deleteVastView b sc viewPath);
  mret (DeferredError_Add (DeferredError_Add [] (quotaFailed <$> failure r1)) (viewFailed <$> failure r2)).

(** A failed lookup of the PV ends the loop here, unlike for block volumes. *)
Definition delete_mirror_view (b : base) (sc : StorageClass) (pvc : PVC) : M (list error) :=
  pv ← lift (managedPVForPVC pvc);
  match from_option handle_of "" pv with
  | EmptyString => mret []
  | viewPath => delete_view_and_quota b sc viewPath id id
  end.

Definition deleteFileVastObject (b : base) (sc : StorageClass) (sourcePVCName : string) : M unit :=
  pvcs ← lift (ListPVCsByLabelSelector (Namespace (vrc_Meta (rp b))) (mirrors_of sc sourcePVCName));
  errs ← each (delete_mirror_view b sc) pvcs [];
  errs_Err errs.

Definition ensure_file_pair (b : base) (sc : StorageClass) (pair_ : VolumePair) : M (list error) :=
  let sibParams := nonPrefixed sc in
  csi ← deref (pv_CSI pair_.2);
  r ← attempt (wrapping ("sync view+quota for " +:+ Name (pvc_Meta pair_.1) +:+ ": ")
                 (ensureFileVastObject b sc pair_.1 csi (map_get sibParams "view_policy")
                    (map_get sibParams "qos_policy") (map_get sibParams StorageClassParameterQosPolicyId)));
  mret (DeferredError_Add [] (failure r)).

Definition delete_file_source (b : base) (sc : StorageClass) (pvcName : string) : M (list error) :=
  r ← attempt (wrapping ("delete view+quota for source " +:+ pvcName +:+ ": ")
                 (deleteFileVastObject b sc pvcName));
  mret (DeferredError_Add [] (failure r)).

Definition syncFileObjects (b : base) (sc : StorageClass) (syncPVCPV : bool)
    (toEnsure : list VolumePair) (toDelete : list string) : M unit :=
  errs ← each (ensure_file_pair b sc) toEnsure [];
  errs ← (if syncPVCPV then mret errs else each (delete_file_source b sc) toDelete errs);
  errs_Err errs.

Definition file_ProvisionVolumeCb (b : base) (v : VRC) (toEnsure : list VolumePair) (toDelete : list string)
    : M unit :=
  syncFileObjects b (sourceSc b) (vrc_SyncPVCPV (vrc_Spec v)) toEnsure toDelete.

Definition clean_file_pair (b : base) (sc : StorageClass) (pair_ : VolumePair) : M (list error) :=
  let viewPath := BackendObjectKey b (handle_of pair_.2) in
  delete_view_and_quota b sc viewPath
    (fun e => ErrWrap ("delete quota at " +:+ viewPath +:+ ": ") e "")
    (fun e => ErrWrap ("delete view at " +:+ viewPath +:+ ": ") e "").

Definition file_CleanVolumeCb (b : base) (v : VRC) (sc : StorageClass) : M unit :=
  pairs ← pairs_to_clean b v;
  errs ← each (clean_file_pair b sc) pairs [];
  errs_Err errs.

(** ** The two provisioners behind one interface *)

(** [ty] is the concrete type of the provisioner, fixed when it is made. *)
Definition is_block (ty : ProvisionerType) : bool := bool_decide (ty = ProvisionerTypeBlock).

Definition VolumeMapping_keys (ty : ProvisionerType) (b : base) (sc : StorageClass) : M (gset string) :=
  if is_block ty then m ← block_VolumeMapping b sc; mret (dom m)
  else m ← file_VolumeMapping b sc; mret (dom m).

Definition VolumeIDs (ty : ProvisionerType) (b : base) (sc : StorageClass) : M (list string) :=
  if is_block ty then m ← block_VolumeMapping b sc; mret (sortedKeys m)
  else m ← file_VolumeMapping b sc; mret (sortedKeys m).

Definition VolumeCount (ty : ProvisionerType) (b : base) (sc : StorageClass) : M nat :=
  ids ← VolumeIDs ty b sc; mret (length ids).

Definition run_ProvisionVolumeCb (ty : ProvisionerType) (b : base) (v : VRC) (toEnsure : list VolumePair) (toDelete : list string)
    : M unit :=
  if is_block ty then block_ProvisionVolumeCb b v toEnsure toDelete
  else file_ProvisionVolumeCb b v toEnsure toDelete.

Definition run_CleanVolumeCb (ty : ProvisionerType) (b : base) (v : VRC) (sc : StorageClass) : M unit :=
  if is_block ty then block_CleanVolumeCb b v sc else file_CleanVolumeCb b v sc.

(** A call that is made as it is. *)
Definition pass_on {S} (c : Call) (s : S) : Prog (S * resp c) := Vis c (fun r => Ret (s, r)).

(** The methods [Mirrors] calls; everything else is passed on. *)
Definition provider (ty : ProvisionerType) (b : base) (c : Call) : caches → Prog (caches * resp c) :=
  match c return caches → Prog (caches * resp c) with
  | ProvisionVolumeCb v toEnsure toDelete => fun s =>
      x ← run_ProvisionVolumeCb ty b v toEnsure toDelete s;
      mret (x.1, failure (x.2 : result unit))
  | VolumeMapping sc => VolumeMapping_keys ty b sc
  | c => pass_on c
  end.

Definition run_provision (ty : ProvisionerType) (b : base) (s : caches) : Prog (caches * option error) :=
  link (provider ty b) (base_ProvisionVolumes lk_url_host Lookups.GetSecretValue b) s.

(** ** CleanVolumes *)

Definition with_rp (b : base) (v : VRC) : base :=
  mkBase v (sourceSc b) (primaryStorageClass b) (PVCNameFormat b) (PVNameFormat b) (BackendObjectKey b).

Definition waitAfterPpathDisable (v : VRC) : Prog (VRC * option error) :=
  if bool_decide (map_get (Annotations (vrc_Meta v)) AnnotationSnapshotCleanupWaitDone = "true")
  then mret (v, None)
  else
    call (Sleep VMS_SNAPSHOT_DISCOVERY_INTERVAL);;
    '(v', err) ← SetAnnotationAndUpdate kVRC v AnnotationSnapshotCleanupWaitDone "true";
    mret (v', match err with
              | Some e => Some (ErrWrap "record snapshot cleanup wait: " e "")
              | None => None
              end).

(** Failed deletions are only reported. *)
Fixpoint delete_listed (sc : StorageClass) (snapshots : list SnapshotModel) : Prog unit :=
  match snapshots with
  | [] => mret tt
  | snapshot :: rest => vms sc (SnapshotDeleteById (snapshot_Id snapshot));; delete_listed sc rest
  end.

Fixpoint delete_snapshots (sc : StorageClass) (snapshotPath : string) (policyNames : list string)
    : Prog (option error) :=
  match policyNames with
  | [] => mret None
  | policyName :: rest =>
      r ← vms sc (SnapshotList snapshotPath policyName);
      match r with
      | inl e => mret (Some (ErrWrap ("failed to list snapshots for path " +:+ snapshotPath +:+ " policy " +:+
                                      policyName +:+ ": ") e ""))
      | inr snapshots => delete_listed sc snapshots;; delete_snapshots sc snapshotPath rest
      end
  end.

Definition deleteSnapshots (sc : StorageClass) (snapshotPath : string) (policyNames : list string)
    : Prog (option error) :=
  delete_snapshots sc (trim_slashes snapshotPath +:+ "/") policyNames.

(** [None] when the cluster knows no such path. *)
Definition disablePpath (b : base) : M (option Ppath) :=
  r ← attempt (getPPathForSource b);
  match r with
  | inl e => if vast_IsNotFoundErr e then mret None else throw e
  | inr ppath =>
      if pp_Enabled ppath then
        wrapping ("failed to disable protected path " +:+ quote (pp_Name ppath) +:+ ": ")
          (lift (vms (sourceSc b) (PpathSetEnabled (pp_Id ppath) false)));;
        mret (Some ppath)
      else mret (Some ppath)
  end.

Definition deletePpath (sc : StorageClass) (ppath : Ppath) : Prog (option error) :=
  r ← vms sc (PpathDeleteById (pp_Id ppath));
  match r with
  | inl e =>
      mret (if vast_IsNotFoundErr e || vast_ExpectStatusCodes e [404%Z] then None
            else Some (ErrWrap ("delete protected path " +:+ quote (pp_Name ppath) +:+ ": ") e ""))
  | inr _ =>
      err ← WaitForResource (vms sc (PpathExists (pp_Name ppath))) WaitConditionAbsent
              (2 * Minute) (15 * Second) ("protected path " +:+ quote (pp_Name ppath));
      mret (match err with
            | Some e => Some (ErrWrap ("waiting for protected path " +:+ quote (pp_Name ppath) +:+ " deletion: ") e "")
            | None => None
            end)
  end.

Definition vr_selector (v : VRC) : gmap string string :=
  let labels : gmap string string :=
    {[LabelManagedBy := LabelManagedByValue; LabelSourceVolumeReplication := VRC_SourceName v;
      LabelSourceVolumeReplicationNamespace := Namespace (vrc_Meta v)]} in
  let sc := vrc_StorageClass (vrc_Spec v) in
  if bool_decide (sc = "") then labels else <[LabelStorageClass := sc]> labels.

Definition vgr_selector (v : VRC) : gmap string string :=
  let labels : gmap string string :=
    {[LabelManagedBy := LabelManagedByValue; LabelSourceVolumeGroupReplication := VRC_SourceName v;
      LabelSourceVolumeGroupReplicationNamespace := Namespace (vrc_Meta v)]} in
  let sc := vrc_StorageClass (vrc_Spec v) in
  if bool_decide (sc = "") then labels else <[LabelStorageClass := sc]> labels.

Definition waiting_for (n : nat) (what : string) (v : VRC) : error :=
  ErrNew ("waiting for " +:+ show_nat n +:+ " managed " +:+ what +:+
          "(s) to be fully deleted before cleaning PVCs (source=" +:+ Namespace (vrc_Meta v) +:+ "/" +:+
          VRC_SourceName v +:+ ")").

(** Failed deletions are only reported. *)
Fixpoint delete_vrs (vrs : list VolumeReplication) : Prog unit :=
  match vrs with
  | [] => mret tt
  | vr :: rest => call (Delete kVR vr);; delete_vrs rest
  end.

Definition cleanVolumeReplication (v : VRC) : Prog (option error) :=
  r ← ListVolumeReplicationsByLabelSelector (Namespace (vrc_Meta v)) (vr_selector v);
  match r with
  | inl e => mret (Some (ErrWrap "failed to list VolumeReplications: " e ""))
  | inr [] => mret None
  | inr destVRs => delete_vrs destVRs;; mret (Some (waiting_for (length destVRs) "VolumeReplication" v))
  end.

Fixpoint delete_vgrs (vgrs : list VolumeGroupReplication) : Prog (option error) :=
  match vgrs with
  | [] => mret None
  | vgr :: rest =>
      r ← call (Delete kVGR vgr);
      match r with
      | inl e => if IsNotFound (Some e) then delete_vgrs rest else mret (Some e)
      | inr _ => delete_vgrs rest
      end
  end.

Definition cleanVolumeGroupReplication (v : VRC) : Prog (option error) :=
  r ← ListVolumeGroupReplicationsByLabelSelector (Namespace (vrc_Meta v)) (vgr_selector v);
  match r with
  | inl e => mret (Some (ErrWrap "failed to list VolumeGroupReplications: " e ""))
  | inr [] => mret None
  | inr destVGRs =>
      err ← delete_vgrs destVGRs;
      mret (match err with
            | Some e => Some e
            | None => Some (waiting_for (length destVGRs) "VolumeGroupReplication" v)
            end)
  end.

Definition CleanKubernetesResources (v : VRC) : Prog (option error) :=
  if bool_decide (vrc_Kind (vrc_Spec v) = DestinationKindVolumeReplication) then cleanVolumeReplication v
  else if bool_decide (vrc_Kind (vrc_Spec v) = DestinationKindVolumeGroupReplication)
  then cleanVolumeGroupReplication v
  else mret (Some (ErrNew ("unsupported kind " +:+ quote (vrc_Kind (vrc_Spec v))))).

(** What follows the wait; [b] holds the content as it was last read. *)
Definition clean_objects (ty : ProvisionerType) (b : base) (ppath : option Ppath) : M unit :=
  let step (p : Prog (option error)) : M unit :=
    lift (err ← p; mret (match err with Some e => inl e | None => inr tt end)) in
  step (deleteSnapshots (sourceSc b) (vrc_ReplicationPath (vrc_Spec (rp b)))
          (vrc_ProtectionPolicyNames (vrc_Spec (rp b))));;
  match ppath with
  | None => mret tt
  | Some p => step (deletePpath (sourceSc b) p)
  end;;
  run_CleanVolumeCb ty b (rp b) (sourceSc b);;
  step (cleanReplicaMirrorOrphans b (rp b) (sourceSc b) ∅);;
  step (CleanKubernetesResources (rp b)).

(** The content is re-read while its annotation is set. *)
Definition run_clean (ty : ProvisionerType) (b : base) (s : caches) : Prog (caches * (VRC * option error)) :=
  x ← disablePpath b s;
  match x.2 with
  | inl e => mret (x.1, (rp b, Some e))
  | inr ppath =>
      '(v, err) ← waitAfterPpathDisable (rp b);
      match err with
      | Some e => mret (x.1, (v, Some e))
      | None =>
          y ← clean_objects ty (with_rp b v) ppath x.1;
          mret (y.1, (v, failure y.2))
      end
  end.

(** ** NewProvisioner *)

Variable PVCNameFormat PVNameFormat : string.

Definition newBase (v : VRC) (key : StorageClass → string → string) : Prog (result base) :=
  match NewFromStorageClassName (vrc_StorageClass (vrc_Spec v)) with
  | inl e => mret (inl e)
  | inr sc =>
      r ← lookupPrimaryStorageClass v;
      mret (match r with
            | inl e => inl e
            | inr primarySC => inr (mkBase v sc primarySC PVCNameFormat PVNameFormat (key sc))
            end)
  end.

Definition NewBlockProvisioner (v : VRC) : Prog (result base) := newBase v block_BackendObjectKey.
Definition NewFileProvisioner (v : VRC) : Prog (result base) := newBase v file_BackendObjectKey.

(** [NewProvisioner] of [provisioner.go]. *)
Definition make_provisioner (v : VRC) : Prog (result (ProvisionerType * base)) :=
  let ty := vrc_ProvisionerType (vrc_Spec v) in
  r ← match ty with
      | ProvisionerTypeBlock => NewBlockProvisioner v
      | ProvisionerTypeFile => NewFileProvisioner v
      end;
  mret (b ← r; mret (ty, b)).

(** ** The content controller with its provisioner

    The state is the provisioner made for the reconciliation; it shares the
    content with the controller. *)
Definition controller_calls (c : Call)
    : option (ProvisionerType * base) → Prog (option (ProvisionerType * base) * resp c) :=
  match c return option (ProvisionerType * base) → Prog (option (ProvisionerType * base) * resp c) with
  | NewProvisioner v => fun _ =>
      r ← make_provisioner v;
      mret (match r with inl e => (None, inl e) | inr p => (Some p, inr tt) end)
  | ProvisionVolumes v => fun st =>
      match st with
      | None => mret (st, (v, Some nil_dereference))
      | Some (ty, b) => x ← run_provision ty (with_rp b v) no_caches; mret (st, (v, x.2))
      end
  | CleanVolumes v => fun st =>
      match st with
      | None => mret (st, (v, Some nil_dereference))
      | Some (ty, b) => x ← run_clean ty (with_rp b v) no_caches; mret (st, x.2)
      end
  | c => pass_on c
  end.

Definition ReconcileContent (key : string * string) : Prog (Result * option error) :=
  x ← link controller_calls (Reconcile key) None; mret x.2.

End Provisioner.
