(* ===== verification/ProvisionerRules.v ===== *)
(** * Rules for the provisioners

    What the methods of [Provisioner] do and establish, in any program that
    allows them to read: the caches agree with the answers of the run
    ([caches_ok]), objects are created when the listing does not have them,
    deleted when it does.  [ProvisionerRuns] applies the rules to
    [ProvisionVolumes] and [CleanVolumes]. *)

From S2P Require Import Prelude GoErrors Topology Kube Naming Peers PpathDir Lookups Programs Api ContentController Client Ppath Mirrors Provisioner.
From stdpp Require Import options.

(** ** Rules of [wp] for parts of a program *)

Section More.

Context {Call : Type} {resp : Call → Type}.
Implicit Types (G : list (event resp) → Call → Prop).

Lemma wp_and {A} G (p : prog resp A) h Q1 Q2 :
  wp G p h Q1 → wp G p h Q2 → wp G p h (fun h' a => Q1 h' a ∧ Q2 h' a).
Proof.
  revert h. induction p as [a|c k IH]; intros h; simpl; [done|].
  intros [Hg Hk1] [_ Hk2]. split; [done|]. auto.
Qed.

(** Calls of a kind that keep an invariant. *)
Lemma wp_calls_inv {A} (P : Call → Prop) G (I : list (event resp) → Prop) (p : prog resp A) h :
  calls_in P p → (∀ h c, P c → I h → G h c) → (∀ h c r, P c → I h → I (h ++ [Ev c r])) →
  I h → wp G p h (fun h' _ => I h').
Proof.
  revert h. induction p as [a|c k IH]; intros h Hc HG HI Hh; simpl; [done|].
  destruct Hc as [Hc Hk]. split; [by apply HG|]. intros r. apply IH; auto.
Qed.

(** An invariant every allowed call keeps. *)
Lemma wp_inv {A} G (I : list (event resp) → Prop) (p : prog resp A) h Q :
  (∀ h c r, G h c → I h → I (h ++ [Ev c r])) → I h → wp G p h Q → wp G p h (fun h' a => I h' ∧ Q h' a).
Proof.
  intros HI. revert h. induction p as [a|c k IH]; intros h Hh; simpl; [done|].
  intros [Hg Hk]. split; [done|]. intros r. apply IH; auto.
Qed.

(** A guard may use what was true before the program started. *)
Lemma wp_guard_prefix {A} (G G' : list (event resp) → Call → Prop) (p : prog resp A) h Q :
  (∀ h' c, h `prefix_of` h' → G h' c → G' h' c) → wp G p h Q → wp G' p h Q.
Proof.
  revert h. induction p as [a|c k IH]; intros h HG; simpl; [done|].
  intros [Hg Hk]. split; [by apply HG|]. intros r. apply IH; [|done].
  intros h' c' Hh. apply HG. etrans; [|exact Hh]. by apply prefix_app_r.
Qed.

(** The calls before the program started do not matter to it. *)
Lemma wp_shift {A} G (p : prog resp A) h0 h Q :
  wp G p h Q →
  wp (fun h' c => ∃ u, h' = h0 ++ u ∧ G u c) p (h0 ++ h) (fun h' a => ∃ u, h' = h0 ++ u ∧ Q u a).
Proof.
  revert h. induction p as [a|c k IH]; intros h; simpl; [by exists h|].
  intros [Hg Hk]. split; [by exists h|]. intros r. rewrite <-app_assoc. by apply IH.
Qed.

End More.

(** ** Calls that change nothing *)

Definition vms_read (q : VmsCall) : Prop :=
  match q with
  | ViewExists _ _ | PpathExists _ | PpathGet _ | FolderStatPath _ _ | PolicyGet _ | PolicyExists _
  | VolumeList _ _ | ViewGet _ _ | ViewListUnder _ | QuotaListUnder _ | SnapshotList _ _ => True
  | _ => False
  end.

(** On one cluster. *)
Definition is_read (cl : string) (c : Call) : Prop :=
  match c with
  | Get _ _ _ | List _ _ _ | Now | Sleep _ => True
  | Vms cl' q => cl' = cl ∧ vms_read q
  | _ => False
  end.

(** ** The objects of a run *)

(** The answer to a creation on a cluster. *)
Definition created_volume (e : event resp) : option (string * string * VolumeModel) :=
  match e with
  | Ev c r =>
      match c return resp c → _ with
      | Vms sc q =>
          match q return vms_resp q → _ with
          | VolumeCreate p => fun r => match r with inr v => Some (sc, vol_name p, v) | inl _ => None end
          | _ => fun _ => None
          end
      | _ => fun _ => None
      end r
  end.

Definition created_view (e : event resp) : option (string * string * ViewModel) :=
  match e with
  | Ev c r =>
      match c return resp c → _ with
      | Vms sc q =>
          match q return vms_resp q → _ with
          | ViewCreate p => fun r => match r with inr v => Some (sc, vw_path p, v) | inl _ => None end
          | _ => fun _ => None
          end
      | _ => fun _ => None
      end r
  end.

Definition created_quota (e : event resp) : option (string * string * QuotaModel) :=
  match e with
  | Ev c r =>
      match c return resp c → _ with
      | Vms sc q =>
          match q return vms_resp q → _ with
          | QuotaCreate p => fun r => match r with inr v => Some (sc, quo_path p, v) | inl _ => None end
          | _ => fun _ => None
          end
      | _ => fun _ => None
      end r
  end.

Lemma keyed_spec {V} (key : V → string) (l : list V) :
  (∀ v, v ∈ l → is_Some (keyed key l !! trim_slashes (key v))) ∧
  (∀ k v, keyed key l !! k = Some v → v ∈ l ∧ trim_slashes (key v) = k).
Proof.
  unfold keyed.
  assert (Hgen : ∀ m : gmap string V,
    (∀ v, v ∈ l ∨ is_Some (m !! trim_slashes (key v)) →
       is_Some (fold_left (fun m v => <[trim_slashes (key v) := v]> m) l m !! trim_slashes (key v))) ∧
    (∀ k v, fold_left (fun m v => <[trim_slashes (key v) := v]> m) l m !! k = Some v →
       (v ∈ l ∧ trim_slashes (key v) = k) ∨ m !! k = Some v)).
  { induction l as [|x l IH]; intros m; simpl.
    - split; [intros v [?%elem_of_nil|?]; done|auto].
    - destruct (IH (<[trim_slashes (key x) := x]> m)) as [H1 H2]. split.
      + intros v [[->|Hv]%elem_of_cons|Hm]; apply H1; [right; by rewrite lookup_insert_eq|by left|right].
        destruct (decide (trim_slashes (key v) = trim_slashes (key x))) as [->|Hne];
          [by rewrite lookup_insert_eq|by rewrite lookup_insert_ne].
      + intros k v [[??]|Hm]%H2; [left; set_solver|].
        apply lookup_insert_Some in Hm as [[<- <-]|[_ Hm]]; [left; set_solver|by right]. }
  destruct (Hgen ∅) as [H1 H2]. split; [intros v Hv; apply H1; by left|].
  intros k v [?|Hk]%H2; [done|]. by rewrite lookup_empty in Hk.
Qed.

Section Caches.

Context {V : Type}.
Variable key : V → string.

(** A cache against the listings and creations of the run: it is loaded
    before anything is created, holds a listing and everything created since,
    and nothing else. *)
Definition cache_ok (listed : list V → Prop) (created : string → V → Prop)
    (c : option (option (gmap string V))) : Prop :=
  match c with
  | Some (Some m) =>
      (∃ l, listed l ∧ ∀ v, v ∈ l → is_Some (m !! trim_slashes (key v))) ∧
      (∀ k v, created k v → is_Some (m !! trim_slashes k)) ∧
      (∀ k v, m !! k = Some v →
         (∃ l, listed l ∧ v ∈ l ∧ trim_slashes (key v) = k) ∨ (∃ k', created k' v ∧ trim_slashes k' = k))
  | _ => ∀ k v, ¬ created k v
  end.

Lemma cache_ok_mono (listed listed' : list V → Prop) (created created' : string → V → Prop) c :
  (∀ l, listed l → listed' l) → (∀ k v, created k v ↔ created' k v) →
  cache_ok listed created c → cache_ok listed' created' c.
Proof.
  intros Hl Hc. destruct c as [[m|]|]; simpl; [|by intros H k v ?%Hc; eapply H..].
  intros ((l & ? & ?) & H2 & H3). split_and!; [by eauto|by intros k v ?%Hc; eauto|].
  intros k v [(l' & ? & ?)|(k' & ?%Hc & ?)]%H3; eauto.
Qed.

Lemma cache_ok_load (listed : list V → Prop) (created : string → V → Prop) l :
  listed l → (∀ k v, ¬ created k v) → cache_ok listed created (Some (Some (keyed key l))).
Proof.
  intros Hl Hn. destruct (keyed_spec key l) as [H1 H2]. split_and!; [by exists l|naive_solver|].
  intros k v [? ?]%H2. left. by exists l.
Qed.

Lemma cache_ok_add (listed : list V → Prop) (created created' : string → V → Prop) m k0 v0 :
  (∀ k v, created' k v ↔ created k v ∨ (k = k0 ∧ v = v0)) →
  cache_ok listed created (Some (Some m)) →
  cache_ok listed created' (Some (Some (<[trim_slashes k0 := v0]> m))).
Proof.
  intros Hc ((l & Hl & H1) & H2 & H3). split_and!.
  - exists l. split; [done|]. intros v Hv.
    destruct (decide (trim_slashes (key v) = trim_slashes k0)) as [->|?];
      [by rewrite lookup_insert_eq|rewrite lookup_insert_ne by done; auto].
  - intros k v [?|[-> ->]]%Hc; [|by rewrite lookup_insert_eq].
    destruct (decide (trim_slashes k = trim_slashes k0)) as [->|?];
      [by rewrite lookup_insert_eq|rewrite lookup_insert_ne by done; eauto].
  - intros k v [[<- <-]|[_ Hm]]%lookup_insert_Some; [right; exists k0; rewrite Hc; auto|].
    apply H3 in Hm as [?|(k' & ? & ?)]; [by left|right]. exists k'. rewrite Hc. auto.
Qed.

End Caches.

(** Anything but a creation leaves the objects of a run alone. *)
Definition no_creation (c : Call) : Prop :=
  match c with
  | Vms _ (VolumeCreate _) | Vms _ (ViewCreate _) | Vms _ (QuotaCreate _) => False
  | _ => True
  end.

Lemma is_read_no_creation cl c : is_read cl c → no_creation c.
Proof. destruct c as [| | | | | | | | | | | | | |sc []| | | |]; done || by intros []. Qed.

Lemma no_creation_made c r :
  no_creation c → created_volume (Ev c r) = None ∧ created_view (Ev c r) = None ∧ created_quota (Ev c r) = None.
Proof. destruct c as [| | | | | | | | | | | | | |sc []| | | |]; done. Qed.

Lemma made_snoc {V} (f : event resp → option (string * string * V)) (t : Trace) e cl k v :
  (∃ e', e' ∈ t ++ [e] ∧ f e' = Some (cl, k, v)) ↔
  (∃ e', e' ∈ t ∧ f e' = Some (cl, k, v)) ∨ f e = Some (cl, k, v).
Proof.
  split.
  - intros (e' & [?|He]%elem_of_app & ?); [left; by exists e'|right].
    apply list_elem_of_singleton in He. by subst.
  - intros [(e' & ? & ?)|?]; [exists e'|exists e]; set_solver.
Qed.

(** ** Rules for the monad of the methods *)

Section MonadRules.

Implicit Types (G : Trace → Call → Prop) (h : Trace) (s : caches).

Lemma wpP_bind {A B} G (m : M A) (f : A → M B) s h Q :
  wp G (m s) h (fun h' x => match x.2 with
                            | inl e => Q h' (x.1, inl e)
                            | inr a => wp G (f a x.1) h' Q
                            end) →
  wp G ((m ≫= f) s) h Q.
Proof.
  intros Hm. apply wp_bind. eapply wp_post; [exact Hm|]. by intros h' [s' [e|a]].
Qed.

Lemma wpP_lift {A} G (p : Prog (result A)) s h Q :
  wp G p h (fun h' r => Q h' (s, r)) → wp G (lift p s) h Q.
Proof. intros Hp. by apply wp_bind. Qed.

Lemma wpP_io {A} G (p : Prog A) s h Q : wp G p h (fun h' a => Q h' (s, inr a)) → wp G (io p s) h Q.
Proof. intros Hp. by apply wp_bind. Qed.

Lemma wpP_attempt {A} G (m : M A) s h Q :
  wp G (m s) h (fun h' x => Q h' (x.1, inr x.2)) → wp G (attempt m s) h Q.
Proof. intros Hp. by apply wp_bind. Qed.

Lemma wpP_wrapping {A} G pre (m : M A) s h Q :
  wp G (m s) h (fun h' x => Q h' (x.1, wrap_err pre x.2)) → wp G (wrapping pre m s) h Q.
Proof. intros Hp. by apply wp_bind. Qed.

(** An invariant of the body of a loop. *)
Lemma wpP_each {A} G (I : Trace → caches → Prop) (body : A → M (list error)) (l : list A) errs s h :
  (∀ a h' s', a ∈ l → h `prefix_of` h' → I h' s' → wp G (body a s') h' (fun h2 x => I h2 x.1)) →
  I h s → wp G (each body l errs s) h (fun h' x => I h' x.1).
Proof.
  revert errs s h. induction l as [|a l IH]; intros errs s h Hb HI; [done|].
  cbn [each]. apply wpP_bind. eapply wp_post; [apply wp_prefix, Hb; [set_solver|done..]|].
  intros h1 [s1 [e|new]] [Hh HI1]; [done|]. apply IH; [|done].
  intros a' h' s' Ha Hh'. apply Hb; [set_solver|by etrans].
Qed.

Lemma wpP_errs_Err G (I : Trace → caches → Prop) errs s h :
  I h s → wp G (errs_Err errs s) h (fun h' x => I h' x.1).
Proof. unfold errs_Err. by destruct (DeferredError_Err errs). Qed.

End MonadRules.

(** ** The methods *)

Section Methods.

Context {steps : RetrySteps} {lk : Lookups} {ve : VastErrors} {ic : IgnoreCodes} {sd : ShowDuration}
  {qs : Quantities} {pt : ParseTime}.

Variable b : base.
Variable ppathName : string.
Notation sc := (sourceSc b).
Notation cl := (sc_Name (sourceSc b)).

Definition volumes_listed (t : Trace) (l : list VolumeModel) : Prop :=
  Ev (Vms cl (VolumeList (subsystem_of sc) (volume_filter b))) (inr l) ∈ t.
Definition views_listed (t : Trace) (l : list ViewModel) : Prop :=
  Ev (Vms cl (ViewListUnder (root_export b))) (inr l) ∈ t.
Definition quotas_listed (t : Trace) (l : list QuotaModel) : Prop :=
  Ev (Vms cl (QuotaListUnder (root_export b))) (inr l) ∈ t.

Definition made {V} (f : event resp → option (string * string * V)) (t : Trace) (k : string) (v : V) : Prop :=
  ∃ e, e ∈ t ∧ f e = Some (cl, k, v).

Definition policy_name : string := map_get (nonPrefixed sc) "view_policy".

Record caches_ok (t : Trace) (s : caches) : Prop := mkCachesOk {
  ok_ppath : ∀ p, ppathCache s !! cl = Some p → Ev (Vms cl (PpathGet ppathName)) (inr p) ∈ t;
  ok_volumes : cache_ok volume_Name (volumes_listed t) (made created_volume t) (volumeCaches s !! cl);
  ok_views : cache_ok view_Path (views_listed t) (made created_view t) (viewCaches s !! cl);
  ok_quotas : cache_ok quota_Path (quotas_listed t) (made created_quota t) (quotaCaches s !! cl);
  ok_policy : ∀ p, viewPolicyCaches s !! cl = Some (Some p) → GetViewPolicyModel cl policy_name = inr p;
}.

Lemma no_caches_ok : caches_ok [] no_caches.
Proof. split; simpl; rewrite ?lookup_empty; try done; intros k v (e & ?%elem_of_nil & _); done. Qed.

Lemma caches_ok_event t s e :
  created_volume e = None ∧ created_view e = None ∧ created_quota e = None →
  caches_ok t s → caches_ok (t ++ [e]) s.
Proof.
  intros (H1 & H2 & H3) [Hp Hv Hw Hq Ho]. split; [set_solver| | | |done].
  all: match goal with
       | H : cache_ok ?key _ _ ?c |- cache_ok ?key _ _ ?c => eapply cache_ok_mono; [| |exact H]
       end.
  all: try solve [intros l; unfold volumes_listed, views_listed, quotas_listed; set_solver].
  all: intros k v; unfold made; rewrite made_snoc, ?H1, ?H2, ?H3; naive_solver.
Qed.

Lemma caches_ok_keep t s c r : no_creation c → caches_ok t s → caches_ok (t ++ [Ev c r]) s.
Proof. intros Hc. by apply caches_ok_event, no_creation_made. Qed.

(** The object under a key, from a listing or created in the run; or none. *)
Definition known {V} (key : V → string) (listed : Trace → list V → Prop)
    (f : event resp → option (string * string * V)) (t : Trace) (k : string) (v : V) : Prop :=
  (∃ l, listed t l ∧ v ∈ l ∧ trim_slashes (key v) = trim_slashes k) ∨
  (∃ k', made f t k' v ∧ trim_slashes k' = trim_slashes k).

Definition absent {V} (key : V → string) (listed : Trace → list V → Prop)
    (f : event resp → option (string * string * V)) (t : Trace) (k : string) : Prop :=
  (∃ l, listed t l ∧ ∀ v, v ∈ l → trim_slashes (key v) ≠ trim_slashes k) ∧
  ∀ k' v, made f t k' v → trim_slashes k' ≠ trim_slashes k.

Definition volume_known := known volume_Name volumes_listed created_volume.
Definition volume_absent := absent volume_Name volumes_listed created_volume.
Definition view_known := known view_Path views_listed created_view.
Definition view_absent := absent view_Path views_listed created_view.
Definition quota_known := known quota_Path quotas_listed created_quota.
Definition quota_absent := absent quota_Path quotas_listed created_quota.

Lemma cache_ok_lookup {V} (key : V → string) listed f t m k :
  cache_ok key (listed t) (made f t) (Some (Some m)) →
  match m !! trim_slashes k with
  | Some v => known key listed f t k v
  | None => absent key listed f t k
  end.
Proof.
  intros ((l & Hl & H1) & H2 & H3). destruct (m !! trim_slashes k) as [v|] eqn:Hk; [by apply H3|].
  split; [exists l; split; [done|]; intros v Hv Heq; apply H1 in Hv|
          intros k' v Hm Heq; apply H2 in Hm]; rewrite Heq in *; destruct (m !! trim_slashes k); by destruct_or?.
Qed.

(** A creation that succeeds is put into the loaded cache. *)
Lemma caches_ok_volume t s m p v :
  caches_ok t s → volumeCaches s !! cl = Some (Some m) →
  caches_ok (t ++ [Ev (Vms cl (VolumeCreate p)) (inr v)])
    (set_volumeCaches s (lazyCacheMap_add (volumeCaches s) cl (vol_name p) v)).
Proof.
  intros [Hp Hv Hw Hq Ho] Hm. rewrite Hm in Hv. unfold lazyCacheMap_add. rewrite Hm.
  split; [set_solver| | | |done]; cbn.
  - rewrite lookup_insert_eq. apply (cache_ok_add _ _ (made created_volume t)).
    + intros k x. unfold made. rewrite made_snoc. naive_solver.
    + eapply cache_ok_mono; [| |exact Hv]; [intros l; unfold volumes_listed; set_solver|done].
  - eapply cache_ok_mono; [| |exact Hw]; [intros l; unfold views_listed; set_solver|].
    intros k x. unfold made. rewrite made_snoc. naive_solver.
  - eapply cache_ok_mono; [| |exact Hq]; [intros l; unfold quotas_listed; set_solver|].
    intros k x. unfold made. rewrite made_snoc. naive_solver.
Qed.

Lemma caches_ok_view t s m p v :
  caches_ok t s → viewCaches s !! cl = Some (Some m) →
  caches_ok (t ++ [Ev (Vms cl (ViewCreate p)) (inr v)])
    (set_viewCaches s (lazyCacheMap_add (viewCaches s) cl (vw_path p) v)).
Proof.
  intros [Hp Hv Hw Hq Ho] Hm. rewrite Hm in Hw. unfold lazyCacheMap_add. rewrite Hm.
  split; [set_solver| | | |done]; cbn.
  - eapply cache_ok_mono; [| |exact Hv]; [intros l; unfold volumes_listed; set_solver|].
    intros k x. unfold made. rewrite made_snoc. naive_solver.
  - rewrite lookup_insert_eq. apply (cache_ok_add _ _ (made created_view t)).
    + intros k x. unfold made. rewrite made_snoc. naive_solver.
    + eapply cache_ok_mono; [| |exact Hw]; [intros l; unfold views_listed; set_solver|done].
  - eapply cache_ok_mono; [| |exact Hq]; [intros l; unfold quotas_listed; set_solver|].
    intros k x. unfold made. rewrite made_snoc. naive_solver.
Qed.

Lemma caches_ok_quota t s m p v :
  caches_ok t s → quotaCaches s !! cl = Some (Some m) →
  caches_ok (t ++ [Ev (Vms cl (QuotaCreate p)) (inr v)])
    (set_quotaCaches s (lazyCacheMap_add (quotaCaches s) cl (quo_path p) v)).
Proof.
  intros [Hp Hv Hw Hq Ho] Hm. rewrite Hm in Hq. unfold lazyCacheMap_add. rewrite Hm.
  split; [set_solver| | | |done]; cbn.
  - eapply cache_ok_mono; [| |exact Hv]; [intros l; unfold volumes_listed; set_solver|].
    intros k x. unfold made. rewrite made_snoc. naive_solver.
  - eapply cache_ok_mono; [| |exact Hw]; [intros l; unfold views_listed; set_solver|].
    intros k x. unfold made. rewrite made_snoc. naive_solver.
  - rewrite lookup_insert_eq. apply (cache_ok_add _ _ (made created_quota t)).
    + intros k x. unfold made. rewrite made_snoc. naive_solver.
    + eapply cache_ok_mono; [| |exact Hq]; [intros l; unfold quotas_listed; set_solver|done].
Qed.

(** Reads keep the caches right, whatever program makes them. *)
#[local] Set Default Proof Using "Type*".
Variable G : Trace → Call → Prop.
Hypothesis G_reads : ∀ h c, is_read cl c → G h c.

Lemma wp_reads {A} (p : Prog A) s h :
  calls_in (is_read cl) p → caches_ok h s → wp G p h (fun h' _ => caches_ok h' s).
Proof.
  intros Hp Hok. apply (wp_calls_inv (is_read cl) _ (fun h => caches_ok h s)); [done|auto| |done].
  intros h' c r Hc. by apply caches_ok_keep, (is_read_no_creation cl).
Qed.

(** A program of reads that was verified on its own. *)
Lemma wp_reads_post {A} G' (p : Prog A) s h (Q : Trace → A → Prop) :
  calls_in (is_read cl) p → caches_ok h s → wp G' p h Q →
  wp G p h (fun h' a => h `prefix_of` h' ∧ caches_ok h' s ∧ Q h' a).
Proof.
  intros Hp Hok HQ. apply wp_prefix, wp_and; [by apply wp_reads|].
  eapply wp_swap; [exact Hp| |exact HQ]. auto.
Qed.

(** *** Looking an object up *)

Lemma wp_getPPath s h :
  ppathName = vrc_ProtectedPathName (vrc_Spec (rp b)) → caches_ok h s →
  wp G (getPPath b sc s) h (fun h' x => caches_ok h' x.1 ∧
    match x.2 with
    | inr p => Ev (Vms cl (PpathGet ppathName)) (inr p) ∈ h'
    | inl e => NewFromStorageClass sc = inr tt → Ev (Vms cl (PpathGet ppathName)) (inl e) ∈ h'
    end).
Proof.
  intros Hn Hok. unfold getPPath. destruct (ppathCache s !! cl) as [p|] eqn:Hp.
  { apply wp_ret. split; [done|]. by apply (ok_ppath _ _ Hok). }
  destruct (NewFromStorageClass sc); [by apply wp_ret|].
  apply wp_bind_call; [by apply G_reads|]. intros r. rewrite <-Hn in *.
  assert (Hok' : caches_ok (h ++ [Ev (Vms cl (PpathGet ppathName)) r]) s) by (by apply caches_ok_keep).
  destruct r as [e|p]; apply wp_ret; [split; [done|]; intros _; apply in_snoc|]. split; [|apply in_snoc].
  destruct Hok' as [_ Hv Hw Hq Ho]. split; [|done..]. cbn [ppathCache set_ppathCache fst].
  intros p'. rewrite lookup_insert_eq. intros [= <-]. apply in_snoc.
Qed.

(** The value of a loaded or freshly loaded cache. *)
Lemma wp_lazy {V} (m : lazyCacheMap V) key (fetch : Prog (result V)) s h
    (Q : Trace → lazyCacheMap V * result V → Prop) :
  caches_ok h s →
  (∀ v, m !! key = Some (Some v) → Q h (m, inr v)) →
  ((∀ v, m !! key ≠ Some (Some v)) →
     wp G fetch h (fun h' r => Q h' (<[key := match r with inr v => Some v | inl _ => None end]> m, r))) →
  wp G (lazyCacheMap_get m key fetch) h Q.
Proof.
  intros Hok H1 H2. unfold lazyCacheMap_get.
  destruct (m !! key) as [[v|]|] eqn:Hm; [by apply wp_ret, H1|..]; apply wp_bind;
    (eapply wp_post; [apply H2; naive_solver|]); intros h' r HQ; by apply wp_ret.
Qed.

Definition same_objects (h h' : Trace) : Prop :=
  (∀ k v, made created_volume h' k v → made created_volume h k v) ∧
  (∀ k v, made created_view h' k v → made created_view h k v) ∧
  (∀ k v, made created_quota h' k v → made created_quota h k v).

Lemma same_objects_keep h c r : no_creation c → same_objects h (h ++ [Ev c r]).
Proof.
  intros (H1 & H2 & H3)%(no_creation_made c r).
  split_and!; intros k v; unfold made; rewrite made_snoc, ?H1, ?H2, ?H3; naive_solver.
Qed.

(** One of the three listings behind its cache. *)
Lemma wp_mapping {V} (get : caches → lazyCacheMap (gmap string V))
    (set : caches → lazyCacheMap (gmap string V) → caches) (key : V → string)
    (listed : Trace → list V → Prop) (f : event resp → option (string * string * V))
    (fetch : Prog (result (gmap string V))) s h :
  (∀ t s, caches_ok t s → cache_ok key (listed t) (made f t) (get s !! cl)) →
  (∀ t s m, caches_ok t s → cache_ok key (listed t) (made f t) (m !! cl) → caches_ok t (set s m)) →
  (∀ s m, get (set s m) = m) →
  wp G fetch h (fun h' r => caches_ok h' s ∧ (∀ k v, made f h' k v → made f h k v) ∧
    ∀ m, r = inr m → ∃ l, listed h' l ∧ m = keyed key l) →
  caches_ok h s →
  wp G ('(m, r) ← lazyCacheMap_get (get s) cl fetch; mret (set s m, r)) h (fun h' x => caches_ok h' x.1 ∧
    ∀ m, x.2 = inr m → get x.1 !! cl = Some (Some m)).
Proof.
  intros Hget Hset Hgs Hfetch Hok. apply wp_bind, (wp_lazy _ _ _ s); [done|..].
  - intros v Hv. apply wp_ret. split; [apply Hset; auto|]. intros ? [= <-]. cbn [fst]. by rewrite Hgs.
  - intros Hn. assert (Hno : ∀ k v, ¬ made f h k v).
    { pose proof (Hget _ _ Hok) as H. destruct (get s !! cl) as [[m|]|]; [by edestruct Hn|done..]. }
    eapply wp_post; [exact Hfetch|]. intros h' r (Hok' & Hsame & Hl). apply wp_ret.
    split; [|intros m [= ->]; cbn [fst]; by rewrite Hgs, lookup_insert_eq].
    cbn [fst]. apply Hset; [done|]. rewrite lookup_insert_eq. destruct r as [e|m].
    + intros k v ?%Hsame. by eapply Hno.
    + destruct (Hl m eq_refl) as (l & Hl' & ->). apply cache_ok_load; [done|]. intros k v ?%Hsame. by eapply Hno.
Qed.

(** A single listing request. *)
Lemma wp_fetch {V} (f : event resp → option (string * string * V)) (listed : Trace → list V → Prop)
    (key : V → string) q (answer : vms_resp q → result (gmap string V)) s h :
  vms_read q → caches_ok h s →
  (∀ r k v, made f (h ++ [Ev (Vms cl q) r]) k v → made f h k v) →
  (∀ r m, answer r = inr m → ∃ l, listed (h ++ [Ev (Vms cl q) r]) l ∧ m = keyed key l) →
  wp G (r ← vms sc q; mret (answer r)) h (fun h' r => caches_ok h' s ∧ (∀ k v, made f h' k v → made f h k v) ∧
    ∀ m, r = inr m → ∃ l, listed h' l ∧ m = keyed key l).
Proof.
  intros Hq Hok Hsame Hl. apply wp_bind_call; [by apply G_reads|]. intros r. apply wp_ret.
  split_and!; [|by apply Hsame|by apply Hl].
  apply caches_ok_keep; [|done]. by apply (is_read_no_creation cl (Vms cl q)).
Qed.

Lemma wp_block_VolumeMapping s h :
  caches_ok h s →
  wp G (block_VolumeMapping b sc s) h (fun h' x => caches_ok h' x.1 ∧
    ∀ m, x.2 = inr m → volumeCaches x.1 !! cl = Some (Some m)).
Proof.
  intros Hok. apply (wp_mapping volumeCaches set_volumeCaches volume_Name volumes_listed created_volume);
    [by intros t ? []|intros t ? m [] ?; by split|done| |done].
  destruct (NewFromStorageClass sc); [by apply wp_ret; split_and!|].
  apply (wp_fetch created_volume volumes_listed volume_Name (VolumeList _ _)); [done|done|..].
  - intros r. by apply (same_objects_keep h (Vms cl (VolumeList _ _)) r).
  - intros [e|l] m [= <-]. exists l. split; [apply in_snoc|done].
Qed.

Lemma wp_file_VolumeMapping s h :
  caches_ok h s →
  wp G (file_VolumeMapping b sc s) h (fun h' x => caches_ok h' x.1 ∧
    ∀ m, x.2 = inr m → viewCaches x.1 !! cl = Some (Some m)).
Proof.
  intros Hok. apply (wp_mapping viewCaches set_viewCaches view_Path views_listed created_view);
    [by intros t ? []|intros t ? m [] ?; by split|done| |done].
  destruct (NewFromStorageClass sc); [by apply wp_ret; split_and!|].
  apply (wp_fetch created_view views_listed view_Path (ViewListUnder _)); [done|done|..].
  - intros r. by apply (same_objects_keep h (Vms cl (ViewListUnder _)) r).
  - intros [e|l] m [= <-]. exists l. split; [apply in_snoc|done].
Qed.

Lemma wp_quota_mapping s h :
  caches_ok h s →
  wp G (quota_mapping b sc s) h (fun h' x => caches_ok h' x.1 ∧
    ∀ m, x.2 = inr m → quotaCaches x.1 !! cl = Some (Some m)).
Proof.
  intros Hok. apply (wp_mapping quotaCaches set_quotaCaches quota_Path quotas_listed created_quota);
    [by intros t ? []|intros t ? m [] ?; by split|done| |done].
  apply (wp_fetch created_quota quotas_listed quota_Path (QuotaListUnder _)); [done|done|..].
  - intros r. by apply (same_objects_keep h (Vms cl (QuotaListUnder _)) r).
  - intros [e|l] m [= <-]. exists l. split; [apply in_snoc|done].
Qed.

(** What a lookup in a listing says. *)
Lemma wp_lookup {V} (get : caches → lazyCacheMap (gmap string V)) (key : V → string)
    (listed : Trace → list V → Prop) (f : event resp → option (string * string * V))
    (mapping : M (gmap string V)) k s h :
  (∀ t s, caches_ok t s → cache_ok key (listed t) (made f t) (get s !! cl)) →
  wp G (mapping s) h (fun h' x => caches_ok h' x.1 ∧ ∀ m, x.2 = inr m → get x.1 !! cl = Some (Some m)) →
  wp G ((m ← mapping; mret (m !! trim_slashes k)) s) h (fun h' x => caches_ok h' x.1 ∧
    match x.2 with
    | inl _ => True
    | inr (Some v) => known key listed f h' k v
    | inr None => ∃ m, get x.1 !! cl = Some (Some m) ∧ m !! trim_slashes k = None
    end).
Proof.
  intros Hget Hm. apply wpP_bind. eapply wp_post; [exact Hm|].
  intros h' [s' [e|m]] [Hok Hl]; [done|]. apply wp_ret. split; [done|]. cbn [fst snd] in *.
  specialize (Hget _ _ Hok). specialize (Hl m eq_refl). rewrite Hl in Hget.
  apply (cache_ok_lookup _ _ _ _ _ k) in Hget. destruct (m !! trim_slashes k) eqn:Hk; [done|]. eauto.
Qed.

Lemma wp_getVolume k s h :
  caches_ok h s →
  wp G (getVolume b sc k s) h (fun h' x => caches_ok h' x.1 ∧
    match x.2 with
    | inl _ => True
    | inr (Some v) => volume_known h' k v
    | inr None => ∃ m, volumeCaches x.1 !! cl = Some (Some m) ∧ m !! trim_slashes k = None
    end).
Proof.
  intros Hok. apply (wp_lookup volumeCaches); [by intros t ? []|by apply wp_block_VolumeMapping].
Qed.

Lemma wp_getView k s h :
  caches_ok h s →
  wp G (getView b sc k s) h (fun h' x => caches_ok h' x.1 ∧
    match x.2 with
    | inl _ => True
    | inr (Some v) => view_known h' k v
    | inr None => ∃ m, viewCaches x.1 !! cl = Some (Some m) ∧ m !! trim_slashes k = None
    end).
Proof.
  intros Hok. apply (wp_lookup viewCaches); [by intros t ? []|by apply wp_file_VolumeMapping].
Qed.

Lemma wp_getQuota k s h :
  caches_ok h s →
  wp G (getQuota b sc k s) h (fun h' x => caches_ok h' x.1 ∧
    match x.2 with
    | inl _ => True
    | inr (Some v) => quota_known h' k v
    | inr None => ∃ m, quotaCaches x.1 !! cl = Some (Some m) ∧ m !! trim_slashes k = None
    end).
Proof.
  intros Hok. apply (wp_lookup quotaCaches); [by intros t ? []|by apply wp_quota_mapping].
Qed.

(** *** Deleting an object that was looked up *)

Lemma wp_delete_by_id what q answer s h :
  G h (Vms cl q) → no_creation (Vms cl q) → caches_ok h s →
  wp G (delete_by_id what sc q answer s) h (fun h' x => caches_ok h' x.1).
Proof.
  intros HG Hn Hok. apply wp_bind_call; [done|]. intros r. apply wp_ret. by apply caches_ok_keep.
Qed.

Lemma wp_deleteVastVolumeByName k s h :
  (∀ h' v, h `prefix_of` h' → volume_known h' k v → G h' (Vms cl (VolumeDeleteById (volume_Id v)))) →
  caches_ok h s → wp G (deleteVastVolumeByName b sc k s) h (fun h' x => caches_ok h' x.1).
Proof.
  intros HG Hok. apply wpP_bind. eapply wp_post; [by apply wp_prefix, wp_getVolume|].
  intros h1 [s1 [e|[v|]]] (Hh & Hok1 & Hv); [done| |done]. apply wp_delete_by_id; [by apply HG|done|done].
Qed.

Lemma wp_deleteVastView k s h :
  (∀ h' v, h `prefix_of` h' → view_known h' k v → G h' (Vms cl (ViewDeleteById (view_Id v)))) →
  caches_ok h s → wp G (deleteVastView b sc k s) h (fun h' x => caches_ok h' x.1).
Proof.
  intros HG Hok. apply wpP_bind. eapply wp_post; [by apply wp_prefix, wp_getView|].
  intros h1 [s1 [e|[v|]]] (Hh & Hok1 & Hv); [done| |done]. apply wp_delete_by_id; [by apply HG|done|done].
Qed.

Lemma wp_deleteVastQuota k s h :
  (∀ h' q, h `prefix_of` h' → quota_known h' k q → G h' (Vms cl (QuotaDeleteById (quota_Id q)))) →
  caches_ok h s → wp G (deleteVastQuota b sc k s) h (fun h' x => caches_ok h' x.1).
Proof.
  intros HG Hok. apply wpP_bind. eapply wp_post; [by apply wp_prefix, wp_getQuota|].
  intros h1 [s1 [e|[v|]]] (Hh & Hok1 & Hv); [done| |done]. apply wp_delete_by_id; [by apply HG|done|done].
Qed.

Lemma wp_delete_view_and_quota k f g s h :
  (∀ h' v, h `prefix_of` h' → view_known h' k v → G h' (Vms cl (ViewDeleteById (view_Id v)))) →
  (∀ h' q, h `prefix_of` h' → quota_known h' k q → G h' (Vms cl (QuotaDeleteById (quota_Id q)))) →
  caches_ok h s → wp G (delete_view_and_quota b sc k f g s) h (fun h' x => caches_ok h' x.1).
Proof.
  intros HV HQ Hok. apply wpP_bind, wpP_attempt.
  eapply wp_post; [by apply wp_prefix, wp_deleteVastQuota|]. intros h1 [s1 r1] [Hh1 Hok1].
  apply wpP_bind, wpP_attempt. eapply wp_post; [apply wp_deleteVastView; [|exact Hok1]|].
  - intros h' v Hh'. apply HV. by etrans.
  - intros h2 [s2 r2] Hok2. by apply wp_ret.
Qed.

(** *** Creating a volume *)

(** What is asked for in the name of a PVC. *)
Definition volume_for (pvc : PVC) (csi : CSISource) (viewId : Z) (p : VolumeParams) : Prop :=
  vol_name p = BackendObjectKey b (csi_VolumeHandle csi) ∧ vol_view_id p = viewId ∧
  ∃ req, Capacity (pvc_Shape pvc) !! "storage" = Some req ∧ vol_size p = quantity_Value req.

Lemma wp_ensureBlockVastVolume pvc csi qos viewId s h :
  (∀ h' p, h `prefix_of` h' → volume_for pvc csi viewId p → volume_absent h' (vol_name p) →
     G h' (Vms cl (VolumeCreate p))) →
  caches_ok h s → wp G (ensureBlockVastVolume b sc pvc csi qos viewId s) h (fun h' x => caches_ok h' x.1).
Proof.
  intros HG Hok. apply wpP_bind. eapply wp_post; [by apply wp_prefix, wp_block_VolumeMapping|].
  intros h1 [s1 [e|m]] (Hh & Hok1 & Hm); [done|]. cbn [fst snd] in *. specialize (Hm m eq_refl).
  case_bool_decide as Hin; [by apply wp_ret|].
  destruct (Capacity (pvc_Shape pvc) !! "storage") as [req|] eqn:Hreq; [|by apply wp_ret].
  apply wpP_bind. apply wp_ret. cbn [fst snd]. destruct (qos_id Atoi qos) as [e|id]; [done|].
  apply wpP_bind, wpP_wrapping, wpP_lift. split.
  - apply HG; [done|split_and!; [done|done|by exists req]|].
    pose proof (ok_volumes _ _ Hok1) as Hc. rewrite Hm in Hc.
    apply (cache_ok_lookup _ _ _ _ _ (BackendObjectKey b (csi_VolumeHandle csi))) in Hc.
    cbn [vol_name]. destruct (m !! _); [by destruct Hin|done].
  - intros [e|v]; cbn; [by apply caches_ok_event|]. by eapply caches_ok_volume.
Qed.

(** *** Creating a view and its quota *)

Lemma wp_getViewPolicy s h :
  caches_ok h s →
  wp G (getViewPolicy sc policy_name s) h (fun h' x => caches_ok h' x.1 ∧ viewCaches x.1 = viewCaches s ∧
    ∀ p, x.2 = inr p → GetViewPolicyModel cl policy_name = inr p).
Proof.
  intros Hok. unfold getViewPolicy. apply wp_bind, (wp_lazy _ _ _ s); [done|..].
  - intros v Hv. apply wp_ret. split_and!; [by destruct s|done|].
    intros p [= <-]. by apply (ok_policy _ _ Hok).
  - intros Hn. apply wp_ret, wp_ret. split_and!; [|done|done].
    destruct Hok as [Hp Hv Hw Hq Ho]. split; [done..|]. cbn. intros p. rewrite lookup_insert_eq.
    by destruct (GetViewPolicyModel cl policy_name) as [|p']; intros [= <-].
Qed.

Definition path_seen (t : Trace) (path : string) (tenantId : Z) : Prop :=
  ∃ stat, Ev (Vms cl (FolderStatPath path tenantId)) (inr stat) ∈ t.

Lemma path_seen_mono t t' path tenantId : t `prefix_of` t' → path_seen t path tenantId → path_seen t' path tenantId.
Proof. intros [k ->] [stat ?]. exists stat. apply elem_of_app. by left. Qed.

Lemma wp_PathExists path tenantId s h :
  caches_ok h s →
  wp G (PathExists cl path tenantId) h (fun h' r => caches_ok h' s ∧
    (r = inr true → path_seen h' path tenantId)).
Proof.
  intros Hok. apply wp_bind, wp_bind_call; [by apply G_reads|]. intros r. apply wp_ret, wp_ret.
  split; [by apply caches_ok_keep|]. destruct r as [e|stat]; [by destruct (vast_ExpectStatusCodes e _)|].
  intros _. exists stat. apply in_snoc.
Qed.

Lemma calls_in_PathExists path tenantId : calls_in (is_read cl) (PathExists cl path tenantId).
Proof. repeat calls_step; done. Qed.

Lemma calls_in_wait path tenantId : calls_in (is_read cl) (waitForReplicatedPath sc path tenantId).
Proof.
  unfold waitForReplicatedPath, WaitResource. calls_step; [by apply calls_in_call|].
  apply calls_in_poll; [done| |].
  - by apply (calls_in_bind _ (call (Sleep _))).
  - calls_step; [apply calls_in_PathExists|done].
Qed.

Lemma wp_waitForReplicatedPath path tenantId s h :
  caches_ok h s →
  wp G (waitForReplicatedPath sc path tenantId) h (fun h' r => caches_ok h' s ∧
    ∀ u, r = inr u → path_seen h' path tenantId).
Proof.
  intros Hok. eapply wp_post.
  - apply (wp_reads_post (fun _ _ => True) _ s h (fun h' r => ∀ u, r = inr u → path_seen h' path tenantId));
      [apply calls_in_wait|done|].
    apply (wp_WaitResource _ _ _ _ _ _ (fun h' _ => path_seen h' path tenantId)); [done|done| |naive_solver].
    intros h' Hh'. apply wp_bind, wp_bind, wp_bind_call; [done|]. intros r. repeat apply wp_ret.
    destruct r as [e|stat]; [by destruct (vast_ExpectStatusCodes e _)|]. intros a _. exists stat. apply in_snoc.
  - intros h' r (_ & ? & ?). done.
Qed.

Lemma wp_path_replicated path tenantId s h :
  caches_ok h s →
  wp G (path_replicated b sc path tenantId s) h (fun h' x => caches_ok h' x.1 ∧ viewCaches x.1 = viewCaches s ∧
    (x.2 = inr true → path_seen h' path tenantId)).
Proof.
  intros Hok. apply wpP_bind, wpP_wrapping, wpP_lift. eapply wp_post; [by apply wp_PathExists|].
  intros h1 [e|found] [Hok1 Hs]; [done|]. cbn [fst snd wrap_err]. destruct found.
  { apply wp_ret. split_and!; [done|done|]. intros _. by apply Hs. }
  apply wpP_bind, wpP_io. eapply wp_post; [apply wp_reads; [|exact Hok1]|].
  { unfold resyncRecentlyRequested. by repeat calls_step. }
  intros h2 recent Hok2. cbn [fst snd]. destruct recent; [|by apply wp_ret].
  apply wpP_bind, wpP_attempt, wpP_lift. eapply wp_post; [by apply wp_waitForReplicatedPath|].
  intros h3 [e|u] [Hok3 Hs3]; apply wp_ret; split_and!; try done. intros _. by apply (Hs3 u).
Qed.

Definition view_for (path : string) (p : ViewParams) : Prop :=
  vw_path p = path ∧ GetViewPolicyModel cl policy_name = inr (vw_policy_id p, vw_tenant_id p).

Lemma known_mono {V} (key : V → string) (listed : Trace → list V → Prop) f t t' k v :
  (∀ l, listed t l → listed t' l) → t `prefix_of` t' → known key listed f t k v → known key listed f t' k v.
Proof.
  intros Hl [u ->] [(l & ? & ?)|(k' & (e & ? & ?) & ?)]; [left; eauto|right].
  exists k'. split; [exists e; split; [apply elem_of_app; by left|done]|done].
Qed.

Lemma view_known_mono t t' k v : t `prefix_of` t' → view_known t k v → view_known t' k v.
Proof.
  intros Hp. apply known_mono; [|done]. intros l. destruct Hp as [u ->]. intros ?.
  apply elem_of_app. by left.
Qed.

Lemma wp_ensureView path qosPolicy qosId s h :
  (∀ h' p, h `prefix_of` h' → view_for path p → path_seen h' path (vw_tenant_id p) → view_absent h' path →
     G h' (Vms cl (ViewCreate p))) →
  caches_ok h s →
  wp G (ensureView b sc path policy_name qosPolicy qosId s) h (fun h' x => caches_ok h' x.1 ∧
    ∀ v, x.2 = inr v → view_known h' path v).
Proof.
  intros HG Hok. apply wpP_bind. eapply wp_post; [by apply wp_prefix, wp_getView|].
  intros h1 [s1 [e|[v|]]] (Hh1 & Hok1 & Hv); cbn [fst snd] in *; [done|apply wp_ret; naive_solver|].
  destruct Hv as (m & Hm & Hin). case_bool_decide; [by apply wp_ret|].
  apply wpP_bind. eapply wp_post; [by apply wp_prefix, wp_getViewPolicy|].
  intros h2 [s2 [e|[policyId tenantId]]] (Hh2 & Hok2 & Hs2 & Hp); cbn [fst snd] in *; [done|].
  specialize (Hp _ eq_refl). apply wpP_bind, wp_ret. cbn [fst snd].
  destruct (qos_id ParseInt64 qosId) as [e|qid]; [done|].
  apply wpP_bind. eapply wp_post; [by apply wp_prefix, wp_path_replicated|].
  intros h3 [s3 [e|found]] (Hh3 & Hok3 & Hs3 & Hf); cbn [fst snd] in *; [done|].
  destruct found; [|by apply wp_ret]. specialize (Hf eq_refl).
  assert (Hm3 : viewCaches s3 !! cl = Some (Some m)) by (by rewrite Hs3, Hs2).
  set (p := mkViewParams _ _ _ _ _ _). apply wpP_bind, wpP_wrapping, wpP_lift. split.
  - apply (HG _ p); [by do 2 (etrans; [done|])|by split|done|].
    pose proof (ok_views _ _ Hok3) as Hc. rewrite Hm3 in Hc.
    apply (cache_ok_lookup _ _ _ _ _ path) in Hc. by rewrite Hin in Hc.
  - intros [e|v]; cbn; [split; [by apply caches_ok_event|done]|].
    split; [by eapply caches_ok_view|]. intros v' [= <-]. right. exists path. split; [|done].
    eexists. split; [apply in_snoc|done].
Qed.

Definition quota_for (pvc : PVC) (csi : CSISource) (path : string) (t : Trace) (p : QuotaParams) : Prop :=
  quo_path p = path ∧ quo_name p = path_Base (csi_VolumeHandle csi) ∧
  (∃ v, view_known t path v ∧ quo_tenant_id p = view_TenantId v) ∧
  ∃ req, Capacity (pvc_Shape pvc) !! "storage" = Some req ∧ quo_hard_limit p = quantity_Value req.

Lemma wp_ensureQuota path name tenantId limit s h :
  (∀ h', h `prefix_of` h' → quota_absent h' path →
     G h' (Vms cl (QuotaCreate (mkQuotaParams name path tenantId limit)))) →
  caches_ok h s → wp G (ensureQuota b sc path name tenantId limit s) h (fun h' x => caches_ok h' x.1).
Proof.
  intros HG Hok. apply wpP_bind. eapply wp_post; [by apply wp_prefix, wp_getQuota|].
  intros h1 [s1 [e|[v|]]] (Hh1 & Hok1 & Hv); cbn [fst snd] in *; [done|by apply wp_ret|].
  destruct Hv as (m & Hm & Hin). apply wpP_bind, wpP_wrapping, wpP_lift. split.
  - apply HG; [done|]. pose proof (ok_quotas _ _ Hok1) as Hc. rewrite Hm in Hc.
    apply (cache_ok_lookup _ _ _ _ _ path) in Hc. by rewrite Hin in Hc.
  - intros [e|v]; cbn; [by apply caches_ok_event|]. by eapply caches_ok_quota.
Qed.

Lemma wp_ensureFileVastObject pvc csi qosPolicy qosId s h (path := BackendObjectKey b (csi_VolumeHandle csi)) :
  (∀ h' p, h `prefix_of` h' → view_for path p → path_seen h' path (vw_tenant_id p) → view_absent h' path →
     G h' (Vms cl (ViewCreate p))) →
  (∀ h' p, h `prefix_of` h' → quota_for pvc csi path h' p → quota_absent h' path →
     G h' (Vms cl (QuotaCreate p))) →
  caches_ok h s →
  wp G (ensureFileVastObject b sc pvc csi policy_name qosPolicy qosId s) h (fun h' x => caches_ok h' x.1).
Proof.
  intros HV HQ Hok. apply wpP_bind, wpP_wrapping. eapply wp_post; [by apply wp_prefix, wp_ensureView|].
  intros h1 [s1 [e|v]] (Hh1 & Hok1 & Hv); cbn [fst snd wrap_err] in *; [done|]. specialize (Hv v eq_refl).
  destruct (Capacity (pvc_Shape pvc) !! "storage") as [req|] eqn:Hreq; [|by apply wp_ret].
  apply wpP_wrapping. apply wp_ensureQuota; [|done]. intros h2 Hh2 Hab. apply HQ; [by etrans| |done].
  split_and!; [done|done| |by exists req]. exists v. split; [|done]. by eapply view_known_mono.
Qed.

(** *** What provisioning deletes *)

(** A mirror PVC of the source and its PV, as answered in the run. *)
Definition mirror_handle (t : Trace) (source handle : string) : Prop :=
  ∃ l pvc pv, Ev (List kPVC (Namespace (vrc_Meta (rp b))) (mirrors_of sc source)) (inr l) ∈ t ∧ pvc ∈ l ∧
    Ev (Get kPV (pvc_VolumeName pvc) "") (inr pv) ∈ t ∧ is_managed (pv_Meta pv) = true ∧
    handle = handle_of pv ∧ handle ≠ "".

Lemma wp_managedPVForPVC pvc s h :
  caches_ok h s →
  wp G (managedPVForPVC pvc) h (fun h' r => caches_ok h' s ∧
    ∀ pv, r = inr (Some pv) → Ev (Get kPV (pvc_VolumeName pvc) "") (inr pv) ∈ h' ∧ is_managed (pv_Meta pv) = true).
Proof.
  intros Hok. unfold managedPVForPVC. case_bool_decide; [by apply wp_ret|].
  apply wp_bind_call; [by apply G_reads|]. intros r. apply wp_ret. split; [by apply caches_ok_keep|].
  destruct r as [e|pv]; [by destruct (IsNotFound (Some e))|].
  destruct (is_managed (pv_Meta pv)) eqn:Hm; intros ? [= <-]. split; [apply in_snoc|done].
Qed.

Lemma wp_list_mirrors source s h :
  caches_ok h s →
  wp G (ListPVCsByLabelSelector (Namespace (vrc_Meta (rp b))) (mirrors_of sc source)) h (fun h' r =>
    caches_ok h' s ∧
    ∀ l, r = inr l → Ev (List kPVC (Namespace (vrc_Meta (rp b))) (mirrors_of sc source)) (inr l) ∈ h').
Proof.
  intros Hok. split; [by apply G_reads|]. intros r. split; [by apply caches_ok_keep|].
  intros l ->. apply in_snoc.
Qed.

Lemma mirror_handle_intro h h1 h2 source l pvc pv :
  Ev (List kPVC (Namespace (vrc_Meta (rp b))) (mirrors_of sc source)) (inr l) ∈ h → pvc ∈ l →
  h `prefix_of` h1 → h1 `prefix_of` h2 →
  (Ev (Get kPV (pvc_VolumeName pvc) "") (inr pv) ∈ h1 ∧ is_managed (pv_Meta pv) = true) →
  handle_of pv ≠ "" → mirror_handle h2 source (handle_of pv).
Proof.
  intros Hl Hpvc [u ->] [u' ->] [Hpv Hm] Hne. exists l, pvc, pv.
  split_and!; try done; repeat (apply elem_of_app; first [left; assumption|left]); assumption.
Qed.

Lemma wp_deleteBlockVastVolume source s h :
  (∀ h' handle v, h `prefix_of` h' → mirror_handle h' source handle →
     volume_known h' (BackendObjectKey b handle) v → G h' (Vms cl (VolumeDeleteById (volume_Id v)))) →
  caches_ok h s → wp G (deleteBlockVastVolume b sc source s) h (fun h' x => caches_ok h' x.1).
Proof.
  intros HG Hok. apply wpP_bind, wpP_lift. eapply wp_post; [by apply wp_prefix, wp_list_mirrors|].
  intros h1 [e|l] (Hh1 & Hok1 & Hl); cbn [fst snd]; [done|]. specialize (Hl l eq_refl).
  apply wpP_bind. eapply wp_post.
  - apply (wpP_each _ caches_ok); [|done]. intros pvc h2 s2 Hpvc Hh2 Hok2.
    apply wpP_bind, wpP_attempt, wpP_lift. eapply wp_post; [by apply wp_prefix, wp_managedPVForPVC|].
    intros h3 [e|[pv|]] (Hh3 & Hok3 & Hpv); cbn [fst snd from_option]; [by apply wp_ret| |by apply wp_ret].
    destruct (handle_of pv) as [|c hd] eqn:Hhd; [by apply wp_ret|]. rewrite <-Hhd.
    apply wpP_bind, wpP_attempt. eapply wp_post; [apply wp_deleteVastVolumeByName; [|exact Hok3]|].
    + intros h4 v Hh4. apply HG; [by do 3 (etrans; [done|])|].
      apply (mirror_handle_intro h1 h3 h4 source l pvc pv); [done|done|by etrans|done|by apply Hpv|by rewrite Hhd].
    + intros h4 [s4 r4] Hok4. by apply wp_ret.
  - intros h2 [s2 [e|errs]] Hok2; [done|]. by apply (wpP_errs_Err _ caches_ok).
Qed.

Lemma wp_deleteFileVastObject source s h :
  (∀ h' handle v, h `prefix_of` h' → mirror_handle h' source handle → view_known h' handle v →
     G h' (Vms cl (ViewDeleteById (view_Id v)))) →
  (∀ h' handle q, h `prefix_of` h' → mirror_handle h' source handle → quota_known h' handle q →
     G h' (Vms cl (QuotaDeleteById (quota_Id q)))) →
  caches_ok h s → wp G (deleteFileVastObject b sc source s) h (fun h' x => caches_ok h' x.1).
Proof.
  intros HV HQ Hok. apply wpP_bind, wpP_lift. eapply wp_post; [by apply wp_prefix, wp_list_mirrors|].
  intros h1 [e|l] (Hh1 & Hok1 & Hl); cbn [fst snd]; [done|]. specialize (Hl l eq_refl).
  apply wpP_bind. eapply wp_post.
  - apply (wpP_each _ caches_ok); [|done]. intros pvc h2 s2 Hpvc Hh2 Hok2.
    apply wpP_bind, wpP_lift. eapply wp_post; [by apply wp_prefix, wp_managedPVForPVC|].
    intros h3 [e|[pv|]] (Hh3 & Hok3 & Hpv); cbn [fst snd from_option]; [done| |by apply wp_ret].
    destruct (handle_of pv) as [|c hd] eqn:Hhd; [by apply wp_ret|]. rewrite <-Hhd.
    assert (Hmir : ∀ h4, h3 `prefix_of` h4 → mirror_handle h4 source (handle_of pv)).
    { intros h4 Hh4.
      apply (mirror_handle_intro h1 h3 h4 source l pvc pv); [done|done|by etrans|done|by apply Hpv|by rewrite Hhd]. }
    apply wp_delete_view_and_quota; [| |done]; intros h4 v Hh4;
      [apply HV|apply HQ]; [by do 3 (etrans; [done|])|by apply Hmir|by do 3 (etrans; [done|])|by apply Hmir].
  - intros h2 [s2 [e|errs]] Hok2; [done|]. by apply (wpP_errs_Err _ caches_ok).
Qed.

End Methods.
