(* ===== verification/ProvisionerRuns.v ===== *)
(** * Runs of the provisioners

    [ProvisionVolumes] linked with the block and file provisioners, and
    [CleanVolumes]: what they may do in any run, whatever the API server and
    the cluster answer; then the content controller linked with both. *)

From S2P Require Import Prelude GoErrors Topology Kube Naming Peers PpathDir Lookups Programs Api ContentController Client Ppath Mirrors Provisioner ProvisionerRules.
From stdpp Require Import options.

(** ** Provisioning *)

Section Provisioning.

Context {steps : RetrySteps} {lk : Lookups} {ve : VastErrors} {ic : IgnoreCodes} {sd : ShowDuration}
  {qs : Quantities} {pt : ParseTime}.

Variable ty : ProvisionerType.
Variable b : base.
Notation sc := (sourceSc b).
Notation cl := (sc_Name (sourceSc b)).
Notation ppathName := (vrc_ProtectedPathName (vrc_Spec (rp b))).

(** The cluster was answered not to be the destination of the replication. *)
Definition source_ppath (t : Trace) (pp : Ppath) : Prop :=
  Ev (Vms cl (PpathGet ppathName)) (inr pp) ∈ t ∧ isDestinationRole (pp_Role pp) = false.

(** The subsystem that holds the replicated directory. *)
Definition subsystem_read (t : Trace) (view : ViewModel) : Prop :=
  ∃ pp, source_ppath t pp ∧ Ev (Vms cl (ViewGet (subsystem_of sc) (pp_TenantId pp))) (inr view) ∈ t ∧
    has_prefix (pp_SourceDir pp) (view_Path view) = true.

(** A source PVC with its CSI source. *)
Definition csi_source (t : Trace) (pvc : PVC) (csi : CSISource) : Prop :=
  ∃ pv, source_read t (pvc, pv) ∧ pv_CSI pv = Some csi.

Definition provision_vms (t : Trace) (q : VmsCall) : Prop :=
  match q with
  | VolumeCreate p =>
      is_block ty = true ∧ volume_absent b t (vol_name p) ∧
      ∃ view pvc csi, subsystem_read t view ∧ csi_source t pvc csi ∧ volume_for b pvc csi (view_Id view) p
  | ViewCreate p =>
      is_block ty = false ∧ view_absent b t (vw_path p) ∧ path_seen b t (vw_path p) (vw_tenant_id p) ∧
      ∃ pvc csi, csi_source t pvc csi ∧ view_for b (BackendObjectKey b (csi_VolumeHandle csi)) p
  | QuotaCreate p =>
      is_block ty = false ∧ quota_absent b t (quo_path p) ∧
      ∃ pvc csi, csi_source t pvc csi ∧ quota_for b pvc csi (BackendObjectKey b (csi_VolumeHandle csi)) t p
  | VolumeDeleteById id =>
      is_block ty = true ∧ vrc_SyncPVCPV (vrc_Spec (rp b)) = false ∧ (∃ pp, source_ppath t pp) ∧
      ∃ source handle v, mirror_handle b t source handle ∧ volume_known b t (BackendObjectKey b handle) v ∧
        id = volume_Id v
  | ViewDeleteById id =>
      is_block ty = false ∧ vrc_SyncPVCPV (vrc_Spec (rp b)) = false ∧
      ∃ source handle v, mirror_handle b t source handle ∧ view_known b t handle v ∧ id = view_Id v
  | QuotaDeleteById id =>
      is_block ty = false ∧ vrc_SyncPVCPV (vrc_Spec (rp b)) = false ∧
      ∃ source handle q, mirror_handle b t source handle ∧ quota_known b t handle q ∧ id = quota_Id q
  | q => vms_read q
  end.

Definition provision_allowed (t : Trace) (c : Call) : Prop :=
  match c with
  | Vms cl' q => cl' = cl ∧ provision_vms t q
  | Create _ _ => creation_allowed b t c
  | Update k _ => k = kPVC
  | NewProvisioner _ | ProvisionVolumes _ | CleanVolumes _ | ProvisionVolumeCb _ _ _ | VolumeMapping _ => False
  | _ => True
  end.

Notation ok := (caches_ok b ppathName).

Lemma provision_reads h c : is_read cl c → provision_allowed h c.
Proof. destruct c as [| | | | | | | | | | | | | |sc' []| | | |]; done || by intros []. Qed.
#[local] Hint Resolve provision_reads : core.

Notation W := (wp provision_allowed).

Lemma source_ppath_mono t t' pp : t `prefix_of` t' → source_ppath t pp → source_ppath t' pp.
Proof. intros [k ->] [? ?]. split; [|done]. apply elem_of_app. by left. Qed.

Lemma csi_source_mono t t' pvc csi : t `prefix_of` t' → csi_source t pvc csi → csi_source t' pvc csi.
Proof. intros Hp (pv & ? & ?). exists pv. split; [by eapply source_read_mono|done]. Qed.

Lemma subsystem_read_mono t t' view : t `prefix_of` t' → subsystem_read t view → subsystem_read t' view.
Proof.
  intros Hp (pp & ? & ? & ?). exists pp. split_and!; [by eapply source_ppath_mono| |done].
  destruct Hp as [k ->]. apply elem_of_app. by left.
Qed.

Lemma csi_source_intro h h' (p : VolumePair) pairs csi :
  Forall (source_read h) pairs → p ∈ pairs → h `prefix_of` h' → pv_CSI p.2 = Some csi →
  csi_source h' p.1 csi.
Proof.
  rewrite Forall_forall. intros Hall Hp Hh Hcsi. exists p.2. split; [|done].
  eapply source_read_mono; [exact Hh|]. destruct p. by apply Hall.
Qed.

Lemma wp_ensure_block_pairs qos view pairs s h :
  is_block ty = true → subsystem_read h view → Forall (source_read h) pairs → ok h s →
  W (each (ensure_block_pair b sc qos (view_Id view)) pairs [] s) h (fun h' x => ok h' x.1).
Proof.
  intros Hb Hview Hall Hok. apply wpP_each; [|done]. intros p h1 s1 Hp Hh1 Hok1.
  apply wpP_bind. unfold deref. destruct (pv_CSI p.2) as [csi|] eqn:Hcsi; [|done]. apply wp_ret. cbn [fst snd].
  apply wpP_bind, wpP_attempt, wpP_wrapping. eapply wp_post.
  - apply wp_ensureBlockVastVolume; [auto| |exact Hok1]. intros h2 params Hh2 Hfor Habs.
    split; [done|]. split_and!; [done|done|]. exists view, p.1, csi. split_and!; [| |done].
    + eapply subsystem_read_mono; [|exact Hview]. by etrans.
    + eapply csi_source_intro; [exact Hall|done|by etrans|done].
  - intros h2 [s2 r] Hok2. by apply wp_ret.
Qed.

Lemma wp_delete_block_sources toDelete errs pp s h :
  is_block ty = true → vrc_SyncPVCPV (vrc_Spec (rp b)) = false → source_ppath h pp → ok h s →
  W (each (delete_block_source b sc) toDelete errs s) h (fun h' x => ok h' x.1).
Proof.
  intros Hb Hsync Hpp Hok. apply wpP_each; [|done]. intros source h1 s1 _ Hh1 Hok1.
  apply wpP_bind, wpP_attempt, wpP_wrapping. eapply wp_post.
  - apply wp_deleteBlockVastVolume; [auto| |exact Hok1]. intros h2 handle v Hh2 Hm Hv.
    split; [done|]. split_and!; [done|done| |by exists source, handle, v].
    exists pp. eapply source_ppath_mono; [|exact Hpp]. by etrans.
  - intros h2 [s2 r] Hok2. by apply wp_ret.
Qed.

Lemma wp_block_subsystem pp s h :
  source_ppath h pp → ok h s →
  W (block_subsystem sc (rp b) pp s) h (fun h' x => ok h' x.1 ∧ ∀ view, x.2 = inr view → subsystem_read h' view).
Proof.
  intros Hpp Hok. apply wpP_bind, wpP_wrapping, wpP_lift. split; [by apply provision_reads|]. intros r.
  assert (Hok' : ok (h ++ [Ev (Vms cl (ViewGet (subsystem_of sc) (pp_TenantId pp))) r]) s) by (by apply caches_ok_keep).
  apply wp_ret. destruct r as [e|view]; cbn [fst snd wrap_err]; [done|].
  destruct (has_prefix (pp_SourceDir pp) (view_Path view)) eqn:Hd; apply wp_ret; [|done].
  split; [done|]. intros ? [= <-]. exists pp. split_and!; [|apply in_snoc|done].
  eapply source_ppath_mono; [|exact Hpp]. by apply prefix_app_r.
Qed.

Lemma wp_block_ProvisionVolumeCb pairs toDelete s h :
  is_block ty = true → Forall (source_read h) pairs → ok h s →
  W (block_ProvisionVolumeCb b (rp b) pairs toDelete s) h (fun h' x => ok h' x.1).
Proof.
  intros Hb Hall Hok. apply wpP_bind. eapply wp_post; [apply wp_prefix, (wp_getPPath b ppathName); [auto|done|done]|].
  intros h1 [s1 [e|pp]] (Hh1 & Hok1 & Hpp); cbn [fst snd] in *; [done|].
  destruct (isDestinationRole (pp_Role pp)) eqn:Hrole; [done|].
  assert (Hsrc : source_ppath h1 pp) by (by split).
  apply wpP_bind. apply (wp_post _ _ _ (fun h' x => h1 `prefix_of` h' ∧ ok h' x.1)).
  { apply wp_prefix. destruct pairs as [|p0 pairs']; [done|].
    apply wpP_bind. eapply wp_post; [by apply wp_prefix, wp_block_subsystem|].
    intros h2 [s2 [e|view]] (Hh2 & Hok2 & Hv); cbn [fst snd] in *; [done|].
    apply wp_ensure_block_pairs; [done|by apply Hv| |done].
    eapply Forall_impl; [exact Hall|]. intros p. apply source_read_mono. by etrans. }
  intros h2 [s2 [e|errs]] [Hh2 Hok2]; cbn [fst snd] in *; [done|].
  apply wpP_bind. destruct (vrc_SyncPVCPV (vrc_Spec (rp b))) eqn:Hsync.
  - by apply wp_ret, (wpP_errs_Err _ ok).
  - eapply wp_post; [apply (wp_delete_block_sources _ _ pp); [done|done|by eapply source_ppath_mono|done]|].
    intros h3 [s3 [e|errs3]] Hok3; [done|]. by apply (wpP_errs_Err _ ok).
Qed.

Lemma wp_file_ProvisionVolumeCb pairs toDelete s h :
  is_block ty = false → Forall (source_read h) pairs → ok h s →
  W (file_ProvisionVolumeCb b (rp b) pairs toDelete s) h (fun h' x => ok h' x.1).
Proof.
  intros Hb Hall Hok. apply wpP_bind. eapply wp_post.
  - apply wp_prefix, wpP_each; [|exact Hok]. intros p h1 s1 Hp Hh1 Hok1.
    apply wpP_bind. unfold deref. destruct (pv_CSI p.2) as [csi|] eqn:Hcsi; [|done]. apply wp_ret. cbn [fst snd].
    assert (Hsrc : ∀ h2, h1 `prefix_of` h2 → csi_source h2 p.1 csi).
    { intros h2 Hh2. eapply csi_source_intro; [exact Hall|done|by etrans|done]. }
    apply wpP_bind, wpP_attempt, wpP_wrapping. eapply wp_post.
    + apply wp_ensureFileVastObject; [auto| | |exact Hok1].
      * intros h2 params Hh2 Hfor Hseen Habs. pose proof Hfor as [Hpath _]. split; [done|].
        split_and!; [done|by rewrite Hpath|by rewrite Hpath|]. exists p.1, csi. split; [by apply Hsrc|done].
      * intros h2 params Hh2 Hfor Habs. pose proof Hfor as [Hpath _]. split; [done|].
        split_and!; [done|by rewrite Hpath|]. exists p.1, csi. split; [by apply Hsrc|done].
    + intros h2 [s2 r] Hok2. by apply wp_ret.
  - intros h1 [s1 [e|errs]] [Hh1 Hok1]; cbn [fst snd] in *; [done|].
    apply wpP_bind. destruct (vrc_SyncPVCPV (vrc_Spec (rp b))) eqn:Hsync.
    { by apply wp_ret, (wpP_errs_Err _ ok). }
    eapply wp_post.
    + apply wpP_each; [|exact Hok1]. intros source h2 s2 _ Hh2 Hok2.
      apply wpP_bind, wpP_attempt, wpP_wrapping. eapply wp_post.
      * apply wp_deleteFileVastObject; [auto| | |exact Hok2]; intros h3 handle v Hh3 Hm Hv;
          (split; [done|]; split_and!; [done|done|by exists source, handle, v]).
      * intros h3 [s3 r] Hok3. by apply wp_ret.
    + intros h2 [s2 [e|errs2]] Hok2; [done|]. by apply (wpP_errs_Err _ ok).
Qed.

Lemma wp_run_ProvisionVolumeCb pairs toDelete s h :
  Forall (source_read h) pairs → ok h s →
  W (run_ProvisionVolumeCb ty b (rp b) pairs toDelete s) h (fun h' x => ok h' x.1).
Proof.
  intros Hall Hok. unfold run_ProvisionVolumeCb. destruct (is_block ty) eqn:Hb;
    [by apply wp_block_ProvisionVolumeCb|by apply wp_file_ProvisionVolumeCb].
Qed.

Lemma wp_VolumeMapping_keys s h : ok h s → W (VolumeMapping_keys ty b sc s) h (fun h' x => ok h' x.1).
Proof.
  intros Hok. unfold VolumeMapping_keys. destruct (is_block ty); apply wpP_bind;
    (eapply wp_post; [first [apply wp_block_VolumeMapping|apply wp_file_VolumeMapping]; [auto|exact Hok]|]);
    intros h1 [s1 [e|m]] [Hok1 _]; done.
Qed.

(** *** Linked with the mirrors *)

Definition passes (c : Call) : Prop :=
  match c with ProvisionVolumeCb _ _ _ | VolumeMapping _ => False | _ => True end.

(** What the mirrors' program saw of the run. *)
Definition provision_sees (u2 u1 : Trace) (s : caches) : Prop :=
  ok u2 s ∧ ∀ e, e ∈ u1 → passes (ev_call e) → e ∈ u2.

Lemma source_read_seen u1 u2 p :
  (∀ e, e ∈ u1 → passes (ev_call e) → e ∈ u2) → source_read u1 p → source_read u2 p.
Proof. intros Hu ((n & ns & H1) & H2 & H3). split_and!; [exists n, ns|..]; [by apply Hu|by apply Hu|done]. Qed.

Lemma creation_seen u1 u2 k (o : kobj k) :
  (∀ e, e ∈ u1 → passes (ev_call e) → e ∈ u2) →
  creation_allowed b u1 (Create k o) → creation_allowed b u2 (Create k o).
Proof.
  intros Hu. destruct k; try done.
  - intros (Hpv & p & name & pvName & Hs & ? & ?). split.
    + destruct Hpv as [(pv & H1)|(pv & r & H1 & ? & ?)]; [left; exists pv|right; exists pv, r; split_and!; try done];
        by apply (Hu _ H1).
    + exists p, name, pvName. split_and!; [by eapply source_read_seen|done..].
  - intros (p & name & driver & handle & ref & Hs & ? & ?). exists p, name, driver, handle, ref.
    split_and!; [by eapply source_read_seen|done..].
Qed.

Lemma wp_pass_on u1 u2 s c :
  passes c → no_creation c → provision_allowed u2 c → provision_sees u2 u1 s →
  W (pass_on c s) u2 (fun u2' x => provision_sees u2' (u1 ++ [Ev c x.2]) x.1).
Proof.
  intros Hp Hn Hg [Hok Hu]. split; [done|]. intros r. split; [by apply caches_ok_keep|]. cbn [fst snd].
  intros e. rewrite !elem_of_app, !list_elem_of_singleton. intros [He| ->] Hpe; [left; by apply Hu|by right].
Qed.

Lemma wp_provider u1 u2 s c :
  provision_sees u2 u1 s → creation_allowed b u1 c →
  W (provider ty b c s) u2 (fun u2' x => provision_sees u2' (u1 ++ [Ev c x.2]) x.1).
Proof.
  intros Hsees Hc. pose proof Hsees as [Hok Hu].
  assert (Hlate : ∀ c u2' s' (r : resp c), u2 `prefix_of` u2' → ok u2' s' → ¬ passes c →
            provision_sees u2' (u1 ++ [Ev c r]) s').
  { intros c' u2' s' r [k ->] Hok' Hn. split; [done|]. intros e.
    rewrite elem_of_app, list_elem_of_singleton. intros [He| ->] Hpe; [|done].
    apply elem_of_app. left. by apply Hu. }
  destruct c; try (by apply wp_pass_on).
  - apply wp_pass_on; [done|done| |done]. by eapply creation_seen.
  - destruct Hc as [-> Hall]. apply wp_bind. eapply wp_post.
    + apply wp_prefix, wp_run_ProvisionVolumeCb; [|exact Hok].
      eapply Forall_impl; [exact Hall|]. intros p. by apply source_read_seen.
    + intros u3 [s3 r3] [Hu3 Hok3]. apply wp_ret. by apply Hlate; [| |intros []].
  - cbn in Hc. rewrite Hc. eapply wp_post; [by apply wp_prefix, wp_VolumeMapping_keys|].
    intros u3 [s3 r3] [Hu3 Hok3]. by apply Hlate; [| |intros []].
Qed.

Lemma wp_run_provision : W (run_provision ty b no_caches) [] (fun _ _ => True).
Proof.
  eapply wp_post; [|done]. apply (wp_link (creation_allowed b) _ provision_sees _ _ _ [] [] (fun _ _ => True)).
  - intros u1 u2 s c. apply wp_provider.
  - split; [apply no_caches_ok|]. by intros e ?%elem_of_nil.
  - apply wp_base_ProvisionVolumes.
Qed.

End Provisioning.

(** ** Properties *)

Section Properties.

Context {steps : RetrySteps} {lk : Lookups} {ve : VastErrors} {ic : IgnoreCodes} {sd : ShowDuration}
  {qs : Quantities} {pt : ParseTime}.

Lemma provision_run_allowed ty b t a t1 c r t2 :
  runs (run_provision ty b no_caches) t a → t = t1 ++ Ev c r :: t2 → provision_allowed ty b t1 c.
Proof. intros Hr ->. destruct (wp_sound _ _ [] _ _ _ (wp_run_provision ty b) Hr) as [_ H]. by eapply H. Qed.

(** C9. A block volume is created at most once and only where it is missing: in
    every run of [ProvisionVolumes], a creation request goes to the content's
    own cluster, whose protected path was read in this run and is not the
    destination, after a listing of that cluster that has no volume of this
    name and without an earlier successful creation of it in the run; name,
    size and view come from a bound source PVC read in the run, and from the
    subsystem that holds the replicated directory. *)
Theorem block_volumes_created_once (ty : ProvisionerType) (b : base) (t t1 t2 : Trace)
    (a : caches * option error) (cl : string) (p : VolumeParams) (r : result VolumeModel) :
  runs (run_provision ty b no_caches) t a → t = t1 ++ Ev (Vms cl (VolumeCreate p)) r :: t2 →
  is_block ty = true ∧ cl = sc_Name (sourceSc b) ∧
  (∃ l, Ev (Vms cl (VolumeList (subsystem_of (sourceSc b)) (volume_filter b))) (inr l) ∈ t1 ∧
     ∀ v, v ∈ l → trim_slashes (volume_Name v) ≠ trim_slashes (vol_name p)) ∧
  (∀ p' v, Ev (Vms cl (VolumeCreate p')) (inr v) ∈ t1 → trim_slashes (vol_name p') ≠ trim_slashes (vol_name p)) ∧
  ∃ view pvc csi, subsystem_read b t1 view ∧ csi_source t1 pvc csi ∧ volume_for b pvc csi (view_Id view) p.
Proof.
  intros Hr Ht. destruct (provision_run_allowed _ _ _ _ _ _ _ _ Hr Ht) as (-> & Hb & (Hl & Hm) & Hsrc).
  split_and!; [done|done|exact Hl| |done]. intros p' v Hv. apply (Hm _ v). by eexists.
Qed.

(** C10. Views follow the replicated data, quotas follow the views: a view is
    only created for the path of a source PVC after the cluster has answered
    that this path exists for the tenant of the view policy, and when neither
    the listing of the run nor an earlier creation has it; a quota is only
    created for a path whose view was listed or created in the run, with the
    tenant of that view and the size the PVC requests. *)
Theorem file_objects_created_in_order (ty : ProvisionerType) (b : base) (t t1 t2 : Trace)
    (a : caches * option error) (cl : string) :
  runs (run_provision ty b no_caches) t a →
  (∀ p r, t = t1 ++ Ev (Vms cl (ViewCreate p)) r :: t2 →
     is_block ty = false ∧ cl = sc_Name (sourceSc b) ∧ view_absent b t1 (vw_path p) ∧
     (∃ stat, Ev (Vms cl (FolderStatPath (vw_path p) (vw_tenant_id p))) (inr stat) ∈ t1) ∧
     ∃ pvc csi, csi_source t1 pvc csi ∧ view_for b (BackendObjectKey b (csi_VolumeHandle csi)) p) ∧
  (∀ p r, t = t1 ++ Ev (Vms cl (QuotaCreate p)) r :: t2 →
     is_block ty = false ∧ cl = sc_Name (sourceSc b) ∧ quota_absent b t1 (quo_path p) ∧
     ∃ pvc csi, csi_source t1 pvc csi ∧
       quota_for b pvc csi (BackendObjectKey b (csi_VolumeHandle csi)) t1 p).
Proof.
  intros Hr. split; intros p r Ht; destruct (provision_run_allowed _ _ _ _ _ _ _ _ Hr Ht) as (-> & Hb & Habs & Hrest).
  - destruct Hrest as [Hseen Hsrc]. done.
  - done.
Qed.

(** Provisioning is confined: every request to a cluster goes to the
    content's own one; whatever is not a read is a creation or a deletion of
    a volume, a view or a quota; a block provisioner writes only after the
    cluster was read not to be the destination; and nothing is deleted while
    mirrors are synchronised, when the CSI driver deletes with the mirror. *)
Theorem cluster_writes_confined (ty : ProvisionerType) (b : base) (t t1 t2 : Trace)
    (a : caches * option error) (cl : string) (q : VmsCall) (r : vms_resp q) :
  runs (run_provision ty b no_caches) t a → t = t1 ++ Ev (Vms cl q) r :: t2 →
  cl = sc_Name (sourceSc b) ∧
  match q with
  | VolumeCreate _ => ∃ pp, source_ppath b t1 pp
  | ViewCreate _ | QuotaCreate _ => is_block ty = false
  | VolumeDeleteById _ => vrc_SyncPVCPV (vrc_Spec (rp b)) = false ∧ ∃ pp, source_ppath b t1 pp
  | ViewDeleteById _ | QuotaDeleteById _ => vrc_SyncPVCPV (vrc_Spec (rp b)) = false
  | q => vms_read q
  end.
Proof.
  intros Hr Ht. destruct (provision_run_allowed _ _ _ _ _ (Vms cl q) r _ Hr Ht) as [-> Hq].
  split; [done|]. destruct q; try done; cbn in Hq; try (by destruct Hq as (? & ? & _)).
  - destruct Hq as (_ & _ & view & pvc & csi & (pp & Hpp & _) & _). by exists pp.
  - destruct Hq as (_ & Hs & Hpp & _). done.
Qed.

End Properties.

(** ** Witnesses *)

Definition demo_ignore : IgnoreCodes := fun err codes =>
  match err with
  | Some (ErrRest c _) => if bool_decide (c ∈ codes) then None else err
  | _ => err
  end.
Definition demo_quantities : Quantities := fun s => Z.of_nat (String.length s).
Definition demo_parse : ParseTime := fun _ => None.
#[local] Existing Instances demo_lookups demo_errors demo_show demo_ignore demo_quantities demo_parse.
#[local] Instance demo_steps : RetrySteps := 2.

Definition demo_class : StorageClass :=
  mkSC "silver" "csi.vastdata.com"
    {["root_export" := "/k8s"; "view_policy" := "default"; "subsystem" := "sub";
      "csi.storage.k8s.io/provisioner-secret-name" := "s";
      "csi.storage.k8s.io/provisioner-secret-namespace" := "ns"]} ["nfsvers=4.1"].

Definition demo_provisioner (ty : ProvisionerType) : base :=
  mkBase (demo_vrc "a-silver" "silver" []) demo_class "gold" DefaultPVCNameFormat DefaultPVNameFormat
    ((if is_block ty then block_BackendObjectKey else file_BackendObjectKey) demo_class).

(** A cluster that is the source of the replication and holds nothing yet. *)
Definition demo_source_cluster (c : Call) (s : unit) : unit * resp c :=
  match c return unit * resp c with
  | Vms _ q =>
      (s, match q return vms_resp q with
          | PpathGet n => inr (mkPpath 9 n true "ACTIVE" "" "Source" "/sub/k8s" [] 1)
          | ViewGet n tenant => inr (mkView 5 ("/" +:+ n) tenant)
          | FolderStatPath _ _ => inr (mkFolderStat true 0)
          | q => vms_quiet q
          end)
  | c => mirror_handler (inr demo_source_pv) c s
  end.

Definition demo_provision (ty : ProvisionerType) : Prog (caches * option error) :=
  run_provision ty (demo_provisioner ty) no_caches.
Definition demo_provision_run (ty : ProvisionerType) := exec demo_source_cluster (demo_provision ty) tt.

Lemma block_volumes_created_once_witness :
  let p := mkVolumeParams "k8s/pvc-1" 5 3 None in
  let t := (demo_provision_run ProvisionerTypeBlock).1.2 in
  t = take 6 t ++ Ev (Vms "silver" (VolumeCreate p)) (inr (mkVolume 1 "k8s/pvc-1")) :: drop 7 t ∧
  ∃ view, subsystem_read (demo_provisioner ProvisionerTypeBlock) (take 6 t) view ∧ view_Id view = 5%Z.
Proof.
  intros p t.
  assert (Ht : t = take 6 t ++ Ev (Vms "silver" (VolumeCreate p)) (inr (mkVolume 1 "k8s/pvc-1")) :: drop 7 t)
    by evaluates.
  split; [exact Ht|].
  destruct (block_volumes_created_once ProvisionerTypeBlock (demo_provisioner ProvisionerTypeBlock) t
    (take 6 t) (drop 7 t) _ "silver" p _
    (exec_runs demo_source_cluster (demo_provision ProvisionerTypeBlock) tt) Ht)
    as (_ & _ & _ & _ & view & pvc & csi & Hv & _ & _ & Hid & _).
  exists view. split; [exact Hv|]. symmetry. exact Hid.
Defined.

Lemma file_objects_created_in_order_witness :
  let t := (demo_provision_run ProvisionerTypeFile).1.2 in
  let p := mkViewParams "/k8s/pvc-1" 3 1 ["NFS4"] None None in
  t = take 5 t ++ Ev (Vms "silver" (ViewCreate p)) (inr (mkView 1 "/k8s/pvc-1" 1)) :: drop 6 t ∧
  view_absent (demo_provisioner ProvisionerTypeFile) (take 5 t) "/k8s/pvc-1".
Proof.
  intros t p.
  assert (Ht : t = take 5 t ++ Ev (Vms "silver" (ViewCreate p)) (inr (mkView 1 "/k8s/pvc-1" 1)) :: drop 6 t)
    by evaluates.
  split; [exact Ht|].
  destruct (file_objects_created_in_order ProvisionerTypeFile (demo_provisioner ProvisionerTypeFile) t
    (take 5 t) (drop 6 t) _ "silver"
    (exec_runs demo_source_cluster (demo_provision ProvisionerTypeFile) tt)) as [Hview _].
  exact (proj1 (proj2 (proj2 (Hview p _ Ht)))).
Defined.

Lemma cluster_writes_confined_witness :
  let t := (demo_provision_run ProvisionerTypeFile).1.2 in
  let p := mkQuotaParams "pvc-1" "/k8s/pvc-1" 1 3 in
  t = take 7 t ++ Ev (Vms "silver" (QuotaCreate p)) (inr (mkQuota 1 "/k8s/pvc-1")) :: drop 8 t ∧
  "silver" = sc_Name (sourceSc (demo_provisioner ProvisionerTypeFile)).
Proof.
  intros t p.
  assert (Ht : t = take 7 t ++ Ev (Vms "silver" (QuotaCreate p)) (inr (mkQuota 1 "/k8s/pvc-1")) :: drop 8 t)
    by evaluates.
  split; [exact Ht|].
  exact (proj1 (cluster_writes_confined ProvisionerTypeFile (demo_provisioner ProvisionerTypeFile) t
    (take 7 t) (drop 8 t) _ "silver" (QuotaCreate p) (inr (mkQuota 1 "/k8s/pvc-1"))
    (exec_runs demo_source_cluster (demo_provision ProvisionerTypeFile) tt) Ht)).
Defined.
