(* ===== verification/ProvisionerCleanup.v ===== *)
(** * Runs of CleanVolumes, and the content controller with its provisioner

    The order in which a deleted content is taken apart — replication
    stopped, snapshots, protected path, objects on the cluster, mirrors — and
    what is true when [CleanVolumes] succeeds; then [Reconcile] of
    [ContentController] linked with the provisioners, which carries the
    finalizer protocol down to the requests sent to the cluster. *)

From S2P Require Import Prelude GoErrors Topology Kube Naming Peers PpathDir Lookups Programs Api ContentController Client Ppath Mirrors Provisioner ProvisionerRules ProvisionerRuns.
From stdpp Require Import options.

Section Cleaning.

Context {steps : RetrySteps} {lk : Lookups} {ve : VastErrors} {ic : IgnoreCodes} {sd : ShowDuration}
  {qs : Quantities} {pt : ParseTime}.

Variable ty : ProvisionerType.
Variable b : base.
Notation sc := (sourceSc b).
Notation cl := (sc_Name (sourceSc b)).
Notation ppathName := (vrc_ProtectedPathName (vrc_Spec (rp b))).

Definition ppath_read (t : Trace) (pp : Ppath) : Prop := Ev (Vms cl (PpathGet ppathName)) (inr pp) ∈ t.
Definition ppath_unknown (t : Trace) : Prop :=
  ∃ e, Ev (Vms cl (PpathGet ppathName)) (inl e) ∈ t ∧ vast_IsNotFoundErr e = true.

(** The protected path is not replicating any more. *)
Definition stopped (t : Trace) : Prop :=
  ppath_unknown t ∨
  ∃ pp, ppath_read t pp ∧ (pp_Enabled pp = false ∨
    ∃ u, Ev (Vms cl (PpathSetEnabled (pp_Id pp) false)) (inr u) ∈ t).

(** The delay after that, in this run or an earlier one. *)
Definition waited (t : Trace) : Prop :=
  map_get (Annotations (vrc_Meta (rp b))) AnnotationSnapshotCleanupWaitDone = "true" ∨
  Ev (Sleep VMS_SNAPSHOT_DISCOVERY_INTERVAL) tt ∈ t.

(** The content as the rest of the cleanup uses it. *)
Definition content_now (t : Trace) (v : VRC) : Prop :=
  v = rp b ∨ ∃ w, Ev (Patch kVRC w (set_meta kVRC w
    (SetAnnotation (vrc_Meta w) AnnotationSnapshotCleanupWaitDone "true"))) (inr v) ∈ t.

Definition snapshot_dir (v : VRC) : string := trim_slashes (vrc_ReplicationPath (vrc_Spec v)) +:+ "/".

(** The snapshots of every policy were listed, and the deletion of each was
    requested. *)
Definition snapshots_removed (t : Trace) (v : VRC) : Prop :=
  ∀ policy, policy ∈ vrc_ProtectionPolicyNames (vrc_Spec v) →
    ∃ l, Ev (Vms cl (SnapshotList (snapshot_dir v) policy)) (inr l) ∈ t ∧
      ∀ sn, sn ∈ l → ∃ r, Ev (Vms cl (SnapshotDeleteById (snapshot_Id sn))) r ∈ t.

(** The cluster has no such protected path any more. *)
Definition ppath_gone (t : Trace) : Prop :=
  ppath_unknown t ∨
  ∃ pp, ppath_read t pp ∧
    ((∃ e, Ev (Vms cl (PpathDeleteById (pp_Id pp))) (inl e) ∈ t ∧
       vast_IsNotFoundErr e || vast_ExpectStatusCodes e [404%Z] = true) ∨
     (∃ u, Ev (Vms cl (PpathDeleteById (pp_Id pp))) (inr u) ∈ t ∧
       Ev (Vms cl (PpathExists (pp_Name pp))) (inr false) ∈ t)).

(** Everything up to the protected path is done. *)
Definition torn_down (t : Trace) (v : VRC) : Prop :=
  content_now t v ∧ stopped t ∧ waited t ∧ snapshots_removed t v ∧ ppath_gone t.

(** Objects on the cluster are only deleted for source PVCs of other contents
    of the constellation, without mirrors and under the Delete policy. *)
Definition object_deleted (t : Trace) (v : VRC) (handle : string) : Prop :=
  vrc_SyncPVCPV (vrc_Spec v) = false ∧ policy_read DestVolReclaimPolicyDelete t ∧
  ∃ p, source_read t p ∧ handle = handle_of p.2 ∧ handle ≠ "".

Definition clean_vms (t : Trace) (q : VmsCall) : Prop :=
  match q with
  | PpathSetEnabled id enabled => enabled = false ∧ ∃ pp, ppath_read t pp ∧ pp_Enabled pp = true ∧ id = pp_Id pp
  | SnapshotDeleteById id =>
      stopped t ∧ waited t ∧
      ∃ v policy l sn, content_now t v ∧ policy ∈ vrc_ProtectionPolicyNames (vrc_Spec v) ∧
        Ev (Vms cl (SnapshotList (snapshot_dir v) policy)) (inr l) ∈ t ∧ sn ∈ l ∧ id = snapshot_Id sn
  | PpathDeleteById id =>
      stopped t ∧ waited t ∧ (∃ v, content_now t v ∧ snapshots_removed t v) ∧
      ∃ pp, ppath_read t pp ∧ id = pp_Id pp
  | VolumeDeleteById id =>
      is_block ty = true ∧
      ∃ v handle vol, torn_down t v ∧ object_deleted t v handle ∧
        volume_known b t (BackendObjectKey b handle) vol ∧ id = volume_Id vol
  | ViewDeleteById id =>
      is_block ty = false ∧
      ∃ v handle view, torn_down t v ∧ object_deleted t v handle ∧
        view_known b t (BackendObjectKey b handle) view ∧ id = view_Id view
  | QuotaDeleteById id =>
      is_block ty = false ∧
      ∃ v handle quota, torn_down t v ∧ object_deleted t v handle ∧
        quota_known b t (BackendObjectKey b handle) quota ∧ id = quota_Id quota
  | q => vms_read q
  end.

Definition clean_allowed (t : Trace) (c : Call) : Prop :=
  match c with
  | Vms cl' q => cl' = cl ∧ clean_vms t q
  | Get _ _ _ | List _ _ _ | Now | Sleep _ => True
  | Patch kVRC w o =>
      stopped t ∧ o = set_meta kVRC w (SetAnnotation (vrc_Meta w) AnnotationSnapshotCleanupWaitDone "true")
  | Patch kPVC _ _ | Patch kPV _ _ | Update kPVC _ | Delete kPVC _ =>
      ∃ v, torn_down t v ∧ orphan_allowed (with_rp b v) v sc ∅ t c
  | Delete kVR o =>
      ∃ v l, torn_down t v ∧ Ev (List kVR (Namespace (vrc_Meta v)) (vr_selector v)) (inr l) ∈ t ∧ o ∈ l
  | Delete kVGR o =>
      ∃ v l, torn_down t v ∧ Ev (List kVGR (Namespace (vrc_Meta v)) (vgr_selector v)) (inr l) ∈ t ∧ o ∈ l
  | _ => False
  end.

(** *** Facts about the past stay true *)

Ltac past := intros Hsub; unfold stopped, waited, content_now, snapshots_removed, ppath_gone, ppath_unknown,
  ppath_read; naive_solver.

Lemma stopped_mono t t' : t ⊆ t' → stopped t → stopped t'.
Proof. past. Qed.
Lemma waited_mono t t' : t ⊆ t' → waited t → waited t'.
Proof. past. Qed.
Lemma content_now_mono t t' v : t ⊆ t' → content_now t v → content_now t' v.
Proof. past. Qed.
Lemma ppath_gone_mono t t' : t ⊆ t' → ppath_gone t → ppath_gone t'.
Proof. past. Qed.
Lemma snapshots_removed_mono t t' v : t ⊆ t' → snapshots_removed t v → snapshots_removed t' v.
Proof.
  intros Hsub Hs policy Hp. destruct (Hs policy Hp) as (l & Hl & Hd). exists l. split; [by apply Hsub|].
  intros sn Hsn. destruct (Hd sn Hsn) as [r Hr]. exists r. by apply Hsub.
Qed.
Lemma torn_down_mono t t' v : t ⊆ t' → torn_down t v → torn_down t' v.
Proof.
  intros Hsub (? & ? & ? & ? & ?). split_and!; eauto using stopped_mono, waited_mono, content_now_mono,
    ppath_gone_mono, snapshots_removed_mono.
Qed.

Lemma prefix_sub (t t' : Trace) : t `prefix_of` t' → t ⊆ t'.
Proof. intros [k ->] x ?. apply elem_of_app. by left. Qed.
Lemma snoc_sub (t : Trace) e : t ⊆ t ++ [e].
Proof. apply prefix_sub. by apply prefix_app_r. Qed.
#[local] Hint Resolve prefix_sub snoc_sub in_snoc : past.

Notation ok := (caches_ok b ppathName).
Notation W := (wp clean_allowed).

Lemma clean_reads h c : is_read cl c → clean_allowed h c.
Proof. destruct c as [| | | | | | | | | | | | | |sc' []| | | |]; done || by intros []. Qed.
#[local] Hint Resolve clean_reads : core.

Lemma clean_creates_nothing h c : clean_allowed h c → no_creation c.
Proof.
  destruct c as [| | | | | | | | | | | | | |sc' []| | | |]; try done;
    try (destruct k; done); by intros [].
Qed.

(** Nothing done in a cleanup makes the caches wrong. *)
Lemma wp_keeps {A} (p : Prog A) s h Q :
  ok h s → W p h Q → W p h (fun h' a => h `prefix_of` h' ∧ ok h' s ∧ Q h' a).
Proof.
  intros Hok Hp. apply wp_prefix. apply (wp_inv _ (fun h => ok h s)); [|done|done].
  intros h' c r Hc. by eapply caches_ok_keep, clean_creates_nothing.
Qed.

(** *** The steps *)

Lemma wp_disablePpath s h :
  NewFromStorageClass sc = inr tt → ok h s →
  W (disablePpath b s) h (fun h' x => ok h' x.1 ∧ ∀ o, x.2 = inr o →
    stopped h' ∧ match o with None => ppath_unknown h' | Some pp => ppath_read h' pp end).
Proof.
  intros client Hok. apply wpP_bind, wpP_attempt.
  eapply wp_post; [apply (wp_getPPath b ppathName); [auto|done|done]|].
  intros h1 [s1 [e|pp]] [Hok1 Hp]; cbn [fst snd] in *.
  - specialize (Hp client). destruct (vast_IsNotFoundErr e) eqn:He; apply wp_ret; (split; [done|]); [|done].
    intros ? [= <-]. assert (ppath_unknown h1) by (by exists e). split; [by left|done].
  - destruct (pp_Enabled pp) eqn:Hen; [|apply wp_ret; split; [done|]; intros ? [= <-]; split; [|done];
      right; exists pp; auto].
    apply wpP_bind, wpP_wrapping, wpP_lift. split; [split; [done|]; split; [done|by exists pp]|].
    intros r. apply wp_ret. assert (Hok2 : ok (h1 ++ [Ev (Vms cl (PpathSetEnabled (pp_Id pp) false)) r]) s1)
      by (by apply caches_ok_keep).
    destruct r as [e|u]; cbn [fst snd wrap_err]; [done|]. apply wp_ret. split; [done|]. intros ? [= <-].
    assert (Hpp : ppath_read (h1 ++ [Ev (Vms cl (PpathSetEnabled (pp_Id pp) false)) (inr u)]) pp)
      by (by apply snoc_sub).
    split; [|done]. right. exists pp. split; [done|]. right. exists u. apply in_snoc.
Qed.

Lemma wp_waitAfterPpathDisable h :
  stopped h →
  W (waitAfterPpathDisable (rp b)) h (fun h' x => x.2 = None → waited h' ∧ content_now h' x.1).
Proof.
  intros Hs. unfold waitAfterPpathDisable. case_bool_decide as Ha.
  { apply wp_ret. intros _. split; by left. }
  apply wp_bind_call; [done|]. intros []. set (h1 := h ++ _). apply wp_bind.
  unfold SetAnnotationAndUpdate, PatchWithRetry. apply wp_bind, wp_bind, wp_PatchWithRetry_capturing.
  - intros h2 c Hh2 [->|[w ->]]; [done|]. split; [|done]. eapply stopped_mono; [|exact Hs].
    apply prefix_sub. etrans; [|exact Hh2]. by apply prefix_app_r.
  - intros h2 o' x' e Hh2. by repeat apply wp_ret.
  - intros h2 w o' Hh2 Hw. repeat apply wp_ret. intros _. split.
    + right. eapply prefix_sub; [exact Hh2|]. apply in_snoc.
    + right. by exists w.
Qed.

Lemma wp_delete_listed l h v policy :
  stopped h → waited h → content_now h v → policy ∈ vrc_ProtectionPolicyNames (vrc_Spec v) →
  ∀ rest, (∀ sn, sn ∈ rest → sn ∈ l) →
  Ev (Vms cl (SnapshotList (snapshot_dir v) policy)) (inr l) ∈ h →
  W (delete_listed sc rest) h (fun h' _ => ∀ sn, sn ∈ rest →
    ∃ r, Ev (Vms cl (SnapshotDeleteById (snapshot_Id sn))) r ∈ h').
Proof.
  intros Hs Hw Hc Hp rest. revert h Hs Hw Hc. induction rest as [|sn rest IH]; intros h Hs Hw Hc Hsub Hl.
  { apply wp_ret. by intros ? ?%elem_of_nil. }
  apply wp_bind_call.
  { split; [done|]. split_and!; [done|done|]. exists v, policy, l, sn. split_and!; try done. apply Hsub. set_solver. }
  intros r. set (h1 := h ++ _). assert (Hh1 : h ⊆ h1) by apply snoc_sub.
  eapply wp_post; [apply wp_prefix, IH; eauto using stopped_mono, waited_mono, content_now_mono|].
  { intros sn' ?. apply Hsub. set_solver. }
  intros h2 _ [Hh2 Hd] sn' [->|?]%elem_of_cons; [|by apply Hd].
  exists r. apply (prefix_sub _ _ Hh2). apply in_snoc.
Qed.

Lemma wp_deleteSnapshots h v :
  stopped h → waited h → content_now h v →
  W (deleteSnapshots sc (vrc_ReplicationPath (vrc_Spec v)) (vrc_ProtectionPolicyNames (vrc_Spec v))) h
    (fun h' err => err = None → snapshots_removed h' v).
Proof.
  intros Hs Hw Hc. unfold deleteSnapshots, snapshots_removed. fold (snapshot_dir v).
  assert (Hgen : ∀ rest h, stopped h → waited h → content_now h v →
    (∀ p, p ∈ rest → p ∈ vrc_ProtectionPolicyNames (vrc_Spec v)) →
    W (delete_snapshots sc (snapshot_dir v) rest) h (fun h' err => err = None → ∀ policy, policy ∈ rest →
      ∃ l, Ev (Vms cl (SnapshotList (snapshot_dir v) policy)) (inr l) ∈ h' ∧
        ∀ sn, sn ∈ l → ∃ r, Ev (Vms cl (SnapshotDeleteById (snapshot_Id sn))) r ∈ h')); [|by apply Hgen].
  clear h Hs Hw Hc. induction rest as [|policy rest IH]; intros h Hs Hw Hc Hsub.
  { apply wp_ret. by intros _ ? ?%elem_of_nil. }
  apply wp_bind_call; [done|]. intros [e|l]; [by apply wp_ret|]. set (h1 := h ++ _).
  assert (Hh1 : h ⊆ h1) by apply snoc_sub.
  apply wp_bind. eapply wp_post.
  - apply wp_prefix, (wp_delete_listed l h1 v policy);
      [eauto using stopped_mono|eauto using waited_mono|eauto using content_now_mono|set_solver|done|apply in_snoc].
  - intros h2 _ [Hh2%prefix_sub Hd]. assert (Hh : h ⊆ h2) by (by etrans).
    eapply wp_post; [apply wp_prefix, IH; eauto using stopped_mono, waited_mono, content_now_mono|].
    { intros p ?. apply Hsub. set_solver. }
    intros h3 err [Hh3%prefix_sub Hrest] Herr p [->|?]%elem_of_cons; [|by apply Hrest].
    exists l. split; [apply Hh3, Hh2, in_snoc|]. intros sn Hsn. destruct (Hd sn Hsn) as [r Hr].
    exists r. by apply Hh3.
Qed.

Lemma wp_deletePpath h v pp :
  stopped h → waited h → content_now h v → snapshots_removed h v → ppath_read h pp →
  W (deletePpath sc pp) h (fun h' err => err = None → ppath_gone h').
Proof.
  intros Hs Hw Hc Hr Hpp. apply wp_bind_call.
  { split; [done|]. split_and!; [done|done|by exists v|by exists pp]. }
  intros r. set (h1 := h ++ _). assert (Hh1 : h ⊆ h1) by apply snoc_sub.
  destruct r as [e|u].
  { apply wp_ret. intros He. right. exists pp. split; [by apply Hh1|]. left. exists e. split; [apply in_snoc|].
    by destruct (vast_IsNotFoundErr e || vast_ExpectStatusCodes e [404%Z]). }
  apply wp_bind. unfold WaitForResource. apply wp_bind.
  apply (wp_WaitResource _ _ _ _ _ _ (fun h' _ => Ev (Vms cl (PpathExists (pp_Name pp))) (inr false) ∈ h')).
  - done.
  - done.
  - intros h2 Hh2. apply wp_bind_call; [done|]. intros r. apply wp_ret.
    destruct r as [e|[]]; cbn; intros a [= <-]. apply in_snoc.
  - intros h2 r Hh2%prefix_sub Hgone. apply wp_ret, wp_ret. destruct r as [e|[]]; [done|]. intros _.
    right. exists pp. split; [by apply Hh2, Hh1|]. right. exists u. split; [apply Hh2, in_snoc|by apply (Hgone tt)].
Qed.

(** *** Objects on the cluster *)

Definition source_pairs_read (t : Trace) (pairs : list VolumePair) : Prop :=
  Forall (fun p => source_read t p ∧ handle_of p.2 ≠ "") pairs.

Lemma source_pairs_mono t t' pairs : t `prefix_of` t' → source_pairs_read t pairs → source_pairs_read t' pairs.
Proof.
  intros Hp Hall. eapply Forall_impl; [exact Hall|]. intros p [? ?]. split; [by eapply source_read_mono|done].
Qed.

Lemma wp_sibling_pvcs w ns names acc h (Q : Trace → result (list VolumePair) → Prop) :
  source_pairs_read h acc → (∀ h' e, h `prefix_of` h' → Q h' (inl e)) →
  (∀ h' l, h `prefix_of` h' → source_pairs_read h' l → Q h' (inr l)) →
  wp (creation_allowed w) (sibling_pvcs ns names acc) h Q.
Proof.
  revert acc h. induction names as [|n names IH]; intros acc h Hacc He HQ; [by apply HQ|].
  cbn [sibling_pvcs]. apply wp_bind, wp_mirror_GetPVCandPV. intros h1 r Hh1 Hr.
  assert (Hnext : ∀ acc', source_pairs_read h1 acc' → wp (creation_allowed w) (sibling_pvcs ns names acc') h1 Q).
  { intros acc' Ha. apply IH; [done|intros; apply He; by etrans|intros; apply HQ; [by etrans|done]]. }
  assert (Hacc1 : source_pairs_read h1 acc) by (by eapply source_pairs_mono).
  destruct r as [e|[pvc [pv|]]]; [case_match; [by apply Hnext|by apply wp_ret, He]| |by apply Hnext].
  destruct (is_managed (pvc_Meta pvc)) eqn:Hm; [by apply Hnext|]. case_bool_decide; [by apply Hnext|].
  apply Hnext, Forall_app. split; [done|]. apply Forall_singleton. split; [|done].
  destruct (Hr pvc pv eq_refl). split_and!; [by exists n, ns|done|done].
Qed.

Lemma wp_sibling_vrcs w b' vrcs acc h (Q : Trace → result (list VolumePair) → Prop) :
  source_pairs_read h acc → (∀ h' e, h `prefix_of` h' → Q h' (inl e)) →
  (∀ h' l, h `prefix_of` h' → source_pairs_read h' l → Q h' (inr l)) →
  wp (creation_allowed w) (sibling_vrcs b' vrcs acc) h Q.
Proof.
  revert acc h. induction vrcs as [|v vrcs IH]; intros acc h Hacc He HQ; [by apply HQ|].
  cbn [sibling_vrcs]. case_bool_decide; [by apply IH|].
  apply wp_bind, wp_sibling_pvcs; [done|by intros; apply wp_ret, He|].
  intros h1 l Hh1 Hl. apply IH; [done|intros; apply He; by etrans|intros; apply HQ; [by etrans|done]].
Qed.

Lemma wp_sourcePairs w b' h :
  wp (creation_allowed w) (sourcePairsFromSiblingVRCs b') h
    (fun h' r => ∀ l, r = inr l → source_pairs_read h' l).
Proof.
  apply wp_bind, wp_constellation. intros h1 [e|vrcs] Hh1; [by apply wp_ret|].
  apply wp_sibling_vrcs; [by apply Forall_nil|naive_solver|naive_solver].
Qed.

Lemma calls_in_sourcePairs b' : calls_in (is_read cl) (sourcePairsFromSiblingVRCs b').
Proof.
  assert (Hpvc : ∀ n ns, calls_in (is_read cl) (GetPVCandPV n ns)) 
    by (intros; unfold GetPVCandPV, GetPVFromPVC; by repeat calls_step).
  assert (Hpvcs : ∀ ns names acc, calls_in (is_read cl) (sibling_pvcs ns names acc)).
  { intros ns names. induction names as [|n names IH]; intros acc; [done|].
    cbn [sibling_pvcs]. apply calls_in_bind; [apply Hpvc|]. intros [e|[pvc [pv|]]]; repeat case_match; by try apply IH. }
  assert (Hvrcs : ∀ vrcs acc, calls_in (is_read cl) (sibling_vrcs b' vrcs acc)).
  { intros vrcs. induction vrcs as [|v vrcs IH]; intros acc; [done|].
    cbn [sibling_vrcs]. case_match; [apply IH|]. apply calls_in_bind; [apply Hpvcs|].
    intros [e|acc']; [done|apply IH]. }
  apply calls_in_bind.
  - unfold constellation, ListVastReplicationContentsByLabelSelector. by repeat calls_step.
  - intros [e|vrcs]; [done|apply Hvrcs].
Qed.

Lemma calls_in_shouldRetain b' : calls_in (is_read cl) (shouldRetainDestVolumes b').
Proof.
  unfold shouldRetainDestVolumes, lookupDestVolReclaimPolicy, from_parent, sourceVSCR, sourceVVR,
    GetVastStorageClassReplication, GetVastVolumeReplication. by repeat calls_step.
Qed.

(** The PVCs whose objects go. *)
Lemma wp_pairs_to_clean v s h :
  ok h s →
  W (pairs_to_clean (with_rp b v) v s) h (fun h' x => ok h' x.1 ∧ ∀ pairs, x.2 = inr pairs →
    source_pairs_read h' pairs ∧
    (pairs ≠ [] → vrc_SyncPVCPV (vrc_Spec v) = false ∧ policy_read DestVolReclaimPolicyDelete h')).
Proof.
  assert (Hnil : ∀ h', source_pairs_read h' [] ∧ ([] ≠ ([] : list VolumePair) →
            vrc_SyncPVCPV (vrc_Spec v) = false ∧ policy_read DestVolReclaimPolicyDelete h')).
  { intros h'. split; [apply Forall_nil; done|done]. }
  intros Hok. unfold pairs_to_clean. destruct (vrc_SyncPVCPV (vrc_Spec v)) eqn:Hsync.
  { apply wp_ret. split; [done|]. by intros ? [= <-]. }
  apply wpP_bind, wpP_lift. eapply wp_post.
  - apply (wp_reads_post b ppathName clean_allowed clean_reads
      (orphan_allowed (with_rp b v) v sc ∅) (shouldRetainDestVolumes (with_rp b v)) s h
      (fun h' r => r = inr false → policy_read DestVolReclaimPolicyDelete h'));
      [apply calls_in_shouldRetain|done|]. by apply wp_shouldRetain.
  - intros h1 [e|[]] (Hh1 & Hok1 & Hpol); cbn [fst snd]; [done|by apply wp_ret; split; [|intros ? [= <-]]|].
    specialize (Hpol eq_refl). apply wpP_wrapping, wpP_lift. eapply wp_post.
    + apply (wp_reads_post b ppathName clean_allowed clean_reads (creation_allowed b)
        (sourcePairsFromSiblingVRCs (with_rp b v)) s h1 (fun h' r => ∀ l, r = inr l → source_pairs_read h' l));
        [apply calls_in_sourcePairs|done|apply wp_sourcePairs].
    + intros h2 [e|pairs] (Hh2 & Hok2 & Hl); cbn [fst snd wrap_err]; [done|]. split; [done|].
      intros ? [= <-]. split; [by apply Hl|]. intros _. split; [done|]. by eapply policy_read_mono.
Qed.

Lemma ok_with_rp v h s : caches_ok (with_rp b v) ppathName h s ↔ ok h s.
Proof. split; intros []; by split. Qed.

Lemma wp_run_CleanVolumeCb v s h :
  torn_down h v → ok h s →
  W (run_CleanVolumeCb ty (with_rp b v) v sc s) h (fun h' x => ok h' x.1).
Proof.
  intros Htd Hok. unfold run_CleanVolumeCb.
  assert (Hgen : ∀ body : VolumePair → M (list error),
    (∀ p h' s', (∀ h2, h' `prefix_of` h2 → torn_down h2 v ∧ object_deleted h2 v (handle_of p.2)) → ok h' s' →
       W (body p s') h' (fun h2 x => ok h2 x.1)) →
    W ((pairs ← pairs_to_clean (with_rp b v) v; errs ← each body pairs []; errs_Err errs) s) h
      (fun h' x => ok h' x.1)).
  { intros body Hbody. apply wpP_bind. eapply wp_post; [by apply wp_prefix, wp_pairs_to_clean|].
    intros h1 [s1 [e|pairs]] (Hh1 & Hok1 & Hp); cbn [fst snd] in *; [done|]. destruct (Hp pairs eq_refl) as [Hsrc Hpol].
    apply wpP_bind. eapply wp_post.
    - apply wpP_each; [|exact Hok1]. intros p h2 s2 Hin Hh2 Hok2. apply Hbody; [|done]. intros h3 Hh3.
      assert (Hh : h1 `prefix_of` h3) by (by etrans).
      split; [eapply torn_down_mono; [|exact Htd]; apply prefix_sub; by etrans|].
      destruct Hpol as [Hsync Hdel]; [by intros ->; apply not_elem_of_nil in Hin|].
      split_and!; [done|by eapply policy_read_mono|]. exists p.
      eapply source_pairs_mono in Hsrc; [|exact Hh]. 
      by destruct (proj1 (Forall_forall _ _) Hsrc p Hin).
    - intros h2 [s2 [e|errs]] Hok2; [done|]. by apply (wpP_errs_Err _ ok). }
  destruct (is_block ty) eqn:Hty; apply Hgen; intros p h1 s1 Hd Hok1.
  - apply wpP_bind, wpP_attempt. eapply wp_post.
    + apply (wp_deleteVastVolumeByName (with_rp b v) ppathName clean_allowed clean_reads); [|by apply ok_with_rp].
      intros h2 vol Hh2 Hk. split; [done|]. split; [done|]. destruct (Hd h2 Hh2).
      exists v, (handle_of p.2), vol. split_and!; done.
    + intros h2 [s2 r] Hok2. apply wp_ret. by apply ok_with_rp in Hok2.
  - eapply wp_post.
    + apply (wp_delete_view_and_quota (with_rp b v) ppathName clean_allowed clean_reads);
        [| |by apply ok_with_rp]; intros h2 o Hh2 Hk; (split; [done|]; split; [done|]; destruct (Hd h2 Hh2);
        exists v, (handle_of p.2), o; split_and!; done).
    + intros h2 [s2 r] Hok2. by apply ok_with_rp in Hok2.
Qed.

(** *** Mirrors and replication objects *)

Lemma wp_clean_all_mirrors v s h :
  torn_down h v → ok h s →
  W (cleanReplicaMirrorOrphans (with_rp b v) v sc ∅) h (fun h' _ => h `prefix_of` h' ∧ ok h' s).
Proof.
  intros Htd Hok. apply (wp_post _ _ _ (fun h' _ => h `prefix_of` h' ∧ ok h' s ∧ True)); [|naive_solver].
  apply (wp_keeps _ s h (fun _ _ => True)); [done|].
  apply (wp_guard_prefix (orphan_allowed (with_rp b v) v sc ∅)); [|apply wp_cleanReplicaMirrorOrphans].
  intros h' c Hh'%prefix_sub Hc. assert (torn_down h' v) by (by eapply torn_down_mono).
  destruct c; try done; destruct k; try done; by exists v.
Qed.

(** The replication objects of the content are gone from the API server. *)
Definition objects_gone (t : Trace) (v : VRC) : Prop :=
  (vrc_Kind (vrc_Spec v) = DestinationKindVolumeReplication ∧
   Ev (List kVR (Namespace (vrc_Meta v)) (vr_selector v)) (inr []) ∈ t) ∨
  (vrc_Kind (vrc_Spec v) = DestinationKindVolumeGroupReplication ∧
   Ev (List kVGR (Namespace (vrc_Meta v)) (vgr_selector v)) (inr []) ∈ t).

Lemma wp_delete_vrs v l h rest :
  torn_down h v → Ev (List kVR (Namespace (vrc_Meta v)) (vr_selector v)) (inr l) ∈ h →
  (∀ o, o ∈ rest → o ∈ l) → W (delete_vrs rest) h (fun _ _ => True).
Proof.
  revert h. induction rest as [|o rest IH]; intros h Htd Hl Hsub; [done|].
  apply wp_bind_call; [exists v, l; split_and!; [done|done|]; apply Hsub; set_solver|].
  intros r. apply IH; [eapply torn_down_mono; [apply snoc_sub|done]|by apply snoc_sub|].
  intros o' ?. apply Hsub. set_solver.
Qed.

Lemma wp_delete_vgrs v l h rest :
  torn_down h v → Ev (List kVGR (Namespace (vrc_Meta v)) (vgr_selector v)) (inr l) ∈ h →
  (∀ o, o ∈ rest → o ∈ l) → W (delete_vgrs rest) h (fun _ _ => True).
Proof.
  revert h. induction rest as [|o rest IH]; intros h Htd Hl Hsub; [done|].
  apply wp_bind_call; [exists v, l; split_and!; [done|done|]; apply Hsub; set_solver|].
  intros r. assert (Hnext : W (delete_vgrs rest) (h ++ [Ev (Delete kVGR o) r]) (fun _ _ => True)).
  { apply IH; [eapply torn_down_mono; [apply snoc_sub|done]|by apply snoc_sub|].
    intros o' ?. apply Hsub. set_solver. }
  destruct r as [e|]; [|done]. by destruct (IsNotFound (Some e)).
Qed.

Lemma wp_CleanKubernetesResources v h :
  torn_down h v → W (CleanKubernetesResources v) h (fun h' err => err = None → objects_gone h' v).
Proof.
  intros Htd. unfold CleanKubernetesResources. case_bool_decide as Hvr; [|case_bool_decide as Hvgr; [|done]].
  - apply wp_bind_call; [done|]. intros [e|[|o l]]; [done| |].
    { apply wp_ret. intros _. left. split; [done|apply in_snoc]. }
    apply wp_bind. eapply wp_post; [apply (wp_delete_vrs v (o :: l))|done].
    + eapply torn_down_mono; [apply snoc_sub|done].
    + apply in_snoc.
    + done.
  - apply wp_bind_call; [done|]. intros [e|[|o l]]; [done| |].
    { apply wp_ret. intros _. right. split; [done|apply in_snoc]. }
    apply wp_bind. eapply wp_post; [apply (wp_delete_vgrs v (o :: l))|].
    + eapply torn_down_mono; [apply snoc_sub|done].
    + apply in_snoc.
    + done.
    + intros h1 [e|] _; by apply wp_ret.
Qed.

(** *** Everything *)

(** What is true when [CleanVolumes] succeeds. *)
Definition cleaned (t : Trace) (v : VRC) : Prop := torn_down t v ∧ objects_gone t v.

Lemma wp_step (p : Prog (option error)) s h Q :
  W p h (fun h' err => Q h' (s, match err with Some e => inl e | None => inr tt end)) →
  W (lift (err ← p; mret (match err with Some e => inl e | None => inr tt end)) s) h Q.
Proof. intros Hp. apply wpP_lift, wp_bind. eapply wp_post; [exact Hp|]. done. Qed.

Lemma wp_clean_objects v ppath s h :
  stopped h → waited h → content_now h v →
  match ppath with None => ppath_unknown h | Some pp => ppath_read h pp end → ok h s →
  W (clean_objects ty (with_rp b v) ppath s) h (fun h' x => x.2 = inr tt → cleaned h' v).
Proof.
  intros Hs Hw Hc Hp Hok. unfold clean_objects. cbv zeta. cbn [rp with_rp sourceSc].
  apply wpP_bind, wp_step. eapply wp_post; [apply wp_keeps; [exact Hok|by apply wp_deleteSnapshots]|].
  intros h1 [e|] (Hh1%prefix_sub & Hok1 & Hr); cbn [fst snd]; [done|]. specialize (Hr eq_refl).
  assert (Hs1 : stopped h1) by (by eapply stopped_mono). assert (Hw1 : waited h1) by (by eapply waited_mono).
  assert (Hc1 : content_now h1 v) by (by eapply content_now_mono).
  apply wpP_bind. apply (wp_post _ _ _ (fun h' x => ok h' x.1 ∧ (x.2 = inr tt → torn_down h' v))).
  { destruct ppath as [pp|].
    - apply wp_step. eapply wp_post; [apply wp_keeps; [exact Hok1|apply (wp_deletePpath h1 v); try done; by apply Hh1]|].
      intros h2 [e|] (Hh2%prefix_sub & Hok2 & Hg); cbn [fst snd]; (split; [done|]); [done|]. intros _.
      split_and!; eauto using stopped_mono, waited_mono, content_now_mono, snapshots_removed_mono.
    - apply wp_ret. split; [done|]. intros _. split_and!; try done. left. destruct Hp as (e & ? & ?).
      exists e. split; [by apply Hh1|done]. }
  intros h2 [s2 [e|[]]] [Hok2 Htd]; cbn [fst snd] in *; [done|]. specialize (Htd eq_refl).
  apply wpP_bind. eapply wp_post; [by apply wp_prefix, wp_run_CleanVolumeCb|].
  intros h3 [s3 [e|[]]] [Hh3%prefix_sub Hok3]; cbn [fst snd] in *; [done|].
  assert (Htd3 : torn_down h3 v) by (by eapply torn_down_mono).
  apply wpP_bind, wp_step. eapply wp_post; [by apply wp_clean_all_mirrors|].
  intros h4 [e|] [Hh4%prefix_sub Hok4]; cbn [fst snd]; [done|].
  assert (Htd4 : torn_down h4 v) by (by eapply torn_down_mono).
  apply wp_step. eapply wp_post; [by apply wp_prefix, wp_CleanKubernetesResources|].
  intros h5 [e|] [Hh5%prefix_sub Hg]; cbn [fst snd]; [done|]. intros _.
  split; [by eapply torn_down_mono|by apply Hg].
Qed.

Lemma wp_run_clean :
  NewFromStorageClass sc = inr tt →
  W (run_clean ty b no_caches) [] (fun h' x => x.2.2 = None → cleaned h' x.2.1).
Proof.
  intros Hcl. unfold run_clean. apply wp_bind. eapply wp_post; [apply wp_disablePpath; [done|apply no_caches_ok]|].
  intros h1 [s1 [e|ppath]] [Hok1 Hd]; cbn [fst snd] in *; [by apply wp_ret|].
  destruct (Hd _ eq_refl) as [Hs Hp]. apply wp_bind.
  eapply wp_post; [apply wp_keeps; [exact Hok1|by apply wp_waitAfterPpathDisable]|].
  intros h2 [v [e|]] (Hh2%prefix_sub & Hok2 & Hw); cbn [fst snd] in *; [by apply wp_ret|].
  destruct (Hw eq_refl) as [Hw2 Hc2]. apply wp_bind. eapply wp_post.
  - apply (wp_clean_objects v ppath); [by eapply stopped_mono|done|done| |done].
    destruct ppath as [pp|]; [by apply Hh2|]. destruct Hp as (e & ? & ?). exists e. split; [by apply Hh2|done].
  - intros h3 [s3 [e|[]]] Hcln; cbn [fst snd failure] in *; apply wp_ret; [done|]. intros _. by apply Hcln.
Qed.

End Cleaning.

(** ** The content controller with its provisioner *)

Section Linked.

Context {steps : RetrySteps} {lk : Lookups} {ve : VastErrors} {ic : IgnoreCodes} {sd : ShowDuration}
  {qs : Quantities} {pt : ParseTime}.
Variable PVCNameFormat PVNameFormat : string.
Variable key : string * string.

(** A provisioner made for the content. *)
Definition provisioner_for (v : VRC) (ty : ProvisionerType) (b : base) : Prop :=
  ty = vrc_ProvisionerType (vrc_Spec v) ∧
  lk_GetStorageClass (vrc_StorageClass (vrc_Spec v)) = inr (sourceSc b) ∧
  NewFromStorageClass (sourceSc b) = inr tt ∧
  BackendObjectKey b = (if is_block ty then block_BackendObjectKey else file_BackendObjectKey) (sourceSc b).

(** A cleanup the content was due for. *)
Definition in_cleanup (t : Trace) (c : Call) : Prop :=
  ∃ v ty b h u, first_read key v h ∧ Deleting (vrc_Meta v) = true ∧ cleanup_done v = false ∧
    mirrored_said v gone h ∧ provisioner_for v ty b ∧ t = h ++ u ∧ clean_allowed ty (with_rp b v) u c.

Definition in_provisioning (t : Trace) (c : Call) : Prop :=
  ∃ v ty b h u, first_read key v h ∧ Deleting (vrc_Meta v) = false ∧ mirrored_said v live h ∧
    provisioner_for v ty b ∧ t = h ++ u ∧ provision_allowed ty (with_rp b v) u c.

(** The content was taken apart somewhere in the run. *)
Definition taken_apart (t : Trace) (v : VRC) : Prop :=
  ∃ ty b v' h u h', provisioner_for v ty b ∧ t = h ++ u ++ h' ∧ cleaned (with_rp b v) u v'.

Definition content_gone (t : Trace) : Prop :=
  ∃ v, first_read key v t ∧ Deleting (vrc_Meta v) = true ∧
    (cleanup_done v = true ∨ (mirrored_said v gone t ∧ taken_apart t v)).

Definition linked_allowed (t : Trace) (c : Call) : Prop :=
  match c with
  | Vms _ _ => in_cleanup t c ∨ in_provisioning t c
  | Update kVRC w =>
      FinalizerReplicationContent ∉ Finalizers (vrc_Meta w) ∧ barrier w t ∧ content_gone t
  | NewProvisioner _ | ProvisionVolumes _ | CleanVolumes _ | ProvisionVolumeCb _ _ _ | VolumeMapping _ => False
  | _ => True
  end.

Definition content_passes (c : Call) : Prop :=
  match c with NewProvisioner _ | ProvisionVolumes _ | CleanVolumes _ => False | _ => True end.

(** What the controller's program saw of the run. *)
Record content_sees (u2 u1 : Trace) (st : option (ProvisionerType * base)) : Prop := mkSees {
  sees_calls : ∀ e, e ∈ u1 → content_passes (ev_call e) → e ∈ u2;
  sees_empty : u1 = [] → u2 = [];
  sees_first : ∀ v, first_read key v u1 → first_read key v u2;
  sees_provisioner : ∀ ty b, st = Some (ty, b) → ∃ v, first_read key v u1 ∧ provisioner_for v ty b;
  sees_cleaned : ∀ v v', Ev (CleanVolumes v) (v', None) ∈ u1 → taken_apart u2 v;
}.

Notation W := (wp linked_allowed).

Definition vrc_answer (e : event resp) : option VRC :=
  match e with
  | Ev c r =>
      match c return resp c → option VRC with
      | Get k _ _ =>
          match k return result (kobj k) → option VRC with
          | kVRC => fun r => match r with inr v => Some v | inl _ => None end
          | _ => fun _ => None
          end
      | _ => fun _ => None
      end r
  end.

Lemma first_read_unique v w t : first_read key v t → first_read key w t → v = w.
Proof.
  unfold first_read. intros Hv Hw. rewrite Hv in Hw. apply (f_equal (mbind vrc_answer)) in Hw.
  by injection Hw.
Qed.

(** *** What the controller knew is true of the linked run *)

Lemma mirrored_said_seen u1 u2 v P :
  (∀ e, e ∈ u1 → content_passes (ev_call e) → e ∈ u2) → mirrored_said v P u1 → mirrored_said v P u2.
Proof.
  intros Hu. unfold mirrored_said. repeat case_bool_decide; [| |done]; intros (r & Hr & HP);
    exists r; (split; [by apply Hu|done]).
Qed.

Lemma barrier_seen u1 u2 w :
  (∀ e, e ∈ u1 → content_passes (ev_call e) → e ∈ u2) → barrier w u1 → barrier w u2.
Proof.
  intros Hu. unfold barrier. case_match; [|done]. intros (l & Hl & ?). exists l. split; [by apply Hu|done].
Qed.

Lemma content_gone_seen u1 u2 st : content_sees u2 u1 st → own_cleanup key u1 → content_gone u2.
Proof.
  intros [Hc He Hf Hp Hcl] (v & Hr & Hd & Hdone). exists v. split_and!; [by apply Hf|done|].
  destruct Hdone as [?|(Hg & (v' & Hv') & _)]; [by left|right]. split; [by eapply mirrored_said_seen|by eapply Hcl].
Qed.

Lemma taken_apart_mono t t' v : t `prefix_of` t' → taken_apart t v → taken_apart t' v.
Proof.
  intros [k ->] (ty & b & v' & h & u & h' & Hp & -> & Hc).
  exists ty, b, v', h, u, (h' ++ k). split_and!; [done|by rewrite !app_assoc|done].
Qed.

(** A call of the controller was made: directly, or as the calls in between. *)
Lemma sees_step u1 u2 u2' st st' c (r : resp c) :
  content_sees u2 u1 st → u2 `prefix_of` u2' →
  (content_passes c → u2' = u2 ++ [Ev c r]) →
  (u1 = [] → content_passes c) →
  (∀ ty b, st' = Some (ty, b) → ∃ v, first_read key v (u1 ++ [Ev c r]) ∧ provisioner_for v ty b) →
  (∀ v v', Ev (CleanVolumes v) (v', None) = Ev c r → taken_apart u2' v) →
  content_sees u2' (u1 ++ [Ev c r]) st'.
Proof.
  intros [Hc He Hf Hp Hcl] Hpre Hpass Hfirst Hst Hclean. split.
  - intros e. rewrite elem_of_app, list_elem_of_singleton. intros [Hin| ->] Hpe.
    + eapply prefix_sub; [exact Hpre|]. by apply Hc.
    + rewrite (Hpass Hpe). apply in_snoc.
  - by destruct u1.
  - intros v. destruct u1 as [|e u1].
    + intros Hv. rewrite (Hpass (Hfirst eq_refl)), (He eq_refl). done.
    + intros Hv. eapply first_read_mono; [exact Hpre|]. by apply Hf.
  - done.
  - intros v v'. rewrite elem_of_app, list_elem_of_singleton. intros [Hin|Heq].
    + eapply taken_apart_mono; [exact Hpre|]. by eapply Hcl.
    + by eapply Hclean.
Qed.

Lemma wp_controller_pass u1 u2 st c :
  content_sees u2 u1 st → content_passes c → linked_allowed u2 c →
  W (pass_on c st) u2 (fun u2' x => content_sees u2' (u1 ++ [Ev c x.2]) x.1).
Proof.
  intros Hs Hc Hg. split; [done|]. intros r. eapply sees_step; [exact Hs|by apply prefix_app_r|done|done|..].
  - intros ty b Hst. destruct (sees_provisioner _ _ _ Hs ty b Hst) as (v & Hv & ?). exists v. split; [|done].
    eapply first_read_mono; [|exact Hv]. by apply prefix_app_r.
  - intros v v' Heq. apply (f_equal ev_call) in Heq. cbn in Heq. by subst c.
Qed.

(** *** Making a provisioner *)

Lemma calls_in_lookupPrimary v :
  calls_in (fun c => match c with Get _ _ _ => True | _ => False end) (lookupPrimaryStorageClass v).
Proof.
  unfold lookupPrimaryStorageClass, sourceVSCR, sourceVVR, GetVastStorageClassReplication,
    GetVastVolumeReplication. by repeat calls_step.
Qed.

Lemma wp_make_provisioner v h :
  W (make_provisioner PVCNameFormat PVNameFormat v) h (fun h' r => h `prefix_of` h' ∧
    ∀ ty b, r = inr (ty, b) → provisioner_for v ty b).
Proof.
  apply wp_prefix. unfold make_provisioner. cbv zeta. apply wp_bind.
  assert (Hnew : ∀ f, W (newBase PVCNameFormat PVNameFormat v f) h (fun _ r => ∀ b, r = inr b →
    lk_GetStorageClass (vrc_StorageClass (vrc_Spec v)) = inr (sourceSc b) ∧
    NewFromStorageClass (sourceSc b) = inr tt ∧ BackendObjectKey b = f (sourceSc b))).
  { intros f. unfold newBase, NewFromStorageClassName, wrap_err.
    destruct (lk_GetStorageClass _) as [e|sc] eqn:Hsc; [done|]. cbn.
    destruct (NewFromStorageClass sc) as [e|[]] eqn:Hcl; [done|]. cbn. apply wp_bind.
    apply (wp_calls_in (fun c => match c with Get _ _ _ => True | _ => False end));
      [apply calls_in_lookupPrimary|by intros h' []|].
    intros h' [e|p] _; apply wp_ret; intros b [= <-]. done. }
  destruct (vrc_ProvisionerType (vrc_Spec v)) eqn:Hty;
    (eapply wp_post; [apply Hnew|]); intros h' [e|b0] Hb; apply wp_ret; cbn; intros ty b [= <- <-];
    destruct (Hb _ eq_refl) as (? & ? & ?); split_and!; done.
Qed.

(** *** Running it *)

(** The calls of a provisioner, from where it started. *)
Lemma wp_within {A} (G : Trace → Call → Prop) (p : Prog A) h Q :
  wp G p [] Q → (∀ u c, G u c → linked_allowed (h ++ u) c) →
  W p h (fun h' a => ∃ u, h' = h ++ u ∧ Q u a).
Proof.
  intros Hp HG. apply (wp_shift _ _ h) in Hp. rewrite app_nil_r in Hp.
  eapply wp_mono; [| |exact Hp]; [|done]. intros h' c (u & -> & ?). by apply HG.
Qed.

Lemma provisioner_for_unique u1 v st ty b :
  first_read key v u1 → (∀ ty b, st = Some (ty, b) → ∃ v, first_read key v u1 ∧ provisioner_for v ty b) →
  st = Some (ty, b) → provisioner_for v ty b.
Proof.
  intros Hv Hst Heq. destruct (Hst _ _ Heq) as (w & Hw & Hb). by rewrite (first_read_unique v w u1).
Qed.

Definition clean_answer (e : event resp) : option (VRC * (VRC * option error)) :=
  match e with
  | Ev c r =>
      match c return resp c → option (VRC * (VRC * option error)) with
      | CleanVolumes v => fun r => Some (v, r)
      | _ => fun _ => None
      end r
  end.

Lemma first_read_nonempty v u1 : first_read key v u1 → u1 ≠ [].
Proof. by intros Hv ->. Qed.

Lemma wp_linked_new u1 u2 st v :
  content_sees u2 u1 st → allowed key u1 (NewProvisioner v) →
  W (controller_calls PVCNameFormat PVNameFormat (NewProvisioner v) st) u2
    (fun u2' x => content_sees u2' (u1 ++ [Ev (NewProvisioner v) x.2]) x.1).
Proof.
  intros Hs Hv. cbn [allowed] in Hv. apply wp_bind. eapply wp_post; [apply wp_make_provisioner|].
  intros h' r [Hh Hr]. apply wp_ret. eapply sees_step; [exact Hs|done|done|..].
  - by intros ?%(first_read_nonempty v).
  - intros ty b. destruct r as [e|[ty0 b0]]; cbn; [done|]. intros [= <- <-]. exists v.
    split; [eapply first_read_mono; [|exact Hv]; by apply prefix_app_r|by apply Hr].
  - intros w w' Heq. by apply (f_equal clean_answer) in Heq.
Qed.

(** The provisioner stays the one made for the content. *)
Lemma sees_same u1 u2 u2' st c (r : resp c) v :
  content_sees u2 u1 st → first_read key v u1 → ¬ content_passes c → u2 `prefix_of` u2' →
  (∀ w w', Ev (CleanVolumes w) (w', None) = Ev c r → taken_apart u2' w) →
  content_sees u2' (u1 ++ [Ev c r]) st.
Proof.
  intros Hs Hv Hn Hh Hc. eapply sees_step; [exact Hs|done|done|by intros ?%(first_read_nonempty v)| |done].
  intros ty b Hst. exists v. split; [eapply first_read_mono; [|exact Hv]; by apply prefix_app_r|].
  eapply provisioner_for_unique; [exact Hv|apply (sees_provisioner _ _ _ Hs)|done].
Qed.

Lemma wp_linked_provision u1 u2 st v :
  content_sees u2 u1 st → allowed key u1 (ProvisionVolumes v) →
  W (controller_calls PVCNameFormat PVNameFormat (ProvisionVolumes v) st) u2
    (fun u2' x => content_sees u2' (u1 ++ [Ev (ProvisionVolumes v) x.2]) x.1).
Proof.
  intros Hs (Hv & Hd & Hl). cbn [controller_calls].
  assert (Hno : ∀ r w w', @Ev Call resp (CleanVolumes w) (w', None) = Ev (ProvisionVolumes v) r → ∀ u, taken_apart u w).
  { intros r w w' Heq. by apply (f_equal clean_answer) in Heq. }
  destruct st as [[ty b]|].
  2: { apply wp_ret. eapply sees_same; [exact Hs|exact Hv|by intros []|done|]. intros w w' Heq. by eapply Hno. }
  assert (Hb : provisioner_for v ty b).
  { eapply provisioner_for_unique; [exact Hv|apply (sees_provisioner _ _ _ Hs)|done]. }
  apply wp_bind. eapply wp_post.
  - apply (wp_within (provision_allowed ty (with_rp b v)) _ _ (fun _ _ => True)); [apply wp_run_provision|].
    intros u c Hc.
    assert (Hin : in_provisioning (u2 ++ u) c).
    { exists v, ty, b, u2, u. split_and!; [by apply (sees_first _ _ _ Hs)|done| |done|done|done].
      eapply mirrored_said_seen; [apply (sees_calls _ _ _ Hs)|done]. }
    destruct c; try done; [|by right]. cbn in Hc. by subst.
  - intros h' [s r] (u & -> & _). apply wp_ret.
    eapply sees_same; [exact Hs|exact Hv|by intros []|by apply prefix_app_r|]. intros w w' Heq. by eapply Hno.
Qed.

Lemma wp_linked_clean u1 u2 st v :
  content_sees u2 u1 st → allowed key u1 (CleanVolumes v) →
  W (controller_calls PVCNameFormat PVNameFormat (CleanVolumes v) st) u2
    (fun u2' x => content_sees u2' (u1 ++ [Ev (CleanVolumes v) x.2]) x.1).
Proof.
  intros Hs (Hv & Hd & Hcd & Hg). cbn [controller_calls]. destruct st as [[ty b]|].
  2: { apply wp_ret. eapply sees_same; [exact Hs|exact Hv|by intros []|done|]. intros w w' Heq.
       by apply (f_equal clean_answer) in Heq. }
  assert (Hb : provisioner_for v ty b).
  { eapply provisioner_for_unique; [exact Hv|apply (sees_provisioner _ _ _ Hs)|done]. }
  apply wp_bind. eapply wp_post.
  - apply (wp_within (clean_allowed ty (with_rp b v)) _ _
      (fun h' x => x.2.2 = None → cleaned (with_rp b v) h' x.2.1)); [apply wp_run_clean; by destruct Hb as (_ & _ & ? & _)|].
    intros u c Hc.
    assert (Hin : in_cleanup (u2 ++ u) c).
    { exists v, ty, b, u2, u. split_and!; [by apply (sees_first _ _ _ Hs)|done|done| |done|done|done].
      eapply mirrored_said_seen; [apply (sees_calls _ _ _ Hs)|done]. }
    destruct c; try done; [|by left]. by destruct k.
  - intros h' [s [v' err]] (u & -> & Hc). apply wp_ret.
    eapply sees_same; [exact Hs|exact Hv|by intros []|by apply prefix_app_r|]. intros w w' Heq.
    apply (f_equal clean_answer) in Heq. cbn in Heq. injection Heq as -> -> Herr.
    exists ty, b, v', u2, u, []. split_and!; [done|by rewrite app_nil_r|by apply Hc].
Qed.

Lemma wp_linked_call u1 u2 st c :
  content_sees u2 u1 st → allowed key u1 c →
  W (controller_calls PVCNameFormat PVNameFormat c st) u2
    (fun u2' x => content_sees u2' (u1 ++ [Ev c x.2]) x.1).
Proof.
  intros Hs Hc. destruct c; try done; try (by apply wp_controller_pass).
  - apply wp_controller_pass; [done|done|]. destruct k; try done. destruct Hc as (? & ? & ?).
    split_and!; [done|eapply barrier_seen; [apply (sees_calls _ _ _ Hs)|done]|by eapply content_gone_seen].
  - by apply wp_linked_new.
  - by apply wp_linked_provision.
  - by apply wp_linked_clean.
Qed.

Lemma wp_ReconcileContent : W (ReconcileContent PVCNameFormat PVNameFormat key) [] (fun _ _ => True).
Proof.
  unfold ReconcileContent. apply wp_bind. eapply wp_post; [|done].
  apply (wp_link (allowed key) _ content_sees _ _ _ [] [] (fun _ _ => True)).
  - intros u1 u2 st c. apply wp_linked_call.
  - split; try done; by intros ? ?%elem_of_nil || intros ? ? ?%elem_of_nil.
  - apply wp_Reconcile.
Qed.

End Linked.

(** ** Properties *)

Section Properties.

Context {steps : RetrySteps} {lk : Lookups} {ve : VastErrors} {ic : IgnoreCodes} {sd : ShowDuration}
  {qs : Quantities} {pt : ParseTime}.

(** C5. A content is taken apart in order: in every run of [CleanVolumes],
    snapshots are deleted only after the protected path was disabled or is
    unknown and the delay has passed, and only ones listed for a policy of
    the content; the protected path is deleted after the snapshots of every
    policy; volumes, views and quotas, mirrors and replication objects are
    touched only after that path is gone; objects on the cluster are deleted
    only without mirrors, under the Delete policy, and for the handle of a
    source PVC of another content; nothing is ever created. *)
Theorem cleanup_ordered (ty : ProvisionerType) (b : base) (t t1 t2 : Trace)
    (a : caches * (VRC * option error)) (c : Call) (r : resp c) :
  NewFromStorageClass (sourceSc b) = inr tt →
  runs (run_clean ty b no_caches) t a → t = t1 ++ Ev c r :: t2 → clean_allowed ty b t1 c.
Proof.
  intros Hcl Hr ->. destruct (wp_sound _ _ [] _ _ _ (wp_run_clean ty b Hcl) Hr) as [_ H]. by eapply H.
Qed.

(** C6. A cleanup that reports success is complete: the protected path was
    stopped and is gone, its snapshots were listed and their deletion
    requested, and the last listing of the managed replication objects of
    the content is empty. *)
Theorem cleanup_complete (ty : ProvisionerType) (b : base) (t : Trace) (s : caches) (v : VRC) :
  NewFromStorageClass (sourceSc b) = inr tt →
  runs (run_clean ty b no_caches) t (s, (v, None)) →
  content_now b t v ∧ stopped b t ∧ waited b t ∧ snapshots_removed b t v ∧ ppath_gone b t ∧ objects_gone t v.
Proof.
  intros Hcl Hr. destruct (wp_sound _ _ [] _ _ _ (wp_run_clean ty b Hcl) Hr) as [H _].
  destruct (H eq_refl) as [(? & ? & ? & ? & ?) ?]. done.
Qed.

Variable PVCNameFormat PVNameFormat : string.

Lemma linked_run_allowed key t a t1 c r t2 :
  runs (ReconcileContent PVCNameFormat PVNameFormat key) t a → t = t1 ++ Ev c r :: t2 →
  linked_allowed key t1 c.
Proof.
  intros Hr ->.
  destruct (wp_sound _ _ [] _ _ _ (wp_ReconcileContent PVCNameFormat PVNameFormat key) Hr) as [_ H].
  by eapply H.
Qed.

(** C2. End to end: a reconciliation, with the provisioners in place of their
    interfaces, takes the finalizer off a content only when it was read as
    deleted, every other content of the constellation has cleaned up, and the
    content had cleaned up before or was taken apart in this run, by a
    provisioner of its own type and StorageClass, after the mirrored object
    had disappeared. *)
Theorem content_removed_after_teardown (key : string * string) (t t1 t2 : Trace)
    (a : Result * option error) (w : VRC) (r : result VRC) :
  runs (ReconcileContent PVCNameFormat PVNameFormat key) t a → t = t1 ++ Ev (Update kVRC w) r :: t2 →
  FinalizerReplicationContent ∉ Finalizers (vrc_Meta w) ∧ barrier w t1 ∧
  ∃ v, first_read key v t1 ∧ Deleting (vrc_Meta v) = true ∧
    (cleanup_done v = true ∨ (mirrored_said v gone t1 ∧ taken_apart t1 v)).
Proof. intros Hr Ht. exact (linked_run_allowed key t a t1 (Update kVRC w) r t2 Hr Ht). Qed.

(** C7. Every request to a cluster that a reconciliation of a content causes
    belongs to one of two phases: the cleanup of a content read as deleted
    whose mirrored object is gone, or provisioning for a content read as live
    whose mirrored object exists and is not terminating; in each it obeys the
    rules of that phase. *)
Theorem cluster_requests_in_phase (key : string * string) (t t1 t2 : Trace)
    (a : Result * option error) (cl : string) (q : VmsCall) (r : vms_resp q) :
  runs (ReconcileContent PVCNameFormat PVNameFormat key) t a → t = t1 ++ Ev (Vms cl q) r :: t2 →
  in_cleanup key t1 (Vms cl q) ∨ in_provisioning key t1 (Vms cl q).
Proof. intros Hr Ht. exact (linked_run_allowed key t a t1 (Vms cl q) r t2 Hr Ht). Qed.

End Properties.

(** ** Witnesses *)

#[local] Existing Instances demo_lookups demo_errors demo_show demo_ignore demo_quantities demo_parse.
#[local] Instance demo_cleanup_steps : RetrySteps := 2.

Definition demo_doomed : VRC :=
  mkVRC (mkMeta "a-silver" "apps" "u1"
           {[LabelSourceVSCR := "a"; LabelSourceVolumeGroupReplication := "a-gold"]} ∅
           [FinalizerReplicationContent] [] 1 true)
    (mkVRCSpec "silver" ProvisionerTypeBlock DestinationKindVolumeGroupReplication false "/sub/k8s/" ["p"] "pp"
       [] "") (mkVRCStatus true 1 "" []).

(** The content of the source, which has cleaned up. *)
Definition demo_sibling : VRC :=
  set_meta kVRC (demo_vrc "a-gold" "gold" ["data"])
    (SetAnnotation (vrc_Meta (demo_vrc "a-gold" "gold" ["data"])) AnnotationCleanupDone "true").

(** The cluster: whether the protected path exists; a replicated volume and
    one snapshot. *)
Definition demo_teardown (c : Call) (exists_ : bool) : bool * resp c :=
  match c return bool * resp c with
  | Vms _ q =>
      match q return bool * vms_resp q with
      | PpathGet n => (exists_, if exists_ then inr (mkPpath 9 n true "ACTIVE" "" "Destination" "/sub/k8s" [] 1)
                                else inl (ErrRest 404 "no such path"))
      | PpathDeleteById _ => (false, inr tt)
      | PpathExists _ => (exists_, inr exists_)
      | SnapshotList _ _ => (exists_, inr [mkSnapshot 21 "s1"])
      | VolumeList _ _ => (exists_, inr [mkVolume 31 "k8s/pvc-1/"])
      | q => (exists_, vms_quiet q)
      end
  | Get kVRC _ _ => (exists_, inr demo_doomed)
  | List kVRC _ _ => (exists_, inr [demo_sibling; demo_doomed])
  | List kPVC _ _ => (exists_, inr [])
  | c => let '(_, r) := mirror_handler (inr demo_source_pv) c tt in (exists_, r)
  end.

Definition demo_cleaner : base :=
  mkBase demo_doomed demo_class "gold" DefaultPVCNameFormat DefaultPVNameFormat (block_BackendObjectKey demo_class).
Definition demo_clean : Prog (caches * (VRC * option error)) := run_clean ProvisionerTypeBlock demo_cleaner no_caches.
Definition demo_clean_run := exec demo_teardown demo_clean true.

(** The volume goes after the path it was replicated through. *)
Lemma cleanup_ordered_witness :
  let t := demo_clean_run.1.2 in
  t = take 15 t ++ Ev (Vms "silver" (VolumeDeleteById 31)) (inr tt) :: drop 16 t ∧
  clean_allowed ProvisionerTypeBlock demo_cleaner (take 15 t) (Vms "silver" (VolumeDeleteById 31)).
Proof.
  intros t.
  assert (Ht : t = take 15 t ++ Ev (Vms "silver" (VolumeDeleteById 31)) (inr tt) :: drop 16 t) by (vm_compute; reflexivity).
  split; [exact Ht|].
  exact (cleanup_ordered ProvisionerTypeBlock demo_cleaner t (take 15 t) (drop 16 t) _
    (Vms "silver" (VolumeDeleteById 31)) (inr tt) eq_refl (exec_runs demo_teardown demo_clean true) Ht).
Defined.

Lemma cleanup_complete_witness :
  demo_clean_run.2.2.2 = None ∧ ppath_gone demo_cleaner demo_clean_run.1.2.
Proof.
  assert (Ha : demo_clean_run.2 = (demo_clean_run.2.1, (demo_clean_run.2.2.1, None))) by (vm_compute; reflexivity).
  split; [evaluates|].
  pose proof (exec_runs demo_teardown demo_clean true) as Hr. fold demo_clean_run in Hr. rewrite Ha in Hr.
  exact (proj1 (proj2 (proj2 (proj2 (proj2
    (cleanup_complete ProvisionerTypeBlock demo_cleaner _ _ _ eq_refl Hr)))))).
Defined.

Definition demo_reconcile : Prog (Result * option error) :=
  ReconcileContent DefaultPVCNameFormat DefaultPVNameFormat ("apps", "a-silver").
Definition demo_reconcile_run := exec demo_teardown demo_reconcile true.

Definition demo_released : VRC :=
  set_meta kVRC demo_doomed
    (remove_finalizer (SetAnnotation (vrc_Meta demo_doomed) AnnotationCleanupDone "true")
       FinalizerReplicationContent).1.

Lemma content_removed_after_teardown_witness :
  let t := demo_reconcile_run.1.2 in
  t = take 26 t ++ Ev (Update kVRC demo_released) (inr demo_released) :: drop 27 t ∧
  barrier demo_released (take 26 t).
Proof.
  intros t.
  assert (Ht : t = take 26 t ++ Ev (Update kVRC demo_released) (inr demo_released) :: drop 27 t) by (vm_compute; reflexivity).
  split; [exact Ht|].
  exact (proj1 (proj2 (content_removed_after_teardown _ _ ("apps", "a-silver") t (take 26 t) (drop 27 t) _
    demo_released (inr demo_released) (exec_runs demo_teardown demo_reconcile true) Ht))).
Defined.

Lemma cluster_requests_in_phase_witness :
  let t := demo_reconcile_run.1.2 in
  t = take 11 t ++ Ev (Vms "silver" (PpathDeleteById 9)) (inr tt) :: drop 12 t ∧
  (in_cleanup ("apps", "a-silver") (take 11 t) (Vms "silver" (PpathDeleteById 9)) ∨
   in_provisioning ("apps", "a-silver") (take 11 t) (Vms "silver" (PpathDeleteById 9))).
Proof.
  intros t.
  assert (Ht : t = take 11 t ++ Ev (Vms "silver" (PpathDeleteById 9)) (inr tt) :: drop 12 t) by (vm_compute; reflexivity).
  split; [exact Ht|].
  exact (cluster_requests_in_phase _ _ ("apps", "a-silver") t (take 11 t) (drop 12 t) _
    "silver" (PpathDeleteById 9) (inr tt) (exec_runs demo_teardown demo_reconcile true) Ht).
Defined.
