(* ===== verification/Remap.v ===== *)
(** * The PVC remap controller

    [internal/controller/pvcremap_controller.go]: after a failover the pods of
    the PVC namespace are moved to the PVCs of the new primary by patching the
    pod templates of their workloads.

    Pods and workloads are only known to this controller, so its calls extend
    those of [Api]: [core] embeds a program over [Api.Call] ([Programs.embed]).  Log lines are
    left out. *)

From S2P Require Import Prelude GoErrors Topology Kube Naming Programs Api Client Mirrors.
From stdpp Require Import options.

(** ** Pods and workloads *)

(** An owner reference, as far as the owner chain is concerned. *)
Record ControllerRef := mkControllerRef {
  ref_Kind : string;
  ref_Name : string;
  ref_Controller : option bool;
}.

Record RemapPod := mkRemapPod {
  rpod_Name : string;
  rpod_Namespace : string;
  rpod_Owners : list ControllerRef;
  rpod_Volumes : list PodVolume;
}.

Inductive WorkloadKind := Deployment | StatefulSet | DaemonSet | ReplicaSet.
#[export] Instance WorkloadKind_eq_dec : EqDecision WorkloadKind.
Proof. solve_decision. Defined.

Record Workload := mkWorkload {
  wl_Kind : WorkloadKind;
  wl_Name : string;
  wl_Namespace : string;
  wl_UID : string;
  wl_Owners : list ControllerRef;
  wl_Volumes : list PodVolume;          (* of the pod template *)
}.

(** ** Calls *)

Inductive RCall :=
| Core (c : Call)
| ListPods (namespace : string)
| GetWorkload (k : WorkloadKind) (name namespace : string)
(* strategic-merge patch: new claims by volume name *)
| PatchWorkload (w : Workload) (volumes : list (string * string)).

Definition rresp (c : RCall) : Type :=
  match c with
  | Core c => resp c
  | ListPods _ => result (list RemapPod)
  | GetWorkload _ _ _ => result Workload
  | PatchWorkload _ _ => result unit
  end.

Notation RProg := (prog rresp).
Notation RTrace := (list (event rresp)).

Notation core := (embed (resp2 := rresp) Core (fun _ r => r)).
Notation core_event := (embed_event (resp2 := rresp) Core (fun _ r => r)).

(** ** The remap table *)

Definition source_key (primaryPVC : PVC) : string :=
  let label := map_get (Labels (pvc_Meta primaryPVC)) LabelSourcePVC in
  if bool_decide (label = "") then Name (pvc_Meta primaryPVC) else label.

Definition sibling_selector (sourcePVCName : string) : gmap string string :=
  {[LabelManagedBy := LabelManagedByValue; LabelSourcePVC := sourcePVCName]}.

Definition add_siblings (primary : string) (siblings : list PVC) (table : gmap string string)
    : gmap string string :=
  fold_left (fun t s => if bool_decide (Name (pvc_Meta s) ≠ primary) then <[Name (pvc_Meta s) := primary]> t else t)
    siblings table.

Definition add_source (primaryPVC : PVC) (table : gmap string string) : gmap string string :=
  if bool_decide (map_get (Labels (pvc_Meta primaryPVC)) LabelSourcePVC ≠ "")
  then <[source_key primaryPVC := Name (pvc_Meta primaryPVC)]> table
  else table.

Fixpoint build_table (ns : string) (primaryRefs : list string) (table : gmap string string)
    : Prog (result (gmap string string)) :=
  match primaryRefs with
  | [] => mret (inr table)
  | ref :: rest =>
      r ← call (Get kPVC ref ns);
      match r with
      | inl e =>
          if IsNotFound (Some e) then build_table ns rest table
          else mret (inl (ErrWrap ("get primary PVC " +:+ ref +:+ ": ") e ""))
      | inr primaryPVC =>
          r ← ListPVCsByLabelSelector ns (sibling_selector (source_key primaryPVC));
          match r with
          | inl e => mret (inl (ErrWrap ("list sibling PVCs for source " +:+ source_key primaryPVC +:+ ": ") e ""))
          | inr siblings =>
              build_table ns rest
                (add_source primaryPVC (add_siblings (Name (pvc_Meta primaryPVC)) siblings table))
          end
      end
  end.

Definition buildSiblingRemapTable (ns : string) (primaryRefs : list string)
    : Prog (result (gmap string string)) := build_table ns primaryRefs ∅.

(** ** Pods and their workloads *)

Definition remapped (remapTable : gmap string string) (v : PodVolume) : option (string * string) :=
  claim ← pv_claim v; newName ← remapTable !! claim; Some (pv_name v, newName).

(** Volume names with their new claims. *)
Definition volumesNeedingRemap (volumes : list PodVolume) (remapTable : gmap string string)
    : gmap string string :=
  fold_left (fun out v => match remapped remapTable v with Some (n, c) => <[n := c]> out | None => out end) volumes ∅.

Definition is_controller (ref : ControllerRef) : bool := default false (ref_Controller ref).

Definition workload_kind (kind : string) : option WorkloadKind :=
  if bool_decide (kind = "ReplicaSet") then Some ReplicaSet
  else if bool_decide (kind = "Deployment") then Some Deployment
  else if bool_decide (kind = "StatefulSet") then Some StatefulSet
  else if bool_decide (kind = "DaemonSet") then Some DaemonSet
  else None.

(** The Deployment that owns a ReplicaSet. *)
Definition deployment_ref (w : Workload) : option ControllerRef :=
  head (filter (fun ref => is_controller ref = true ∧ ref_Kind ref = "Deployment") (wl_Owners w)).

Fixpoint top_level_owner (ns : string) (refs : list ControllerRef) : RProg (result (option Workload)) :=
  match refs with
  | [] => mret (inr None)
  | ref :: rest =>
      if negb (is_controller ref) then top_level_owner ns rest
      else
        match workload_kind (ref_Kind ref) with
        | None => top_level_owner ns rest
        | Some k =>
            r ← call (GetWorkload k (ref_Name ref) ns);
            match r with
            | inl e => mret (inl e)
            | inr w =>
                match k, deployment_ref w with
                | ReplicaSet, Some depRef =>
                    r ← call (GetWorkload Deployment (ref_Name depRef) ns);
                    mret (match r with inl e => inl e | inr dep => inr (Some dep) end)
                | _, _ => mret (inr (Some w))
                end
            end
        end
  end.

Definition topLevelOwner (pod : RemapPod) : RProg (result (option Workload)) :=
  top_level_owner (rpod_Namespace pod) (rpod_Owners pod).

Definition patchOwnerVolumes (owner : Workload) (remapTable : gmap string string) : RProg (option error) :=
  match omap (remapped remapTable) (wl_Volumes owner) with
  | [] => mret None
  | toUpdate =>
      r ← call (PatchWorkload owner toUpdate);
      mret (err_of r)
  end.

(** [patched]: the UIDs of the owners already tried; failures are only logged. *)
Fixpoint remap_pods (pods : list RemapPod) (remapTable : gmap string string) (patched : gset string)
    : RProg unit :=
  match pods with
  | [] => mret tt
  | pod :: rest =>
      if bool_decide (volumesNeedingRemap (rpod_Volumes pod) remapTable = ∅) then remap_pods rest remapTable patched
      else
        r ← topLevelOwner pod;
        match r with
        | inl _ | inr None => remap_pods rest remapTable patched
        | inr (Some owner) =>
            if bool_decide (wl_UID owner ∈ patched) then remap_pods rest remapTable patched
            else
              _ ← patchOwnerVolumes owner remapTable;
              remap_pods rest remapTable ({[wl_UID owner]} ∪ patched)
        end
  end.

Definition remapPodsInNamespace (namespace : string) (remapTable : gmap string string) : RProg (option error) :=
  r ← call (ListPods namespace);
  match r with
  | inl e => mret (Some (ErrWrap ("list pods in namespace " +:+ namespace +:+ ": ") e ""))
  | inr pods => remap_pods pods remapTable ∅;; mret None
  end.

(** No reconciliation of this controller asks to be repeated after a delay. *)
Definition doRemap (namespace : string) (buildRemapTable : Prog (result (gmap string string)))
    : RProg (option error) :=
  r ← core buildRemapTable;
  match r with
  | inl e => mret (Some e)
  | inr remapTable =>
      if bool_decide (remapTable = ∅) then mret None
      else remapPodsInNamespace namespace remapTable
  end.

(** ** Reconcile *)

Definition not_found_is_done (e : error) : option error :=
  if IsNotFound (Some e) then None else Some e.

Definition reconcileVSCR (name ns : string) : RProg (option error) :=
  r ← core (GetVastStorageClassReplication name ns);
  match r with
  | inl e => mret (not_found_is_done e)
  | inr vscr =>
      if negb (vscr_PVCRemap (vscr_Spec vscr)) || Deleting (vscr_Meta vscr) then mret None
      else
        let newPrimary := vscr_PrimaryStorageClass (vscr_Spec vscr) in
        let pvcNS := VSCR_PVCNamespace vscr in
        r ← core (GetVolumeGroupReplication (vgrNameForSC name newPrimary) pvcNS);
        match r with
        | inl e => mret (not_found_is_done e)
        | inr vgr =>
            if negb (bool_decide (vgr_ReplicationState vgr = Primary))
               || negb (bool_decide (vgr_State vgr = PrimaryState))
            then mret None
            else doRemap pvcNS (buildSiblingRemapTable pvcNS (vgr_PVCs vgr))
        end
  end.

(** The mirror on the new primary, or else the original source. *)
Definition vvr_table (name pvcNS newPrimary sourcePVCName : string) : Prog (result (gmap string string)) :=
  r ← ListPVCsByLabelSelector pvcNS
        {[LabelManagedBy := LabelManagedByValue; LabelStorageClass := newPrimary; LabelSourceVVR := name]};
  match r with
  | inl e => mret (inl (ErrWrap ("list primary mirror PVC for VVR " +:+ name +:+ ": ") e ""))
  | inr mirrors =>
      buildSiblingRemapTable pvcNS
        [match mirrors with m :: _ => Name (pvc_Meta m) | [] => sourcePVCName end]
  end.

Definition reconcileVVR (name ns : string) : RProg (option error) :=
  r ← core (GetVastVolumeReplication name ns);
  match r with
  | inl e => mret (not_found_is_done e)
  | inr vvr =>
      if negb (vvr_PVCRemap (vvr_Spec vvr)) || Deleting (vvr_Meta vvr) then mret None
      else
        let newPrimary := vvr_PrimaryStorageClass (vvr_Spec vvr) in
        let pvcNS := VVR_PVCNamespace vvr in
        r ← core (GetVolumeReplication (vrNameForSC name newPrimary) pvcNS);
        match r with
        | inl e => mret (not_found_is_done e)
        | inr vr =>
            if negb (bool_decide (vr_ReplicationState vr = Primary))
               || negb (bool_decide (vr_State vr = PrimaryState))
            then mret None
            else doRemap pvcNS (vvr_table name pvcNS newPrimary (vvr_VolumeName (vvr_Spec vvr)))
        end
  end.

Definition vscrRemapPrefix := "vscr/".
Definition vvrRemapPrefix := "vvr/".

(** [PVCRemapReconciler.Reconcile]; a request is (namespace, name). *)
Definition Remap_Reconcile (req : string * string) : RProg (option error) :=
  if has_prefix req.2 vscrRemapPrefix then reconcileVSCR (trim_prefix req.2 vscrRemapPrefix) req.1
  else if has_prefix req.2 vvrRemapPrefix then reconcileVVR (trim_prefix req.2 vvrRemapPrefix) req.1
  else mret None.

(** The watch mappers of [SetupPVCRemapController]. *)
Definition remap_request (prefix nameLabel nsLabel ownerKind : string) (m : ObjectMeta)
    : list (string * string) :=
  let '(name, ns) := ParentCRFromObject m nameLabel nsLabel ownerKind in
  if bool_decide (name = "") then [] else [(ns, prefix +:+ name)].

Definition vgrMapper (vgr : VolumeGroupReplication) : list (string * string) :=
  remap_request vscrRemapPrefix LabelSourceVSCR LabelSourceVSCRNamespace "VastStorageClassReplication" (vgr_Meta vgr).
Definition vrMapper (vr : VolumeReplication) : list (string * string) :=
  remap_request vvrRemapPrefix LabelSourceVVR LabelSourceVVRNamespace "VastVolumeReplication" (vr_Meta vr).

(** ** What a run may do *)

Section Runs.

Variable req : string * string.

Lemma wp_core {A} (G : RTrace → RCall → Prop) (p : Prog A) h Q :
  wp (fun u c => G (h ++ map core_event u) (Core c)) p [] (fun u a => Q (h ++ map core_event u) a) →
  wp G (core p) h Q.
Proof. by apply wp_embed. Qed.

(** The PVC [old] goes to [new], by the answers of the run. *)
Definition remap_entry (t : RTrace) (ns : string) (refs : list string) (old new : string) : Prop :=
  ∃ ref pvc, ref ∈ refs ∧ Ev (Core (Get kPVC ref ns)) (inr pvc) ∈ t ∧ Name (pvc_Meta pvc) = new ∧
    ((∃ l s, Ev (Core (List kPVC ns (sibling_selector (source_key pvc)))) (inr l) ∈ t ∧ s ∈ l ∧
        Name (pvc_Meta s) = old ∧ old ≠ new) ∨
     (source_key pvc = old ∧ map_get (Labels (pvc_Meta pvc)) LabelSourcePVC ≠ "")).

(** The resource asks for remapping, is not being deleted, and csi-addons
    reports its new primary; [refs] are the PVCs of that primary. *)
Definition vscr_due (t : RTrace) (pvcNS : string) (refs : list string) : Prop :=
  has_prefix req.2 vscrRemapPrefix = true ∧
  ∃ vscr vgr, Ev (Core (Get kVSCR (trim_prefix req.2 vscrRemapPrefix) req.1)) (inr vscr) ∈ t ∧
    vscr_PVCRemap (vscr_Spec vscr) = true ∧ Deleting (vscr_Meta vscr) = false ∧ pvcNS = VSCR_PVCNamespace vscr ∧
    Ev (Core (Get kVGR (vgrNameForSC (trim_prefix req.2 vscrRemapPrefix)
                          (vscr_PrimaryStorageClass (vscr_Spec vscr))) pvcNS)) (inr vgr) ∈ t ∧
    IsVGRConfirmedPrimary vgr = true ∧ refs = vgr_PVCs vgr.

Definition vvr_due (t : RTrace) (pvcNS : string) (refs : list string) : Prop :=
  has_prefix req.2 vvrRemapPrefix = true ∧
  ∃ vvr vr mirrors, Ev (Core (Get kVVR (trim_prefix req.2 vvrRemapPrefix) req.1)) (inr vvr) ∈ t ∧
    vvr_PVCRemap (vvr_Spec vvr) = true ∧ Deleting (vvr_Meta vvr) = false ∧ pvcNS = VVR_PVCNamespace vvr ∧
    Ev (Core (Get kVR (vrNameForSC (trim_prefix req.2 vvrRemapPrefix)
                         (vvr_PrimaryStorageClass (vvr_Spec vvr))) pvcNS)) (inr vr) ∈ t ∧
    IsVRConfirmedPrimary vr = true ∧
    Ev (Core (List kPVC pvcNS {[LabelManagedBy := LabelManagedByValue;
          LabelStorageClass := vvr_PrimaryStorageClass (vvr_Spec vvr);
          LabelSourceVVR := trim_prefix req.2 vvrRemapPrefix]})) (inr mirrors) ∈ t ∧
    refs = [match mirrors with m :: _ => Name (pvc_Meta m) | [] => vvr_VolumeName (vvr_Spec vvr) end].

Definition due (t : RTrace) (pvcNS : string) (refs : list string) : Prop :=
  vscr_due t pvcNS refs ∨ vvr_due t pvcNS refs.

Definition workload_read (t : RTrace) (w : Workload) : Prop :=
  ∃ k n ns, Ev (GetWorkload k n ns) (inr w) ∈ t.

Definition not_patched (t : RTrace) (uid : string) : Prop :=
  ∀ w vols r, Ev (PatchWorkload w vols) r ∈ t → wl_UID w ≠ uid.

Definition remap_allowed (t : RTrace) (c : RCall) : Prop :=
  match c with
  | Core (Get _ _ _) | Core (List _ _ _) | ListPods _ | GetWorkload _ _ _ => True
  | PatchWorkload w vols =>
      workload_read t w ∧ not_patched t (wl_UID w) ∧ vols ≠ [] ∧
      ∃ pvcNS refs, due t pvcNS refs ∧
        ∀ vol claim, (vol, claim) ∈ vols → ∃ v old, v ∈ wl_Volumes w ∧ pv_name v = vol ∧ pv_claim v = Some old ∧
          remap_entry t pvcNS refs old claim
  | Core _ => False
  end.

Notation W := (wp remap_allowed).

Lemma due_mono t t' ns refs : t ⊆ t' → due t ns refs → due t' ns refs.
Proof.
  intros Hs [(Hp & vscr & vgr & ? & ? & ? & ? & ? & ? & ?)|(Hp & vvr & vr & ms & ? & ? & ? & ? & ? & ? & ? & ?)];
    [left; split; [done|]; exists vscr, vgr|right; split; [done|]; exists vvr, vr, ms]; split_and!; auto.
Qed.

Definition table_read (t : RTrace) (ns : string) (refs : list string) (table : gmap string string) : Prop :=
  ∀ old new, table !! old = Some new → remap_entry t ns refs old new.

Lemma remap_entry_mono t t' ns refs old new : t ⊆ t' → remap_entry t ns refs old new → remap_entry t' ns refs old new.
Proof.
  intros Hs (ref & pvc & ? & ? & ? & Hc). exists ref, pvc. split_and!; [done|by apply Hs|done|].
  destruct Hc as [(l & s & ? & ?)|?]; [left; exists l, s; split; [by apply Hs|done]|by right].
Qed.

Lemma table_read_mono t t' ns refs table : t ⊆ t' → table_read t ns refs table → table_read t' ns refs table.
Proof. intros Hs Ht old new ?. eapply remap_entry_mono; [exact Hs|]. by apply Ht. Qed.

Lemma rprefix_sub (t t' : RTrace) : t `prefix_of` t' → t ⊆ t'.
Proof. intros [k ->] x ?. apply elem_of_app. by left. Qed.

Lemma add_siblings_lookup primary siblings table k p :
  add_siblings primary siblings table !! k = Some p →
  (p = primary ∧ k ≠ primary ∧ ∃ s, s ∈ siblings ∧ Name (pvc_Meta s) = k) ∨ table !! k = Some p.
Proof.
  unfold add_siblings. revert table. induction siblings as [|s l IH]; intros table; simpl; [by right|].
  intros [(? & ? & s' & ? & ?)|Ht]%IH; [left; split_and!; [done|done|]; exists s'; set_solver|].
  case_bool_decide as Hs; [|by right]. apply lookup_insert_Some in Ht as [[<- <-]|[_ ?]]; [left|by right].
  split_and!; [done|done|]. exists s. set_solver.
Qed.

Lemma wp_build_table ns refs0 refs table h :
  (∀ x, x ∈ refs → x ∈ refs0) → table_read h ns refs0 table →
  W (core (build_table ns refs table)) h (fun h' r => ∀ T, r = inr T → table_read h' ns refs0 T).
Proof.
  intros Hsub Hread. apply wp_core.
  assert (Hgen : ∀ refs table u, (∀ x, x ∈ refs → x ∈ refs0) →
    table_read (h ++ map core_event u) ns refs0 table →
    wp (fun u c => remap_allowed (h ++ map core_event u) (Core c)) (build_table ns refs table) u
      (fun u r => ∀ T, r = inr T → table_read (h ++ map core_event u) ns refs0 T)).
  2: { apply Hgen; [done|]. by rewrite app_nil_r. }
  clear refs table Hsub Hread. intros refs. induction refs as [|ref refs IH]; intros table u Hsub Hread.
  { apply wp_ret. by intros T [= <-]. }
  cbn [build_table]. apply wp_bind_call; [done|]. intros [e|pvc].
  { destruct (IsNotFound (Some e)); [|by apply wp_ret]. apply IH; [set_solver|].
    eapply table_read_mono; [|exact Hread]. rewrite map_app, app_assoc. apply rprefix_sub, prefix_app_r. done. }
  unfold ListPVCsByLabelSelector. apply wp_bind_call; [done|]. intros [e|l]; [by apply wp_ret|].
  apply IH; [set_solver|]. rewrite !map_app, !app_assoc. cbn [map]. set (h2 := (_ ++ [_]) ++ [_]).
  assert (Hpvc : Ev (Core (Get kPVC ref ns)) (inr pvc) ∈ h2).
  { apply elem_of_app. left. apply elem_of_app. right. by apply list_elem_of_singleton. }
  assert (Hl : Ev (Core (List kPVC ns (sibling_selector (source_key pvc)))) (inr l) ∈ h2) by apply in_snoc.
  assert (Hread2 : table_read h2 ns refs0 table).
  { eapply table_read_mono; [|exact Hread]. intros x Hx. do 2 (apply elem_of_app; left). done. }
  assert (Href : ref ∈ refs0) by (apply Hsub; set_solver).
  intros old new. unfold add_source. intros Ht.
  assert (Hsib : add_siblings (Name (pvc_Meta pvc)) l table !! old = Some new → remap_entry h2 ns refs0 old new).
  { intros [(-> & Hne & s & Hs & Hname)|Hold]%add_siblings_lookup; [|by apply Hread2].
    exists ref, pvc. split_and!; [done|done|done|]. left. exists l, s. done. }
  case_bool_decide as Hlab; [|by apply Hsib]. apply lookup_insert_Some in Ht as [[<- <-]|[_ Ht]]; [|by apply Hsib].
  exists ref, pvc. split_and!; [done|done|done|]. by right.
Qed.

(** *** Patching *)

Lemma wp_top_level_owner ns refs h :
  W (top_level_owner ns refs) h (fun h' r => (∀ w vols x, Ev (PatchWorkload w vols) x ∈ h' → Ev (PatchWorkload w vols) x ∈ h) ∧
    ∀ w, r = inr (Some w) → workload_read h' w).
Proof.
  assert (Hkeep : ∀ (h : RTrace) k n ns x w vols y, Ev (PatchWorkload w vols) y ∈ h ++ [Ev (GetWorkload k n ns) x] →
            Ev (PatchWorkload w vols) y ∈ h).
  { intros h0 k n ns0 x w vols y [?|Hy]%elem_of_app; [done|].
    apply list_elem_of_singleton in Hy. by apply (f_equal ev_call) in Hy. }
  induction refs as [|ref refs IH]; [by apply wp_ret|]. cbn [top_level_owner].
  destruct (is_controller ref); [|done]. cbn [negb]. destruct (workload_kind (ref_Kind ref)) as [k|]; [|done].
  apply wp_bind_call; [done|]. intros [e|w]; [apply wp_ret; split; [apply Hkeep|done]|].
  assert (Hw : workload_read (h ++ [Ev (GetWorkload k (ref_Name ref) ns) (inr w)]) w).
  { exists k, (ref_Name ref), ns. apply in_snoc. }
  assert (Hdone : W (mret (inr (Some w) : result (option Workload))) (h ++ [Ev (GetWorkload k (ref_Name ref) ns) (inr w)])
    (fun h' r => (∀ w vols x, Ev (PatchWorkload w vols) x ∈ h' → Ev (PatchWorkload w vols) x ∈ h) ∧
       ∀ w, r = inr (Some w) → workload_read h' w)).
  { apply wp_ret. split; [apply Hkeep|]. by intros ? [= <-]. }
  destruct k; try done. destruct (deployment_ref w) as [depRef|]; [|done].
  apply wp_bind_call; [done|]. intros r. apply wp_ret. split; [by intros ??? ?%Hkeep%Hkeep|].
  destruct r as [e|dep]; intros ? [= <-]. exists Deployment, (ref_Name depRef), ns. apply in_snoc.
Qed.

Lemma remapped_elem table (vols : list PodVolume) vol claim :
  (vol, claim) ∈ omap (remapped table) vols →
  ∃ v old, v ∈ vols ∧ pv_name v = vol ∧ pv_claim v = Some old ∧ table !! old = Some claim.
Proof.
  rewrite list_elem_of_omap. intros (v & Hv & Hr). unfold remapped in Hr.
  destruct (pv_claim v) as [old|] eqn:Hc; [|done]. cbn in Hr.
  destruct (table !! old) as [new|] eqn:Ht; [|done]. cbn in Hr. injection Hr as <- <-. by exists v, old.
Qed.

Definition patched_ok (h : RTrace) (patched : gset string) : Prop :=
  ∀ w vols r, Ev (PatchWorkload w vols) r ∈ h → wl_UID w ∈ patched.

Lemma wp_remap_pods pods table patched ns refs h :
  due h ns refs → table_read h ns refs table → patched_ok h patched →
  W (remap_pods pods table patched) h (fun _ _ => True).
Proof.
  revert patched h. induction pods as [|pod pods IH]; intros patched h Hdue Ht Hp; [done|].
  cbn [remap_pods]. case_bool_decide; [by apply IH|].
  apply wp_bind. eapply wp_post; [apply wp_prefix, wp_top_level_owner|].
  intros h1 r (Hh1%rprefix_sub & Hkeep & Hw).
  assert (Hdue1 : due h1 ns refs) by (by eapply due_mono).
  assert (Ht1 : table_read h1 ns refs table) by (by eapply table_read_mono).
  assert (Hp1 : patched_ok h1 patched) by (intros w vols x Hx; by eapply Hp, Hkeep).
  destruct r as [e|[owner|]]; [by apply IH| |by apply IH].
  case_bool_decide as Hin; [by apply IH|]. unfold patchOwnerVolumes.
  destruct (omap (remapped table) (wl_Volumes owner)) as [|u us] eqn:Hups.
  { apply wp_bind, wp_ret, IH; [done|done|]. intros w vols x Hx. apply elem_of_union_r. by eapply Hp1. }
  apply wp_bind, wp_bind_call.
  - split_and!; [by apply Hw| |done|].
    + intros w vols x Hx Heq. apply Hin. rewrite <-Heq. by eapply Hp1.
    + exists ns, refs. split; [done|]. intros vol claim Hvc. rewrite <-Hups in Hvc.
      destruct (remapped_elem _ _ _ _ Hvc) as (v & old & ? & ? & ? & ?). exists v, old.
      split_and!; try done. by apply Ht1.
  - intros r. apply wp_ret. set (h2 := h1 ++ _). assert (Hh2 : h1 ⊆ h2).
    { apply rprefix_sub. by apply prefix_app_r. }
    apply IH; [by eapply due_mono|by eapply table_read_mono|].
    intros w vols x [Hx|Hx]%elem_of_app; [apply elem_of_union_r; by eapply Hp1|].
    apply list_elem_of_singleton, (f_equal ev_call) in Hx. cbn in Hx. injection Hx as -> ->. set_solver.
Qed.

(** Programs over [Api.Call] patch nothing. *)
Definition nothing_patched (h : RTrace) : Prop := ∀ w vols r, Ev (PatchWorkload w vols) r ∉ h.

Lemma nothing_patched_core h c r : nothing_patched h → nothing_patched (h ++ [@Ev RCall rresp (Core c) r]).
Proof.
  intros Hn w vols x [?|Hx]%elem_of_app; [by eapply Hn|].
  apply list_elem_of_singleton, (f_equal ev_call) in Hx. done.
Qed.

Lemma wp_core_quiet {A} (p : Prog A) h Q :
  nothing_patched h → W (core p) h Q → W (core p) h (fun h' a => nothing_patched h' ∧ Q h' a).
Proof.
  revert h. induction p as [a|c k IH]; intros h Hn; [done|]. intros [Hg Hk]. split; [done|].
  intros r. apply IH; [|done]. by apply nothing_patched_core.
Qed.

Lemma wp_doRemap table_prog ns h :
  nothing_patched h →
  W (core table_prog) h (fun h' r => ∀ T, r = inr T → ∃ refs, table_read h' ns refs T ∧ due h' ns refs) →
  W (doRemap ns table_prog) h (fun _ _ => True).
Proof.
  intros Hn Hp. apply wp_bind. eapply wp_post; [by apply wp_core_quiet|].
  intros h1 [e|T] [Hn1 HT]; [by apply wp_ret|]. destruct (HT T eq_refl) as (refs & Ht & Hd).
  case_bool_decide; [by apply wp_ret|]. apply wp_bind_call; [done|]. intros [e|pods]; [by apply wp_ret|].
  set (h2 := h1 ++ _). assert (Hh2 : h1 ⊆ h2) by (apply rprefix_sub; by apply prefix_app_r).
  apply wp_bind. eapply wp_post; [apply (wp_remap_pods _ _ _ ns refs)|done].
  - by eapply due_mono.
  - by eapply table_read_mono.
  - intros w vols r [?|Hx]%elem_of_app; [by edestruct Hn1|].
    apply list_elem_of_singleton, (f_equal ev_call) in Hx. done.
Qed.

Lemma wp_buildSibling ns refs h :
  W (core (buildSiblingRemapTable ns refs)) h (fun h' r => ∀ T, r = inr T → table_read h' ns refs T).
Proof. apply wp_build_table; [done|]. intros old new. by rewrite lookup_empty. Qed.

Lemma wp_reconcileVSCR :
  has_prefix req.2 vscrRemapPrefix = true →
  W (reconcileVSCR (trim_prefix req.2 vscrRemapPrefix) req.1) [] (fun _ _ => True).
Proof.
  intros Hp. unfold reconcileVSCR. set (name := trim_prefix _ _).
  apply wp_bind, wp_core, wp_bind_call; [done|]. intros [e|vscr]; [done|]. apply wp_ret. cbn [app map].
  destruct (negb _ || Deleting (vscr_Meta vscr)) eqn:Hg; [done|].
  apply orb_false_iff in Hg as [Hremap%negb_false_iff Hdel].
  apply wp_bind, wp_core. split; [done|]. intros [e|vgr]; [done|]. apply wp_ret. cbn [app map].
  destruct (negb _ || negb _) eqn:Hc; [done|]. apply orb_false_iff in Hc as [Hc1%negb_false_iff Hc2%negb_false_iff].
  apply wp_doRemap.
  { intros w vols r Hin. rewrite elem_of_cons, list_elem_of_singleton in Hin.
    destruct Hin as [Hin|Hin]; apply (f_equal ev_call) in Hin; done. }
  eapply wp_post; [apply wp_prefix, wp_buildSibling|]. intros h1 r [Hh1%rprefix_sub HT] T ->.
  exists (vgr_PVCs vgr). split; [by apply HT|]. left. split; [done|]. exists vscr, vgr.
  split_and!; try done; [apply Hh1; set_solver|apply Hh1; set_solver|].
  unfold IsVGRConfirmedPrimary. by rewrite Hc1, Hc2.
Qed.

Lemma wp_reconcileVVR :
  has_prefix req.2 vvrRemapPrefix = true →
  W (reconcileVVR (trim_prefix req.2 vvrRemapPrefix) req.1) [] (fun _ _ => True).
Proof.
  intros Hp. unfold reconcileVVR. set (name := trim_prefix _ _).
  apply wp_bind, wp_core, wp_bind_call; [done|]. intros [e|vvr]; [done|]. apply wp_ret. cbn [app map].
  destruct (negb _ || Deleting (vvr_Meta vvr)) eqn:Hg; [done|].
  apply orb_false_iff in Hg as [Hremap%negb_false_iff Hdel].
  apply wp_bind, wp_core. split; [done|]. intros [e|vr]; [done|]. apply wp_ret. cbn [app map].
  destruct (negb _ || negb _) eqn:Hc; [done|]. apply orb_false_iff in Hc as [Hc1%negb_false_iff Hc2%negb_false_iff].
  apply wp_doRemap.
  { intros w vols r Hin. rewrite elem_of_cons, list_elem_of_singleton in Hin.
    destruct Hin as [Hin|Hin]; apply (f_equal ev_call) in Hin; done. }
  unfold vvr_table, ListPVCsByLabelSelector. cbn [embed].
  split; [done|]. intros [e|mirrors]; [done|]. cbn [app].
  eapply wp_post; [apply wp_prefix, wp_buildSibling|]. intros h1 r [Hh1%rprefix_sub HT] T ->.
  eexists. split; [by apply HT|]. right. split; [done|]. exists vvr, vr, mirrors.
  split_and!; try done; [apply Hh1; set_solver|apply Hh1; set_solver| |apply Hh1; set_solver].
  unfold IsVRConfirmedPrimary. by rewrite Hc1, Hc2.
Qed.

Lemma wp_Remap_Reconcile : W (Remap_Reconcile req) [] (fun _ _ => True).
Proof.
  unfold Remap_Reconcile. destruct (has_prefix req.2 vscrRemapPrefix) eqn:H1; [by apply wp_reconcileVSCR|].
  destruct (has_prefix req.2 vvrRemapPrefix) eqn:H2; [by apply wp_reconcileVVR|done].
Qed.

End Runs.

(** ** The table, on a store of PVCs *)

Notation PVCStore := (gmap (string * string) PVC).

Definition selects (selector : gmap string string) (o : PVC) : Prop :=
  map_Forall (fun k v => Labels (pvc_Meta o) !! k = Some v) selector.

(** An API server that holds PVCs and never fails. *)
Definition pvc_server (c : Call) (st : PVCStore) : PVCStore * resp c :=
  (st,
   match c return resp c with
   | Get k name ns =>
       match k return result (kobj k) with
       | kPVC =>
           match st !! (ns, name) with
           | Some o => inr o
           | None => inl (ErrStatus ReasonNotFound ("persistentvolumeclaims " +:+ quote name +:+ " not found"))
           end
       | _ => inl (ErrStatus ReasonNotFound "not found")
       end
   | List k ns selector =>
       match k return result (list (kobj k)) with
       | kPVC => inr (filter (fun o => Namespace (pvc_Meta o) = ns ∧ selects selector o) (map snd (map_to_list st)))
       | _ => inr []
       end
   | c => quiet c
   end).

Section Table.

Variable st : PVCStore.
Variable ns : string.

Definition mirror_label (o : PVC) : string := map_get (Labels (pvc_Meta o)) LabelSourcePVC.

(** Objects are stored under their names; a managed PVC is a mirror of another
    PVC; the source of a mirror is no mirror. *)
Record store_ok : Prop := mkStoreOk {
  store_names : ∀ n n' o, st !! (n, n') = Some o → Namespace (pvc_Meta o) = n ∧ Name (pvc_Meta o) = n';
  store_named : st !! (ns, "") = None;
  store_no_self : ∀ n o, st !! (ns, n) = Some o → mirror_label o ≠ n;
  store_no_chain : ∀ n o src s, st !! (ns, n) = Some o → mirror_label o = src → src ≠ "" →
    st !! (ns, src) = Some s → mirror_label s = "";
}.

(** [k] is a managed mirror of [src]. *)
Definition mirror_of (src k : string) : Prop :=
  ∃ o, st !! (ns, k) = Some o ∧ Labels (pvc_Meta o) !! LabelManagedBy = Some LabelManagedByValue ∧
    Labels (pvc_Meta o) !! LabelSourcePVC = Some src.

(** What the table is meant to say: [k] shares its source with the primary
    [p], and is another PVC. *)
Definition moves (refs : list string) (k p : string) : Prop :=
  ∃ o, p ∈ refs ∧ st !! (ns, p) = Some o ∧ k ≠ p ∧
    (mirror_of (source_key o) k ∨ (mirror_label o ≠ "" ∧ k = mirror_label o)).

Definition distinct_sources (refs : list string) : Prop :=
  ∀ p q o o', p ∈ refs → q ∈ refs → st !! (ns, p) = Some o → st !! (ns, q) = Some o' →
    source_key o = source_key o' → p = q.

Definition sibling_list (src : string) : list PVC :=
  filter (fun o => Namespace (pvc_Meta o) = ns ∧ selects (sibling_selector src) o) (map snd (map_to_list st)).

Lemma source_key_label o : mirror_label o ≠ "" → source_key o = mirror_label o.
Proof. intros H. unfold source_key. fold (mirror_label o). by rewrite bool_decide_false. Qed.

Lemma source_key_own o : mirror_label o = "" → source_key o = Name (pvc_Meta o).
Proof. intros H. unfold source_key. fold (mirror_label o). by rewrite bool_decide_true. Qed.

Lemma selects_sibling src o :
  selects (sibling_selector src) o ↔
  Labels (pvc_Meta o) !! LabelManagedBy = Some LabelManagedByValue ∧ Labels (pvc_Meta o) !! LabelSourcePVC = Some src.
Proof.
  unfold selects, sibling_selector. rewrite map_Forall_insert by done. by rewrite map_Forall_singleton.
Qed.

Lemma elem_of_siblings src k :
  store_ok → (∃ s, s ∈ sibling_list src ∧ Name (pvc_Meta s) = k) ↔ mirror_of src k.
Proof.
  intros [Hn _ _ _]. unfold sibling_list, mirror_of. split.
  - intros (s & Hs & <-). apply list_elem_of_filter in Hs as [[Hns Hsel] Hin].
    apply list_elem_of_fmap in Hin as ([[n n'] s'] & -> & Hin%elem_of_map_to_list). cbn in *.
    destruct (Hn _ _ _ Hin) as [<- <-]. exists s'. rewrite Hns in Hin. by apply selects_sibling in Hsel.
  - intros (o & Ho & Hl). destruct (Hn _ _ _ Ho) as [Hns Hname]. exists o. split; [|done].
    apply list_elem_of_filter. split; [by rewrite selects_sibling|].
    apply list_elem_of_fmap. exists ((ns, k), o). split; [done|]. by apply elem_of_map_to_list.
Qed.

Lemma add_siblings_none primary siblings table k :
  (¬ ∃ s, s ∈ siblings ∧ Name (pvc_Meta s) = k) → add_siblings primary siblings table !! k = table !! k.
Proof.
  unfold add_siblings. revert table. induction siblings as [|s l IH]; intros table Hn; [done|]. cbn [fold_left].
  rewrite IH by set_solver. case_bool_decide; [|done]. rewrite lookup_insert_ne; [done|]. set_solver.
Qed.

Lemma add_siblings_some primary siblings table k :
  k ≠ primary → (∃ s, s ∈ siblings ∧ Name (pvc_Meta s) = k) →
  add_siblings primary siblings table !! k = Some primary.
Proof.
  intros Hne. revert table. induction siblings as [|s l IH]; intros table (s' & Hs & Hk); [by apply elem_of_nil in Hs|].
  destruct (decide (k ∈ map (fun s => Name (pvc_Meta s)) l)) as [Hin|Hnin].
  { unfold add_siblings. cbn [fold_left]. apply IH. apply list_elem_of_fmap in Hin as (x & -> & ?). by exists x. }
  assert (Hno : ¬ ∃ s, s ∈ l ∧ Name (pvc_Meta s) = k).
  { intros (x & ? & <-). apply Hnin, list_elem_of_fmap. by exists x. }
  apply elem_of_cons in Hs as [->|Hs]; [|by destruct Hno; eauto].
  unfold add_siblings. cbn [fold_left]. rewrite bool_decide_true by (by rewrite Hk).
  fold (add_siblings primary l (<[Name (pvc_Meta s) := primary]> table)).
  rewrite add_siblings_none by done. by rewrite Hk, lookup_insert_eq.
Qed.

Lemma add_siblings_keeps primary siblings table k :
  is_Some (table !! k) → is_Some (add_siblings primary siblings table !! k).
Proof.
  unfold add_siblings. revert table. induction siblings as [|s l IH]; intros table Hk; [done|]. cbn [fold_left].
  apply IH. case_bool_decide; [|done].
  destruct (decide (Name (pvc_Meta s) = k)) as [->|?]; [by rewrite lookup_insert_eq|by rewrite lookup_insert_ne].
Qed.

(** What one primary adds. *)
Lemma primary_entries o p table k q :
  store_ok → st !! (ns, p) = Some o →
  let T := add_source o (add_siblings (Name (pvc_Meta o)) (sibling_list (source_key o)) table) in
  (T !! k = Some q → (q = p ∧ moves [p] k p) ∨ table !! k = Some q) ∧
  (moves [p] k p → T !! k = Some p) ∧
  (is_Some (table !! k) → is_Some (T !! k)).
Proof.
  intros Hst Ho T. pose proof Hst as [Hnames _ Hself _]. destruct (Hnames _ _ _ Ho) as [_ Hname].
  assert (Hsib : (∃ s, s ∈ sibling_list (source_key o) ∧ Name (pvc_Meta s) = k) ↔ mirror_of (source_key o) k)
    by (by apply elem_of_siblings).
  subst T. unfold add_source. rewrite Hname.
  change (map_get (Labels (pvc_Meta o)) LabelSourcePVC) with (mirror_label o).
  assert (Hsource : mirror_label o ≠ "" → mirror_label o ≠ p).
  { intros _. by apply (Hself p). }
  split_and!.
  - assert (Hsibs : add_siblings p (sibling_list (source_key o)) table !! k = Some q →
              (q = p ∧ moves [p] k p) ∨ table !! k = Some q).
    { intros [(-> & Hne & Hs)|?]%add_siblings_lookup; [left|by right].
      split; [done|]. exists o. split_and!; [set_solver|done|done|]. left. by apply Hsib. }
    case_bool_decide as Hl; [|done]. intros [[Hk <-]|[_ ?]]%lookup_insert_Some; [left|by apply Hsibs].
    rewrite source_key_label in Hk by done. subst k.
    split; [done|]. exists o. split_and!; [set_solver|done|by apply Hsource|by right].
  - intros (o' & _ & Ho' & Hne & Hk). rewrite Ho in Ho'. injection Ho' as <-.
    case_bool_decide as Hl.
    + destruct (decide (k = mirror_label o)) as [->|Hkl].
      { rewrite source_key_label by done. by rewrite lookup_insert_eq. }
      destruct Hk as [Hm|[_ ?]]; [|done]. rewrite lookup_insert_ne by (rewrite source_key_label; congruence).
      apply add_siblings_some; [done|]. by apply Hsib.
    + destruct Hk as [Hm|[? _]]; [|done]. apply add_siblings_some; [done|]. by apply Hsib.
  - intros Hk. apply (add_siblings_keeps p (sibling_list (source_key o))) in Hk.
    case_bool_decide; [|done]. destruct (decide (source_key o = k)) as [->|?];
      [by rewrite lookup_insert_eq|by rewrite lookup_insert_ne].
Qed.

Lemma moves_cons r refs k p : moves (r :: refs) k p ↔ (r = p ∧ moves [p] k p) ∨ moves refs k p.
Proof.
  unfold moves. split.
  - intros (o & [->|Hin]%elem_of_cons & Hrest); [left; split; [done|]; exists o; set_solver|right; by exists o].
  - intros [[-> (o & _ & Hrest)]|(o & Hin & Hrest)]; exists o; set_solver.
Qed.

Lemma source_key_nonempty p o : store_ok → st !! (ns, p) = Some o → source_key o ≠ "".
Proof.
  intros [Hn He _ _] Ho Hk. destruct (decide (mirror_label o = "")) as [Hl|Hl].
  - rewrite source_key_own in Hk by done. destruct (Hn _ _ _ Ho) as [_ Hname]. rewrite Hk in Hname.
    subst p. by rewrite He in Ho.
  - by rewrite source_key_label in Hk.
Qed.

(** The source of a mirror, by its label or as the table computes it. *)
Lemma mirror_of_key src k x : mirror_of src k → st !! (ns, k) = Some x → mirror_label x = src.
Proof.
  intros (o & Ho & _ & Hl) Hx. rewrite Ho in Hx. injection Hx as <-. unfold mirror_label, map_get. by rewrite Hl.
Qed.

Lemma moves_key refs k p o :
  store_ok → moves refs k p → st !! (ns, p) = Some o →
  match st !! (ns, k) with
  | Some x => source_key x = source_key o
  | None => k = source_key o
  end.
Proof.
  intros Hst (o' & Hp & Ho' & Hne & Hk) Ho. rewrite Ho in Ho'. injection Ho' as <-.
  destruct Hk as [Hm|[Hl ->]].
  - pose proof Hm as (x & Hx & _). rewrite Hx. pose proof (mirror_of_key _ _ _ Hm Hx) as Hlab.
    rewrite source_key_label; [done|]. rewrite Hlab. by eapply source_key_nonempty.
  - destruct (st !! (ns, mirror_label o)) as [x|] eqn:Hx; [|by rewrite source_key_label].
    rewrite (source_key_own x) by exact (store_no_chain Hst p o _ x Ho eq_refl Hl Hx). rewrite (source_key_label o) by done.
    by destruct (store_names Hst _ _ _ Hx).
Qed.

Lemma moves_functional refs k p q :
  store_ok → distinct_sources refs → moves refs k p → moves refs k q → p = q.
Proof.
  intros Hst Hd Hp Hq. pose proof Hp as (o & Hpin & Ho & _). pose proof Hq as (o' & Hqin & Ho' & _).
  apply (Hd p q o o'); try done.
  pose proof (moves_key _ _ _ _ Hst Hp Ho) as H1. pose proof (moves_key _ _ _ _ Hst Hq Ho') as H2.
  destruct (st !! (ns, k)); congruence.
Qed.

(** A primary is not moved itself. *)
Lemma moves_settle refs k p q : store_ok → distinct_sources refs → moves refs k p → ¬ moves refs p q.
Proof.
  intros Hst Hd (o & Hpin & Ho & _) Hq. pose proof Hq as (o' & Hqin & Ho' & Hne & _).
  apply Hne. apply (Hd p q o o'); try done.
  pose proof (moves_key _ _ _ _ Hst Hq Ho') as H2. by rewrite Ho in H2.
Qed.

Lemma exec_build_table refs T0 :
  store_ok → distinct_sources refs →
  ∃ t T, exec pvc_server (build_table ns refs T0) st = (st, t, inr T) ∧
    (∀ k p, T !! k = Some p → moves refs k p ∨ T0 !! k = Some p) ∧
    (∀ k p, moves refs k p → T !! k = Some p) ∧
    (∀ k, is_Some (T0 !! k) → is_Some (T !! k)).
Proof.
  intros Hst. revert T0. induction refs as [|r refs IH]; intros T0 Hd.
  { exists [], T0. split; [done|]. split_and!; [by right|by intros k p (? & ?%elem_of_nil & _)|done]. }
  assert (Hd' : distinct_sources refs) by (intros p q o o' Hp Hq; apply Hd; set_solver).
  cbn [build_table]. rewrite exec_bind. cbn [exec call pvc_server].
  destruct (st !! (ns, r)) as [o|] eqn:Ho.
  2: { change (st !! (ns, r) = None) in Ho. change (IsNotFound (Some (ErrStatus ReasonNotFound _))) with true. cbn iota. destruct (IH T0 Hd') as (t & T & -> & H1 & H2 & H3).
       eexists _, T. split; [done|].
       assert (Hm : ∀ k p, moves (r :: refs) k p ↔ moves refs k p).
       { intros k p. rewrite moves_cons. split; [|by right]. intros [[-> (o & _ & Ho' & _)]|?]; [|done]. by rewrite Ho in Ho'. }
       split_and!; [intros k p ?; rewrite Hm; auto|intros k p ?%Hm; auto|done]. }
  unfold ListPVCsByLabelSelector. rewrite exec_bind. cbn [exec call pvc_server].
  change (filter _ _) with (sibling_list (source_key o)).
  set (T1 := add_source o _). destruct (IH T1 Hd') as (t & T & -> & H1 & H2 & H3).
  eexists _, T. split; [done|].
  assert (Hent : ∀ k q, (T1 !! k = Some q → (q = r ∧ moves [r] k r) ∨ T0 !! k = Some q) ∧
    (moves [r] k r → T1 !! k = Some r) ∧ (is_Some (T0 !! k) → is_Some (T1 !! k))).
  { intros k q. by apply primary_entries. }
  split_and!.
  - intros k p Ht. rewrite moves_cons. destruct (H1 k p Ht) as [?|HT1]; [auto|].
    destruct (proj1 (Hent k p) HT1) as [[-> ?]|?]; auto.
  - intros k p [[-> Hm]|Hm]%moves_cons; [|by apply H2].
    destruct (T !! k) as [q|] eqn:HT.
    + destruct (H1 k q HT) as [Hq|HT1].
      * f_equal. eapply (moves_functional (p :: refs)); [done|exact Hd|rewrite moves_cons; by right|].
        rewrite moves_cons. by left.
      * pose proof (proj1 (proj2 (Hent k p)) Hm) as HT1'. congruence.
    + exfalso. pose proof (proj1 (proj2 (Hent k p)) Hm) as HT1.
      destruct (H3 k) as [q Hq]; [by rewrite HT1|]. congruence.
  - intros k Hk. apply H3. by apply (Hent k k).
Qed.

End Table.


(** ** Properties *)

(** C19. A workload is patched only for a resource that asks for remapping, is
    not being deleted, and whose new primary csi-addons confirms; each
    workload at most once in a reconciliation; and every volume named in the
    patch is one of its template's volumes, and goes from a PVC to the primary
    PVC that shares its source. *)
Theorem remap_guarded (req : string * string) (t t1 t2 : RTrace) (a : option error)
    (w : Workload) (vols : list (string * string)) (r : result unit) :
  runs (Remap_Reconcile req) t a → t = t1 ++ Ev (PatchWorkload w vols) r :: t2 →
  workload_read t1 w ∧ not_patched t1 (wl_UID w) ∧ vols ≠ [] ∧
  ∃ pvcNS refs, due req t1 pvcNS refs ∧
    ∀ vol claim, (vol, claim) ∈ vols →
      ∃ v old, v ∈ wl_Volumes w ∧ pv_name v = vol ∧ pv_claim v = Some old ∧ remap_entry t1 pvcNS refs old claim.
Proof.
  intros Hr Ht. destruct (wp_sound _ _ [] _ _ _ (wp_Remap_Reconcile req) Hr) as [_ H].
  exact (H t1 (PatchWorkload w vols) r t2 Ht).
Qed.

(** C20. The remap table is exact: when no two primaries share a source, it
    moves a PVC to a primary precisely when it is another PVC with the same
    source, and no primary is ever moved. *)
Theorem remap_table_exact (st : PVCStore) (ns : string) (refs : list string) :
  store_ok st ns → distinct_sources st ns refs →
  ∃ t T, exec pvc_server (buildSiblingRemapTable ns refs) st = (st, t, inr T) ∧
    (∀ k p, T !! k = Some p ↔ moves st ns refs k p) ∧
    (∀ k p, T !! k = Some p → T !! p = None).
Proof.
  intros Hst Hd. destruct (exec_build_table st ns refs ∅ Hst Hd) as (t & T & Hex & H1 & H2 & _).
  assert (Hiff : ∀ k p, T !! k = Some p ↔ moves st ns refs k p).
  { intros k p. split; [|by apply H2]. intros [?|?]%H1; [done|]. by rewrite lookup_empty in *. }
  exists t, T. split; [exact Hex|]. split; [done|].
  intros k p Hk%Hiff. destruct (T !! p) as [q|] eqn:Hp; [|done]. apply Hiff in Hp.
  by destruct (moves_settle _ _ _ _ _ _ Hst Hd Hk Hp).
Qed.

Lemma volumesNeedingRemap_empty vols T :
  (∀ v, v ∈ vols → remapped T v = None) → volumesNeedingRemap vols T = ∅.
Proof.
  unfold volumesNeedingRemap. induction vols as [|v vols IH]; intros H; [done|]. cbn [fold_left].
  rewrite (H v) by set_solver. apply IH. set_solver.
Qed.

(** What the strategic-merge patch of the API server is relied on for: the
    volumes are merged by name, the others are left as they are. *)
Definition merges_by_name (merge : list PodVolume → list (string * string) → list PodVolume) : Prop :=
  ∀ vols patch, NoDup (map pv_name vols) → NoDup (map fst patch) → ∀ v', v' ∈ merge vols patch →
    ∃ v, v ∈ vols ∧ pv_name v' = pv_name v ∧
      (∀ claim, (pv_name v, claim) ∈ patch → pv_claim v' = Some claim) ∧
      ((∀ claim, (pv_name v, claim) ∉ patch) → v' = v).

Lemma remapped_Some T v claim old :
  pv_claim v = Some old → T !! old = Some claim → remapped T v = Some (pv_name v, claim).
Proof. intros Hc Ht. unfold remapped. rewrite Hc. cbn. rewrite Ht. done. Qed.

Lemma patch_names T (vols : list PodVolume) :
  NoDup (map pv_name vols) → NoDup (map fst (omap (remapped T) vols)).
Proof.
  intros Hnd. eapply sublist_NoDup; [exact Hnd|]. clear Hnd. induction vols as [|v vols IH]; [done|]. cbn [omap list_omap map].
  unfold remapped at 1. destruct (pv_claim v) as [c|]; cbn; [|by apply sublist_cons].
  destruct (T !! c); cbn; [by apply sublist_skip|by apply sublist_cons].
Qed.

(** Remapping settles: a template patched with what the table asks for
    needs no further remapping by that table. *)
Theorem remap_settles (merge : list PodVolume → list (string * string) → list PodVolume)
    (st : PVCStore) (ns : string) (refs : list string) (vols : list PodVolume) (T : gmap string string) :
  merges_by_name merge → NoDup (map pv_name vols) → store_ok st ns → distinct_sources st ns refs →
  (exec pvc_server (buildSiblingRemapTable ns refs) st).2 = inr T →
  volumesNeedingRemap (merge vols (omap (remapped T) vols)) T = ∅.
Proof.
  intros Hm Hnd Hst Hd Hex. destruct (exec_build_table st ns refs ∅ Hst Hd) as (t' & T' & Heq & H1 & H2 & _).
  unfold buildSiblingRemapTable in Hex. rewrite Heq in Hex. injection Hex as ->.
  apply volumesNeedingRemap_empty. intros v' Hv'. destruct (Hm _ _ Hnd (patch_names T _ Hnd) _ Hv') as (v & Hv & Hname & Hset & Hkeep).
  destruct (remapped T v) as [[n claim]|] eqn:Hr.
  - assert (Hin : (n, claim) ∈ omap (remapped T) vols) by (apply list_elem_of_omap; by exists v).
    unfold remapped in *. destruct (pv_claim v) as [old|]; [|done]. cbn in Hr.
    destruct (T !! old) as [c|] eqn:Hc; [|done]. cbn in Hr. injection Hr as <- <-.
    rewrite (Hset c Hin). cbn. destruct (T !! c) as [q|] eqn:Hq; [|done].
    exfalso. apply H1 in Hc as [Hc|Hc]; [|by rewrite lookup_empty in Hc].
    apply H1 in Hq as [Hq|Hq]; [|by rewrite lookup_empty in Hq].
    exact (moves_settle _ _ _ _ _ _ Hst Hd Hc Hq).
  - rewrite Hkeep; [done|]. intros claim (x & Hx & Hrx)%list_elem_of_omap.
    assert (Hxv : pv_name x = pv_name v).
    { unfold remapped in Hrx. destruct (pv_claim x); [|done]. cbn in Hrx.
      destruct (T !! _); [|done]. cbn in Hrx. by injection Hrx. }
    assert (x = v) as ->; [|congruence].
    apply list_elem_of_lookup in Hx as [i Hi]. apply list_elem_of_lookup in Hv as [j Hj].
    assert (i = j) as ->; [|congruence].
    eapply (NoDup_lookup (map pv_name vols)); [done|..]; rewrite list_lookup_fmap; [by rewrite Hi|by rewrite Hj, Hxv].
Qed.

(** ** Witnesses *)

Definition demo_mirror : PVC :=
  mkPVC (demo_meta "data-m" "apps" {[LabelManagedBy := LabelManagedByValue; LabelSourcePVC := "data"]})
    (Some "silver") "pv-2" demo_shape.
Definition demo_store : PVCStore := {[("apps", "data") := demo_source; ("apps", "data-m") := demo_mirror]}.
Definition demo_remap_parent : VSCR :=
  mkVSCR (demo_meta "a" "apps" ∅)
    (mkVSCRSpec "silver" [] (mkTemplate []) FailoverTypeUngraceful false 0 true true DestVolReclaimPolicyDelete "")
    (mkStatus FailoverTypeUnset "" "" ∅ ∅ "" "").
Definition demo_vgr : VolumeGroupReplication :=
  mkVGR (demo_meta "a-silver" "apps" ∅) Primary "" "" "" false None PrimaryState ["data-m"].
Definition demo_deployment : Workload :=
  mkWorkload Deployment "web" "apps" "u-web" [] [mkPodVolume "cfg" None; mkPodVolume "data" (Some "data")].
Definition demo_replicaset : Workload :=
  mkWorkload ReplicaSet "web-1" "apps" "u-rs" [mkControllerRef "Deployment" "web" (Some true)] (wl_Volumes demo_deployment).
Definition demo_rpod (name : string) : RemapPod :=
  mkRemapPod name "apps" [mkControllerRef "ReplicaSet" "web-1" (Some true)] (wl_Volumes demo_deployment).

Definition remap_handler (c : RCall) (s : unit) : unit * rresp c :=
  (s,
   match c return rresp c with
   | Core c =>
       match c return resp c with
       | Get kVSCR _ _ => inr demo_remap_parent
       | Get kVGR _ _ => inr demo_vgr
       | c => (pvc_server c demo_store).2
       end
   | ListPods _ => inr [demo_rpod "web-1-x"; demo_rpod "web-1-y"]
   | GetWorkload Deployment _ _ => inr demo_deployment
   | GetWorkload _ _ _ => inr demo_replicaset
   | PatchWorkload _ _ => inr tt
   end).

Definition remap_run := exec remap_handler (Remap_Reconcile ("apps", "vscr/a")) tt.

Lemma remap_guarded_witness :
  let t := remap_run.1.2 in
  t = take 7 t ++ Ev (PatchWorkload demo_deployment [("data", "data-m")]) (inr tt) :: drop 8 t ∧
  not_patched (take 7 t) "u-web".
Proof.
  intros t.
  assert (H : t = take 7 t ++ Ev (PatchWorkload demo_deployment [("data", "data-m")]) (inr tt) :: drop 8 t)
    by evaluates.
  split; [exact H|].
  exact (proj1 (proj2 (remap_guarded ("apps", "vscr/a") t (take 7 t) (drop 8 t) _ _ _ _
    (exec_runs remap_handler (Remap_Reconcile ("apps", "vscr/a")) tt) H))).
Defined.

Lemma demo_store_lookup n n' o :
  demo_store !! (n, n') = Some o → n = "apps" ∧ ((n' = "data" ∧ o = demo_source) ∨ (n' = "data-m" ∧ o = demo_mirror)).
Proof.
  unfold demo_store. intros [[Heq <-]|[_ [Heq <-]%lookup_singleton_Some]]%lookup_insert_Some; injection Heq as <- <-; auto.
Qed.

Lemma demo_store_ok : store_ok demo_store "apps".
Proof.
  constructor.
  - intros n n' o [-> [[-> ->]|[-> ->]]]%demo_store_lookup; done.
  - by vm_compute.
  - intros n o [_ [[-> ->]|[-> ->]]]%demo_store_lookup; by vm_compute.
  - intros n o src s [_ [[-> ->]|[-> ->]]]%demo_store_lookup <- Hne [_ [[_ ->]|[Hsrc ->]]]%demo_store_lookup;
      solve [by vm_compute|by destruct Hne|by vm_compute in Hsrc].
Qed.

Lemma demo_distinct p : distinct_sources demo_store "apps" [p].
Proof. intros x y o o' ->%list_elem_of_singleton ->%list_elem_of_singleton. done. Qed.

Lemma remap_table_exact_witness :
  store_ok demo_store "apps" ∧
  ∃ t T, exec pvc_server (buildSiblingRemapTable "apps" ["data-m"]) demo_store = (demo_store, t, inr T) ∧
    (∀ k p, T !! k = Some p ↔ moves demo_store "apps" ["data-m"] k p) ∧ (∀ k p, T !! k = Some p → T !! p = None).
Proof.
  split; [exact demo_store_ok|].
  exact (remap_table_exact demo_store "apps" ["data-m"] demo_store_ok (demo_distinct "data-m")).
Defined.

(** A merge by name. *)
Definition demo_merge (vols : list PodVolume) (patch : list (string * string)) : list PodVolume :=
  map (fun v => match list_find (fun x => x.1 = pv_name v) patch with
                | Some (_, x) => mkPodVolume (pv_name v) (Some x.2)
                | None => v
                end) vols.

Lemma demo_merge_by_name : merges_by_name demo_merge.
Proof.
  intros vols patch Hnd Hp v' (v & -> & Hv)%list_elem_of_fmap. exists v. split; [done|].
  destruct (list_find _ patch) as [[i x]|] eqn:Hf.
  - apply list_find_Some in Hf as (Hi & Hx & _). cbn. split_and!; [done| |].
    + intros claim Hin. apply list_elem_of_lookup in Hin as [j Hj].
      assert (i = j) as <-; [|rewrite Hi in Hj; by injection Hj as ->].
      eapply (NoDup_lookup (map fst patch)); [done|..]; rewrite list_lookup_fmap; [by rewrite Hi|].
      rewrite Hj. cbn. by rewrite Hx.
    + intros Hno. destruct (Hno x.2). rewrite <-Hx. apply list_elem_of_lookup. exists i. by destruct x.
  - apply list_find_None in Hf. split_and!; [done| |done].
    intros claim Hin. rewrite Forall_forall in Hf. by destruct (Hf _ Hin).
Qed.

Lemma remap_settles_witness :
  let T : gmap string string := {["data" := "data-m"]} in
  let vols := wl_Volumes demo_deployment in
  demo_merge vols (omap (remapped T) vols) = [mkPodVolume "cfg" None; mkPodVolume "data" (Some "data-m")] ∧
  volumesNeedingRemap vols T ≠ ∅ ∧ volumesNeedingRemap (demo_merge vols (omap (remapped T) vols)) T = ∅.
Proof.
  intros T vols. split; [reflexivity|]. split; [by vm_compute|].
  refine (remap_settles demo_merge demo_store "apps" ["data-m"] vols T demo_merge_by_name _ demo_store_ok
    (demo_distinct "data-m") _); [|reflexivity].
  apply NoDup_cons; split; [vm_compute; set_solver|]. apply NoDup_singleton.
Defined.
