(* ===== verification/Server.v ===== *)
(** * The VastExtensions gRPC server

    [internal/server/server.go], [internal/server/auth/auth.go],
    [internal/server/extensions/service.go], and the lookups of
    [k8s_client/cosi_bucket.go] and [k8s_client/subjectaccessreview.go].

    A request is served by a program over calls to the API server; what a
    caller gets, and what is read on its behalf, is bound to the token it
    presented.  The generated protobuf code, TLS itself, and log lines are left
    out. *)

From S2P Require Import Prelude GoErrors Topology Kube Peers PpathDir Lookups PvcWebhook Programs Api Client.
From stdpp Require Import options.

(** ** Data *)

Record UserInfo := mkUserInfo {
  user_Username : string;
  user_UID : string;
  user_Groups : list string;
  user_Extra : gmap string (list string);
}.

(** The [SubjectAccessReviewSpec] that asks for one Secret. *)
Record AccessReview := mkAccessReview {
  sar_User : string;
  sar_UID : string;
  sar_Groups : list string;
  sar_Extra : gmap string (list string);
  sar_Namespace : string;
  sar_Verb : string;
  sar_Group : string;
  sar_Resource : string;
  sar_Name : string;
}.

(** A provisioned bucket, as far as its credentials are concerned. *)
Record CosiBucket := mkCosiBucket {
  cb_Name : string;
  cb_Parameters : gmap string string;
}.

Inductive Code := InvalidArgument | NotFound | PermissionDenied | Internal | Unauthenticated.
#[export] Instance Code_eq_dec : EqDecision Code.
Proof. solve_decision. Defined.

(** The status of a failed call. *)
Record GrpcStatus := mkStatusErr { st_code : Code; st_message : string }.

Notation grpc A := (GrpcStatus + A)%type.
Definition status_Error {A} (c : Code) (msg : string) : grpc A := inl (mkStatusErr c msg).

(** ** Calls *)

Inductive SCall :=
| SCore (c : Call)
| TokenReview (token : string)
| SubjectAccessReview (review : AccessReview)
| GetSecretObject (name namespace : string)
| ListBucketsByID (bucketID : string)
(* the operating system *)
| RemoveFile (path : string)
| MkdirAll (path : string)
| Listen (network addr : string)
| LoadX509KeyPair (certFile keyFile : string)
(* serves until the context ends *)
| Serve (interceptor : bool) (network addr : string).

Definition sresp (c : SCall) : Type :=
  match c with
  | SCore c => resp c
  | TokenReview _ => result (UserInfo * bool)
  | SubjectAccessReview _ => result bool
  | GetSecretObject _ _ => result Secret
  | ListBucketsByID _ => result (list CosiBucket)
  (* the error, and whether it says that there is no such file *)
  | RemoveFile _ => option (error * bool)
  | MkdirAll _ => option error
  | Listen _ _ => option error
  | LoadX509KeyPair _ _ => option error
  | Serve _ _ _ => option error
  end.

Notation SProg := (prog sresp).
Notation STrace := (list (event sresp)).
Notation score := (embed (resp2 := sresp) SCore (fun _ r => r)).

(** ** Authentication *)

Definition bearerPrefix := "Bearer ".
Definition authorizationKey := "authorization".
Definition saUsernamePrefix := "system:serviceaccount:".
Definition driverControllerSASuffix := "-vast-controller-sa".

Definition isDriverControllerSA (username : string) : bool :=
  if negb (has_prefix username saUsernamePrefix) then false
  else
    match split_str ":"%char username with
    | [_; _; ns; name] =>
        if bool_decide (ns = "") || bool_decide (name = "") then false
        else has_suffix name driverControllerSASuffix
    | _ => false
    end.

(** The incoming metadata, when there is any. *)
Notation Metadata := (option (gmap string (list string))).

Definition validateBearerToken (authHeader : string) : SProg (result (UserInfo * bool)) :=
  call (TokenReview (trim_prefix authHeader bearerPrefix)).

Definition authorizeConnection (md : Metadata) : SProg (grpc UserInfo) :=
  match md with
  | None => mret (status_Error Unauthenticated "missing metadata")
  | Some md =>
      match md !! authorizationKey with
      | None | Some [] => mret (status_Error Unauthenticated "missing authorization token")
      | Some (authHeader :: _) =>
          r ← validateBearerToken authHeader;
          mret (match r with
                | inl e => status_Error Internal ("token review failed: " +:+ error_msg e)
                | inr (user, authenticated) =>
                    if negb authenticated then status_Error Unauthenticated "invalid token"
                    else if negb (isDriverControllerSA (user_Username user))
                    then status_Error PermissionDenied
                           ("identity " +:+ quote (user_Username user) +:+ " is not an allowed VastExtensions caller")
                    else inr user
                end)
      end
  end.

(** ** Authorization of Secrets *)

Definition secret_review (user : UserInfo) (secretName secretNamespace : string) : AccessReview :=
  mkAccessReview (user_Username user) (user_UID user) (user_Groups user) (user_Extra user)
    secretNamespace "get" "" "secrets" secretName.

Definition CreateSubjectAccessReview (sar : AccessReview) : SProg (result bool) :=
  r ← call (SubjectAccessReview sar);
  mret (wrap_err "create SubjectAccessReview: " r).

(** [user]: the caller the interceptor stored in the context, if any.  The
    service always passes a reviewer. *)
Definition AuthorizeSecretGet (user : option UserInfo) (secretName secretNamespace : string) : SProg (option GrpcStatus) :=
  match user with
  | None => mret None
  | Some user =>
      r ← CreateSubjectAccessReview (secret_review user secretName secretNamespace);
      mret (match r with
            | inl e => Some (mkStatusErr Internal ("subject access review failed: " +:+ error_msg e))
            | inr allowed =>
                if negb allowed
                then Some (mkStatusErr PermissionDenied
                       ("caller is not allowed to get secret " +:+ secretNamespace +:+ "/" +:+ secretName))
                else None
            end)
  end.

(** ** The service *)

Inductive ProtoFailover := FAILOVER_TYPE_UNGRACEFUL | FAILOVER_TYPE_GRACEFUL.

Definition failoverTypeToProto (a : FailoverAction) : ProtoFailover :=
  match a with
  | FailoverTypeGraceful => FAILOVER_TYPE_GRACEFUL
  | _ => FAILOVER_TYPE_UNGRACEFUL
  end.

Record ReplicationInfo := mkInfo {
  info_ResourceName : string;
  info_Namespace : string;
  info_ResourceKind : string;
  info_IsPrimary : bool;
  info_StorageClasses : list string;
  info_FailoverType : ProtoFailover;
}.

Inductive Request :=
| GetReplicationTenantRequest (storageClass : string)
| GetReplicationInfoRequest (storageClass namespace : string)
| ResolveSecretRequest (secretName secretNamespace : string)
| ResolveCOSIBucketAuthRequest (bucketId : string).

Inductive Response :=
| TenantResponse (storageClass tenantGuid : string)
| InfoResponse (info : ReplicationInfo)
| SecretResponse (secrets : gmap string string).

Definition vscr_info (sc : string) (vscr : VSCR) : ReplicationInfo :=
  mkInfo (Name (vscr_Meta vscr)) (Namespace (vscr_Meta vscr)) "VastStorageClassReplication"
    (bool_decide (vscr_PrimaryStorageClass (vscr_Spec vscr) = sc)) (VSCR_AllStorageClasses (vscr_Spec vscr))
    (failoverTypeToProto (vscr_FailoverType (vscr_Spec vscr))).
Definition vvr_info (sc : string) (vvr : VVR) : ReplicationInfo :=
  mkInfo (Name (vvr_Meta vvr)) (Namespace (vvr_Meta vvr)) "VastVolumeReplication"
    (bool_decide (vvr_PrimaryStorageClass (vvr_Spec vvr) = sc)) (VVR_AllStorageClasses (vvr_Spec vvr))
    (failoverTypeToProto (vvr_FailoverType (vvr_Spec vvr))).

(** The first of the list that has the StorageClass. *)
Definition first_vscr (sc : string) (l : list VSCR) : option VSCR :=
  head (filter (fun v => sc ∈ VSCR_AllStorageClasses (vscr_Spec v)) l).
Definition first_vvr (sc : string) (l : list VVR) : option VVR :=
  head (filter (fun v => sc ∈ VVR_AllStorageClasses (vvr_Spec v)) l).

Definition GetReplicationInfo (sc ns : string) : SProg (grpc ReplicationInfo) :=
  if bool_decide (sc = "") then mret (status_Error InvalidArgument "storage_class must not be empty")
  else
    r ← score (ListVastStorageClassReplications ns);
    match r with
    | inl e => mret (status_Error Internal (error_msg e))
    | inr vscrList =>
        match first_vscr sc vscrList with
        | Some vscr => mret (inr (vscr_info sc vscr))
        | None =>
            r ← score (ListVastVolumeReplications ns);
            match r with
            | inl e => mret (status_Error Internal ("failed to list VastVolumeReplications: " +:+ error_msg e))
            | inr vvrList =>
                match first_vvr sc vvrList with
                | Some vvr => mret (inr (vvr_info sc vvr))
                | None =>
                    mret (status_Error NotFound ("StorageClass " +:+ quote sc +:+
                            " is not part of any VastStorageClassReplication or VastVolumeReplication"))
                end
            end
        end
    end.

(** The GUID a status maps the StorageClass to, when it is known. *)
Definition mapped_guid (sc : string) (st : ReplicationStatus) : option string :=
  t ← TenantMapping st !! sc;
  if bool_decide (tenant_Guid t = "") then None else Some (tenant_Guid t).

Definition first_guid (sc : string) (l : list ReplicationStatus) : option string := head (omap (mapped_guid sc) l).

Definition tenantGUIDFromReplicationStatus (sc : string) : SProg (option string) :=
  r ← score (ListVastStorageClassReplications "");
  match r ≫= fun l => mret (first_guid sc (map vscr_Status l)) with
  | inr (Some guid) => mret (Some guid)
  | _ =>
      r ← score (ListVastVolumeReplications "");
      mret (match r with inr l => first_guid sc (map vvr_Status l) | inl _ => None end)
  end.

Definition GetReplicationTenant `{Lookups} (sc : string) : SProg (grpc string) :=
  if bool_decide (sc = "") then mret (status_Error InvalidArgument "storage_class must not be empty")
  else
    g ← tenantGUIDFromReplicationStatus sc;
    mret (match g with
          | Some guid => inr guid
          | None =>
              match NewFromStorageClassName sc with
              | inl e => status_Error Internal ("failed to build VMS REST client from StorageClass " +:+ quote sc +:+ ": " +:+ error_msg e)
              | inr class =>
                  match ResolveTenant sc class with
                  | inl e => status_Error Internal ("failed to resolve tenant GUID via VIP pool for StorageClass " +:+ quote sc +:+ ": " +:+ error_msg e)
                  | inr tenant => inr (tenant_Guid tenant)
                  end
              end
          end).

(** [GetSecretCredentials], the object itself read by a call. *)
Definition get_secret_credentials (name ns : string) : SProg (result (gmap string string)) :=
  r ← call (GetSecretObject name ns);
  mret (GetSecretCredentials (fun _ _ => r) name ns).

Definition ResolveSecret (user : option UserInfo) (secretName secretNamespace : string) : SProg (grpc (gmap string string)) :=
  if bool_decide (secretName = "") then mret (status_Error InvalidArgument "secret_name must not be empty")
  else if bool_decide (secretNamespace = "") then mret (status_Error InvalidArgument "secret_namespace must not be empty")
  else
    err ← AuthorizeSecretGet user secretName secretNamespace;
    match err with
    | Some err => mret (inl err)
    | None =>
        r ← get_secret_credentials secretName secretNamespace;
        mret (match r with
              | inl e =>
                  if IsNotFound (Some e)
                  then status_Error NotFound ("secret " +:+ secretNamespace +:+ "/" +:+ secretName +:+ " not found")
                  else status_Error Internal ("failed to get secret " +:+ secretNamespace +:+ "/" +:+ secretName +:+ ": " +:+ error_msg e)
              | inr credentials => inr credentials
              end)
    end.

Definition FindCOSIBucketByID (bucketID : string) : SProg (result CosiBucket) :=
  r ← call (ListBucketsByID bucketID);
  mret (match r with
        | inl e => inl (ErrWrap "list COSI Buckets by bucketID: " e "")
        | inr [] => Errorf ("COSI Bucket with bucketID " +:+ quote bucketID +:+ " not found")
        | inr [b] => inr b
        | inr _ => Errorf ("multiple COSI Buckets with bucketID " +:+ quote bucketID)
        end).

Definition ResolveCOSIBucketAuth (user : option UserInfo) (bucketId : string) : SProg (grpc (gmap string string)) :=
  if bool_decide (bucketId = "") then mret (status_Error InvalidArgument "bucket_id must not be empty")
  else
    r ← FindCOSIBucketByID bucketId;
    match r with
    | inl e => mret (status_Error NotFound (error_msg e))
    | inr bucket =>
        match SecretRefFromParameters (cb_Parameters bucket) with
        | None => mret (inr ∅)
        | Some (secretName, secretNamespace) =>
            if bool_decide (secretName = "") || bool_decide (secretNamespace = "")
            then mret (status_Error InvalidArgument (SecretNameParam +:+ " and " +:+ SecretNamespaceParam +:+ " must both be set"))
            else ResolveSecret user secretName secretNamespace
        end
    end.

Definition respond {A} (f : A → Response) (r : grpc A) : grpc Response :=
  match r with inl e => inl e | inr a => inr (f a) end.

(** The handler of a request, with the caller stored in its context. *)
Definition handle `{Lookups} (user : option UserInfo) (req : Request) : SProg (grpc Response) :=
  match req with
  | GetReplicationTenantRequest sc => r ← GetReplicationTenant sc; mret (respond (TenantResponse sc) r)
  | GetReplicationInfoRequest sc ns => r ← GetReplicationInfo sc ns; mret (respond InfoResponse r)
  | ResolveSecretRequest n ns => r ← ResolveSecret user n ns; mret (respond SecretResponse r)
  | ResolveCOSIBucketAuthRequest id => r ← ResolveCOSIBucketAuth user id; mret (respond SecretResponse r)
  end.

(** ** The server *)

Definition ExtensionsSocketPath := "/var/run/vast-extensions/extensions.sock".

Definition parseBindAddress (bindAddress : string) : string * string :=
  if has_prefix bindAddress "unix://" then ("unix", trim_prefix bindAddress "unix://")
  else if has_prefix bindAddress "/" then ("unix", bindAddress)
  else ("tcp", bindAddress).

(** The path before its last slash. *)
Definition dirOf (path : string) : string :=
  if bool_decide ("/"%char ∈ chars path)
  then str (rev (tail (drop_while (fun c => negb (bool_decide (c = "/"%char))) (rev (chars path)))))
  else ".".

Record GRPCServer := mkGRPCServer {
  srv_network : string;
  srv_bindAddress : string;
  srv_kubeClient : bool;          (* a client was given *)
  srv_CertFile : string;
  srv_KeyFile : string;
}.

Definition New (bindAddress : string) (kubeClient : bool) (certFile keyFile : string) : GRPCServer :=
  let '(network, addr) := parseBindAddress bindAddress in
  mkGRPCServer network addr kubeClient certFile keyFile.

Definition TLSServerOptions (certFile keyFile : string) : SProg (option error) :=
  if bool_decide (certFile = "") || bool_decide (keyFile = "") then
    mret (Some (ErrNew ("TLS certificate and key paths are required for VastExtensions gRPC (got cert=" +:+
                        quote certFile +:+ " key=" +:+ quote keyFile +:+ ")")))
  else
    err ← call (LoadX509KeyPair certFile keyFile);
    mret (wrap_opt "load VastExtensions TLS certificate: " err).

Definition TCPServerOptions (kubeClient : bool) (certFile keyFile : string) : SProg (option error) :=
  if negb kubeClient then mret (Some (ErrNew "kubernetes client is required for VastExtensions TCP auth"))
  else TLSServerOptions certFile keyFile.

Definition prepare_socket (s : GRPCServer) : SProg (option error) :=
  if bool_decide (srv_network s = "unix") then
    r ← call (RemoveFile (srv_bindAddress s));
    match r with
    | Some (e, false) => mret (Some e)
    | _ => call (MkdirAll (dirOf (srv_bindAddress s)))
    end
  else mret None.

(** [Start]; [Serve] returns when the context ends or serving fails. *)
Definition Start (s : GRPCServer) : SProg (option error) :=
  err ← prepare_socket s;
  match err with
  | Some e => mret (Some e)
  | None =>
      err ← call (Listen (srv_network s) (srv_bindAddress s));
      match err with
      | Some e => mret (Some e)
      | None =>
          let tcpAuth := bool_decide (srv_network s = "tcp") in
          err ← (if tcpAuth then TCPServerOptions (srv_kubeClient s) (srv_CertFile s) (srv_KeyFile s)
                 else TLSServerOptions (srv_CertFile s) (srv_KeyFile s));
          match err with
          | Some e => mret (Some (ErrWrap (if tcpAuth then "tcp gRPC auth: " else "unix gRPC TLS: ") e ""))
          | None => call (Serve tcpAuth (srv_network s) (srv_bindAddress s))
          end
      end
  end.

(** A request to a server with or without [authorizationInterceptor]. *)
Definition serve `{Lookups} (interceptor : bool) (md : Metadata) (req : Request) : SProg (grpc Response) :=
  if interceptor then
    r ← authorizeConnection md;
    match r with
    | inl e => mret (inl e)
    | inr user => handle (Some user) req
    end
  else handle None req.

(** ** What a request may do *)

Section Requests.

Context `{Lookups}.
Context (interceptor : bool) (md : Metadata) (req : Request).

(** The caller, by the token of the request. *)
Definition authenticated (t : STrace) (user : UserInfo) : Prop :=
  ∃ m header rest, md = Some m ∧ m !! authorizationKey = Some (header :: rest) ∧
    Ev (TokenReview (trim_prefix header bearerPrefix)) (inr (user, true)) ∈ t ∧
    isDriverControllerSA (user_Username user) = true.

Definition secret_authorized (t : STrace) (name ns : string) : Prop :=
  ∃ user, authenticated t user ∧ Ev (SubjectAccessReview (secret_review user name ns)) (inr true) ∈ t.

(** The Secret the request is about: its own, or that of the one bucket with
    the given id. *)
Definition secret_requested (t : STrace) (name ns : string) : Prop :=
  name ≠ "" ∧ ns ≠ "" ∧
  match req with
  | ResolveSecretRequest n n' => n = name ∧ n' = ns
  | ResolveCOSIBucketAuthRequest id =>
      ∃ b, Ev (ListBucketsByID id) (inr [b]) ∈ t ∧ SecretRefFromParameters (cb_Parameters b) = Some (name, ns)
  | _ => False
  end.

Definition server_allowed (t : STrace) (c : SCall) : Prop :=
  match c with
  | SCore (List kVSCR _ _) | SCore (List kVVR _ _) => interceptor = true → ∃ user, authenticated t user
  | TokenReview _ => interceptor = true ∧ t = []
  | SubjectAccessReview review =>
      ∃ user name ns, authenticated t user ∧ secret_requested t name ns ∧ review = secret_review user name ns
  | GetSecretObject name ns => secret_requested t name ns ∧ (interceptor = true → secret_authorized t name ns)
  | ListBucketsByID id => req = ResolveCOSIBucketAuthRequest id ∧ (interceptor = true → ∃ user, authenticated t user)
  | _ => False
  end.

(** Where the secrets of an answer come from. *)
Definition secrets_from (t : STrace) (secrets : gmap string string) : Prop :=
  (∃ name ns sec, Ev (GetSecretObject name ns) (inr sec) ∈ t ∧ secret_requested t name ns ∧ secrets = secret_Data sec) ∨
  (secrets = ∅ ∧ ∃ id b, req = ResolveCOSIBucketAuthRequest id ∧ Ev (ListBucketsByID id) (inr [b]) ∈ t ∧
     SecretRefFromParameters (cb_Parameters b) = None).

Notation W := (wp server_allowed).

Lemma wp_score {A} (p : Prog A) h Q :
  wp (fun u c => server_allowed (h ++ map (embed_event (resp2 := sresp) SCore (fun _ r => r)) u) (SCore c)) p []
    (fun u a => Q (h ++ map (embed_event (resp2 := sresp) SCore (fun _ r => r)) u) a) →
  W (score p) h Q.
Proof. by apply wp_embed. Qed.

Definition caller_ok (h : STrace) (user : option UserInfo) : Prop :=
  match user with Some user => authenticated h user | None => interceptor = false end.

Lemma sprefix_sub (t t' : STrace) : t `prefix_of` t' → t ⊆ t'.
Proof. intros [k ->] x ?. apply elem_of_app. by left. Qed.

Lemma ssub_snoc (t : STrace) e : t ⊆ t ++ [e].
Proof. intros x ?. apply elem_of_app. by left. Qed.

Lemma authenticated_mono t t' user : t ⊆ t' → authenticated t user → authenticated t' user.
Proof. intros Hs (m & hd & tl & ? & ? & ? & ?). exists m, hd, tl. split_and!; auto. Qed.

Lemma caller_mono t t' user : t ⊆ t' → caller_ok t user → caller_ok t' user.
Proof. destruct user; [|done]. intros ?. by apply authenticated_mono. Qed.

Lemma requested_mono t t' name ns : t ⊆ t' → secret_requested t name ns → secret_requested t' name ns.
Proof.
  intros Hs (? & ? & Hr). split_and!; [done|done|]. destruct req; try done.
  destruct Hr as (b & ? & ?). exists b. split; [by apply Hs|done].
Qed.

Lemma caller_known h user : caller_ok h user → interceptor = true → ∃ user, authenticated h user.
Proof. destruct user as [u|]; [intros Hu _; by exists u|]. intros Hf Ht. congruence. Qed.

Lemma wp_ResolveSecret user name ns h :
  caller_ok h user →
  (name ≠ "" → ns ≠ "" → secret_requested h name ns) →
  W (ResolveSecret user name ns) h (fun h' r => ∀ s, r = inr s → secrets_from h' s).
Proof.
  intros Hu Hreq. unfold ResolveSecret. case_bool_decide as Hn; [by apply wp_ret|].
  case_bool_decide as Hns; [by apply wp_ret|]. specialize (Hreq Hn Hns).
  assert (Hget : ∀ h1, h ⊆ h1 → (interceptor = true → secret_authorized h1 name ns) →
    W (r ← get_secret_credentials name ns;
       mret (match r with
              | inl e =>
                  if IsNotFound (Some e)
                  then status_Error NotFound ("secret " +:+ ns +:+ "/" +:+ name +:+ " not found")
                  else status_Error Internal ("failed to get secret " +:+ ns +:+ "/" +:+ name +:+ ": " +:+ error_msg e)
              | inr credentials => inr credentials
              end)) h1 (fun h' r => ∀ s, r = inr s → secrets_from h' s)).
  { intros h1 Hh1 Ha. assert (Hr1 : secret_requested h1 name ns) by (by eapply requested_mono).
    apply wp_bind, wp_bind_call; [done|]. intros [e|sec]; apply wp_ret, wp_ret; cbn.
    - by case_match.
    - intros s [= <-]. left. exists name, ns, sec. split_and!; [apply in_snoc| |done].
      eapply requested_mono; [apply ssub_snoc|done]. }
  apply wp_bind. destruct user as [user|]; cbn [AuthorizeSecretGet caller_ok] in *.
  - apply wp_bind, wp_bind_call; [by exists user, name, ns|]. intros r. apply wp_ret, wp_ret.
    destruct r as [e|[|]]; cbn [wrap_err negb]; [by apply wp_ret| |by apply wp_ret].
    apply Hget; [apply ssub_snoc|]. intros _. exists user. split; [|apply in_snoc].
    eapply authenticated_mono; [apply ssub_snoc|done].
  - apply wp_ret. apply Hget; [done|]. intros Ht. congruence.
Qed.

Lemma wp_ResolveCOSIBucketAuth user id h :
  req = ResolveCOSIBucketAuthRequest id → caller_ok h user →
  W (ResolveCOSIBucketAuth user id) h (fun h' r => ∀ s, r = inr s → secrets_from h' s).
Proof.
  intros Hreq Hu. unfold ResolveCOSIBucketAuth. case_bool_decide; [by apply wp_ret|].
  apply wp_bind, wp_bind_call; [split; [done|]; exact (caller_known _ _ Hu)|].
  intros [e|[|b [|b' l]]]; apply wp_ret; try by apply wp_ret.
  destruct (SecretRefFromParameters (cb_Parameters b)) as [[name ns]|] eqn:Href.
  - destruct (bool_decide (name = "") || _); [by apply wp_ret|]. apply wp_ResolveSecret.
    + eapply caller_mono; [apply ssub_snoc|done].
    + intros ? ?. split_and!; [done|done|]. rewrite Hreq. exists b. split; [apply in_snoc|done].
  - apply wp_ret. intros s [= <-]. right. split; [done|]. exists id, b. split_and!; [done|apply in_snoc|done].
Qed.

Lemma wp_GetReplicationInfo user sc ns h Q :
  caller_ok h user → (∀ h' r, Q h' r) → W (GetReplicationInfo sc ns) h Q.
Proof.
  intros Hu HQ. unfold GetReplicationInfo. case_bool_decide; [by apply wp_ret|]. apply wp_bind, wp_score.
  split; [rewrite app_nil_r; exact (caller_known _ _ Hu)|].
  intros [e|l]; apply wp_ret; [by apply wp_ret|]. destruct (first_vscr _ _); [by apply wp_ret|].
  apply wp_bind, wp_score. split.
  - rewrite app_nil_r. cbn [map]. exact (caller_known _ _ (caller_mono _ _ user (ssub_snoc _ _) Hu)).
  - intros [e|l']; apply wp_ret; [by apply wp_ret|]. cbn [wrap_err]. destruct (first_vvr _ _); by apply wp_ret.
Qed.

Lemma wp_GetReplicationTenant user sc h Q :
  caller_ok h user → (∀ h' r, Q h' r) → W (GetReplicationTenant sc) h Q.
Proof.
  intros Hu HQ. unfold GetReplicationTenant. case_bool_decide; [by apply wp_ret|]. apply wp_bind.
  unfold tenantGUIDFromReplicationStatus. apply wp_bind, wp_score.
  split; [rewrite app_nil_r; exact (caller_known _ _ Hu)|]. intros r. apply wp_ret.
  assert (Hrest : ∀ (r : result (option string)) h1, h ⊆ h1 → W (match r with
    | inr (Some guid) => mret (Some guid)
    | _ => r ← score (ListVastVolumeReplications "");
           mret (match r with inr l => first_guid sc (map vvr_Status l) | inl _ => None end)
    end) h1 (fun _ _ => True)).
  { intros r1 h1 Hh1. assert (Hlist : W (r ← score (ListVastVolumeReplications "");
      mret (match r with inr l => first_guid sc (map vvr_Status l) | inl _ => None end)) h1 (fun _ _ => True)).
    { apply wp_bind, wp_score. split; [|done]. rewrite app_nil_r. cbn [map].
      exact (caller_known _ _ (caller_mono _ _ user Hh1 Hu)). }
    by destruct r1 as [|[|]]. }
  eapply wp_post; [apply Hrest; apply ssub_snoc|]. intros h1 g _. apply wp_ret, HQ.
Qed.

Lemma wp_handle user h :
  caller_ok h user → W (handle user req) h (fun h' r => ∀ s, r = inr (SecretResponse s) → secrets_from h' s).
Proof.
  intros Hu. destruct req as [sc|sc ns|n ns|id] eqn:Hreq; cbn [handle]; apply wp_bind.
  - apply (wp_GetReplicationTenant user); [done|]. intros h' [e|g]; by apply wp_ret.
  - apply (wp_GetReplicationInfo user); [done|]. intros h' [e|g]; by apply wp_ret.
  - eapply wp_post; [apply wp_ResolveSecret; [done|]|].
    + intros ? ?. split_and!; [done|done|]. by rewrite Hreq.
    + intros h' [e|s] Hs; apply wp_ret; [done|]. intros s' [= <-]. by apply Hs.
  - eapply wp_post; [by apply wp_ResolveCOSIBucketAuth|].
    intros h' [e|s] Hs; apply wp_ret; [done|]. intros s' [= <-]. by apply Hs.
Qed.

Lemma wp_serve :
  W (serve interceptor md req) [] (fun h' r => ∀ s, r = inr (SecretResponse s) → secrets_from h' s).
Proof.
  unfold serve. destruct interceptor eqn:Hi; [|by apply wp_handle].
  unfold authorizeConnection. destruct md as [m|] eqn:Hm; [|by apply wp_bind, wp_ret, wp_ret].
  destruct (m !! authorizationKey) as [[|header rest]|] eqn:Hh; [by apply wp_bind, wp_ret, wp_ret| |by apply wp_bind, wp_ret, wp_ret].
  apply wp_bind. split; [done|]. intros [e|[user []]]; cbn; [done| |done].
  destruct (isDriverControllerSA (user_Username user)) eqn:Hsa; cbn; [|done].
  apply wp_handle. exists m, header, rest. split_and!; [done|done| |done]. by apply list_elem_of_singleton.
Qed.

End Requests.

(** ** Properties *)

(** C12. Secrets reach only those who may read them.  On a server with the
    interceptor a Secret is read for a request only after its bearer token was
    reviewed as authenticated, its user is a driver controller
    ServiceAccount, and the API server allowed this very user to get this very
    Secret; the Secret is always the one the request names, or the one of the
    only bucket with its id; and the secrets of an answer are the data of such
    a Secret, or nothing for a bucket without one. *)
Theorem secrets_guarded `{Lookups} (interceptor : bool) (md : Metadata) (req : Request)
    (t : STrace) (a : grpc Response) :
  runs (serve interceptor md req) t a →
  (∀ t1 name ns r t2, t = t1 ++ Ev (GetSecretObject name ns) r :: t2 →
     secret_requested req t1 name ns ∧ (interceptor = true → secret_authorized md t1 name ns)) ∧
  (∀ secrets, a = inr (SecretResponse secrets) → secrets_from req t secrets).
Proof.
  intros Hr. destruct (wp_sound _ _ [] _ _ _ (wp_serve interceptor md req) Hr) as [HQ HG]. split; [|exact HQ].
  intros t1 name ns r t2 Ht. exact (HG t1 (GetSecretObject name ns) r t2 Ht).
Qed.

(** The parts of a split name. *)
Lemma split_on_nonempty sep cur l : split_on sep cur l ≠ [].
Proof. revert cur. induction l as [|c l IH]; intros cur; cbn; [done|]. by case_bool_decide. Qed.

Lemma split_on_parts sep cur l :
  sep ∉ cur →
  str (rev cur ++ l) = join (str [sep]) (split_on sep cur l) ∧ Forall (fun p => sep ∉ chars p) (split_on sep cur l).
Proof.
  revert cur. induction l as [|c l IH]; intros cur Hc; cbn [split_on].
  { rewrite app_nil_r. split; [done|]. constructor; [|done]. by rewrite chars_str, list_elem_of_In, <-in_rev, <-list_elem_of_In. }
  case_bool_decide as Hsep.
  - subst c. destruct (IH []) as [Hj Hf]; [by apply not_elem_of_nil|]. cbn [rev app] in Hj. split.
    + pose proof (split_on_nonempty sep [] l). cbn [join]. destruct (split_on sep [] l) as [|p ps]; [done|].
      rewrite <-Hj, str_app. apply (inj chars). by rewrite !chars_app, !chars_str.
    + constructor; [|done]. by rewrite chars_str, list_elem_of_In, <-in_rev, <-list_elem_of_In.
  - destruct (IH (c :: cur)) as [Hj Hf]; [by apply not_elem_of_cons|].
    split; [|done]. rewrite <-Hj. cbn [rev]. by rewrite <-app_assoc.
Qed.

Lemma split_str_parts sep s a b :
  split_str sep s = [a; b] ↔ s = a +:+ str [sep] +:+ b ∧ sep ∉ chars a ∧ sep ∉ chars b.
Proof.
  unfold split_str. split.
  - intros Hs. destruct (split_on_parts sep [] (chars s)) as [Hj Hf]; [by apply not_elem_of_nil|].
    rewrite Hs in Hj, Hf. cbn [rev app join] in Hj. rewrite str_chars in Hj.
    rewrite !Forall_cons in Hf. naive_solver.
  - intros (-> & Ha & Hb). rewrite !chars_app, chars_str. cbn [app]. rewrite split_on_app.
    rewrite !split_on_single by done. cbn [rev app]. by rewrite !str_chars.
Qed.

Lemma split_account k :
  split_str ":"%char (saUsernamePrefix +:+ k) = "system" :: "serviceaccount" :: split_str ":"%char k.
Proof. reflexivity. Qed.

(** C30. The allowlist is exactly the controller ServiceAccounts of the driver:
    a user is accepted iff it is the ServiceAccount of some namespace whose
    name ends in the driver's suffix. *)
Theorem isDriverControllerSA_iff (username : string) :
  isDriverControllerSA username = true ↔
  ∃ ns release, username = saUsernamePrefix +:+ ns +:+ ":" +:+ release +:+ driverControllerSASuffix ∧
    ns ≠ "" ∧ ":"%char ∉ chars ns ∧ ":"%char ∉ chars release.
Proof.
  unfold isDriverControllerSA. split.
  - destruct (has_prefix username saUsernamePrefix) eqn:Hp; [|done]. cbn [negb].
    apply has_prefix_spec in Hp as [k ->]. rewrite split_account.
    destruct (split_str ":" k) as [|ns [|name [|]]] eqn:Hk; try done.
    apply split_str_parts in Hk as (-> & Hns & Hname).
    case_bool_decide as Hns0; [done|]. case_bool_decide; [done|]. cbn [orb].
    intros [release ->]%has_suffix_spec. exists ns, release. split_and!; try done.
    intros Hin. apply Hname. rewrite chars_app. apply elem_of_app. by left.
  - intros (ns & release & -> & Hns & Hc & Hr).
    rewrite (proj2 (has_prefix_spec _ _)) by eauto. cbn [negb]. rewrite split_account.
    assert (Hk : split_str ":" (ns +:+ ":" +:+ release +:+ driverControllerSASuffix) = [ns; release +:+ driverControllerSASuffix]).
    { apply split_str_parts. split_and!; [done|done|]. rewrite chars_app, not_elem_of_app. split; [done|].
      by apply (bool_decide_eq_false (":"%char ∈ chars driverControllerSASuffix)). }
    rewrite Hk. rewrite bool_decide_false by done. rewrite bool_decide_false; [|by destruct release].
    cbn [orb]. apply has_suffix_spec. by exists release.
Qed.

(** *** Starting *)

Definition tls_loaded (s : GRPCServer) (t : STrace) : Prop :=
  srv_CertFile s ≠ "" ∧ srv_KeyFile s ≠ "" ∧ Ev (LoadX509KeyPair (srv_CertFile s) (srv_KeyFile s)) None ∈ t.

Definition start_allowed (s : GRPCServer) (t : STrace) (c : SCall) : Prop :=
  match c with
  | RemoveFile p => srv_network s = "unix" ∧ p = srv_bindAddress s
  | MkdirAll p => srv_network s = "unix" ∧ p = dirOf (srv_bindAddress s)
  | Listen network addr => network = srv_network s ∧ addr = srv_bindAddress s
  | LoadX509KeyPair _ _ => True
  | Serve interceptor network addr =>
      network = srv_network s ∧ addr = srv_bindAddress s ∧ interceptor = bool_decide (srv_network s = "tcp") ∧
      tls_loaded s t ∧ Ev (Listen network addr) None ∈ t ∧ (interceptor = true → srv_kubeClient s = true)
  | _ => False
  end.

Lemma wp_TLSServerOptions s h :
  wp (start_allowed s) (TLSServerOptions (srv_CertFile s) (srv_KeyFile s)) h
    (fun h' err => err = None → h ⊆ h' ∧ tls_loaded s h').
Proof.
  unfold TLSServerOptions. destruct (bool_decide _ || bool_decide _) eqn:He; [by apply wp_ret|].
  apply orb_false_iff in He as [Hc%bool_decide_eq_false Hk%bool_decide_eq_false].
  apply wp_bind_call; [done|]. intros [e|]; apply wp_ret; [done|]. intros _.
  split; [apply ssub_snoc|]. split_and!; [done|done|apply in_snoc].
Qed.

Lemma wp_options s h :
  wp (start_allowed s) (if bool_decide (srv_network s = "tcp")
      then TCPServerOptions (srv_kubeClient s) (srv_CertFile s) (srv_KeyFile s)
      else TLSServerOptions (srv_CertFile s) (srv_KeyFile s)) h
    (fun h' err => err = None → h ⊆ h' ∧ tls_loaded s h' ∧
       (bool_decide (srv_network s = "tcp") = true → srv_kubeClient s = true)).
Proof.
  destruct (bool_decide _); [unfold TCPServerOptions; destruct (srv_kubeClient s); [cbn [negb]|by apply wp_ret]|];
    (eapply wp_post; [apply wp_TLSServerOptions|]; intros h' err He Herr; destruct (He Herr); split_and!; done).
Qed.

Lemma wp_Start s : wp (start_allowed s) (Start s) [] (fun _ _ => True).
Proof.
  unfold Start. apply wp_bind.
  assert (Hsock : wp (start_allowed s) (prepare_socket s) [] (fun _ _ => True)).
  { unfold prepare_socket. case_bool_decide; [|done]. apply wp_bind_call; [done|].
    intros [[e []]|]; [by split| done|by split]. }
  eapply wp_post; [exact Hsock|]. intros h [e|] _; [by apply wp_ret|].
  apply wp_bind_call; [done|]. intros [e|]; [by apply wp_ret|].
  apply wp_bind. eapply wp_post; [apply wp_options|].
  intros h1 [e|] Hopt; [by apply wp_ret|]. destruct (Hopt eq_refl) as (Hs & Htls & Hk).
  split; [|done]. split_and!; try done. apply Hs, in_snoc.
Qed.

(** A server only serves with its certificate loaded, and it serves
    without the interceptor only on a unix socket: on every other address
    requests go through token review. *)
Theorem server_authenticates (bindAddress certFile keyFile : string) (kubeClient : bool)
    (t : STrace) (a : option error) (interceptor : bool) (network addr : string) (r : option error) :
  runs (Start (New bindAddress kubeClient certFile keyFile)) t a →
  Ev (Serve interceptor network addr) r ∈ t →
  Ev (LoadX509KeyPair certFile keyFile) None ∈ t ∧ Ev (Listen network addr) None ∈ t ∧
  certFile ≠ "" ∧ keyFile ≠ "" ∧
  interceptor = negb (has_prefix bindAddress "unix://" || has_prefix bindAddress "/") ∧
  (interceptor = true → kubeClient = true ∧ network = "tcp" ∧ addr = bindAddress).
Proof.
  intros Hr (t1 & t2 & Ht)%list_elem_of_split.
  destruct (wp_sound _ _ [] _ _ _ (wp_Start _) Hr) as [_ HG].
  destruct (HG t1 (Serve interceptor network addr) r t2 Ht) as (-> & -> & -> & (Hc & Hk & Hl) & Hlis & Hkube).
  assert (Hsub : ∀ e, e ∈ t1 → e ∈ t) by (intros e He; rewrite Ht; apply elem_of_app; by left).
  unfold New, parseBindAddress in *.
  destruct (has_prefix bindAddress "unix://"); [|destruct (has_prefix bindAddress "/")]; cbn in *;
    split_and!; try done; auto.
Qed.

(** ** Witnesses *)

Definition demo_user : UserInfo := mkUserInfo "system:serviceaccount:csi:prod-vast-controller-sa" "u1" [] ∅.
Definition demo_secret : Secret := mkSecret (mkMeta "creds" "tenants" "u" ∅ ∅ [] [] 1 false) {["token" := "t"]}.

(** One bucket with a Secret, a token that belongs to the driver. *)
Definition server_handler (c : SCall) (s : unit) : unit * sresp c :=
  (s,
   match c return sresp c with
   | SCore c => quiet c
   | TokenReview token => inr (demo_user, bool_decide (token = "abc"))
   | SubjectAccessReview review => inr (bool_decide (sar_Namespace review = "tenants"))
   | GetSecretObject _ _ => inr demo_secret
   | ListBucketsByID _ =>
       inr [mkCosiBucket "b" {[SecretNameParam := "creds"; SecretNamespaceParam := "tenants"]}]
   | _ => None
   end).

Definition demo_metadata : Metadata := Some {[authorizationKey := ["Bearer abc"]]}.
Definition demo_no_lookups : Lookups :=
  let e := fun {A} => @Errorf A "not found" in
  mkLookups (fun _ => e) (fun _ _ => e) (fun _ => e) (fun _ => None) (fun _ _ => e) (fun _ _ => e) (fun _ _ => e)
    (fun _ _ => e) (fun _ _ => e) (fun _ _ => e) (fun _ _ _ => e) (fun _ _ => e).

Definition secret_run :=
  exec server_handler (@serve demo_no_lookups true demo_metadata (ResolveCOSIBucketAuthRequest "b-1")) tt.

Lemma secrets_guarded_witness :
  let t := secret_run.1.2 in
  t = take 3 t ++ Ev (GetSecretObject "creds" "tenants") (inr demo_secret) :: drop 4 t ∧
  secret_run.2 = inr (SecretResponse {["token" := "t"]}) ∧
  secret_authorized demo_metadata (take 3 t) "creds" "tenants".
Proof.
  intros t. assert (H : t = take 3 t ++ Ev (GetSecretObject "creds" "tenants") (inr demo_secret) :: drop 4 t)
    by evaluates.
  split; [exact H|]. split; [reflexivity|].
  destruct (@secrets_guarded demo_no_lookups true demo_metadata (ResolveCOSIBucketAuthRequest "b-1") t secret_run.2
    (exec_runs server_handler _ tt)) as [Hs _].
  exact (proj2 (Hs _ _ _ _ _ H) eq_refl).
Defined.

Definition start_run := exec server_handler (Start (New ":9090" true "/tls/tls.crt" "/tls/tls.key")) tt.

Lemma server_authenticates_witness :
  Ev (Serve true "tcp" ":9090") None ∈ start_run.1.2 ∧
  Ev (LoadX509KeyPair "/tls/tls.crt" "/tls/tls.key") None ∈ start_run.1.2.
Proof.
  assert (H : Ev (Serve true "tcp" ":9090") None ∈ start_run.1.2).
  { change (start_run.1.2) with ([Ev (Listen "tcp" ":9090") None; Ev (LoadX509KeyPair "/tls/tls.crt" "/tls/tls.key") None]
      ++ [Ev (Serve true "tcp" ":9090") (None : sresp (Serve true "tcp" ":9090"))]). apply in_snoc. }
  split; [exact H|].
  exact (proj1 (server_authenticates ":9090" "/tls/tls.crt" "/tls/tls.key" true start_run.1.2 _ true "tcp" ":9090" _
    (exec_runs server_handler (Start (New ":9090" true "/tls/tls.crt" "/tls/tls.key")) tt) H)).
Defined.
