(* ===== verification/Cosi.v ===== *)
(** * The COSI credential controllers

    [internal/controller/credentials_flattener_controller.go] (flat copies of
    the credentials of a BucketAccess), [ba_secret_resync_controller.go] (a
    new grant after a bucket was recreated), and their helpers in
    [internal/common/cosi] ([flatten.go], [credentials_bundle.go]).

    Parameters: the decoding of the BucketInfo JSON, [url.Parse], and
    [CreateOrUpdate] and [SetControllerReference] of controller-runtime, the
    latter two with the behaviour that is documented for them.  Log lines are
    left out; the Event a reconciliation ends with is part of its result. *)

From S2P Require Import Prelude GoErrors Topology Kube Programs Api Client.
From stdpp Require Import options.

(** ** flatten.go *)

Record FlatData := mkFlatData {
  AccessKeyID : string;
  SecretAccessKey : string;
  BucketName : string;
  Endpoint : string;
  Host : string;
  Port : string;
}.

(** The fields of the JSON document that are read. *)
Record bucketInfo := mkBucketInfo {
  bi_bucketName : string;
  bi_accessKeyID : string;
  bi_accessSecretKey : string;
  bi_endpoint : string;
}.

(** What is used of a parsed URL. *)
Record URL := mkURL {
  url_Scheme : string;
  url_Host : string;
  url_Hostname : string;
  url_Port : string;
}.

Class CosiLibs := mkCosiLibs {
  json_Unmarshal : string → result bucketInfo;
  url_Parse : string → result URL;
  (* [SetControllerReference] with [WithBlockOwnerDeletion(false)]: the owner
     references of the object, from the owner and the object *)
  SetControllerReference_nonblocking : ObjectMeta → ObjectMeta → result (list OwnerReference);
  CreateOrUpdate : ∀ k, kobj k → (kobj k → result (kobj k)) → Prog (option error);
}.

Definition AnnotationFlatten := "cosi.vastdata.com/flatten-credentials".
Definition LabelBucketAccessUID := "cosi.vastdata.com/bucketaccess-uid".
Definition BucketInfoKey := "BucketInfo".
Definition SecretProtectionFinalizer := "cosi.objectstorage.k8s.io/secret-protection".

Definition WantFlatten (annotations : gmap string string) : bool :=
  bool_decide (map_get annotations AnnotationFlatten = "true").

Definition FlatName (credentialsSecretName : string) : string := credentialsSecretName +:+ "-flat".

Definition normalizeEndpoint (endpoint : string) : string :=
  let endpoint := trim_space endpoint in
  if has_prefix endpoint "://" then "http" +:+ endpoint
  else if negb (contains endpoint "://") then "http://" +:+ endpoint
  else endpoint.

Section Flatten.

Context `{CosiLibs}.

Definition SplitEndpoint (endpoint : string) : result (string * string) :=
  match url_Parse (normalizeEndpoint endpoint) with
  | inl e => inl (ErrWrap "parse endpoint: " e "")
  | inr u =>
      if bool_decide (url_Host u = "") then Errorf ("endpoint missing host: " +:+ quote endpoint)
      else if bool_decide (url_Hostname u = "") then Errorf ("endpoint missing host: " +:+ quote endpoint)
      else if negb (bool_decide (url_Port u = "")) then inr (url_Hostname u, url_Port u)
      else
        let scheme := to_lower (url_Scheme u) in
        if bool_decide (scheme = "https") then inr (url_Hostname u, "443")
        else if bool_decide (scheme = "http") || bool_decide (scheme = "") then inr (url_Hostname u, "80")
        else Errorf ("endpoint missing port for scheme " +:+ quote (url_Scheme u))
  end.

Definition ParseBucketInfo (raw : string) : result FlatData :=
  match json_Unmarshal raw with
  | inl e => inl (ErrWrap "parse BucketInfo: " e "")
  | inr bi =>
      if bool_decide (bi_bucketName bi = "") || bool_decide (bi_accessKeyID bi = "")
         || bool_decide (bi_accessSecretKey bi = "") || bool_decide (bi_endpoint bi = "")
      then Errorf "BucketInfo incomplete: need spec.bucketName and spec.secretS3.{accessKeyID,accessSecretKey,endpoint}"
      else
        let endpoint := normalizeEndpoint (bi_endpoint bi) in
        '(host, port) ← SplitEndpoint endpoint;
        mret (mkFlatData (bi_accessKeyID bi) (bi_accessSecretKey bi) (bi_bucketName bi) endpoint host port)
  end.

End Flatten.

(** ** credentials_bundle.go *)

Definition IsOwnedByBucketAccess (obj : ObjectMeta) (ba : BucketAccess) : bool :=
  existsb (fun ref => bool_decide (or_UID ref = UID (ba_Meta ba)) && default false (or_Controller ref))
    (OwnerReferences obj).

(** The error of a deletion, when it matters. *)
Definition delete_error (r : result unit) : option error :=
  match r with
  | inl e => if IsNotFound (Some e) then None else Some e
  | inr _ => None
  end.

Fixpoint delete_owned (k : kind) (ba : BucketAccess) (keepName : string) (items : list (kobj k))
    : Prog (option error) :=
  match items with
  | [] => mret None
  | o :: items =>
      if negb (IsOwnedByBucketAccess (meta k o) ba) then delete_owned k ba keepName items
      else if bool_decide (keepName ≠ "") && bool_decide (Name (meta k o) = keepName) then delete_owned k ba keepName items
      else
        r ← call (Delete k o);
        match delete_error r with
        | Some e => mret (Some e)
        | None => delete_owned k ba keepName items
        end
  end.

Definition flat_selector (ba : BucketAccess) : gmap string string := {[LabelBucketAccessUID := UID (ba_Meta ba)]}.

Definition delete_owned_kind (k : kind) (ba : BucketAccess) (keepName : string) : Prog (option error) :=
  r ← call (List k (Namespace (ba_Meta ba)) (flat_selector ba));
  match r with
  | inl e => mret (Some e)
  | inr items => delete_owned k ba keepName items
  end.

Definition DeleteOwnedFlatPair (ba : BucketAccess) (keepName : string) : Prog (option error) :=
  err ← delete_owned_kind kSecret ba keepName;
  match err with
  | Some e => mret (Some e)
  | None => delete_owned_kind kConfigMap ba keepName
  end.

Definition clear_grant (ba : BucketAccess) : BucketAccess :=
  mkBucketAccess (ba_Meta ba) (ba_BucketClaimName ba) (ba_CredentialsSecretName ba) false "".

Section Poke.

Context {steps : RetrySteps}.

(** Takes the credentials Secret away. *)
Definition remove_credentials (sec : option Secret) : Prog (option error) :=
  match sec with
  | None => mret None
  | Some sec =>
      '(sec', err) ← RemoveFinalizer kSecret sec SecretProtectionFinalizer;
      match err with
      | Some e => mret (Some e)
      | None => r ← call (Delete kSecret sec'); mret (delete_error r)
      end
  end.

Definition PokeSidecarRegrant (ba : BucketAccess) (sec : option Secret) : Prog (option error) :=
  err ← DeleteOwnedFlatPair ba "";
  match err with
  | Some e => mret (Some e)
  | None =>
      err ← remove_credentials sec;
      match err with
      | Some e => mret (Some e)
      | None =>
          if negb (ba_AccessGranted ba) && bool_decide (ba_AccountID ba = "") then mret None
          else
            '(_, err) ← UpdateStatusWithRetry kBucketAccess (clear_grant ba);
            mret (if IsNotFound err then None else err)
      end
  end.

End Poke.

(** ** The flattener *)

Definition requeueAfter : Z := 15 * Second.

Definition errForeignFlat : error := ErrNew "foreign flat object".

(** [errors.Is(err, errForeignFlat)]; no other error has its text. *)
Definition is_foreign (e : error) : bool :=
  bool_decide (is_Some (error_as
    (fun e => match e with
              | ErrNew m => if bool_decide (m = "foreign flat object") then Some () else None
              | _ => None
              end) e)).

(** What a reconciliation does to [eventOnce] and the Event it emits. *)
Inductive EventOp := NoEvent | EventDeduped (reason msg : string) | ClearEventOnce.

Definition eventReasonFlattenError := "FlattenError".
Definition eventReasonForeignClash := "FlattenForeignClash".
Definition eventReasonMissingSecret := "FlattenWaitingSecret".

(** [eventDeduped] and [clearEventOnce] on the map of the reconciler; the
    second part is the Event that is emitted. *)
Definition apply_event (key : string * string) (op : EventOp) (eventOnce : gmap (string * string) string)
    : gmap (string * string) string * option (string * string) :=
  match op with
  | NoEvent => (eventOnce, None)
  | EventDeduped reason msg =>
      let stamp := reason +:+ "|" +:+ msg in
      if bool_decide (default "" (eventOnce !! key) = stamp) then (eventOnce, None)
      else (<[key := stamp]> eventOnce, Some (reason, msg))
  | ClearEventOnce => (delete key eventOnce, None)
  end.

Section Flattener.

Context `{CosiLibs}.

Definition setFlatOwner (ba : BucketAccess) (obj : ObjectMeta) : result (list OwnerReference) :=
  SetControllerReference_nonblocking (ba_Meta ba) obj.

(** The metadata part of both mutate functions: the guard, the owner, the
    label. *)
Definition flat_meta (ba : BucketAccess) (m : ObjectMeta) : result ObjectMeta :=
  if bool_decide (UID m ≠ "") && negb (IsOwnedByBucketAccess m ba) then inl errForeignFlat
  else
    refs ← setFlatOwner ba m;
    mret (mkMeta (Name m) (Namespace m) (UID m) (<[LabelBucketAccessUID := UID (ba_Meta ba)]> (Labels m))
            (Annotations m) (Finalizers m) refs (Generation m) (Deleting m)).

Definition secret_data (data : FlatData) : gmap string string :=
  {["AWS_ACCESS_KEY_ID" := AccessKeyID data; "AWS_SECRET_ACCESS_KEY" := SecretAccessKey data]}.
Definition configmap_data (data : FlatData) : gmap string string :=
  {["BUCKET_NAME" := BucketName data; "BUCKET_HOST" := Host data; "BUCKET_PORT" := Port data;
    "BUCKET_ENDPOINT" := Endpoint data]}.

(** A new object has only its name and namespace. *)
Definition new_meta (name ns : string) : ObjectMeta := mkMeta name ns "" ∅ ∅ [] [] 0 false.

Definition mutate_secret (ba : BucketAccess) (data : FlatData) (o : Secret) : result Secret :=
  m ← flat_meta ba (secret_Meta o); mret (mkSecret m (secret_data data)).
Definition mutate_configmap (ba : BucketAccess) (data : FlatData) (o : ConfigMap) : result ConfigMap :=
  m ← flat_meta ba (cm_Meta o); mret (mkConfigMap m (configmap_data data)).

Definition ensureFlatSecret (ba : BucketAccess) (flatName : string) (data : FlatData) : Prog (option error) :=
  CreateOrUpdate kSecret (mkSecret (new_meta flatName (Namespace (ba_Meta ba))) ∅) (mutate_secret ba data).
Definition ensureFlatConfigMap (ba : BucketAccess) (flatName : string) (data : FlatData) : Prog (option error) :=
  CreateOrUpdate kConfigMap (mkConfigMap (new_meta flatName (Namespace (ba_Meta ba))) ∅) (mutate_configmap ba data).

Definition rollbackFlatSecret (ba : BucketAccess) (flatName : string) : Prog (option error) :=
  r ← call (Get kSecret flatName (Namespace (ba_Meta ba)));
  match r with
  | inl e => mret (if IsNotFound (Some e) then None else Some e)
  | inr sec =>
      if negb (IsOwnedByBucketAccess (secret_Meta sec) ba) then mret None
      else r ← call (Delete kSecret sec); mret (delete_error r)
  end.

Definition ensureFlatPair (ba : BucketAccess) (flatName : string) (data : FlatData) : Prog (option error) :=
  err ← ensureFlatSecret ba flatName data;
  match err with
  | Some e => mret (Some e)
  | None =>
      err ← ensureFlatConfigMap ba flatName data;
      match err with
      | None => mret None
      | Some e =>
          rbErr ← rollbackFlatSecret ba flatName;
          mret (Some (match rbErr with
                      | Some rb => ErrWrap "ensure flat ConfigMap: " e (" (rollback Secret: " +:+ error_msg rb +:+ ")")
                      | None => e
                      end))
      end
  end.

Definition reconcileForeignClash (flatName : string) : Result * EventOp :=
  (mkResult requeueAfter,
   EventDeduped eventReasonForeignClash (quote flatName +:+ " already exists and is not owned by this BucketAccess")).

Definition fails (e : error) : Result * option error * EventOp := (mkResult 0, Some e, NoEvent).
Definition waits (reason msg : string) : Result * option error * EventOp :=
  (mkResult requeueAfter, None, EventDeduped reason msg).
Definition succeeds : Result * option error * EventOp := (mkResult 0, None, ClearEventOnce).

(** With flattening wanted and a credentials name. *)
Definition flatten (ba : BucketAccess) (credName : string) : Prog (Result * option error * EventOp) :=
  let flatName := FlatName credName in
  err ← DeleteOwnedFlatPair ba flatName;
  match err with
  | Some e => mret (fails e)
  | None =>
      r ← call (Get kSecret credName (Namespace (ba_Meta ba)));
      match r with
      | inl e =>
          if IsNotFound (Some e)
          then mret (waits eventReasonMissingSecret ("waiting for Secret " +:+ quote credName))
          else mret (fails e)
      | inr src =>
          match secret_Data src !! BucketInfoKey with
          | None => mret (waits eventReasonFlattenError "Secret missing BucketInfo key")
          | Some raw =>
              match ParseBucketInfo raw with
              | inl e => mret (waits eventReasonFlattenError (error_msg e))
              | inr data =>
                  err ← ensureFlatPair ba flatName data;
                  match err with
                  | None => mret succeeds
                  | Some e =>
                      if is_foreign e
                      then let '(res, ev) := reconcileForeignClash flatName in mret (res, None, ev)
                      else mret (fails e)
                  end
              end
          end
      end
  end.

Definition Flattener_Reconcile (name ns : string) : Prog (Result * option error * EventOp) :=
  r ← call (Get kBucketAccess name ns);
  match r with
  | inl e => mret (if IsNotFound (Some e) then (mkResult 0, None, NoEvent) else fails e)
  | inr ba =>
      if negb (WantFlatten (Annotations (ba_Meta ba))) then
        err ← DeleteOwnedFlatPair ba "";
        mret (match err with Some e => fails e | None => succeeds end)
      else if bool_decide (ba_CredentialsSecretName ba = "")
      then mret (waits eventReasonFlattenError "credentialsSecretName is empty")
      else flatten ba (ba_CredentialsSecretName ba)
  end.

End Flattener.

(** Watches: Secrets that are not outputs, and the accesses that name them. *)
Definition ignoreFlatSecrets (name : string) : bool := negb (has_suffix name "-flat").
Definition credentialsSecretNameIndex_keys (ba : BucketAccess) : list string :=
  if bool_decide (ba_CredentialsSecretName ba = "") then [] else [ba_CredentialsSecretName ba].
Definition baResyncBucketClaimIndex_keys (ba : BucketAccess) : list string :=
  if bool_decide (ba_BucketClaimName ba = "") then [] else [ba_BucketClaimName ba].

(** ** The resync controller *)

Section Resync.

Context `{CosiLibs} {steps : RetrySteps}.

Definition eventReasonBucketSecretMismatch := "BucketSecretMismatch".
Definition eventReasonBucketInfoParseError := "BucketInfoParseError".

(** The error, and the Event that is recorded. *)
Definition Resync_Reconcile (name ns : string) : Prog (option error * option (string * string)) :=
  r ← call (Get kBucketAccess name ns);
  match r with
  | inl e => mret (if IsNotFound (Some e) then None else Some e, None)
  | inr ba =>
      if Deleting (ba_Meta ba) then mret (None, None)
      else if negb (ba_AccessGranted ba) || bool_decide (ba_AccountID ba = "") then mret (None, None)
      else
        let claimName := ba_BucketClaimName ba in
        let credName := ba_CredentialsSecretName ba in
        if bool_decide (claimName = "") || bool_decide (credName = "") then mret (None, None)
        else
          r ← call (Get kBucketClaim claimName (Namespace (ba_Meta ba)));
          match r with
          | inl e => mret (if IsNotFound (Some e) then None else Some e, None)
          | inr claim =>
              if negb (bc_BucketReady claim) || bool_decide (bc_BucketName claim = "") then mret (None, None)
              else
                r ← call (Get kSecret credName (Namespace (ba_Meta ba)));
                match r with
                | inl e =>
                    if IsNotFound (Some e)
                    then err ← PokeSidecarRegrant ba None; mret (err, None)
                    else mret (Some e, None)
                | inr sec =>
                    match secret_Data sec !! BucketInfoKey with
                    | None => mret (None, None)
                    | Some raw =>
                        match ParseBucketInfo raw with
                        | inl e => mret (None, Some (eventReasonBucketInfoParseError, error_msg e))
                        | inr info =>
                            if bool_decide (BucketName info = bc_BucketName claim) then mret (None, None)
                            else
                              err ← PokeSidecarRegrant ba (Some sec);
                              mret (match err with
                                    | Some e => (Some e, None)
                                    | None =>
                                        (None, Some (eventReasonBucketSecretMismatch,
                                           "Secret " +:+ quote credName +:+ " bucket " +:+ quote (BucketName info) +:+
                                           " != claim bucket " +:+ quote (bc_BucketName claim) +:+
                                           "; poked sidecar re-grant (invalidated credentials bundle, cleared accessGranted)"))
                                    end)
                        end
                    end
                end
          end
  end.

End Resync.

(** ** What is relied on of controller-runtime *)

Section Contract.

Context `{CosiLibs}.

Section Upsert.

Variables (k : kind) (o : kobj k) (f : kobj k → result (kobj k)).

Definition upsert_get : Call := Get k (Name (meta k o)) (Namespace (meta k o)).

(** It reads the object; creates what [f] makes of the given one when there
    is none, and otherwise updates it to what [f] makes of it. *)
Definition upsert_allowed (h : Trace) (c : Call) : Prop :=
  c = upsert_get ∨
  (∃ x, c = Create k x ∧ f o = inr x) ∨
  (∃ cur x, c = Update k x ∧ f cur = inr x ∧ Ev upsert_get (inr cur) ∈ h).

(** The object is as [f] wants it. *)
Definition ensured (h : Trace) : Prop :=
  (∃ x r, f o = inr x ∧ Ev (Create k x) (inr r) ∈ h) ∨
  (∃ cur x, f cur = inr x ∧ Ev upsert_get (inr cur) ∈ h ∧ (x = cur ∨ ∃ r, Ev (Update k x) (inr r) ∈ h)).

End Upsert.

Record CosiContract : Prop := mkCosiContract {
  controller_set : ∀ owner m refs, SetControllerReference_nonblocking owner m = inr refs →
    ∃ ref, ref ∈ refs ∧ or_UID ref = UID owner ∧ or_Controller ref = Some true;
  upsert_behaves : ∀ k o f h, wp (upsert_allowed k o f) (CreateOrUpdate k o f) h
    (fun h' err => err = None → ensured k o f h');
}.

End Contract.

(** ** Deletion of the copies *)

Lemma tsub_snoc (t : Trace) e : t ⊆ t ++ [e].
Proof. intros x ?. apply elem_of_app. by left. Qed.

Lemma tsub_prefix (t t' : Trace) : t `prefix_of` t' → t ⊆ t'.
Proof. intros [u ->] x ?. apply elem_of_app. by left. Qed.

(** A copy of the access, by the listing of its label. *)
Definition owned_listed (k : kind) (ba : BucketAccess) (t : Trace) (o : kobj k) : Prop :=
  IsOwnedByBucketAccess (meta k o) ba = true ∧
  ∃ l, Ev (List k (Namespace (ba_Meta ba)) (flat_selector ba)) (inr l) ∈ t ∧ o ∈ l.

Section DeleteRules.

Context (G : Trace → Call → Prop) (ba : BucketAccess) (keepName : string).

Lemma wp_delete_owned k items h (Q : Trace → option error → Prop) :
  (∀ h' o, h ⊆ h' → o ∈ items → IsOwnedByBucketAccess (meta k o) ba = true →
     (keepName = "" ∨ Name (meta k o) ≠ keepName) → G h' (Delete k o)) →
  (∀ h' err, h ⊆ h' → Q h' err) → wp G (delete_owned k ba keepName items) h Q.
Proof.
  revert h. induction items as [|o items IH]; intros h HG HQ; [by apply wp_ret, HQ|]. cbn [delete_owned].
  assert (Hrest : wp G (delete_owned k ba keepName items) h Q).
  { apply IH; [|done]. intros h' o' ? ?. apply HG; [done|]. apply elem_of_cons. by right. }
  destruct (IsOwnedByBucketAccess (meta k o) ba) eqn:Hown; [|done]. cbn [negb].
  destruct (bool_decide (keepName ≠ "") && _) eqn:Hkeep; [done|]. apply wp_bind_call.
  - apply HG; [done|apply elem_of_cons; by left|done|].
    apply andb_false_iff in Hkeep as [Hk%bool_decide_eq_false|Hk%bool_decide_eq_false]; [left; by apply dec_stable|by right].
  - intros r. destruct (delete_error r); [apply wp_ret, HQ, tsub_snoc|].
    apply IH.
    + intros h' o' Hs Hin. apply HG; [|apply elem_of_cons; by right]. etrans; [apply tsub_snoc|exact Hs].
    + intros h' err Hs. apply HQ. etrans; [apply tsub_snoc|exact Hs].
Qed.

Lemma wp_delete_owned_kind k h (Q : Trace → option error → Prop) :
  (∀ h', G h' (List k (Namespace (ba_Meta ba)) (flat_selector ba))) →
  (∀ h' o, h ⊆ h' → owned_listed k ba h' o → (keepName = "" ∨ Name (meta k o) ≠ keepName) → G h' (Delete k o)) →
  (∀ h' err, h ⊆ h' → Q h' err) → wp G (delete_owned_kind k ba keepName) h Q.
Proof.
  intros HL HG HQ. apply wp_bind_call; [done|]. intros [e|items]; [apply wp_ret, HQ, tsub_snoc|].
  apply wp_delete_owned.
  - intros h' o Hs Hin Hown. apply HG; [by etrans; [apply tsub_snoc|]|]. split; [done|]. exists items.
    split; [apply Hs, in_snoc|done].
  - intros h' err Hs. apply HQ. by etrans; [apply tsub_snoc|].
Qed.

Lemma wp_DeleteOwnedFlatPair h (Q : Trace → option error → Prop) :
  (∀ k h', k = kSecret ∨ k = kConfigMap → G h' (List k (Namespace (ba_Meta ba)) (flat_selector ba))) →
  (∀ h' o, h ⊆ h' → owned_listed kSecret ba h' o → (keepName = "" ∨ Name (meta kSecret o) ≠ keepName) →
     G h' (Delete kSecret o)) →
  (∀ h' o, h ⊆ h' → owned_listed kConfigMap ba h' o → (keepName = "" ∨ Name (meta kConfigMap o) ≠ keepName) →
     G h' (Delete kConfigMap o)) →
  (∀ h' err, h ⊆ h' → Q h' err) → wp G (DeleteOwnedFlatPair ba keepName) h Q.
Proof.
  intros HL HS HC HQ. apply wp_bind, wp_delete_owned_kind; [auto|done|].
  intros h1 [e|] Hs; [by apply wp_ret, HQ|]. apply wp_delete_owned_kind; [auto| |].
  - intros h' o Hs'. apply HC. by etrans.
  - intros h' err Hs'. apply HQ. by etrans.
Qed.

End DeleteRules.

(** ** The flattener writes only its own objects *)

Section FlattenerRules.

Context `{CosiLibs} (Hlibs : CosiContract) (name ns : string).

(** The credentials the copies are made from. *)
Definition credentials_read (t : Trace) (ba : BucketAccess) (data : FlatData) : Prop :=
  ∃ src raw, Ev (Get kSecret (ba_CredentialsSecretName ba) (Namespace (ba_Meta ba))) (inr src) ∈ t ∧
    secret_Data src !! BucketInfoKey = Some raw ∧ ParseBucketInfo raw = inr data.

Definition access_read (t : Trace) (ba : BucketAccess) : Prop := Ev (Get kBucketAccess name ns) (inr ba) ∈ t.

Definition flattening (t : Trace) (ba : BucketAccess) (data : FlatData) : Prop :=
  access_read t ba ∧ WantFlatten (Annotations (ba_Meta ba)) = true ∧ ba_CredentialsSecretName ba ≠ "" ∧
  credentials_read t ba data.

(** Marked as a copy for the access. *)
Definition marked (ba : BucketAccess) (m : ObjectMeta) : Prop :=
  IsOwnedByBucketAccess m ba = true ∧ Labels m !! LabelBucketAccessUID = Some (UID (ba_Meta ba)).

(** An object that may be changed: it does not exist yet or is a copy. *)
Definition not_foreign (ba : BucketAccess) (m : ObjectMeta) : Prop :=
  UID m = "" ∨ IsOwnedByBucketAccess m ba = true.

Definition flat_name (ba : BucketAccess) : string := FlatName (ba_CredentialsSecretName ba).

(** Removal: of a listed copy that is not the current one, or of any copy when
    they are not wanted; or of the Secret just written without its
    ConfigMap. *)
Definition removable (k : kind) (t : Trace) (o : kobj k) : Prop :=
  ∃ ba, access_read t ba ∧ IsOwnedByBucketAccess (meta k o) ba = true ∧
    ((∃ l, Ev (List k (Namespace (ba_Meta ba)) (flat_selector ba)) (inr l) ∈ t ∧ o ∈ l ∧
        (WantFlatten (Annotations (ba_Meta ba)) = false ∨ Name (meta k o) ≠ flat_name ba)) ∨
     ((∃ data, flattening t ba data ∧
         ensured kSecret (mkSecret (new_meta (flat_name ba) (Namespace (ba_Meta ba))) ∅) (mutate_secret ba data) t) ∧
      Ev (Get k (flat_name ba) (Namespace (ba_Meta ba))) (inr o) ∈ t)).

Definition flattener_allowed (t : Trace) (c : Call) : Prop :=
  match c with
  | Get _ _ _ | List _ _ _ => True
  | Create k o =>
      match k return kobj k → Prop with
      | kSecret => fun o => ∃ ba data, flattening t ba data ∧ marked ba (secret_Meta o) ∧
          Name (secret_Meta o) = flat_name ba ∧ Namespace (secret_Meta o) = Namespace (ba_Meta ba) ∧
          secret_Data o = secret_data data
      | kConfigMap => fun o => ∃ ba data, flattening t ba data ∧ marked ba (cm_Meta o) ∧
          Name (cm_Meta o) = flat_name ba ∧ Namespace (cm_Meta o) = Namespace (ba_Meta ba) ∧
          cm_Data o = configmap_data data
      | _ => fun _ => False
      end o
  | Update k o =>
      match k return kobj k → Prop with
      | kSecret => fun o => ∃ ba data cur, flattening t ba data ∧ marked ba (secret_Meta o) ∧
          Ev (Get kSecret (flat_name ba) (Namespace (ba_Meta ba))) (inr cur) ∈ t ∧ not_foreign ba (secret_Meta cur) ∧
          secret_Data o = secret_data data
      | kConfigMap => fun o => ∃ ba data cur, flattening t ba data ∧ marked ba (cm_Meta o) ∧
          Ev (Get kConfigMap (flat_name ba) (Namespace (ba_Meta ba))) (inr cur) ∈ t ∧ not_foreign ba (cm_Meta cur) ∧
          cm_Data o = configmap_data data
      | _ => fun _ => False
      end o
  | Delete k o =>
      match k return kobj k → Prop with
      | kSecret => removable kSecret t
      | kConfigMap => removable kConfigMap t
      | _ => fun _ => False
      end o
  | _ => False
  end.

Notation W := (wp flattener_allowed).

Lemma credentials_read_mono t t' ba data : t ⊆ t' → credentials_read t ba data → credentials_read t' ba data.
Proof. intros Hs (src & raw & ? & ? & ?). exists src, raw. split_and!; auto. Qed.

Lemma flattening_mono t t' ba data : t ⊆ t' → flattening t ba data → flattening t' ba data.
Proof.
  intros Hs (Ha & ? & ? & ?). split_and!; [by apply Hs|done|done|by eapply credentials_read_mono].
Qed.

Lemma ensured_mono k o f t t' : t ⊆ t' → ensured k o f t → ensured k o f t'.
Proof.
  intros Hs [(x & r & ? & ?)|(cur & x & ? & ? & Hx)]; [left; exists x, r; auto|right; exists cur, x].
  split_and!; [done|auto|]. destruct Hx as [?|[r ?]]; [by left|right; exists r; auto].
Qed.

Lemma flat_meta_spec ba m m' :
  flat_meta ba m = inr m' →
  not_foreign ba m ∧ marked ba m' ∧ Name m' = Name m ∧ Namespace m' = Namespace m.
Proof using Hlibs.
  unfold flat_meta. destruct (bool_decide (UID m ≠ "") && negb (IsOwnedByBucketAccess m ba)) eqn:Hf; [done|].
  destruct (setFlatOwner ba m) as [e|refs] eqn:Ho; [done|]. intros [= <-]. split_and!; try done.
  - apply andb_false_iff in Hf as [Hf%bool_decide_eq_false|Hf%negb_false_iff]; [left; by apply dec_stable|by right].
  - split; [|cbn; by rewrite lookup_insert_eq].
    destruct (controller_set Hlibs _ _ _ Ho) as (ref & Hin & Hu & Hc). unfold IsOwnedByBucketAccess.
    apply existsb_exists. exists ref. split; [by apply list_elem_of_In|].
    rewrite Hc, bool_decide_true by done. done.
Qed.

Lemma wp_flattener_DeleteOwnedFlatPair ba keepName h (Q : Trace → option error → Prop) :
  access_read h ba →
  (keepName = "" → WantFlatten (Annotations (ba_Meta ba)) = false) → (keepName ≠ "" → keepName = flat_name ba) →
  (∀ h' err, h ⊆ h' → Q h' err) → W (DeleteOwnedFlatPair ba keepName) h Q.
Proof.
  intros Hba Hoff Hcur HQ.
  assert (Hrem : ∀ k h' o, h ⊆ h' → owned_listed k ba h' o → (keepName = "" ∨ Name (meta k o) ≠ keepName) → removable k h' o).
  { intros k h' o Hs [Hown (l & Hl & Hin)] Hk. exists ba. split_and!; [by apply Hs|done|]. left. exists l. split_and!; [done|done|].
    destruct (decide (keepName = "")) as [He|He]; [left; auto|right].
    destruct Hk as [?|?]; [done|]. rewrite <-Hcur; done. }
  apply wp_DeleteOwnedFlatPair; try done; intros; by apply Hrem.
Qed.

(** An upsert of a copy. *)
Lemma wp_upsert k o f h (Q : Trace → option error → Prop) :
  (∀ h' c, h ⊆ h' → upsert_allowed k o f h' c → flattener_allowed h' c) →
  (∀ h' err, h ⊆ h' → (err = None → ensured k o f h') → Q h' err) → W (CreateOrUpdate k o f) h Q.
Proof using Hlibs.
  intros HG HQ.
  assert (Hgen : ∀ {A} (p : Prog A) u Q', h ⊆ u → wp (upsert_allowed k o f) p u Q' → wp flattener_allowed p u Q').
  { intros A p. induction p as [a|c k' IH]; intros u Q' Hu; [done|]. intros [Hg Hk]. split; [by apply HG|].
    intros r. apply IH; [|done]. etrans; [exact Hu|apply tsub_snoc]. }
  apply Hgen; [done|]. eapply wp_post; [apply wp_prefix, (upsert_behaves Hlibs)|].
  intros h' err [Hp%tsub_prefix He]. by apply HQ.
Qed.

Lemma wp_ensureFlatSecret ba data h (Q : Trace → option error → Prop) :
  flattening h ba data →
  (∀ h' err, h ⊆ h' → (err = None → ensured kSecret (mkSecret (new_meta (flat_name ba) (Namespace (ba_Meta ba))) ∅)
     (mutate_secret ba data) h') → Q h' err) →
  W (ensureFlatSecret ba (flat_name ba) data) h Q.
Proof using Hlibs.
  intros Hf HQ. apply wp_upsert; [|done].
  intros h' c Hs Hc. pose proof (flattening_mono _ _ _ _ Hs Hf) as Hf'.
  destruct Hc as [->|[(x & -> & Hx)|(cur & x & -> & Hx & Hget)]]; [done| |]; unfold mutate_secret in Hx;
    destruct (flat_meta ba _) as [|m] eqn:Hm in Hx; try done; injection Hx as <-;
    apply flat_meta_spec in Hm as (Hnf & Hmark & Hn & Hns).
  - by exists ba, data.
  - by exists ba, data, cur.
Qed.

Lemma wp_ensureFlatConfigMap ba data h (Q : Trace → option error → Prop) :
  flattening h ba data →
  (∀ h' err, h ⊆ h' → (err = None → ensured kConfigMap (mkConfigMap (new_meta (flat_name ba) (Namespace (ba_Meta ba))) ∅)
     (mutate_configmap ba data) h') → Q h' err) →
  W (ensureFlatConfigMap ba (flat_name ba) data) h Q.
Proof using Hlibs.
  intros Hf HQ. apply wp_upsert; [|done].
  intros h' c Hs Hc. pose proof (flattening_mono _ _ _ _ Hs Hf) as Hf'.
  destruct Hc as [->|[(x & -> & Hx)|(cur & x & -> & Hx & Hget)]]; [done| |]; unfold mutate_configmap in Hx;
    destruct (flat_meta ba _) as [|m] eqn:Hm in Hx; try done; injection Hx as <-;
    apply flat_meta_spec in Hm as (Hnf & Hmark & Hn & Hns).
  - by exists ba, data.
  - by exists ba, data, cur.
Qed.

(** Both copies are as the credentials want them. *)
Definition pair_ensured (t : Trace) (ba : BucketAccess) (data : FlatData) : Prop :=
  ensured kSecret (mkSecret (new_meta (flat_name ba) (Namespace (ba_Meta ba))) ∅) (mutate_secret ba data) t ∧
  ensured kConfigMap (mkConfigMap (new_meta (flat_name ba) (Namespace (ba_Meta ba))) ∅) (mutate_configmap ba data) t.

Lemma wp_ensureFlatPair ba data h :
  flattening h ba data →
  W (ensureFlatPair ba (flat_name ba) data) h (fun h' err => h ⊆ h' ∧ (err = None → pair_ensured h' ba data)).
Proof using Hlibs.
  intros Hf. apply wp_bind, wp_ensureFlatSecret; [done|]. intros h1 [e|] Hs1 He1; [by apply wp_ret|].
  specialize (He1 eq_refl). pose proof (flattening_mono _ _ _ _ Hs1 Hf) as Hf1.
  apply wp_bind, wp_ensureFlatConfigMap; [done|]. intros h2 [e|] Hs2 He2.
  2: { apply wp_ret. split; [by etrans|]. intros _. split; [by eapply ensured_mono|auto]. }
  apply wp_bind. eapply (wp_post _ _ _ (fun h' _ => h ⊆ h')); [|intros h' rb ?; by apply wp_ret].
  unfold rollbackFlatSecret. apply wp_bind_call; [done|].
  assert (Hs : h ⊆ h2) by (by etrans).
  intros [e'|sec]; [apply wp_ret; by etrans; [|apply tsub_snoc]|].
  destruct (IsOwnedByBucketAccess (secret_Meta sec) ba) eqn:Hown; [|apply wp_ret; by etrans; [|apply tsub_snoc]].
  cbn [negb]. apply wp_bind_call.
  - exists ba. split_and!; [apply tsub_snoc, Hs, Hf|done|]. right. split; [|apply in_snoc]. exists data.
    split; [eapply flattening_mono; [|exact Hf]; by etrans; [|apply tsub_snoc]|].
    eapply ensured_mono; [|exact He1]. by etrans; [|apply tsub_snoc].
  - intros r. apply wp_ret. etrans; [exact Hs|]. by etrans; [apply tsub_snoc|apply tsub_snoc].
Qed.

(** The result of a reconciliation that is complete. *)
Definition flat_result (t : Trace) (a : Result * option error * EventOp) : Prop :=
  a = succeeds → ∃ ba, access_read t ba ∧
    (WantFlatten (Annotations (ba_Meta ba)) = false ∨ ∃ data, flattening t ba data ∧ pair_ensured t ba data).

Lemma wp_flatten ba h :
  access_read h ba → WantFlatten (Annotations (ba_Meta ba)) = true → ba_CredentialsSecretName ba ≠ "" →
  W (flatten ba (ba_CredentialsSecretName ba)) h flat_result.
Proof using Hlibs.
  intros Hba Hw Hc. unfold flatten. apply wp_bind, wp_flattener_DeleteOwnedFlatPair; [done| |done|].
  { by destruct (ba_CredentialsSecretName ba). }
  intros h1 [e|] Hs1; [by apply wp_ret|]. apply wp_bind_call; [done|]. intros [e|src]; [by case_match; apply wp_ret|].
  destruct (secret_Data src !! BucketInfoKey) as [raw|] eqn:Hraw; [|by apply wp_ret].
  destruct (ParseBucketInfo raw) as [e|data] eqn:Hparse; [by apply wp_ret|].
  assert (Hf : flattening (h1 ++ [Ev (Get kSecret (ba_CredentialsSecretName ba) (Namespace (ba_Meta ba))) (inr src)]) ba data).
  { split_and!; [by apply tsub_snoc, Hs1|done|done|]. exists src, raw. split_and!; [apply in_snoc|done|done]. }
  apply wp_bind. eapply wp_post; [by apply wp_ensureFlatPair|]. intros h2 [e|] [Hs2 Hp].
  { by case_match; apply wp_ret. }
  apply wp_ret. intros _. exists ba. split; [by apply Hs2, tsub_snoc, Hs1|]. right. exists data.
  split; [by eapply flattening_mono|auto].
Qed.

Lemma wp_Flattener_Reconcile : W (Flattener_Reconcile name ns) [] flat_result.
Proof using Hlibs.
  unfold Flattener_Reconcile. apply wp_bind_call; [done|]. intros [e|ba]; [by apply wp_ret; case_match|].
  assert (Hba : access_read ([] ++ [Ev (Get kBucketAccess name ns) (inr ba)]) ba) by apply in_snoc.
  destruct (WantFlatten (Annotations (ba_Meta ba))) eqn:Hw; cbn [negb].
  - case_bool_decide; [by apply wp_ret|]. by apply wp_flatten.
  - apply wp_bind, wp_flattener_DeleteOwnedFlatPair; [done|done|done|]. intros h1 [e|] Hs1; apply wp_ret; [done|].
    intros _. exists ba. split; [by apply Hs1|by left].
Qed.

End FlattenerRules.

(** ** The resync controller asks for a new grant only for stale credentials *)

Section ResyncRules.

Context `{CosiLibs} {steps : RetrySteps} (name ns : string).

Definition credentials_call (ba : BucketAccess) : Call :=
  Get kSecret (ba_CredentialsSecretName ba) (Namespace (ba_Meta ba)).

(** The access is granted, its claim has a bucket. *)
Definition granted (t : Trace) (ba : BucketAccess) (claim : BucketClaim) : Prop :=
  access_read name ns t ba ∧ Deleting (ba_Meta ba) = false ∧ ba_AccessGranted ba = true ∧ ba_AccountID ba ≠ "" ∧
  Ev (Get kBucketClaim (ba_BucketClaimName ba) (Namespace (ba_Meta ba))) (inr claim) ∈ t ∧
  bc_BucketReady claim = true ∧ bc_BucketName claim ≠ "".

Definition credentials_gone (t : Trace) (ba : BucketAccess) : Prop :=
  ∃ e, Ev (Get kSecret (ba_CredentialsSecretName ba) (Namespace (ba_Meta ba))) (inl e) ∈ t ∧ IsNotFound (Some e) = true.

(** The credentials name another bucket than the claim. *)
Definition mismatched (t : Trace) (ba : BucketAccess) (claim : BucketClaim) (sec : Secret) : Prop :=
  ∃ raw info, Ev (Get kSecret (ba_CredentialsSecretName ba) (Namespace (ba_Meta ba))) (inr sec) ∈ t ∧
    secret_Data sec !! BucketInfoKey = Some raw ∧ ParseBucketInfo raw = inr info ∧ BucketName info ≠ bc_BucketName claim.

Definition stale (t : Trace) (ba : BucketAccess) (sec : option Secret) : Prop :=
  ∃ claim, granted t ba claim ∧
    match sec with Some sec => mismatched t ba claim sec | None => credentials_gone t ba end.

Definition unprotected (sec : Secret) : Secret :=
  set_meta kSecret sec (remove_finalizer (secret_Meta sec) SecretProtectionFinalizer).1.

(** The credentials without the sidecar's finalizer, as last written. *)
Definition credentials_now (t : Trace) (sec o : Secret) : Prop :=
  same_object kSecret (unprotected sec) o ∨
  ∃ u, same_object kSecret (unprotected sec) u ∧ Ev (Update kSecret u) (inr o) ∈ t.

Definition credentials_removed (t : Trace) (sec : option Secret) : Prop :=
  match sec with
  | Some sec => ∃ o r, credentials_now t sec o ∧ Ev (Delete kSecret o) r ∈ t ∧ delete_error r = None
  | None => True
  end.

Definition resync_allowed (t : Trace) (c : Call) : Prop :=
  match c with
  | Get _ _ _ | List _ _ _ => True
  | Update k o =>
      match k return kobj k → Prop with
      | kSecret => fun o => ∃ ba sec, stale t ba (Some sec) ∧ same_object kSecret (unprotected sec) o
      | _ => fun _ => False
      end o
  | Delete k o =>
      match k return kobj k → Prop with
      | kSecret => fun o => ∃ ba sec, stale t ba sec ∧
          (owned_listed kSecret ba t o ∨ ∃ s, sec = Some s ∧ credentials_now t s o)
      | kConfigMap => fun o => ∃ ba sec, stale t ba sec ∧ owned_listed kConfigMap ba t o
      | _ => fun _ => False
      end o
  | UpdateStatus k o =>
      match k return kobj k → Prop with
      | kBucketAccess => fun o => ∃ ba sec, stale t ba sec ∧ credentials_removed t sec ∧
          same_object kBucketAccess (clear_grant ba) o
      | _ => fun _ => False
      end o
  | _ => False
  end.

Notation W := (wp resync_allowed).

Lemma stale_mono t t' ba sec : t ⊆ t' → stale t ba sec → stale t' ba sec.
Proof.
  intros Hs (claim & (Ha & ? & ? & ? & Hc & ? & ?) & Hrest). exists claim. split.
  - split_and!; try done; [by apply Hs|by apply Hs].
  - destruct sec as [sec|]; [destruct Hrest as (raw & info & ? & ?); exists raw, info; split; [by apply Hs|done]|].
    destruct Hrest as (e & ? & ?). exists e. split; [by apply Hs|done].
Qed.

Lemma credentials_now_mono t t' sec o : t ⊆ t' → credentials_now t sec o → credentials_now t' sec o.
Proof. intros Hs [?|(u & ? & ?)]; [by left|right; exists u; split; [done|by apply Hs]]. Qed.

Lemma credentials_removed_mono t t' sec : t ⊆ t' → credentials_removed t sec → credentials_removed t' sec.
Proof.
  intros Hs. destruct sec as [sec|]; [|done]. intros (o & r & ? & ? & ?). exists o, r.
  split_and!; [by eapply credentials_now_mono|by apply Hs|done].
Qed.

Lemma wp_remove_credentials ba sec h :
  stale h ba sec →
  W (remove_credentials sec) h (fun h' err => h ⊆ h' ∧ (err = None → credentials_removed h' sec)).
Proof.
  intros Hst. destruct sec as [sec|]; [|by apply wp_ret]. cbn [remove_credentials].
  apply wp_bind, wp_RemoveFinalizer.
  - intros h' o' Hp%tsub_prefix Hsame. exists ba, sec. split; [by eapply stale_mono|done].
  - done.
  - intros h' o' err Hp%tsub_prefix Hnow. destruct err as [e|]; [by apply wp_ret|].
    assert (Hst' : stale h' ba (Some sec)) by (by eapply stale_mono).
    assert (Hnow' : credentials_now h' sec o') by exact Hnow.
    apply wp_bind_call; [exists ba, (Some sec); split; [done|right; by exists sec]|].
    intros r. apply wp_ret. split; [by etrans; [|apply tsub_snoc]|]. intros Hr. exists o', r.
    split_and!; [eapply credentials_now_mono; [apply tsub_snoc|done]|apply in_snoc|done].
Qed.

Lemma wp_PokeSidecarRegrant ba sec h :
  stale h ba sec → W (PokeSidecarRegrant ba sec) h (fun _ _ => True).
Proof.
  intros Hst. unfold PokeSidecarRegrant. apply wp_bind, wp_DeleteOwnedFlatPair.
  - intros k h' _. done.
  - intros h' o Hs Hown _. exists ba, sec. split; [by eapply stale_mono|by left].
  - intros h' o Hs Hown _. exists ba, sec. split; [by eapply stale_mono|done].
  - intros h1 [e|] Hs1; [by apply wp_ret|]. pose proof (stale_mono _ _ _ _ Hs1 Hst) as Hst1.
    apply wp_bind. eapply wp_post; [by apply (wp_remove_credentials ba)|]. intros h2 [e|] [Hs2 Hrem]; [by apply wp_ret|].
    pose proof (stale_mono _ _ _ _ Hs2 Hst1) as Hst2. specialize (Hrem eq_refl).
    destruct (negb (ba_AccessGranted ba) && _); [by apply wp_ret|].
    apply wp_bind, (wp_write_or_refresh _ _ _ _ _ (fun _ _ => True)).
    + intros h' o' Hp Hsame. split; [|intros r; split; [by apply prefix_app_r|by destruct r]].
      apply tsub_prefix in Hp. exists ba, sec.
      split_and!; [by eapply stale_mono|by eapply credentials_removed_mono|done].
    + done.
    + intros h' o' err _ _. by apply wp_ret.
Qed.

Lemma wp_Resync_Reconcile : W (Resync_Reconcile name ns) [] (fun _ _ => True).
Proof.
  unfold Resync_Reconcile. apply wp_bind_call; [done|]. intros [e|ba]; [by apply wp_ret|].
  destruct (Deleting (ba_Meta ba)) eqn:Hdel; [by apply wp_ret|].
  destruct (negb _ || bool_decide (ba_AccountID ba = "")) eqn:Hg; [by apply wp_ret|].
  apply orb_false_iff in Hg as [Hg%negb_false_iff Hid%bool_decide_eq_false].
  destruct (bool_decide _ || bool_decide _); [by apply wp_ret|].
  apply wp_bind_call; [done|]. intros [e|claim]; [by apply wp_ret|].
  destruct (negb _ || bool_decide (bc_BucketName claim = "")) eqn:Hc; [by apply wp_ret|].
  apply orb_false_iff in Hc as [Hr%negb_false_iff Hb%bool_decide_eq_false].
  apply wp_bind_call; [done|]. intros r. cbn [app]. set (t := [_; _; Ev _ r]).
  assert (Hgr : granted t ba claim).
  { split_and!; try done; [apply elem_of_cons; by left|].
    apply elem_of_cons. right. apply elem_of_cons. by left. }
  assert (Hin : Ev (credentials_call ba) r ∈ t) by (do 2 (apply elem_of_cons; right); by apply list_elem_of_singleton).
  destruct r as [e|sec].
  - destruct (IsNotFound (Some e)) eqn:He; [|by apply wp_ret].
    apply wp_bind. eapply wp_post; [apply wp_PokeSidecarRegrant|intros ? ? _; by apply wp_ret].
    exists claim. split; [done|]. by exists e.
  - destruct (secret_Data sec !! BucketInfoKey) as [raw|] eqn:Hraw; [|by apply wp_ret].
    destruct (ParseBucketInfo raw) as [e|info] eqn:Hp; [by apply wp_ret|].
    case_bool_decide; [by apply wp_ret|]. apply wp_bind.
    eapply wp_post; [apply wp_PokeSidecarRegrant|intros ? ? _; by apply wp_ret].
    exists claim. split; [done|]. by exists raw, info.
Qed.

End ResyncRules.

(** ** Properties *)

(** C14. The flattener never touches a foreign object.  Every Secret or
    ConfigMap it creates or updates carries the access as its controller and
    holds exactly what the BucketInfo of the access' own credentials says,
    read in the same reconciliation; an existing one was its own copy before;
    and it deletes only copies of the access: those it no longer wants, or the
    Secret it just wrote when the ConfigMap failed.  In particular nothing is
    written, and the current copies are kept, while the credentials are
    missing or unreadable. *)
Theorem flat_objects_guarded `{CosiLibs} (name ns : string) (t t1 t2 : Trace)
    (a : Result * option error * EventOp) (c : Call) (r : resp c) :
  CosiContract → runs (Flattener_Reconcile name ns) t a → t = t1 ++ Ev c r :: t2 → flattener_allowed name ns t1 c.
Proof.
  intros Hlibs Hr Ht. destruct (wp_sound _ _ [] _ _ _ (wp_Flattener_Reconcile Hlibs name ns) Hr) as [_ HG].
  exact (HG t1 c r t2 Ht).
Qed.

(** A failure is reported once, until it changes or a success clears it. *)
Lemma event_reported_once key op eventOnce eventOnce' ev :
  apply_event key op eventOnce = (eventOnce', Some ev) → apply_event key op eventOnce' = (eventOnce', None).
Proof.
  destruct op as [|reason msg|]; cbn; try done. case_bool_decide; [done|]. intros [= <- _].
  by rewrite lookup_insert_eq, bool_decide_true.
Qed.

(** A reconciliation that reports success with flattening wanted has both
    copies in place, made from the same credentials. *)
Theorem flat_pair_complete `{CosiLibs} (name ns : string) (t : Trace) :
  CosiContract → runs (Flattener_Reconcile name ns) t succeeds →
  ∃ ba, access_read name ns t ba ∧
    (WantFlatten (Annotations (ba_Meta ba)) = false ∨ ∃ data, flattening name ns t ba data ∧ pair_ensured t ba data).
Proof.
  intros Hlibs Hr. destruct (wp_sound _ _ [] _ _ _ (wp_Flattener_Reconcile Hlibs name ns) Hr) as [HQ _].
  by apply HQ.
Qed.

(** Credentials are only invalidated when they are stale: the access is
    granted, its claim has a bucket, and its Secret is gone or names another
    bucket.  The grant is cleared only after that Secret is gone, and besides
    copies of the access only the Secret that was read is deleted. *)
Theorem regrant_only_when_stale `{CosiLibs} `{RetrySteps} (name ns : string) (t t1 t2 : Trace)
    (a : option error * option (string * string)) (c : Call) (r : resp c) :
  runs (Resync_Reconcile name ns) t a → t = t1 ++ Ev c r :: t2 → resync_allowed name ns t1 c.
Proof.
  intros Hr Ht. destruct (wp_sound _ _ [] _ _ _ (wp_Resync_Reconcile name ns) Hr) as [_ HG]. exact (HG t1 c r t2 Ht).
Qed.

(** ** Witnesses *)

Definition demo_upsert (k : kind) (o : kobj k) (f : kobj k → result (kobj k)) : Prog (option error) :=
  r ← call (Get k (Name (meta k o)) (Namespace (meta k o)));
  match r with
  | inl e =>
      if IsNotFound (Some e) then
        match f o with
        | inl e => mret (Some e)
        | inr x => r ← call (Create k x); mret (match r with inl e => Some e | inr _ => None end)
        end
      else mret (Some e)
  | inr cur =>
      match f cur with
      | inl e => mret (Some e)
      | inr x => r ← call (Update k x); mret (match r with inl e => Some e | inr _ => None end)
      end
  end.

(** BucketInfo documents are bucket names. *)
Definition demo_cosi : CosiLibs :=
  mkCosiLibs (fun raw => inr (mkBucketInfo raw "ak" "sk" "s3.local"))
    (fun _ => inr (mkURL "http" "s3.local" "s3.local" ""))
    (fun owner m => inr (mkOwnerRef "v1alpha1" "BucketAccess" (Name owner) (UID owner) (Some true) (Some false) :: OwnerReferences m))
    demo_upsert.

Lemma demo_contract : @CosiContract demo_cosi.
Proof.
  constructor.
  - intros owner m refs [= <-]. eexists. split; [apply elem_of_cons; by left|done].
  - intros k o f h. cbn [CreateOrUpdate demo_cosi]. apply wp_bind_call; [by left|]. intros [e|cur].
    + destruct (IsNotFound (Some e)); [|done]. destruct (f o) as [|x] eqn:Hf; [done|].
      apply wp_bind_call; [right; left; by exists x|]. intros [e'|y]; apply wp_ret; [done|]. intros _. left.
      exists x, y. split; [done|apply in_snoc].
    + destruct (f cur) as [|x] eqn:Hf; [done|].
      apply wp_bind_call; [right; right; exists cur, x; split_and!; [done|done|apply in_snoc]|].
      intros [e'|y]; apply wp_ret; [done|]. intros _. right. exists cur, x.
      split_and!; [done|apply tsub_snoc, in_snoc|]. right. exists y. apply in_snoc.
Qed.

Definition demo_access : BucketAccess :=
  mkBucketAccess (mkMeta "app" "tenants" "u-ba" ∅ {[AnnotationFlatten := "true"]} [] [] 1 false) "claim" "creds" true "acc".
Definition demo_credentials (bucket : string) : Secret :=
  mkSecret (mkMeta "creds" "tenants" "u-s" ∅ ∅ [SecretProtectionFinalizer] [] 1 false) {[BucketInfoKey := bucket]}.

(** The access with its credentials for [bucket]; the claim has bucket "b2". *)
Definition cosi_handler (bucket : string) (c : Call) (s : unit) : unit * resp c :=
  (s,
   match c return resp c with
   | Get kBucketAccess _ _ => inr demo_access
   | Get kBucketClaim _ _ => inr (mkBucketClaim (mkMeta "claim" "tenants" "u-c" ∅ ∅ [] [] 1 false) true "b2")
   | Get kSecret n _ => if bool_decide (n = "creds") then inr (demo_credentials bucket) else inl (ErrStatus ReasonNotFound "secret")
   | c => quiet c
   end).

Definition flat_run := exec (cosi_handler "b1") (@Flattener_Reconcile demo_cosi "app" "tenants") tt.

Definition demo_flat_secret : Secret :=
  mkSecret (mkMeta "creds-flat" "tenants" "" {[LabelBucketAccessUID := "u-ba"]} ∅ []
              [mkOwnerRef "v1alpha1" "BucketAccess" "app" "u-ba" (Some true) (Some false)] 0 false)
    {["AWS_ACCESS_KEY_ID" := "ak"; "AWS_SECRET_ACCESS_KEY" := "sk"]}.

Lemma flat_objects_guarded_witness :
  let t := flat_run.1.2 in
  t = take 5 t ++ Ev (Create kSecret demo_flat_secret) (inr demo_flat_secret) :: drop 6 t ∧
  @flattener_allowed demo_cosi "app" "tenants" (take 5 t) (Create kSecret demo_flat_secret).
Proof.
  intros t. assert (H : t = take 5 t ++ Ev (Create kSecret demo_flat_secret) (inr demo_flat_secret) :: drop 6 t)
    by evaluates.
  split; [exact H|].
  exact (@flat_objects_guarded demo_cosi "app" "tenants" t (take 5 t) (drop 6 t) _ _ _ demo_contract
    (exec_runs (cosi_handler "b1") (@Flattener_Reconcile demo_cosi "app" "tenants") tt) H).
Defined.

Lemma flat_pair_complete_witness :
  flat_run.2 = succeeds ∧
  ∃ ba, access_read "app" "tenants" flat_run.1.2 ba ∧
    (WantFlatten (Annotations (ba_Meta ba)) = false ∨
     ∃ data, @flattening demo_cosi "app" "tenants" flat_run.1.2 ba data ∧ @pair_ensured demo_cosi flat_run.1.2 ba data).
Proof.
  assert (Ha : flat_run.2 = succeeds) by evaluates. split; [exact Ha|].
  apply (@flat_pair_complete demo_cosi "app" "tenants" flat_run.1.2 demo_contract).
  rewrite <-Ha. exact (exec_runs (cosi_handler "b1") (@Flattener_Reconcile demo_cosi "app" "tenants") tt).
Defined.

Definition resync_run := exec (cosi_handler "b1") (@Resync_Reconcile demo_cosi 4 "app" "tenants") tt.

Lemma regrant_only_when_stale_witness :
  let t := resync_run.1.2 in
  let o := clear_grant demo_access in
  t = take 7 t ++ Ev (UpdateStatus kBucketAccess o) (inr o) :: drop 8 t ∧
  @resync_allowed demo_cosi "app" "tenants" (take 7 t) (UpdateStatus kBucketAccess o).
Proof.
  intros t o. assert (H : t = take 7 t ++ Ev (UpdateStatus kBucketAccess o) (inr o) :: drop 8 t) by evaluates.
  split; [exact H|].
  exact (@regrant_only_when_stale demo_cosi 4 "app" "tenants" t (take 7 t) (drop 8 t) _ _ _
    (exec_runs (cosi_handler "b1") (@Resync_Reconcile demo_cosi 4 "app" "tenants") tt) H).
Defined.
