(* ===== verification/Invocations.v ===== *)
(** * The arguments of the manager

    [manager (root flags) <namespace> (flags) <namespace> (flags) ...]
    ([internal/cmd/namespace/parse.go]): [splitLeadingFlags] peels the root
    flags off, [parseInvocations] cuts the rest into one [invocation] per
    namespace.  Neither knows which flags take a value: a flag without [=]
    takes the next argument unless that is a flag or the name of a namespace.

    [good_flags] says declaratively which lists of arguments can stand behind a
    namespace; the parser accepts exactly the renderings of invocations whose
    flags are good, and returns the invocations rendered. *)

From S2P Require Import Prelude GoErrors.
From stdpp Require Import options.

Record invocation := mkInvocation { inv_Namespace : string; inv_Flags : list string }.

#[export] Instance invocation_eq_dec : EqDecision invocation.
Proof. solve_decision. Defined.

Section Parse.

(** The names of the namespaces the manager was built with, the keys of
    [byName]; an entry found under [arg] has the name [arg]. *)
Variable names : list string.

Definition is_namespace (arg : string) : bool := bool_decide (arg ∈ names).

Definition is_flag (arg : string) : bool := has_prefix arg "-".

(** Does the flag [arg] take the argument [nxt] behind it as its value? *)
Definition takes_value (arg nxt : string) : bool :=
  negb (contains arg "=") && negb (is_flag nxt) && negb (is_namespace nxt).

Definition add_flags (inv : invocation) (flags : list string) : invocation :=
  mkInvocation (inv_Namespace inv) (inv_Flags inv ++ flags).

(** [flush]: close the current invocation. *)
Definition flush (current : option invocation) (invocations : list invocation)
    : result (list invocation) :=
  match current with
  | None => mret invocations
  | Some inv =>
      if is_namespace (inv_Namespace inv) then mret (invocations ++ [inv])
      else Errorf ("unknown namespace " +:+ quote (inv_Namespace inv))
  end.

Fixpoint parse_args (args : list string) (current : option invocation)
    (invocations : list invocation) : result (list invocation) :=
  match args with
  | [] => flush current invocations
  | arg :: args' =>
      if is_namespace arg then
        invocations' ← flush current invocations;
        parse_args args' (Some (mkInvocation arg [])) invocations'
      else
        match current with
        | None => Errorf ("expected namespace name, got " +:+ quote arg)
        | Some inv =>
            if is_flag arg then
              match args' with
              | nxt :: args'' =>
                  if takes_value arg nxt
                  then parse_args args'' (Some (add_flags inv [arg; nxt])) invocations
                  else parse_args args' (Some (add_flags inv [arg])) invocations
              | [] => parse_args args' (Some (add_flags inv [arg])) invocations
              end
            else Errorf ("namespace " +:+ quote (inv_Namespace inv) +:+
                         " does not take positional arguments, got " +:+ quote arg)
        end
  end.

Definition parseInvocations (args : list string) : result (list invocation) :=
  invocations ← parse_args args None [];
  if bool_decide (length invocations = 0)
  then Errorf "at least one namespace invocation is required"
  else mret invocations.

Fixpoint splitLeadingFlags (args : list string) : list string * list string :=
  match args with
  | [] => ([], [])
  | arg :: args' =>
      if negb (is_flag arg) then ([], args)
      else
        match args' with
        | nxt :: args'' =>
            if takes_value arg nxt then
              let '(rootFlags, rest) := splitLeadingFlags args'' in (arg :: nxt :: rootFlags, rest)
            else let '(rootFlags, rest) := splitLeadingFlags args' in (arg :: rootFlags, rest)
        | [] => ([arg], [])
        end
  end.

(** ** The language of arguments *)

Definition render (inv : invocation) : list string := inv_Namespace inv :: inv_Flags inv.

(** [arg] may stand behind [prev]: it is a flag, or the value of a flag [prev]. *)
Definition placed (prev : option string) (arg : string) : Prop :=
  arg ∉ names ∧
  (is_flag arg = true ∨
   ∃ flag, prev = Some flag ∧ is_flag flag = true ∧ contains flag "=" = false).

(** Every element is a flag, or directly follows a flag without [=]; two values
    never follow each other. *)
Definition good_flags (flags : list string) : Prop :=
  ∀ i arg, flags !! i = Some arg →
    placed (match i with O => None | S j => flags !! j end) arg.

Definition well_formed (inv : invocation) : Prop :=
  inv_Namespace inv ∈ names ∧ good_flags (inv_Flags inv).

(** ** Lemmas *)

Lemma is_namespace_spec arg : is_namespace arg = true ↔ arg ∈ names.
Proof. apply bool_decide_eq_true. Qed.

Lemma takes_value_spec arg nxt :
  takes_value arg nxt = true ↔ contains arg "=" = false ∧ is_flag nxt = false ∧ nxt ∉ names.
Proof.
  unfold takes_value. rewrite !andb_true_iff, !negb_true_iff, <-is_namespace_spec.
  rewrite not_true_iff_false. tauto.
Qed.

Definition good_after (prev : option string) (flags : list string) : Prop :=
  ∀ i arg, flags !! i = Some arg →
    placed (match i with O => prev | S j => flags !! j end) arg.

Lemma good_after_nil prev : good_after prev [].
Proof. by intros i arg. Qed.

Lemma good_after_cons prev arg flags :
  good_after prev (arg :: flags) ↔ placed prev arg ∧ good_after (Some arg) flags.
Proof.
  split.
  - intros H. split; [by apply (H 0)|]. intros [|i] x Hx; [by apply (H 1)|by apply (H (S (S i)))].
  - intros [H1 H2] [|[|i]] x Hx; simplify_eq/=; [done|by apply (H2 0)|by apply (H2 (S i))].
Qed.

(** What stands in front only matters for a value. *)
Lemma good_after_flag prev prev' flags :
  (∀ arg, head flags = Some arg → is_flag arg = true) →
  good_after prev flags → good_after prev' flags.
Proof.
  destruct flags as [|arg flags]; [intros; apply good_after_nil|].
  intros Hh. rewrite !good_after_cons. unfold placed. intros [[? _] ?]. naive_solver.
Qed.

(** A list that a flag takes no value from stays good when the flag is
    forgotten, and the other way round. *)
Lemma good_after_forget arg flags :
  match flags with nxt :: _ => takes_value arg nxt = false | [] => True end →
  good_after (Some arg) flags → good_after None flags.
Proof.
  intros Ht Hg. apply (good_after_flag (Some arg)); [|done].
  intros x Hx. destruct flags as [|y flags]; simplify_eq/=.
  apply good_after_cons in Hg as [[Hn [?|(f & [= <-] & Hf & Heq)]] _]; [done|].
  destruct (is_flag x) eqn:E; [done|].
  assert (takes_value arg x = true) by (by apply takes_value_spec). congruence.
Qed.

Lemma good_after_None_head flags arg :
  good_after None flags → head flags = Some arg → is_flag arg = true.
Proof.
  destruct flags as [|y flags]; intros Hg Hx; simplify_eq/=.
  apply good_after_cons in Hg as [[_ [?|(? & ? & _)]] _]; done.
Qed.

(** The next argument is not taken as the value of [arg]. *)
Definition no_value (arg : string) (args : list string) : Prop :=
  match args with nxt :: _ => takes_value arg nxt = false | [] => True end.

(** The view the parser has of good flags: it consumes a flag, or a flag and its value. *)
Inductive flag_groups : list string → Prop :=
| groups_nil : flag_groups []
| groups_flag arg flags :
    arg ∉ names → is_flag arg = true → no_value arg flags → flag_groups flags →
    flag_groups (arg :: flags)
| groups_value arg nxt flags :
    arg ∉ names → is_flag arg = true → takes_value arg nxt = true → flag_groups flags →
    flag_groups (arg :: nxt :: flags).

Lemma groups_good flags : flag_groups flags → good_after None flags.
Proof.
  induction 1 as [|arg flags Hn Hf Ht Hg IH|arg nxt flags Hn Hf Ht Hg IH].
  - apply good_after_nil.
  - apply good_after_cons. split; [by split; [|left]|].
    eapply good_after_flag; [|done]. eauto using good_after_None_head.
  - apply takes_value_spec in Ht as (Heq & Hnf & Hnn). rewrite !good_after_cons. split_and!.
    + by split; [|left].
    + split; [done|right]. eauto.
    + eapply good_after_flag; [|done]. eauto using good_after_None_head.
Qed.

Lemma good_groups n flags : length flags ≤ n → good_after None flags → flag_groups flags.
Proof.
  revert flags. induction n as [|n IH]; intros [|arg flags] Hl Hg; simpl in Hl; try lia;
    [constructor..|].
  apply good_after_cons in Hg as [[Hn [Hf|(? & ? & _)]] Hg]; [|done].
  destruct flags as [|nxt flags]; [by repeat constructor|].
  destruct (takes_value arg nxt) eqn:Ht.
  - apply groups_value; [done..|]. apply IH; [simpl in Hl; lia|].
    apply good_after_cons in Hg as [_ Hg]. apply takes_value_spec in Ht as (_ & Hnf & _).
    eapply good_after_flag; [|done]. intros x Hx. destruct flags as [|y flags]; simplify_eq/=.
    apply good_after_cons in Hg as [[_ [?|(f & [= <-] & Hf' & _)]] _]; congruence.
  - apply groups_flag; [done..|]. apply IH; [lia|]. by eapply good_after_forget.
Qed.

Lemma good_flags_groups flags : good_flags flags ↔ flag_groups flags.
Proof.
  split; [intros H; by eapply good_groups|apply groups_good].
Qed.

(** *** The parser, one group at a time *)

Lemma add_flags_nil inv : add_flags inv [] = inv.
Proof. unfold add_flags. rewrite app_nil_r. by destruct inv. Qed.

Lemma add_flags_app inv l1 l2 : add_flags (add_flags inv l1) l2 = add_flags inv (l1 ++ l2).
Proof. unfold add_flags. simpl. by rewrite app_assoc. Qed.

Lemma not_namespace arg : arg ∉ names → is_namespace arg = false.
Proof. rewrite <-is_namespace_spec. apply not_true_is_false. Qed.

Lemma parse_flag arg args inv acc :
  arg ∉ names → is_flag arg = true → no_value arg args →
  parse_args (arg :: args) (Some inv) acc = parse_args args (Some (add_flags inv [arg])) acc.
Proof.
  intros Hn Hf Ht. cbn [parse_args]. rewrite (not_namespace _ Hn), Hf.
  destruct args as [|nxt args]; [done|]. simpl in Ht. by rewrite Ht.
Qed.

Lemma parse_value arg nxt args inv acc :
  arg ∉ names → is_flag arg = true → takes_value arg nxt = true →
  parse_args (arg :: nxt :: args) (Some inv) acc = parse_args args (Some (add_flags inv [arg; nxt])) acc.
Proof. intros Hn Hf Ht. cbn [parse_args]. by rewrite (not_namespace _ Hn), Hf, Ht. Qed.

Definition rendered (invs : list invocation) : list string := concat (map render invs).

(** Whatever follows a list of flags, the next invocation's name is no value. *)
Lemma next_is_no_value arg flags invs :
  no_value arg flags → Forall well_formed invs → no_value arg (flags ++ rendered invs).
Proof.
  destruct flags as [|nxt flags]; [|done]. intros _ Hw.
  destruct Hw as [|inv invs [Hn _] _]; [done|]. simpl.
  apply not_true_iff_false. rewrite takes_value_spec. tauto.
Qed.

Lemma parse_args_complete invs flags inv acc :
  flag_groups flags → inv_Namespace inv ∈ names → Forall well_formed invs →
  parse_args (flags ++ rendered invs) (Some inv) acc = inr (acc ++ add_flags inv flags :: invs).
Proof.
  revert flags inv acc. induction invs as [|inv' invs IHi]; intros flags inv acc Hg Hn Hw.
  all: revert inv Hn; induction Hg as [|arg flags Ha Hf Ht Hg IH|arg nxt flags Ha Hf Ht Hg IH];
    intros inv Hn.
  all: try (rewrite <-app_comm_cons, parse_flag by auto using next_is_no_value;
            by rewrite IH, add_flags_app).
  all: try (rewrite <-!app_comm_cons, parse_value by done; by rewrite IH, add_flags_app).
  all: rewrite add_flags_nil; apply is_namespace_spec in Hn; simpl; try by rewrite Hn.
  apply Forall_cons in Hw as [[Hn' Hg'] Hw]. apply is_namespace_spec in Hn' as E.
  rewrite E, Hn. simpl. fold (rendered invs). rewrite IHi by (done || by apply good_flags_groups).
  rewrite <-app_assoc. simpl. by destruct inv'.
Qed.

Lemma parse_args_sound n args inv acc res :
  length args ≤ n → parse_args args (Some inv) acc = inr res →
  inv_Namespace inv ∈ names ∧
  ∃ flags invs, args = flags ++ rendered invs ∧ flag_groups flags ∧
    Forall well_formed invs ∧ res = acc ++ add_flags inv flags :: invs.
Proof.
  revert args inv acc. induction n as [|n IH]; intros [|arg args] inv acc Hl; simpl in Hl; try lia.
  1,2: simpl; destruct (is_namespace _) eqn:E; [|done]; intros [= <-]; apply is_namespace_spec in E;
    split; [done|]; exists [], []; rewrite add_flags_nil; by repeat constructor.
  destruct (is_namespace arg) eqn:Ha.
  { simpl. rewrite Ha. destruct (is_namespace (inv_Namespace inv)) eqn:E; [|done]. simpl. intros H.
    apply is_namespace_spec in E. apply IH in H as (Hn & flags & invs & -> & Hg & Hw & ->); [|lia].
    split; [done|]. exists [], (mkInvocation arg flags :: invs). rewrite add_flags_nil.
    split_and!; [done|constructor| |by rewrite <-app_assoc].
    constructor; [|done]. split; [done|]. by apply good_flags_groups. }
  assert (arg ∉ names) as Ha' by (rewrite <-is_namespace_spec; congruence).
  destruct (is_flag arg) eqn:Hf; [|simpl; by rewrite Ha, Hf].
  destruct args as [|nxt args]; [|destruct (takes_value arg nxt) eqn:Ht].
  - rewrite parse_flag by done. intros H. apply IH in H as (Hn & flags & invs & Heq & Hg & Hw & ->); [|simpl; lia].
    symmetry in Heq. apply app_eq_nil in Heq as [-> Heq].
    split; [done|]. exists [arg], invs. rewrite add_flags_nil, Heq.
    split_and!; [done|by repeat constructor|done|done].
  - rewrite parse_value by done. intros H. simpl in Hl.
    apply IH in H as (Hn & flags & invs & -> & Hg & Hw & ->); [|lia].
    split; [done|]. exists (arg :: nxt :: flags), invs. rewrite add_flags_app.
    split_and!; [done|by constructor|done..].
  - rewrite parse_flag by done. intros H. apply IH in H as (Hn & flags & invs & Heq & Hg & Hw & ->); [|lia].
    split; [done|]. exists (arg :: flags), invs. rewrite add_flags_app.
    split_and!; [by rewrite Heq| |done|done].
    constructor; [done..| |done]. destruct flags as [|y flags]; simplify_eq/=; done.
Qed.

(** *** The root flags *)

Lemma splitLeadingFlags_parts n args :
  length args ≤ n →
  (splitLeadingFlags args).1 ++ (splitLeadingFlags args).2 = args ∧
  match (splitLeadingFlags args).2 with nxt :: _ => is_flag nxt = false | [] => True end.
Proof.
  revert args. induction n as [|n IH]; intros [|arg args] Hl; simpl in Hl; try lia; [done..|].
  destruct (is_flag arg) eqn:Hf; simpl; rewrite Hf; [|done]. simpl.
  destruct args as [|nxt args]; [done|].
  destruct (takes_value arg nxt).
  - specialize (IH args). destruct (splitLeadingFlags args) as [f r]. simpl in *.
    destruct IH as [<- ?]; [lia|done].
  - specialize (IH (nxt :: args)). destruct (splitLeadingFlags (nxt :: args)) as [f r]. simpl in *.
    destruct IH as [<- ?]; [lia|done].
Qed.

Lemma split_groups flags rest :
  flag_groups flags →
  match rest with nxt :: _ => is_flag nxt = false ∧ nxt ∈ names | [] => True end →
  splitLeadingFlags (flags ++ rest) = (flags, rest).
Proof.
  intros Hg Hr. induction Hg as [|arg flags Ha Hf Ht Hg IH|arg nxt flags Ha Hf Ht Hg IH].
  - destruct rest as [|nxt rest]; [done|]. simpl. by destruct Hr as [-> _].
  - simpl. rewrite Hf. simpl. destruct flags as [|nxt flags]; simpl.
    + destruct rest as [|nxt rest]; [done|]. destruct Hr as [Hr Hin].
      assert (takes_value arg nxt = false) as ->; [|by rewrite (IH : splitLeadingFlags (nxt :: rest) = _)].
      apply not_true_iff_false. rewrite takes_value_spec. tauto.
    + simpl in Ht. rewrite Ht. simpl in IH. by rewrite IH.
  - simpl. rewrite Hf. simpl. by rewrite Ht, IH.
Qed.

Lemma parseInvocations_parts args invs :
  parseInvocations args = inr invs ↔ invs ≠ [] ∧ Forall well_formed invs ∧ args = rendered invs.
Proof.
  unfold parseInvocations. split.
  - destruct args as [|arg args]; [done|]. simpl.
    destruct (is_namespace arg) eqn:Ha; [|done]. simpl.
    destruct (parse_args args _ []) as [|res] eqn:E; [done|]. simpl.
    apply (parse_args_sound (length args)) in E as (Hn & flags & invs' & -> & Hg & Hw & ->); [|done].
    simpl. intros [= <-]. split_and!; [done| |done].
    constructor; [|done]. split; [done|]. by apply good_flags_groups.
  - intros (Hne & Hw & ->). destruct Hw as [|inv invs [Hn Hg] Hw]; [done|].
    simpl. apply is_namespace_spec in Hn as E. rewrite E. simpl. fold (rendered invs).
    rewrite parse_args_complete by (done || by apply good_flags_groups).
    simpl. by destruct inv.
Qed.

(** The root flags and the rest are the arguments. *)
Lemma splitLeadingFlags_lossless args :
  (splitLeadingFlags args).1 ++ (splitLeadingFlags args).2 = args.
Proof. by destruct (splitLeadingFlags_parts (length args) args). Qed.

(** C36. The arguments are parsed without loss.  Good root flags in front of
    well-formed invocations are peeled off and the invocations are returned as
    they were written; in the other direction the parser accepts nothing but the
    renderings of one or more invocations of known namespaces whose flags are
    good.  (No namespace is called like a flag.) *)
Theorem arguments_roundtrip :
  Forall (fun name => is_flag name = false) names →
  ∀ (rootFlags args : list string) (invs : list invocation),
    (parseInvocations args = inr invs ↔
     invs ≠ [] ∧ Forall well_formed invs ∧ args = rendered invs) ∧
    (good_flags rootFlags → invs ≠ [] → Forall well_formed invs →
     splitLeadingFlags (rootFlags ++ rendered invs) = (rootFlags, rendered invs) ∧
     parseInvocations (splitLeadingFlags (rootFlags ++ rendered invs)).2 = inr invs).
Proof.
  intros Hnames rootFlags args invs. split; [apply parseInvocations_parts|]. intros Hg Hne Hw.
  assert (splitLeadingFlags (rootFlags ++ rendered invs) = (rootFlags, rendered invs)) as E.
  { apply split_groups; [by apply good_flags_groups|].
    destruct Hw as [|inv invs [Hn _] _]; [done|]. simpl. split; [|done].
    rewrite Forall_forall in Hnames. by apply Hnames. }
  split; [done|]. rewrite E. simpl. by apply parseInvocations_parts.
Qed.

End Parse.

Definition demo_names : list string := ["replication"; "server"; "webhook"; "cosi"].

(** A misspelt namespace behind a flag that takes no value is not reported. *)
Example misspelt_namespace_is_swallowed :
  parseInvocations demo_names ["webhook"; "--enable-pvc-label-webhook"; "serverr"] =
  inr [mkInvocation "webhook" ["--enable-pvc-label-webhook"; "serverr"]].
Proof. by vm_compute. Qed.

Lemma arguments_roundtrip_witness :
  Forall (fun name => is_flag name = false) demo_names ∧
  splitLeadingFlags demo_names
    ["--dev-logging"; "replication"; "--pvc-name-format=x"; "webhook"; "--csi-driver-name"; "csi.vastdata.com"] =
    (["--dev-logging"], ["replication"; "--pvc-name-format=x"; "webhook"; "--csi-driver-name"; "csi.vastdata.com"]).
Proof.
  assert (Forall (fun name => is_flag name = false) demo_names) as Hn by (by repeat constructor).
  split; [done|].
  apply (arguments_roundtrip demo_names Hn ["--dev-logging"] []
    [mkInvocation "replication" ["--pvc-name-format=x"];
     mkInvocation "webhook" ["--csi-driver-name"; "csi.vastdata.com"]]); [|done|].
  - apply good_flags_groups. repeat constructor; try done. by apply (bool_decide_unpack _).
  - constructor; [|constructor; [|done]].
    all: split; [by apply (bool_decide_unpack _)|apply good_flags_groups].
    + apply groups_flag; [by apply (bool_decide_unpack _)|done|done|constructor].
    + apply groups_value; [by apply (bool_decide_unpack _)|done|by vm_compute|constructor].
Defined.
