(* ===== verification/Manager.v ===== *)
(** * The manager: configuration, shared manager, namespaces

    - [Config], [Display] and the flag defaults ([internal/common/config],
      the [RegisterFlags] of [internal/cmd]);
    - [SharedManager] ([internal/cmd/manager/manager.go]): the controller-runtime
      manager, the logger and the client, each made once;
    - the four namespaces ([internal/cmd/{replication,server,webhook,cosi}]) with
      the controllers, watches, webhooks and servers they register, and the
      setup functions of [internal/controller] and [internal/webhook];
    - [execute] ([internal/cmd/namespace/namespace.go]): one or more namespaces
      in one process, then the start of the manager.

    Code runs in a monad [Main] over the process state, with the ways a Go
    program can end: it returns, panics or exits.  Flag parsing (pflag),
    controller-runtime, certificate watching and regular expressions are the
    class [Runtime].  [ctrl.SetLogger] and log lines are left out. *)

From S2P Require Import Prelude GoErrors Topology Kube Naming Predicates ReplicationObjects Remap PpathDir PvcWebhook Cosi Invocations.
From stdpp Require Import options.

(** ** Configuration *)

Record Config := mkConfig {
  c_PvcLabelWebhookEnabled : bool;
  c_VSCRValidationWebhookEnabled : bool;
  c_VVRValidationWebhookEnabled : bool;
  c_WebhookCertPath : string;
  c_WebhookCertName : string;
  c_WebhookCertKey : string;
  c_StorageClassName : string;
  c_StorageClassNameRegex : string;
  c_PVCNameRegex : string;
  c_CSIDriverName : string;
  c_CSIDriverNameRegex : string;
  c_PVCNameFormat : string;
  c_PVNameFormat : string;
  c_VolumeReplicationNameFormat : string;
  c_VolumeGroupReplicationNameFormat : string;
  c_SSLVerify : bool;
  c_ApplyExistingPVCs : bool;
  c_ExtensionsGRPCBindAddress : string;
  c_ExtensionsGRPCCertPath : string;
  c_ExtensionsGRPCCertName : string;
  c_ExtensionsGRPCCertKey : string;
  c_HealthProbeBindAddress : string;
  c_MetricsBindAddress : string;
  c_EnableHTTP2 : bool;
  c_DevLogging : bool;
  c_MaxConcurrentReconciles : Z;
}.

(** The values the flags have when they are not given: [manager.RegisterFlags]
    and the [RegisterFlags] of the namespaces. *)
Definition default_config : Config := mkConfig
  false false false "/tmp/k8s-webhook-server/serving-certs" "tls.crt" "tls.key" "" "" "" "" ""
  DefaultPVCNameFormat DefaultPVNameFormat "{vr_name}-repl-{endpoint}" "{vgr_name}-repl-{endpoint}"
  false false ":9090" "/tmp/extensions-grpc-certs" "tls.crt" "tls.key"
  ":8081" "0" false false 5.

(** A field of the struct as [reflect] presents it. *)
Inductive field_value := VString (s : string) | VBool (b : bool) | VInt (z : Z).
Record config_field := mkField { f_Name : string; f_component : string; f_value : field_value }.

Definition config_fields (c : Config) : list config_field := [
  mkField "PvcLabelWebhookEnabled" "webhook" (VBool (c_PvcLabelWebhookEnabled c));
  mkField "VSCRValidationWebhookEnabled" "webhook" (VBool (c_VSCRValidationWebhookEnabled c));
  mkField "VVRValidationWebhookEnabled" "webhook" (VBool (c_VVRValidationWebhookEnabled c));
  mkField "WebhookCertPath" "webhook" (VString (c_WebhookCertPath c));
  mkField "WebhookCertName" "webhook" (VString (c_WebhookCertName c));
  mkField "WebhookCertKey" "webhook" (VString (c_WebhookCertKey c));
  mkField "StorageClassName" "webhook" (VString (c_StorageClassName c));
  mkField "StorageClassNameRegex" "webhook" (VString (c_StorageClassNameRegex c));
  mkField "PVCNameRegex" "webhook" (VString (c_PVCNameRegex c));
  mkField "CSIDriverName" "webhook" (VString (c_CSIDriverName c));
  mkField "CSIDriverNameRegex" "webhook" (VString (c_CSIDriverNameRegex c));
  mkField "PVCNameFormat" "replication" (VString (c_PVCNameFormat c));
  mkField "PVNameFormat" "replication" (VString (c_PVNameFormat c));
  mkField "VolumeReplicationNameFormat" "replication" (VString (c_VolumeReplicationNameFormat c));
  mkField "VolumeGroupReplicationNameFormat" "replication" (VString (c_VolumeGroupReplicationNameFormat c));
  mkField "SSLVerify" "replication" (VBool (c_SSLVerify c));
  mkField "ApplyExistingPVCs" "replication" (VBool (c_ApplyExistingPVCs c));
  mkField "ExtensionsGRPCBindAddress" "server" (VString (c_ExtensionsGRPCBindAddress c));
  mkField "ExtensionsGRPCCertPath" "server" (VString (c_ExtensionsGRPCCertPath c));
  mkField "ExtensionsGRPCCertName" "server" (VString (c_ExtensionsGRPCCertName c));
  mkField "ExtensionsGRPCCertKey" "server" (VString (c_ExtensionsGRPCCertKey c));
  mkField "HealthProbeBindAddress" "" (VString (c_HealthProbeBindAddress c));
  mkField "MetricsBindAddress" "" (VString (c_MetricsBindAddress c));
  mkField "EnableHTTP2" "" (VBool (c_EnableHTTP2 c));
  mkField "DevLogging" "" (VBool (c_DevLogging c));
  mkField "MaxConcurrentReconciles" "" (VInt (c_MaxConcurrentReconciles c))].

Definition spaces (n : nat) : string := str (replicate n " "%char).
(** [%-*s] on ASCII text. *)
Definition pad_right (width : nat) (s : string) : string := s +:+ spaces (width - strlen s).

(** Is a field shown for the component? *)
Definition shown (component tagVal : string) : bool :=
  if bool_decide (component ≠ "")
  then existsb (fun part => bool_decide (trim_space part = component)) (split_str "," tagVal)
  else true.

Definition show_value (v : field_value) : string :=
  match v with
  | VString s => if bool_decide (s = "") then "-" else s
  | VBool b => if b then "true" else "false"
  | VInt z => show_Z z
  end.

Definition Display (c : option Config) (component : string) : string :=
  match c with
  | None => "Config: <nil>"
  | Some c =>
      let fields := filter (fun f => shown component (f_component f) = true) (config_fields c) in
      let maxKeyLen := foldr (fun f n => max (strlen (f_Name f)) n) 0 fields in
      let header := if bool_decide (component ≠ "") then "Configuration[" +:+ component +:+ "]:"
                    else "Configuration:" in
      join newline
        (header :: map (fun f => "  - " +:+ pad_right maxKeyLen (f_Name f) +:+ ": " +:+
                                 show_value (f_value f)) fields)
  end.

(** ** The process *)

(** A webhook server made by [cmd/webhook]: HTTP/1.1 only, and the watched
    certificate and key. *)
Record WebhookServer := mkWebhookServer {
  ws_http1_only : bool;
  ws_certificate : option (string * string);
}.

#[export] Instance WebhookServer_eq_dec : EqDecision WebhookServer.
Proof. solve_decision. Defined.

(** [ctrl.Options] as far as the code sets it. *)
Record Options := mkOptions {
  o_MetricsBindAddress : string;
  o_metrics_http1_only : bool;
  o_HealthProbeBindAddress : string;
  o_WebhookServer : option WebhookServer;
}.

(** A watch of a controller: the kind, the events it lets through, and the
    requests (namespace, name) it makes of an object. *)
Record Watch := mkWatch {
  w_Kind : string;
  w_Predicate : Event → bool;
  w_Requests : ObjectMeta → list (string * string);
}.

Inductive Registration :=
| RegController (name : string) (workers : option Z) (watches : list Watch)
| RegWebhook (path : string)
| RegIndex (kind field : string)
| RegCertWatcher (cert key : string)
| RegGRPCServer (address cert key : string)
| RegCheck (name : string).

(** The controller-runtime manager. *)
Record CtrlManager := mkCtrl {
  m_Options : Options;
  m_registered : list Registration;
  m_started : bool;
}.

Inductive Logger := DevLogger | ProductionLogger.

Record SharedManager := mkShared {
  sm_mgr : option CtrlManager;
  sm_mgrErr : option error;
  sm_mgrOnce : bool;
  sm_logger : option Logger;
  sm_k8s : option Logger;      (* the client, by the logger it was made with *)
  sm_k8sOnce : bool;
}.

Record Process := mkProcess {
  p_mgr : SharedManager;
  p_cfg : Config;
  p_out : list string;         (* standard output *)
}.

Definition NewSharedManager : SharedManager := mkShared None None false None None false.

Inductive outcome (A : Type) :=
| Returns (a : A)
| Panics (e : error)
| Exits (code : Z).
Arguments Returns {_} _.
Arguments Panics {_} _.
Arguments Exits {_} _.

Definition Main (A : Type) : Type := Process → Process * outcome A.

#[export] Instance Main_ret : MRet Main := fun A a p => (p, Returns a).
#[export] Instance Main_bind : MBind Main := fun A B f m p =>
  match m p with
  | (p', Returns a) => f a p'
  | (p', Panics e) => (p', Panics e)
  | (p', Exits n) => (p', Exits n)
  end.

Definition panic {A} (e : error) : Main A := fun p => (p, Panics e).
Definition exit {A} (code : Z) : Main A := fun p => (p, Exits code).
Definition get_cfg : Main Config := fun p => (p, Returns (p_cfg p)).
Definition get_sm : Main SharedManager := fun p => (p, Returns (p_mgr p)).
Definition put_sm (sm : SharedManager) : Main unit :=
  fun p => (mkProcess sm (p_cfg p) (p_out p), Returns ()).
Definition put_cfg (cfg : Config) : Main unit :=
  fun p => (mkProcess (p_mgr p) cfg (p_out p), Returns ()).
Definition println (s : string) : Main unit :=
  fun p => (mkProcess (p_mgr p) (p_cfg p) (p_out p ++ [s]), Returns ()).
(** [if err != nil { panic(err) }] *)
Definition or_panic (m : Main (option error)) : Main unit :=
  err ← m; match err with Some e => panic e | None => mret () end.

(** What the program asks of the libraries.  A registration may depend on what
    is registered already. *)
Class Runtime := mkRuntime {
  rt_KubeConfig : bool;                                 (* ctrl.GetConfigOrDie finds one *)
  rt_NewManager : Options → option error;
  rt_Register : list Registration → Registration → option error;
  rt_EventRecorder : string → option error;             (* events.NewEventReporterForManager *)
  rt_NewProduction : option error;                      (* zap.NewProduction *)
  rt_CertWatcher : string → string → option error;
  rt_KubeClient : option error;                         (* kubernetes.NewForConfig *)
  rt_Compile : string → option error;                   (* regexp.Compile *)
  rt_ParseFlags : option string → list string → Config → result Config;
  rt_ListByIndex : string → string → string → result (list (string * string));
  rt_Start : option error;                              (* Manager.Start *)
}.

Section Manager.

Context {rt : Runtime}.

(** ** SharedManager *)

Definition register (r : Registration) : Main (option error) :=
  sm ← get_sm;
  match sm_mgr sm with
  | None => panic (ErrNew "invalid memory address or nil pointer dereference")
  | Some mgr =>
      match rt_Register (m_registered mgr) r with
      | Some e => mret (Some e)
      | None =>
          put_sm (mkShared (Some (mkCtrl (m_Options mgr) (m_registered mgr ++ [r]) (m_started mgr)))
                    (sm_mgrErr sm) (sm_mgrOnce sm) (sm_logger sm) (sm_k8s sm) (sm_k8sOnce sm));;
          mret None
      end
  end.

(** The options of the first call; [customOpts] are applied in order.  The flags
    read from the root command are bound to the configuration. *)
Definition manager_options (cfg : Config) (customOpts : list (Options → Options)) : Options :=
  foldl (fun opts f => f opts)
    (mkOptions (c_MetricsBindAddress cfg) (negb (c_EnableHTTP2 cfg)) (c_HealthProbeBindAddress cfg) None)
    customOpts.

Definition SharedManager_Get (customOpts : list (Options → Options)) : Main (option error) :=
  sm ← get_sm;
  if sm_mgrOnce sm then mret (sm_mgrErr sm)
  else
    cfg ← get_cfg;
    let opts := manager_options cfg customOpts in
    if negb rt_KubeConfig then exit 1
    else
      match rt_NewManager opts with
      | Some e =>
          put_sm (mkShared None (Some e) true (sm_logger sm) (sm_k8s sm) (sm_k8sOnce sm));;
          mret (Some e)
      | None =>
          put_sm (mkShared (Some (mkCtrl opts [] false)) None true (sm_logger sm) (sm_k8s sm) (sm_k8sOnce sm));;
          err ← register (RegCheck "healthz");
          if bool_decide (is_Some err) then exit 1
          else
            err ← register (RegCheck "readyz");
            if bool_decide (is_Some err) then exit 1 else mret None
      end.

Definition SharedManager_GetLogger : Main Logger :=
  sm ← get_sm;
  match sm_logger sm with
  | Some l => mret l
  | None =>
      cfg ← get_cfg;
      let made l := put_sm (mkShared (sm_mgr sm) (sm_mgrErr sm) (sm_mgrOnce sm) (Some l)
                              (sm_k8s sm) (sm_k8sOnce sm));; mret l in
      if c_DevLogging cfg then made DevLogger
      else match rt_NewProduction with Some e => panic e | None => made ProductionLogger end
  end.

Definition SharedManager_GetK8sClient : Main (option error) :=
  sm ← get_sm;
  if sm_k8sOnce sm then mret (sm_mgrErr sm)
  else
    err ← SharedManager_Get [];
    match err with
    | Some _ =>
        sm ← get_sm;
        put_sm (mkShared (sm_mgr sm) (sm_mgrErr sm) (sm_mgrOnce sm) (sm_logger sm) (sm_k8s sm) true);;
        mret (sm_mgrErr sm)
    | None =>
        l ← SharedManager_GetLogger;
        sm ← get_sm;
        put_sm (mkShared (sm_mgr sm) (sm_mgrErr sm) (sm_mgrOnce sm) (sm_logger sm) (Some l) true);;
        mret (sm_mgrErr sm)
    end.

Definition start_mgr : Main (option error) :=
  sm ← get_sm;
  match sm_mgr sm with
  | None => panic (ErrNew "invalid memory address or nil pointer dereference")
  | Some mgr =>
      put_sm (mkShared (Some (mkCtrl (m_Options mgr) (m_registered mgr) true))
                (sm_mgrErr sm) (sm_mgrOnce sm) (sm_logger sm) (sm_k8s sm) (sm_k8sOnce sm));;
      mret rt_Start
  end.

Definition SharedManager_Start : Main (option error) :=
  sm ← get_sm;
  err ← match sm_mgr sm with None => SharedManager_Get [] | Some _ => mret None end;
  match err with
  | Some e => mret (Some e)
  | None => SharedManager_GetLogger;; start_mgr
  end.

(** ** Setup functions *)

Definition defaultMaxConcurrentReconciles : Z := 5.

Definition controllerOptions (cfg : Config) : Z :=
  if bool_decide (0 < c_MaxConcurrentReconciles cfg)%Z then c_MaxConcurrentReconciles cfg
  else defaultMaxConcurrentReconciles.

(** [NewBaseReconciler]: fails with its event reporter. *)
Definition NewBaseReconciler (controllerName : string) : option error :=
  match rt_EventRecorder controllerName with
  | Some e => Some (ErrWrap ("failed to create event reporter for " +:+ controllerName +:+ ": ") e "")
  | None => None
  end.

Definition setup_controller (controllerName : string) (r : Config → Registration) : Main (option error) :=
  match NewBaseReconciler controllerName with
  | Some e => mret (Some e)
  | None => cfg ← get_cfg; register (r cfg)
  end.

(** [For]: every event of the kind, the object itself as request. *)
Definition For (kind : string) (pred : Event → bool) : Watch :=
  mkWatch kind pred (fun m => [(Namespace m, Name m)]).

(** [MapToParentCR] with requests as (namespace, name). *)
Definition parent_requests (nameLabel nsLabel ownerKind : string) (m : ObjectMeta) : list (string * string) :=
  map (fun r => (r.2, r.1)) (MapToParentCR nameLabel nsLabel ownerKind m).

Definition SetupReplicationObjectProvisionerController : Main (option error) :=
  setup_controller "replicationobject" (fun cfg =>
    RegController "replication" (Some (controllerOptions cfg))
      [mkWatch "VolumeReplication" volumeReplicationPredicate enqueueVR;
       mkWatch "VolumeGroupReplication" volumeGroupReplicationPredicate enqueueVGR]).

Definition SetupVastReplicationContentController : Main (option error) :=
  setup_controller "vastreplicationcontent" (fun cfg =>
    RegController "vastreplicationcontent" (Some (controllerOptions cfg))
      [For "VastReplicationContent" VastReplicationContentPredicate]).

Definition SetupVastStorageClassReplicationController : Main (option error) :=
  setup_controller "vaststorageclassreplication" (fun cfg =>
    RegController "vaststorageclassreplication" (Some (controllerOptions cfg))
      [For "VastStorageClassReplication" (fun _ => true);
       mkWatch "VolumeGroupReplication" ownedVGRPredicate
         (parent_requests LabelSourceVSCR LabelSourceVSCRNamespace "VastStorageClassReplication")]).

Definition SetupVastVolumeReplicationController : Main (option error) :=
  setup_controller "vastvolumereplication" (fun cfg =>
    RegController "vastvolumereplication" (Some (controllerOptions cfg))
      [For "VastVolumeReplication" (fun _ => true);
       mkWatch "VolumeReplication" ownedVRPredicate
         (parent_requests LabelSourceVVR LabelSourceVVRNamespace "VastVolumeReplication")]).

Definition SetupPVCRemapController : Main (option error) :=
  setup_controller "pvcremap" (fun cfg =>
    RegController "pvcremap" (Some (controllerOptions cfg))
      [mkWatch "VolumeGroupReplication" confirmedPrimaryTransitionPredicate
         (remap_request vscrRemapPrefix LabelSourceVSCR LabelSourceVSCRNamespace "VastStorageClassReplication");
       mkWatch "VolumeReplication" confirmedPrimaryTransitionPredicate
         (remap_request vvrRemapPrefix LabelSourceVVR LabelSourceVVRNamespace "VastVolumeReplication")]).

(** The accesses found in an index, in the namespace of the object that changed;
    a failed listing makes no request. *)
Definition indexed_requests (index : string) (m : ObjectMeta) : list (string * string) :=
  match rt_ListByIndex index (Namespace m) (Name m) with
  | inl _ => []
  | inr reqs => reqs
  end.

Definition credentialsSecretNameIndex := "spec.credentialsSecretName".
Definition credentialsFlattenerControllerName := "cosi-credentials-flattener".
Definition baResyncBucketClaimIndex := "baSecretResync.spec.bucketClaimName".
Definition baSecretResyncControllerName := "cosi-ba-secret-resync".

(** The object an event is about, for [predicate.NewPredicateFuncs]. *)
Definition event_object (e : Event) : Object :=
  match e with
  | CreateEvent o | UpdateEvent _ o | DeleteEvent o | GenericEvent o => o
  end.

(** An owned object enqueues its controlling BucketAccess. *)
Definition Owns (kind : string) : Watch :=
  mkWatch kind (fun _ => true) (fun m =>
    match List.find (fun ref => default false (or_Controller ref)) (OwnerReferences m) with
    | Some ref => if bool_decide (or_Kind ref = "BucketAccess") then [(Namespace m, or_Name ref)] else []
    | None => []
    end).

Definition SetupCredentialsFlattenerController : Main (option error) :=
  err ← register (RegIndex "BucketAccess" credentialsSecretNameIndex);
  match err with
  | Some e => mret (Some e)
  | None =>
      register (RegController credentialsFlattenerControllerName None
        [For "BucketAccess" (fun _ => true);
         Owns "Secret";
         Owns "ConfigMap";
         mkWatch "Secret" (fun e => ignoreFlatSecrets (Name (meta_of (event_object e))))
           (indexed_requests credentialsSecretNameIndex)])
  end.

Definition SetupBucketAccessSecretResyncController : Main (option error) :=
  err ← register (RegIndex "BucketAccess" baResyncBucketClaimIndex);
  match err with
  | Some e => mret (Some e)
  | None =>
      register (RegController baSecretResyncControllerName None
        [For "BucketAccess" (fun _ => true);
         mkWatch "BucketClaim" (fun _ => true) (indexed_requests baResyncBucketClaimIndex)])
  end.

(** The webhook server's [Register] has no error: a path registered twice panics. *)
Definition register_webhook (path : string) : Main unit := or_panic (register (RegWebhook path)).

Definition webhookPath := "/mutate-pvc".
Definition bucketParamsWebhookPath := "/mutate-bucket-parameters".
Definition VSCRValidatePath := "/validate-vastdata-com-v1alpha1-vaststorageclassreplication".
Definition VVRValidatePath := "/validate-vastdata-com-v1alpha1-vastvolumereplication".

Definition SetupWithManager : Main (option error) := register_webhook webhookPath;; mret None.

Definition SetupBucketParamsWebhook : Main (option error) :=
  register_webhook bucketParamsWebhookPath;; mret None.

Definition SetupReplicationCRDValidationWebhooks (vscrEnabled vvrEnabled : bool) : Main unit :=
  (if vscrEnabled then register_webhook VSCRValidatePath else mret ());;
  (if vvrEnabled then register_webhook VVRValidatePath else mret ()).

(** [RegisterCOSIBucketIDIndex] *)
Definition cosiBucketIDIndex := "status.bucketID".
Definition RegisterCOSIBucketIDIndex : Main (option error) := register (RegIndex "Bucket" cosiBucketIDIndex).

(** ** Namespaces

    The command a namespace configures: its [PreRunE], if any, and its [Run]. *)
Record NamespaceModule := mkModule {
  ns_Name : string;
  ns_PreRunE : Config → result unit;
  ns_Run : Main unit;
}.

Definition replication_Run : Main unit :=
  SharedManager_GetLogger;;
  cfg ← get_cfg;
  or_panic (mret (err_of (ValidateNameFormat (c_PVCNameFormat cfg) "pvc")));;
  or_panic (mret (err_of (ValidateNameFormat (c_PVNameFormat cfg) "pv")));;
  SharedManager_GetLogger;;
  or_panic (SharedManager_Get []);;
  or_panic SetupReplicationObjectProvisionerController;;
  or_panic SetupVastReplicationContentController;;
  or_panic SetupVastStorageClassReplicationController;;
  or_panic SetupVastVolumeReplicationController;;
  or_panic SetupPVCRemapController.

Definition server_Run : Main unit :=
  SharedManager_GetLogger;;
  or_panic (SharedManager_Get []);;
  or_panic (mret rt_KubeClient);;
  cfg ← get_cfg;
  or_panic (register (RegGRPCServer (c_ExtensionsGRPCBindAddress cfg)
    (path_Join [c_ExtensionsGRPCCertPath cfg; c_ExtensionsGRPCCertName cfg])
    (path_Join [c_ExtensionsGRPCCertPath cfg; c_ExtensionsGRPCCertKey cfg]))).

Definition cosi_Run : Main unit :=
  SharedManager_GetLogger;;
  or_panic (SharedManager_Get []);;
  or_panic RegisterCOSIBucketIDIndex;;
  or_panic SetupCredentialsFlattenerController;;
  or_panic SharedManager_GetK8sClient;;
  or_panic SetupBucketAccessSecretResyncController.

Definition check_regex (flag pattern : string) : result unit :=
  if bool_decide (pattern ≠ "") then
    match rt_Compile pattern with
    | Some e => inl (ErrWrap ("invalid --" +:+ flag +:+ " " +:+ quote pattern +:+ ": ") e "")
    | None => mret ()
    end
  else mret ().

Definition webhook_PreRunE (cfg : Config) : result unit :=
  if bool_decide (c_StorageClassName cfg ≠ "") && bool_decide (c_StorageClassNameRegex cfg ≠ "")
  then Errorf "--storage-class-name and --storage-class-name-regex are mutually exclusive"
  else if bool_decide (c_CSIDriverName cfg ≠ "") && bool_decide (c_CSIDriverNameRegex cfg ≠ "")
  then Errorf "--csi-driver-name and --csi-driver-name-regex are mutually exclusive"
  else
    _ ← check_regex "storage-class-name-regex" (c_StorageClassNameRegex cfg);
    _ ← check_regex "pvc-name-regex" (c_PVCNameRegex cfg);
    _ ← check_regex "csi-driver-name-regex" (c_CSIDriverNameRegex cfg);
    if c_PvcLabelWebhookEnabled cfg && bool_decide (c_CSIDriverName cfg = "")
       && bool_decide (c_CSIDriverNameRegex cfg = "")
    then Errorf "PVC label webhook requires --csi-driver-name or --csi-driver-name-regex"
    else mret ().

(** The certificate the webhook server watches; empty paths watch none. *)
Definition webhook_certificate (cfg : Config) : option (string * string) :=
  if bool_decide (0 < strlen (c_WebhookCertPath cfg))
  then Some (path_Join [c_WebhookCertPath cfg; c_WebhookCertName cfg],
             path_Join [c_WebhookCertPath cfg; c_WebhookCertKey cfg])
  else None.

(** The server the webhook flags ask for. *)
Definition webhook_server (cfg : Config) : WebhookServer :=
  mkWebhookServer (negb (c_EnableHTTP2 cfg)) (webhook_certificate cfg).

Definition set_WebhookServer (ws : WebhookServer) (o : Options) : Options :=
  mkOptions (o_MetricsBindAddress o) (o_metrics_http1_only o) (o_HealthProbeBindAddress o) (Some ws).

Definition webhook_Run : Main unit :=
  cfg ← get_cfg;
  (match webhook_certificate cfg with
   | Some (cert, key) => if bool_decide (is_Some (rt_CertWatcher cert key)) then exit 1 else mret ()
   | None => mret ()
   end);;
  or_panic (SharedManager_Get [set_WebhookServer (webhook_server cfg)]);;
  SharedManager_GetLogger;;
  (if c_PvcLabelWebhookEnabled cfg then or_panic SetupWithManager else mret ());;
  or_panic SetupBucketParamsWebhook;;
  (if c_VSCRValidationWebhookEnabled cfg || c_VVRValidationWebhookEnabled cfg
   then SetupReplicationCRDValidationWebhooks (c_VSCRValidationWebhookEnabled cfg)
          (c_VVRValidationWebhookEnabled cfg)
   else mret ());;
  (match webhook_certificate cfg with
   | Some (cert, key) => or_panic (register (RegCertWatcher cert key))
   | None => mret ()
   end).

(** The namespaces [newOperatorCommand] attaches, in its order. *)
Definition namespaces : list NamespaceModule := [
  mkModule "replication" (fun _ => mret ()) replication_Run;
  mkModule "server" (fun _ => mret ()) server_Run;
  mkModule "webhook" webhook_PreRunE webhook_Run;
  mkModule "cosi" (fun _ => mret ()) cosi_Run].

Definition namespace_names : list string := map ns_Name namespaces.

(** ** execute *)

Definition hasHelp (args : list string) : bool :=
  existsb (fun a => bool_decide (a = "-h") || bool_decide (a = "--help")) args.

(** [invoke]: no flag of a namespace is marked required, so
    [ValidateRequiredFlags] succeeds. *)
Definition invoke (ns : NamespaceModule) : Main (option error) :=
  cfg ← get_cfg;
  match ns_PreRunE ns cfg with
  | inl e => mret (Some e)
  | inr _ => ns_Run ns;; mret None
  end.

(** [cmd.ParseFlags] writes the configuration through the bound variables. *)
Definition ParseFlags (cmd : option string) (flags : list string) : Main (option error) :=
  cfg ← get_cfg;
  match rt_ParseFlags cmd flags cfg with
  | inl e => mret (Some e)
  | inr cfg' => put_cfg cfg';; mret None
  end.

(** [root.Find] *)
Definition Find (name : string) : option NamespaceModule :=
  List.find (fun ns => bool_decide (ns_Name ns = name)) namespaces.

Definition wrap_ns (name : string) (e : error) : error := ErrWrap (name +:+ ": ") e "".

(** One turn of the loop over the invocations. *)
Definition run_invocation (inv : invocation) : Main (option error) :=
  let name := inv_Namespace inv in
  match Find name with
  | None => mret (Some (wrap_ns name (ErrNew ("unknown command " +:+ quote name))))
  | Some ns =>
      err ← (if bool_decide (0 < length (inv_Flags inv)) then ParseFlags (Some name) (inv_Flags inv)
             else mret None);
      match err with
      | Some e => mret (Some (wrap_ns name e))
      | None =>
          err ← invoke ns;
          match err with
          | Some e => mret (Some e)
          | None => cfg ← get_cfg; println (Display (Some cfg) name);; mret None
          end
      end
  end.

Fixpoint run_invocations (invs : list invocation) : Main (option error) :=
  match invs with
  | [] => SharedManager_Start
  | inv :: invs' =>
      err ← run_invocation inv;
      match err with
      | Some e => mret (Some e)
      | None => run_invocations invs'
      end
  end.

Definition execute (args : list string) : Main (option error) :=
  if bool_decide (length args = 0) || hasHelp args then println "help";; mret None
  else
    let '(rootArgs, rest) := splitLeadingFlags namespace_names args in
    err ← ParseFlags None rootArgs;
    match err with
    | Some e => mret (Some e)
    | None =>
        println "version";;
        match parseInvocations namespace_names rest with
        | inl e => mret (Some e)
        | inr invocations => run_invocations invocations
        end
    end.

(** ** What a started manager runs *)

(** The configuration a namespace sees: what was parsed before, and its own flags. *)
Definition config_with (inv : invocation) (cfg : Config) : Config :=
  if bool_decide (0 < length (inv_Flags inv)) then
    match rt_ParseFlags (Some (inv_Namespace inv)) (inv_Flags inv) cfg with
    | inr cfg' => cfg'
    | inl _ => cfg
    end
  else cfg.

Definition replication_controllers (cfg : Config) : list Registration :=
  let n := Some (controllerOptions cfg) in
  [RegController "replication" n
     [mkWatch "VolumeReplication" volumeReplicationPredicate enqueueVR;
      mkWatch "VolumeGroupReplication" volumeGroupReplicationPredicate enqueueVGR];
   RegController "vastreplicationcontent" n
     [For "VastReplicationContent" VastReplicationContentPredicate];
   RegController "vaststorageclassreplication" n
     [For "VastStorageClassReplication" (fun _ => true);
      mkWatch "VolumeGroupReplication" ownedVGRPredicate
        (parent_requests LabelSourceVSCR LabelSourceVSCRNamespace "VastStorageClassReplication")];
   RegController "vastvolumereplication" n
     [For "VastVolumeReplication" (fun _ => true);
      mkWatch "VolumeReplication" ownedVRPredicate
        (parent_requests LabelSourceVVR LabelSourceVVRNamespace "VastVolumeReplication")];
   RegController "pvcremap" n
     [mkWatch "VolumeGroupReplication" confirmedPrimaryTransitionPredicate
        (remap_request vscrRemapPrefix LabelSourceVSCR LabelSourceVSCRNamespace "VastStorageClassReplication");
      mkWatch "VolumeReplication" confirmedPrimaryTransitionPredicate
        (remap_request vvrRemapPrefix LabelSourceVVR LabelSourceVVRNamespace "VastVolumeReplication")]].

Definition webhook_registrations (cfg : Config) : list Registration :=
  (if c_PvcLabelWebhookEnabled cfg then [RegWebhook webhookPath] else []) ++
  [RegWebhook bucketParamsWebhookPath] ++
  (if c_VSCRValidationWebhookEnabled cfg then [RegWebhook VSCRValidatePath] else []) ++
  (if c_VVRValidationWebhookEnabled cfg then [RegWebhook VVRValidatePath] else []) ++
  match webhook_certificate cfg with Some (cert, key) => [RegCertWatcher cert key] | None => [] end.

Definition cosi_registrations : list Registration :=
  [RegIndex "Bucket" cosiBucketIDIndex;
   RegIndex "BucketAccess" credentialsSecretNameIndex;
   RegController credentialsFlattenerControllerName None
     [For "BucketAccess" (fun _ => true); Owns "Secret"; Owns "ConfigMap";
      mkWatch "Secret" (fun e => ignoreFlatSecrets (Name (meta_of (event_object e))))
        (indexed_requests credentialsSecretNameIndex)];
   RegIndex "BucketAccess" baResyncBucketClaimIndex;
   RegController baSecretResyncControllerName None
     [For "BucketAccess" (fun _ => true);
      mkWatch "BucketClaim" (fun _ => true) (indexed_requests baResyncBucketClaimIndex)]].

(** What a namespace registers under its configuration. *)
Definition module_registrations (name : string) (cfg : Config) : list Registration :=
  if bool_decide (name = "replication") then replication_controllers cfg
  else if bool_decide (name = "server") then
    [RegGRPCServer (c_ExtensionsGRPCBindAddress cfg)
       (path_Join [c_ExtensionsGRPCCertPath cfg; c_ExtensionsGRPCCertName cfg])
       (path_Join [c_ExtensionsGRPCCertPath cfg; c_ExtensionsGRPCCertKey cfg])]
  else if bool_decide (name = "webhook") then webhook_registrations cfg
  else if bool_decide (name = "cosi") then cosi_registrations
  else [].

Fixpoint registrations (invs : list invocation) (cfg : Config) : list Registration :=
  match invs with
  | [] => []
  | inv :: invs' =>
      module_registrations (inv_Namespace inv) (config_with inv cfg) ++
      registrations invs' (config_with inv cfg)
  end.

Definition module_options (name : string) (cfg : Config) : list (Options → Options) :=
  if bool_decide (name = "webhook") then [set_WebhookServer (webhook_server cfg)] else [].

Definition checks : list Registration := [RegCheck "healthz"; RegCheck "readyz"].

(** The name formats and the webhook flags have been validated. *)
Definition validated (name : string) (cfg : Config) : Prop :=
  (name = "replication" →
   ValidateNameFormat (c_PVCNameFormat cfg) "pvc" = inr () ∧ ValidateNameFormat (c_PVNameFormat cfg) "pv" = inr ()) ∧
  (name = "webhook" → webhook_PreRunE cfg = inr ()).

(** *** Triples for computations that return *)

Definition returns {A} (P : Process → Prop) (m : Main A) (Q : A → Process → Prop) : Prop :=
  ∀ p p' a, P p → m p = (p', Returns a) → Q a p'.

Lemma returns_ret {A} (a : A) (P : Process → Prop) (Q : A → Process → Prop) :
  (∀ p, P p → Q a p) → returns P (mret a) Q.
Proof. intros H p p' b Hp [= <- <-]. auto. Qed.

Lemma returns_bind {A B} P (m : Main A) (R : A → Process → Prop) (f : A → Main B) Q :
  returns P m R → (∀ a, returns (R a) (f a) Q) → returns P (m ≫= f) Q.
Proof.
  intros Hm Hf p p' b Hp. unfold mbind, Main_bind. destruct (m p) as [p1 [a|e|n]] eqn:E; try done.
  intros H. eapply Hf; [|done]. by eapply Hm.
Qed.

Lemma returns_panic {A} P e (Q : A → Process → Prop) : returns P (panic e) Q.
Proof. by intros p p' a _. Qed.

Lemma returns_exit {A} P n (Q : A → Process → Prop) : returns P (exit n) Q.
Proof. by intros p p' a _. Qed.

Lemma returns_get_cfg P (Q : Config → Process → Prop) :
  (∀ p, P p → Q (p_cfg p) p) → returns P get_cfg Q.
Proof. intros H p p' b Hp [= <- <-]. auto. Qed.

Lemma returns_or_panic P (m : Main (option error)) (Q : Process → Prop) :
  returns P m (fun err p => err = None → Q p) → returns P (or_panic m) (fun _ => Q).
Proof.
  intros Hm. eapply returns_bind; [exact Hm|]. intros [e|]; [apply returns_panic|].
  apply returns_ret. auto.
Qed.

(** The state of the process: the configuration, and the manager if it was made. *)
Definition holds (s : option CtrlManager) (cfg : Config) (p : Process) : Prop :=
  p_cfg p = cfg ∧ sm_mgr (p_mgr p) = s ∧ sm_mgrErr (p_mgr p) = None ∧
  sm_mgrOnce (p_mgr p) = bool_decide (is_Some s).

Definition with_regs (mgr : CtrlManager) (rs : list Registration) : CtrlManager :=
  mkCtrl (m_Options mgr) (m_registered mgr ++ rs) (m_started mgr).

(** The manager after [Get] with the given options. *)
Definition obtained (s : option CtrlManager) (opts : Options) : CtrlManager :=
  match s with Some mgr => mgr | None => mkCtrl opts checks false end.

Lemma with_regs_nil mgr : with_regs mgr [] = mgr.
Proof. unfold with_regs. rewrite app_nil_r. by destruct mgr. Qed.

Lemma with_regs_app mgr l1 l2 : with_regs (with_regs mgr l1) l2 = with_regs mgr (l1 ++ l2).
Proof. unfold with_regs. simpl. by rewrite app_assoc. Qed.

Lemma register_returns mgr cfg r :
  returns (holds (Some mgr) cfg) (register r)
    (fun err p => holds (Some (if bool_decide (is_Some err) then mgr else with_regs mgr [r])) cfg p).
Proof.
  intros p p' err (Hc & Hs & He & Ho). unfold register, get_sm, mbind, Main_bind. rewrite Hs.
  destruct (rt_Register (m_registered mgr) r); intros [= <- <-]; by rewrite ?Ho.
Qed.

Lemma register_panic mgr cfg r :
  returns (holds (Some mgr) cfg) (or_panic (register r)) (fun _ => holds (Some (with_regs mgr [r])) cfg).
Proof.
  apply returns_or_panic. intros p p' a Hp H Ha.
  pose proof (register_returns mgr cfg r p p' a Hp H) as Hr. by rewrite Ha in Hr.
Qed.

Lemma get_logger_returns s cfg : returns (holds s cfg) SharedManager_GetLogger (fun _ => holds s cfg).
Proof.
  intros p p' l (Hc & Hs & He & Ho). unfold SharedManager_GetLogger, get_sm, get_cfg, mbind, Main_bind.
  destruct (sm_logger (p_mgr p)); [by intros [= <- <-]|].
  destruct (c_DevLogging (p_cfg p)); [by intros [= <- <-]|].
  destruct rt_NewProduction; [done|]. by intros [= <- <-].
Qed.

Lemma get_returns s cfg opts :
  returns (holds s cfg) (or_panic (SharedManager_Get opts))
    (fun _ => holds (Some (obtained s (manager_options cfg opts))) cfg).
Proof.
  apply returns_or_panic. intros p p' a (Hc & Hs & He & Ho).
  unfold SharedManager_Get. unfold mbind at 1. unfold Main_bind, get_sm. rewrite Ho.
  destruct s as [mgr|]; [by intros [= <- <-] _|].
  simpl. unfold mbind at 1. unfold Main_bind, get_cfg. rewrite Hc.
  destruct rt_KubeConfig; [|done]. simpl.
  destruct (rt_NewManager (manager_options cfg opts)) eqn:E; [by intros [= <- <-]|].
  unfold register, get_sm, mbind, Main_bind. simpl.
  destruct (rt_Register [] (RegCheck "healthz")); [done|]. simpl.
  destruct (rt_Register [RegCheck "healthz"] (RegCheck "readyz")); [done|]. by intros [= <- <-].
Qed.

(** The client is made with the manager at hand, which stays as it is. *)
Lemma get_k8s_returns mgr cfg :
  returns (holds (Some mgr) cfg) (or_panic SharedManager_GetK8sClient) (fun _ => holds (Some mgr) cfg).
Proof.
  apply returns_or_panic. intros p p' a Hp. unfold SharedManager_GetK8sClient. unfold mbind at 1.
  unfold Main_bind at 1, get_sm at 1. destruct (sm_k8sOnce (p_mgr p)); [by intros [= <- <-] _|].
  destruct Hp as (Hc & Hs & He & Ho). unfold SharedManager_Get, SharedManager_GetLogger, get_sm, get_cfg.
  unfold mbind, Main_bind. simpl. rewrite Ho, He. simpl.
  destruct (sm_logger (p_mgr p)); simpl; [by intros [= <- <-] _|].
  destruct (c_DevLogging (p_cfg p)); simpl; [by intros [= <- <-] _|].
  destruct rt_NewProduction; simpl; [done|]. by intros [= <- <-] _.
Qed.

Lemma setup_returns mgr cfg name r :
  returns (holds (Some mgr) cfg) (or_panic (setup_controller name r))
    (fun _ => holds (Some (with_regs mgr [r cfg])) cfg).
Proof.
  unfold setup_controller. destruct (NewBaseReconciler name).
  { apply returns_or_panic. by apply returns_ret. }
  pose proof (register_panic mgr cfg (r cfg)) as Hr. intros p p' a Hp.
  pose proof Hp as (Hc & _). unfold or_panic, get_cfg, mbind, Main_bind in *. rewrite Hc.
  intros H. by eapply Hr.
Qed.

Lemma returns_weaken {A} P (m : Main A) (Q Q' : A → Process → Prop) :
  returns P m Q → (∀ a p, Q a p → Q' a p) → returns P m Q'.
Proof. intros Hm HQ p p' a Hp H. apply HQ. by eapply Hm. Qed.

Lemma returns_pre {A} (P P' : Process → Prop) (m : Main A) Q :
  (∀ p, P p → P' p) → returns P' m Q → returns P m Q.
Proof. intros HP Hm p p' a Hp. apply Hm. auto. Qed.

(** A computation that reads the configuration it runs under. *)
Lemma returns_with_cfg {B} s cfg (f : Config → Main B) Q :
  returns (holds s cfg) (f cfg) Q → returns (holds s cfg) (get_cfg ≫= f) Q.
Proof.
  intros Hf p p' b Hp. pose proof Hp as (Hc & _).
  unfold get_cfg, mbind, Main_bind. rewrite Hc. by apply Hf.
Qed.

(** A validation that panics on its error. *)
Lemma returns_check {B} P (r : result unit) (m : Main B) Q :
  (r = inr () → returns P m Q) → returns P (or_panic (mret (err_of r));; m) Q.
Proof.
  intros Hm p p' b Hp. destruct r as [e|[]]; [done|].
  unfold or_panic, mret, Main_ret, mbind, Main_bind. simpl. by apply Hm.
Qed.

Lemma returns_or_panic_ret P err : returns P (or_panic (mret err)) (fun _ => P).
Proof. apply returns_or_panic. by apply returns_ret. Qed.

(** [a ;; b], the state after [a] given by a lemma. *)
Tactic Notation "after" uconstr(lem) := eapply returns_bind; [apply lem|intros ?; cbv beta].

Lemma replication_Run_returns s cfg :
  returns (holds s cfg) replication_Run (fun _ p =>
    holds (Some (with_regs (obtained s (manager_options cfg [])) (replication_controllers cfg))) cfg p ∧
    ValidateNameFormat (c_PVCNameFormat cfg) "pvc" = inr () ∧
    ValidateNameFormat (c_PVNameFormat cfg) "pv" = inr ()).
Proof.
  unfold replication_Run. after get_logger_returns. apply returns_with_cfg.
  apply returns_check. intros H1. apply returns_check. intros H2.
  after get_logger_returns. after get_returns. do 4 after setup_returns.
  eapply returns_weaken; [apply setup_returns|]. intros ? p Hp. by rewrite !with_regs_app in Hp.
Qed.

Lemma server_Run_returns s cfg :
  returns (holds s cfg) server_Run (fun _ =>
    holds (Some (with_regs (obtained s (manager_options cfg [])) (module_registrations "server" cfg))) cfg).
Proof.
  unfold server_Run. after get_logger_returns. after get_returns.
  after returns_or_panic_ret. apply returns_with_cfg. apply register_panic.
Qed.

(** An index, then the controller that uses it. *)
Lemma index_then_controller mgr cfg r1 r2 :
  returns (holds (Some mgr) cfg)
    (or_panic (err ← register r1; match err with Some e => mret (Some e) | None => register r2 end))
    (fun _ => holds (Some (with_regs mgr [r1; r2])) cfg).
Proof.
  apply returns_or_panic. eapply returns_bind; [apply register_returns|].
  intros [e|]; [by apply returns_ret|]. simpl. intros p p' a Hp H Ha.
  pose proof (register_returns _ _ _ _ _ _ Hp H) as Hr. rewrite Ha in Hr. simpl in Hr.
  by rewrite with_regs_app in Hr.
Qed.

Lemma cosi_Run_returns s cfg :
  returns (holds s cfg) cosi_Run (fun _ =>
    holds (Some (with_regs (obtained s (manager_options cfg [])) cosi_registrations)) cfg).
Proof.
  unfold cosi_Run. after get_logger_returns. after get_returns.
  unfold RegisterCOSIBucketIDIndex. after register_panic. after index_then_controller.
  after get_k8s_returns. eapply returns_weaken; [apply index_then_controller|].
  intros ? p Hp. by rewrite !with_regs_app in Hp.
Qed.

(** A registration made under a condition. *)
Lemma register_webhook_if mgr cfg (b : bool) path :
  returns (holds (Some mgr) cfg) (if b then register_webhook path else mret ())
    (fun _ => holds (Some (with_regs mgr (if b then [RegWebhook path] else []))) cfg).
Proof.
  destruct b; [apply register_panic|]. apply returns_ret. by rewrite with_regs_nil.
Qed.

Lemma setup_webhook_if mgr cfg (b : bool) path :
  returns (holds (Some mgr) cfg)
    (if b then or_panic (register_webhook path;; mret None) else mret ())
    (fun _ => holds (Some (with_regs mgr (if b then [RegWebhook path] else []))) cfg).
Proof.
  destruct b; [|apply (register_webhook_if mgr cfg false path)]. apply returns_or_panic.
  after (register_webhook_if mgr cfg true). by apply returns_ret.
Qed.

Lemma crd_webhooks_returns mgr cfg (b1 b2 : bool) :
  returns (holds (Some mgr) cfg)
    (if b1 || b2 then SetupReplicationCRDValidationWebhooks b1 b2 else mret ())
    (fun _ => holds (Some (with_regs mgr ((if b1 then [RegWebhook VSCRValidatePath] else []) ++
                                          (if b2 then [RegWebhook VVRValidatePath] else [])))) cfg).
Proof.
  destruct (b1 || b2) eqn:E.
  - unfold SetupReplicationCRDValidationWebhooks. after register_webhook_if.
    eapply returns_weaken; [apply register_webhook_if|]. intros ? p Hp. by rewrite with_regs_app in Hp.
  - apply orb_false_iff in E as [-> ->]. apply returns_ret. by rewrite with_regs_nil.
Qed.

Lemma webhook_Run_returns s cfg :
  returns (holds s cfg) webhook_Run (fun _ =>
    holds (Some (with_regs (obtained s (manager_options cfg (module_options "webhook" cfg)))
                           (webhook_registrations cfg))) cfg).
Proof.
  unfold webhook_Run. apply returns_with_cfg.
  eapply (returns_bind _ _ (fun _ => holds s cfg)).
  { destruct (webhook_certificate cfg) as [[cert key]|]; [|by apply returns_ret].
    case_bool_decide; [apply returns_exit|by apply returns_ret]. }
  intros _. after get_returns. after get_logger_returns. after setup_webhook_if.
  after (setup_webhook_if _ _ true). after crd_webhooks_returns.
  unfold webhook_registrations.
  destruct (webhook_certificate cfg) as [[cert key]|].
  - eapply returns_weaken; [apply register_panic|]. intros ? p Hp.
    rewrite !with_regs_app in Hp. by rewrite <-?app_assoc in *.
  - apply returns_ret. intros p Hp. rewrite !with_regs_app in Hp. by rewrite <-?app_assoc, ?app_nil_r in *.
Qed.

(** *** Invocations *)

Lemma Find_cases name ns :
  Find name = Some ns → ns ∈ namespaces ∧ ns_Name ns = name.
Proof.
  unfold Find. intros H. apply find_some in H as [Hin Hn].
  apply bool_decide_eq_true in Hn. split; [by apply list_elem_of_In|done].
Qed.

Lemma module_returns ns s cfg :
  ns ∈ namespaces →
  returns (holds s cfg) (invoke ns) (fun err p => err = None →
    holds (Some (with_regs (obtained s (manager_options cfg (module_options (ns_Name ns) cfg)))
                           (module_registrations (ns_Name ns) cfg))) cfg p ∧
    validated (ns_Name ns) cfg).
Proof.
  intros Hns. unfold invoke. apply returns_with_cfg.
  destruct (ns_PreRunE ns cfg) as [e|[]] eqn:Hpre; [by apply returns_ret|].
  unfold namespaces in Hns. rewrite !elem_of_cons in Hns.
  destruct Hns as [->|[->|[->|[->|Hns]]]]; [..|by apply elem_of_nil in Hns]; simpl in *.
  all: eapply returns_bind;
    [(apply replication_Run_returns || apply server_Run_returns || apply webhook_Run_returns
      || apply cosi_Run_returns)|intros ?; apply returns_ret].
  - intros p [Hp Hv] _. by split.
  - intros p Hp _. by split.
  - intros p Hp _. by split.
  - intros p Hp _. by split.
Qed.

Lemma invocation_returns inv s cfg :
  returns (holds s cfg) (run_invocation inv) (fun err p => err = None →
    holds (Some (with_regs (obtained s (manager_options (config_with inv cfg)
                              (module_options (inv_Namespace inv) (config_with inv cfg))))
                           (module_registrations (inv_Namespace inv) (config_with inv cfg))))
      (config_with inv cfg) p ∧
    validated (inv_Namespace inv) (config_with inv cfg)).
Proof.
  unfold run_invocation. destruct (Find (inv_Namespace inv)) as [ns|] eqn:Hf; [|by apply returns_ret].
  apply Find_cases in Hf as [Hin Hn].
  eapply (returns_bind _ _ (fun err p => err = None → holds s (config_with inv cfg) p)).
  { unfold config_with. case_bool_decide; [|by apply returns_ret].
    unfold ParseFlags. apply returns_with_cfg.
    destruct (rt_ParseFlags _ _ _) as [e|cfg']; [by apply returns_ret|].
    intros p p' a (Hc & Hs & He & Ho) [= <- <-] _. by split_and!. }
  intros [e|]; [by apply returns_ret|].
  eapply returns_bind; [eapply returns_pre; [intros p Hp; exact (Hp eq_refl)|by apply module_returns]|].
  intros [e|]; [by apply returns_ret|]. rewrite Hn.
  intros p p' a Hp H _. specialize (Hp eq_refl) as [Hp Hv]. split; [|done].
  destruct Hp as (Hc & Hs & He & Ho). revert H. intros [= <- _].
  unfold holds. simpl. rewrite Hc, Hs, He, Ho. done.
Qed.

(** *** Nothing but [Start] starts the manager *)

Definition unstarted (p : Process) : Prop :=
  ∀ mgr, sm_mgr (p_mgr p) = Some mgr → m_started mgr = false.

Definition calm {A} (m : Main A) : Prop := ∀ p, unstarted p → unstarted (m p).1.

Lemma calm_ret {A} (a : A) : calm (mret a).
Proof. by intros p Hp. Qed.

Lemma calm_bind {A B} (m : Main A) (f : A → Main B) : calm m → (∀ a, calm (f a)) → calm (m ≫= f).
Proof.
  intros Hm Hf p Hp. specialize (Hm p Hp). unfold mbind, Main_bind.
  destruct (m p) as [p' [a|e|n]]; simpl in *; [by apply Hf|done|done].
Qed.

Lemma calm_panic {A} e : calm (panic (A := A) e).
Proof. by intros p Hp. Qed.
Lemma calm_exit {A} n : calm (exit (A := A) n).
Proof. by intros p Hp. Qed.
Lemma calm_get_cfg : calm get_cfg.
Proof. by intros p Hp. Qed.
Lemma calm_get_sm : calm get_sm.
Proof. by intros p Hp. Qed.
Lemma calm_put_cfg cfg : calm (put_cfg cfg).
Proof. by intros p Hp. Qed.
Lemma calm_println s : calm (println s).
Proof. by intros p Hp. Qed.

Lemma calm_register r : calm (register r).
Proof.
  intros p Hp. unfold register, get_sm, mbind, Main_bind.
  destruct (sm_mgr (p_mgr p)) as [mgr|] eqn:E; [|done].
  destruct (rt_Register (m_registered mgr) r); [done|]. simpl. intros m [= <-]. exact (Hp mgr E).
Qed.

Lemma calm_Get opts : calm (SharedManager_Get opts).
Proof.
  intros p Hp. unfold SharedManager_Get. unfold mbind at 1. unfold Main_bind at 1, get_sm.
  destruct (sm_mgrOnce (p_mgr p)); [done|]. unfold mbind at 1. unfold Main_bind at 1, get_cfg.
  destruct rt_KubeConfig; [|done]. simpl. destruct (rt_NewManager _); [done|].
  unfold mbind at 1. unfold Main_bind at 1, put_sm. simpl.
  match goal with |- unstarted (?m ?p0).1 => enough (calm m) as Hc end.
  { apply Hc. by intros mgr [= <-]. }
  apply calm_bind; [apply calm_register|]. intros err. case_bool_decide; [apply calm_exit|].
  apply calm_bind; [apply calm_register|]. intros err'. case_bool_decide; [apply calm_exit|apply calm_ret].
Qed.

Lemma calm_GetLogger : calm SharedManager_GetLogger.
Proof.
  intros p Hp. unfold SharedManager_GetLogger, get_sm, get_cfg, mbind, Main_bind.
  destruct (sm_logger (p_mgr p)); [done|]. destruct (c_DevLogging (p_cfg p)); [done|].
  by destruct rt_NewProduction.
Qed.

Lemma calm_GetK8sClient : calm SharedManager_GetK8sClient.
Proof.
  intros p Hp. unfold SharedManager_GetK8sClient. unfold mbind at 1. unfold Main_bind at 1, get_sm at 1.
  destruct (sm_k8sOnce (p_mgr p)); [done|].
  match goal with |- unstarted (?m p).1 => enough (calm m) as Hc; [by apply Hc|] end.
  apply calm_bind; [apply calm_Get|]. intros [e|].
  - intros q Hq. exact Hq.
  - apply calm_bind; [apply calm_GetLogger|]. intros l q Hq. exact Hq.
Qed.

End Manager.

Create HintDb calm.
#[export] Hint Resolve calm_ret calm_panic calm_exit calm_get_cfg calm_put_cfg calm_println
  calm_register calm_Get calm_GetLogger calm_GetK8sClient : calm.

(** Walk through a computation. *)
Ltac calm :=
  repeat first
    [ solve [auto with calm]
    | apply calm_bind; [|intros ?]
    | match goal with |- calm (match ?x with _ => _ end) => destruct x end
    | match goal with |- calm (if ?x then _ else _) => destruct x end ].

Section Started.

Context {rt : Runtime}.

Lemma calm_run_invocation inv : calm (run_invocation inv).
Proof.
  unfold run_invocation. destruct (Find (inv_Namespace inv)) as [ns|] eqn:Hf; [|calm].
  apply Find_cases in Hf as [Hin _].
  apply calm_bind; [unfold ParseFlags; calm|]. intros [e|]; [calm|].
  apply calm_bind; [|intros [e|]; calm].
  unfold invoke. apply calm_bind; [calm|]. intros cfg. destruct (ns_PreRunE ns cfg); [calm|].
  apply calm_bind; [|calm]. clear cfg. unfold namespaces in Hin. rewrite !elem_of_cons in Hin.
  destruct Hin as [->|[->|[->|[->|Hns]]]]; [..|by apply elem_of_nil in Hns]; simpl.
  - unfold replication_Run, or_panic, SetupReplicationObjectProvisionerController,
      SetupVastReplicationContentController, SetupVastStorageClassReplicationController,
      SetupVastVolumeReplicationController, SetupPVCRemapController, setup_controller. calm.
  - unfold server_Run, or_panic. calm.
  - unfold webhook_Run, or_panic, SetupWithManager, SetupBucketParamsWebhook,
      SetupReplicationCRDValidationWebhooks, register_webhook, or_panic. calm.
  - unfold cosi_Run, or_panic, RegisterCOSIBucketIDIndex, SetupCredentialsFlattenerController,
      SetupBucketAccessSecretResyncController. calm.
Qed.

(** The options the manager is made with when [invs] run. *)
Definition first_options (invs : list invocation) (cfg : Config) : Options :=
  match invs with
  | [] => manager_options cfg []
  | inv :: _ => manager_options (config_with inv cfg)
                  (module_options (inv_Namespace inv) (config_with inv cfg))
  end.

(** Each namespace has validated the configuration it runs with. *)
Fixpoint all_validated (invs : list invocation) (cfg : Config) : Prop :=
  match invs with
  | [] => True
  | inv :: invs' => validated (inv_Namespace inv) (config_with inv cfg) ∧ all_validated invs' (config_with inv cfg)
  end.

Lemma start_returns s cfg :
  (∀ mgr, s = Some mgr → m_started mgr = false) →
  returns (holds s cfg) SharedManager_Start (fun err p => ∀ mgr,
    sm_mgr (p_mgr p) = Some mgr → m_started mgr = true →
    let made := obtained s (manager_options cfg []) in
    mgr = mkCtrl (m_Options made) (m_registered made) true).
Proof.
  intros Hs. unfold SharedManager_Start. intros p p' err Hp.
  unfold mbind at 1. unfold Main_bind at 1, get_sm at 1.
  pose proof Hp as (Hc & Hm & He & Ho). rewrite Hm.
  pose proof (get_returns s cfg []) as Hget. unfold or_panic in Hget.
  set (get := match s with Some _ => mret None | None => SharedManager_Get [] end).
  assert (∀ q, get p = (q, Returns None) → holds (Some (obtained s (manager_options cfg []))) cfg q) as Hq.
  { intros q. unfold get. destruct s as [mgr|]; [by intros [= <-]|]. intros Hq.
    eapply (Hget p q ()); [done|]. unfold mbind, Main_bind. by rewrite Hq. }
  assert (calm get) as Hcalm by (unfold get; destruct s; calm).
  assert (unstarted p) as Hu by (intros m Hm'; apply Hs; congruence).
  specialize (Hcalm p Hu). fold get. unfold mbind at 1. unfold Main_bind at 1.
  destruct (get p) as [q [[e|]|e|n]]; try done.
  - intros [= <- <-] mgr Hmgr Hst. rewrite (Hcalm mgr Hmgr) in Hst. done.
  - specialize (Hq q eq_refl).
    pose proof (get_logger_returns (Some (obtained s (manager_options cfg []))) cfg q) as Hl.
    unfold mbind at 1. unfold Main_bind at 1.
    destruct (SharedManager_GetLogger q) as [r [l|e|n]]; try done.
    destruct (Hl r l Hq eq_refl) as (_ & Hr & _). unfold start_mgr, get_sm, mbind, Main_bind. rewrite Hr.
    intros [= <- _] mgr. simpl. by intros [= <-] _.
Qed.

Lemma run_invocations_returns invs s cfg :
  (∀ mgr, s = Some mgr → m_started mgr = false) →
  returns (holds s cfg) (run_invocations invs) (fun err p => ∀ mgr,
    sm_mgr (p_mgr p) = Some mgr → m_started mgr = true →
    let made := obtained s (first_options invs cfg) in
    mgr = mkCtrl (m_Options made) (m_registered made ++ registrations invs cfg) true ∧
    all_validated invs cfg).
Proof.
  revert s cfg. induction invs as [|inv invs IH]; intros s cfg Hs.
  { eapply returns_weaken; [by apply start_returns|]. cbv beta. intros err p H mgr Hm Hst.
    simpl. rewrite app_nil_r. auto. }
  cbn [run_invocations]. intros p p' err Hp. pose proof (invocation_returns inv s cfg) as Hi.
  assert (unstarted p) as Hu by (intros m Hm'; apply Hs; destruct Hp as (_ & ? & _); congruence).
  pose proof (calm_run_invocation inv p Hu) as Hcalm.
  unfold mbind at 1. unfold Main_bind at 1.
  destruct (run_invocation inv p) as [q [[e|]|e|n]] eqn:E; try done.
  { intros [= <- <-] mgr Hmgr Hst. rewrite (Hcalm mgr Hmgr) in Hst. done. }
  destruct (Hi p q None Hp E eq_refl) as [Hq Hv]. intros Hr mgr Hm Hst.
  assert (∀ m, Some (with_regs (obtained s (first_options (inv :: invs) cfg))
                 (module_registrations (inv_Namespace inv) (config_with inv cfg))) = Some m → m_started m = false) as Hun.
  { intros m [= <-]. simpl. destruct s as [m'|]; [by apply Hs|done]. }
  destruct (IH _ _ Hun q p' err Hq Hr mgr Hm Hst) as [-> Hav]. simpl. rewrite <-app_assoc. auto.
Qed.

(** C28. What the arguments ask for is what runs: when the manager is started, the
    arguments were root flags followed by invocations the parser accepts; the
    registered controllers with their watches, webhooks, indexes and servers are
    exactly those of the invoked namespaces, in order, each under the
    configuration parsed so far and after its validation; and the options of the
    manager are those of the first namespace: its webhook server is the one the
    webhook flags describe when the webhook namespace comes first, and none when
    another namespace precedes it. *)
Theorem started_manager_exact (args : list string) (cfg0 : Config) (out : list string)
    (p : Process) (err : option error) (mgr : CtrlManager) :
  execute args (mkProcess NewSharedManager cfg0 out) = (p, Returns err) →
  sm_mgr (p_mgr p) = Some mgr → m_started mgr = true →
  ∃ rootArgs cfg inv invs,
    args = rootArgs ++ rendered (inv :: invs) ∧
    Forall (well_formed namespace_names) (inv :: invs) ∧
    rt_ParseFlags None rootArgs cfg0 = inr cfg ∧
    all_validated (inv :: invs) cfg ∧
    m_registered mgr = checks ++ registrations (inv :: invs) cfg ∧
    m_Options mgr = manager_options (config_with inv cfg)
                      (module_options (inv_Namespace inv) (config_with inv cfg)) ∧
    (o_WebhookServer (m_Options mgr) =
       if bool_decide (inv_Namespace inv = "webhook") then Some (webhook_server (config_with inv cfg)) else None).
Proof.
  intros H Hmgr Hst. unfold execute in H. destruct (bool_decide _ || _) eqn:Eh.
  { revert H. by intros [= <- <-]. }
  pose proof (splitLeadingFlags_lossless namespace_names args) as Hsplit.
  destruct (splitLeadingFlags namespace_names args) as [rootArgs rest]. simpl in Hsplit.
  unfold ParseFlags, get_cfg, put_cfg, println, mbind, Main_bind in H. simpl in H.
  destruct (rt_ParseFlags None rootArgs cfg0) as [e|cfg] eqn:Hf; [revert H; by intros [= <- <-]|]. simpl in H.
  destruct (parseInvocations namespace_names rest) as [e|invs] eqn:Hp; [revert H; by intros [= <- <-]|].
  apply parseInvocations_parts in Hp as (Hne & Hw & ->).
  destruct invs as [|inv invs]; [done|].
  assert (holds None cfg (mkProcess NewSharedManager cfg (out ++ ["version"]))) as Hh by done.
  destruct (run_invocations_returns (inv :: invs) None cfg ltac:(done) _ _ _ Hh H mgr Hmgr Hst) as [-> Hv].
  exists rootArgs, cfg, inv, invs. split_and!; try done.
  simpl. unfold manager_options, module_options.
  by destruct (bool_decide (inv_Namespace inv = "webhook")).
Qed.

End Started.

(** [Display] for a component shows exactly the fields tagged with it; the
    untagged fields of the shared manager are shown for no component. *)
Lemma display_shows_tagged (c : Config) (component : string) (f : config_field) :
  component ≠ "" → f ∈ config_fields c →
  shown component (f_component f) = true ↔ f_component f = component.
Proof.
  intros Hc Hf. unfold shown. rewrite bool_decide_eq_true_2 by done.
  assert (Forall (fun f => split_str "," (f_component f) = [f_component f] ∧
                           trim_space (f_component f) = f_component f) (config_fields c)) as H.
  { unfold config_fields. repeat constructor. }
  rewrite Forall_forall in H. destruct (H f Hf) as [-> Ht]. simpl. rewrite Ht.
  by rewrite orb_false_r, bool_decide_eq_true.
Qed.

(** ** The PVC webhook under the validated flags *)

Section PvcWebhookConfig.

Context {rt : Runtime}.

(** [Regexp.MatchString] of a pattern that compiles. *)
Variable matches : string → string → bool.

(** [regexp.MustCompile] of a pattern that is set; [None]: it panics. *)
Definition must_compile (pattern : string) : option (option (string → bool)) :=
  if bool_decide (pattern ≠ "") then
    match rt_Compile pattern with Some _ => None | None => Some (Some (matches pattern)) end
  else Some None.

(** The configuration the PVC webhook works with after [compileRegexes]. *)
Definition compileRegexes (cfg : Config) : option PvcConfig :=
  sc ← must_compile (c_StorageClassNameRegex cfg);
  pvc ← must_compile (c_PVCNameRegex cfg);
  drv ← must_compile (c_CSIDriverNameRegex cfg);
  Some (mkPvcConfig (c_CSIDriverName cfg) drv (c_StorageClassName cfg) sc pvc).

Lemma must_compile_total flag pattern : check_regex flag pattern = inr () → is_Some (must_compile pattern).
Proof.
  unfold check_regex, must_compile. case_bool_decide; [|by eexists]. destruct (rt_Compile pattern); [done|]. by eexists.
Qed.

(** After the validation of the namespace the webhook never panics on a pattern,
    and if it is enabled it selects StorageClasses by the name of the driver or by
    the pattern, of which exactly one is set. *)
Lemma validated_webhook cfg :
  webhook_PreRunE cfg = inr () →
  ∃ pc, compileRegexes cfg = Some pc ∧
    (c_PvcLabelWebhookEnabled cfg = true →
     (CSIDriverName pc = "" ↔ is_Some (csiDriverNameRegex pc)) ∧
     (StorageClassName pc ≠ "" → storageClassNameRegex pc = None)).
Proof.
  unfold webhook_PreRunE. destruct (bool_decide _ && bool_decide _) eqn:E1; [done|].
  destruct (bool_decide (c_CSIDriverName cfg ≠ "") && _) eqn:E2; [done|].
  intros (? & H1 & (? & H2 & (? & H3 & H4)%result_bind_inr)%result_bind_inr)%result_bind_inr.
  destruct x, x0, x1. pose proof (must_compile_total _ _ H1) as [sc Hsc]. pose proof (must_compile_total _ _ H2) as [pv Hpv].
  pose proof (must_compile_total _ _ H3) as [drv Hdrv].
  eexists. unfold compileRegexes. rewrite Hsc, Hpv, Hdrv. split; [done|]. intros Hen. rewrite Hen in H4. simpl in *.
  apply andb_false_iff in E1, E2. rewrite !bool_decide_eq_false in E1, E2.
  unfold must_compile in Hsc, Hdrv. split.
  - destruct (decide (c_CSIDriverNameRegex cfg = "")) as [He|He].
    + rewrite He in Hdrv. injection Hdrv as <-. rewrite (bool_decide_eq_true_2 _ He), andb_true_r in H4.
      destruct (decide (c_CSIDriverName cfg = "")) as [Hd|Hd]; [by rewrite (bool_decide_eq_true_2 _ Hd) in H4|].
      split; [by intros Hx|]. by intros [? ?].
    + rewrite bool_decide_eq_true_2 in Hdrv by done. destruct (rt_Compile (c_CSIDriverNameRegex cfg)); [done|]. injection Hdrv as <-.
      split; [by eexists|]. intros _. destruct (decide (c_CSIDriverName cfg = "")); naive_solver.
  - intros Hn. destruct (decide (c_StorageClassNameRegex cfg = "")) as [He|He]; [|naive_solver].
    rewrite He in Hsc. by injection Hsc as <-.
Qed.

End PvcWebhookConfig.

(** ** The client of the command line

    [k8s_client.Config], the factory's [K8sClientForLocal] and [CLIManager].
    Configuration loading and the constructors of client-go and
    controller-runtime are the class [LocalRuntime]. *)

Record RestConfig := mkRestConfig { rc_QPS : Z; rc_Burst : Z; rc_UserAgent : string }.

Class LocalRuntime := mkLocal {
  lr_ClientConfig : string → string → result RestConfig;  (* kubeconfig, context *)
  lr_HTTPClientFor : RestConfig → option error;
  lr_RESTMapper : RestConfig → option error;
  lr_NewClient : RestConfig → option error;
}.

Definition buildUserAgent (command version formattedSha : string) : string :=
  if bool_decide (version = "") && bool_decide (formattedSha = "") then command
  else if bool_decide (formattedSha = "") then command +:+ "/" +:+ version
  else command +:+ "/" +:+ version +:+ " (" +:+ formattedSha +:+ ")".

Record Factory := mkFactory {
  fa_kubeconfig : string;
  fa_kubecontext : string;
  fa_baseName : string;
  fa_clientQPS : Z;
  fa_clientBurst : Z;
}.

Definition NewFactory (baseName : string) : Factory := mkFactory "" "" baseName 0 0.

Section Local.

Context {lr : LocalRuntime}.

(** [pkg/errors.Wrap] *)
Definition errors_Wrap (e : error) (msg : string) : error := ErrWrap (msg +:+ ": ") e "".

Definition k8s_Config (kubeconfig kubecontext baseName : string) (qps burst : Z) : result RestConfig :=
  match lr_ClientConfig kubeconfig kubecontext with
  | inl e => inl (errors_Wrap e "error finding Kubernetes API server config in --kubeconfig, $KUBECONFIG, or in-cluster configuration")
  | inr c =>
      mret (mkRestConfig (if bool_decide (0 < qps)%Z then qps else rc_QPS c)
              (if bool_decide (0 < burst)%Z then burst else rc_Burst c)
              (if bool_decide (baseName ≠ "") then buildUserAgent baseName "" "" else rc_UserAgent c))
  end.

Definition ClientConfig (f : Factory) : result RestConfig :=
  k8s_Config (fa_kubeconfig f) (fa_kubecontext f) (fa_baseName f) (fa_clientQPS f) (fa_clientBurst f).

Definition wrap_step (err : option error) (msg : string) : result unit :=
  match err with Some e => inl (errors_Wrap e msg) | None => mret () end.

(** The client is known by the configuration it talks with. *)
Definition K8sClientForLocal (f : Factory) : result RestConfig :=
  match ClientConfig f with
  | inl e => inl (errors_Wrap e "failed to get client config")
  | inr config =>
      _ ← wrap_step (lr_HTTPClientFor config) "failed to create HTTP client";
      _ ← wrap_step (lr_RESTMapper config) "failed to create REST mapper";
      _ ← wrap_step (lr_NewClient config) "failed to create controller client";
      mret config
  end.

(** [CLIManager]: its factory and, once asked for, the client or the error. *)
Record CLIManager := mkCLI { cli_factory : Factory; cli_k8s : option (result RestConfig) }.

Definition NewCLIManager : CLIManager := mkCLI (NewFactory "vastrep") None.

Definition CLIManager_GetK8sClient (m : CLIManager) : CLIManager * result RestConfig :=
  match cli_k8s m with
  | Some r => (m, r)
  | None => let r := K8sClientForLocal (cli_factory m) in (mkCLI (cli_factory m) (Some r), r)
  end.

(** The client is made once: later calls return what the first one did, also
    when the flags bound to the factory have changed since. *)
Lemma CLIManager_once m f :
  let '(m1, r) := CLIManager_GetK8sClient m in
  CLIManager_GetK8sClient (mkCLI f (cli_k8s m1)) = (mkCLI f (cli_k8s m1), r).
Proof. unfold CLIManager_GetK8sClient. by destruct (cli_k8s m) eqn:E; simpl; rewrite ?E. Qed.

(** The command line identifies itself by its base name. *)
Lemma local_user_agent f c : fa_baseName f ≠ "" → K8sClientForLocal f = inr c → rc_UserAgent c = fa_baseName f.
Proof.
  intros Hb. unfold K8sClientForLocal, ClientConfig, k8s_Config.
  destruct (lr_ClientConfig _ _) as [e|c0]; [done|]. cbn [mret result_ret].
  intros (_ & _ & (_ & _ & (_ & _ & [= <-])%result_bind_inr)%result_bind_inr)%result_bind_inr.
  simpl. by rewrite bool_decide_eq_true_2.
Qed.

End Local.

(** ** Runs *)

Definition demo_runtime : Runtime := mkRuntime true (fun _ => None)
  (fun _ _ => None) (fun _ => None) None (fun _ _ => None) None (fun _ => None)
  (fun _ _ cfg => inr cfg) (fun _ _ _ => inr []) None.

Definition demo_process : Process := mkProcess NewSharedManager default_config [].

Definition demo_run : Process * outcome (option error) :=
  execute (rt := demo_runtime) ["server"; "webhook"] demo_process.

(** A fact about the manager of the run, by evaluation. *)
Definition of_manager (f : CtrlManager → bool) : bool :=
  from_option f false (sm_mgr (p_mgr demo_run.1)).

Definition serves (path : string) (mgr : CtrlManager) : bool :=
  existsb (fun r => match r with RegWebhook path' => bool_decide (path' = path) | _ => false end)
    (m_registered mgr).

(** With [server] in front, the webhook server the webhook namespace made is not
    the one of the manager its webhooks are registered with. *)
Lemma started_manager_exact_witness :
  ∃ mgr rootArgs cfg inv invs,
    sm_mgr (p_mgr demo_run.1) = Some mgr ∧
    m_started mgr = true ∧ o_WebhookServer (m_Options mgr) = None ∧
    serves bucketParamsWebhookPath mgr = true ∧
    ["server"; "webhook"] = rootArgs ++ rendered (inv :: invs) ∧
    m_registered mgr = checks ++ registrations (rt := demo_runtime) (inv :: invs) cfg.
Proof.
  assert (of_manager m_started = true) as Hst by (vm_compute; reflexivity).
  assert (of_manager (serves bucketParamsWebhookPath) = true) as Hsv by (vm_compute; reflexivity).
  assert (of_manager (fun m => bool_decide (o_WebhookServer (m_Options m) = None)) = true) as Ho
    by (vm_compute; reflexivity).
  assert (demo_run.2 = Returns None) as Hret by (vm_compute; reflexivity).
  unfold of_manager in *. destruct (sm_mgr (p_mgr demo_run.1)) as [mgr|] eqn:Hm; [|discriminate Hst].
  simpl in Hst, Hsv, Ho. apply bool_decide_eq_true in Ho.
  destruct (started_manager_exact (rt := demo_runtime) ["server"; "webhook"] default_config []
    demo_run.1 None mgr) as (rootArgs & cfg & inv & invs & Ha & _ & _ & _ & Hr & _).
  - pose proof (surjective_pairing demo_run) as E. rewrite Hret in E.
    unfold demo_run at 1, demo_process in E. exact E.
  - exact Hm.
  - exact Hst.
  - exists mgr, rootArgs, cfg, inv, invs.
    split_and!; [exact eq_refl|exact Hst|exact Ho|exact Hsv|exact Ha|exact Hr].
Defined.
