(* ===== verification/Cli.v ===== *)
(** * The command line [vastrep]

    The actions of [internal/cmd/cli/actions] ([failover.go], [sync.go],
    [delete.go], [list.go], [status.go]) and the helpers of
    [internal/cmd/cli/client] ([client.go], [colors.go]).

    An action is a program over the calls to the API server, the terminal and
    the manager that hands out the client.  The two resources are behind the
    class [Crd], as in the Go constraint [ReplicationCRD].  Colours are the
    class [Colors]; creation times are a function of the metadata.  A Go panic
    is the outcome [CliPanicked]. *)

From S2P Require Import Prelude GoErrors Topology Kube Programs Api Client.
From stdpp Require Import options.

(** ** Calls *)

Inductive CliCall :=
| Kube (c : Call)
| GetK8sClient                       (* the client of the manager *)
| ReadLine                           (* standard input up to a newline *)
| Print (line : string).

Definition cresp (c : CliCall) : Type :=
  match c with
  | Kube c => resp c
  | GetK8sClient => result unit
  | ReadLine => string
  | Print _ => unit
  end.

Notation CliProg := (prog cresp).
Notation CliTrace := (list (event cresp)).
Notation kube := (embed (resp2 := cresp) Kube (fun _ r => r)).
Notation kube_event := (embed_event (resp2 := cresp) Kube (fun _ r => r)).

Inductive cli_outcome := CliReturned (err : option error) | CliPanicked.

Definition fail_with (msg : string) : CliProg cli_outcome := mret (CliReturned (Some (ErrNew msg))).

(** ** Colours *)

Class Colors := mkColors {
  Green : string → string;
  Yellow : string → string;
  Red : string → string;
  Cyan : string → string;
  Bold : string → string;
}.

(** [color.NoColor] *)
Definition plain_colors : Colors := mkColors id id id id id.

Definition FailoverAction_string (a : FailoverAction) : string :=
  match a with
  | FailoverTypeUngraceful => "ungracefulFailover"
  | FailoverTypeGraceful => "gracefulFailover"
  | FailoverTypeUnset => ""
  end.

Section Actions.

Context {colors : Colors}.

Definition color_FailoverType (ft : FailoverAction) : string :=
  match ft with
  | FailoverTypeGraceful | FailoverTypeUngraceful => Yellow (FailoverAction_string ft)
  | FailoverTypeUnset => FailoverAction_string ft
  end.

Definition color_SyncStatus (s : string) : string :=
  if bool_decide (s = SyncStatusCompleted) then Green s
  else if bool_decide (s = SyncStatusInProgress) then Cyan s
  else if bool_decide (s = SyncStatusUnreachable) then Yellow s
  else if bool_decide (s = SyncStatusError) then Red s
  else if bool_decide (s = SyncStatusInvalid) then Red s
  else if bool_decide (s = SyncStatusDeleting) then Yellow s
  else s.

Definition color_PrimaryStorageClass (sc : string) : string :=
  if bool_decide (sc = "") then Yellow "(not set)" else Green sc.

Definition color_Bool (b : bool) : string := if b then Green "true" else "false".

(** ** The two resources *)

Class Crd (k : kind) := mkCrd {
  crd_Kind : string;
  crd_short : string;
  crd_get : string → string → Prog (result (kobj k));
  crd_delete : kobj k → Prog (option error);
  crd_Primary : kobj k → string;
  crd_Topology : kobj k → list ReplicationTarget;
  crd_FailoverType : kobj k → FailoverAction;
  crd_set_FailoverType : FailoverAction → kobj k → kobj k;
  crd_set_Primary : string → kobj k → kobj k;
  crd_set_Resync : kobj k → kobj k;
}.

Definition crd_all {k} `{Crd k} (o : kobj k) : list string := topology_AllStorageClasses (crd_Topology o).

Definition vscr_with (v : VSCR) (primary : string) (ft : FailoverAction) (resync : bool) : VSCR :=
  let s := vscr_Spec v in
  mkVSCR (vscr_Meta v)
    (mkVSCRSpec primary (vscr_ProtectionTopology s) (vscr_ProtectionPolicyTemplate s)
       ft resync (vscr_SyncIntervalSeconds s) (vscr_PVCRemap s) (vscr_SyncPVCPV s)
       (vscr_DestVolReclaimPolicy s) (vscr_VolumeNamespace s)) (vscr_Status v).

Definition vvr_with (v : VVR) (primary : string) (ft : FailoverAction) (resync : bool) : VVR :=
  let s := vvr_Spec v in
  mkVVR (vvr_Meta v)
    (mkVVRSpec (vvr_VolumeName s) (vvr_VolumeNamespace s) primary
       (vvr_ProtectionTopology s) (vvr_ProtectionPolicyTemplate s) ft resync
       (vvr_SyncIntervalSeconds s) (vvr_PVCRemap s) (vvr_DestVolReclaimPolicy s)) (vvr_Status v).

#[global] Instance vscr_crd : Crd kVSCR := {|
  crd_Kind := "VastStorageClassReplication";
  crd_short := "vscr";
  crd_get := (GetVastStorageClassReplication : string → string → Prog (result (kobj kVSCR)));
  crd_delete (v : kobj kVSCR) := DeleteVastStorageClassReplication v;
  crd_Primary (v : kobj kVSCR) := vscr_PrimaryStorageClass (vscr_Spec v);
  crd_Topology (v : kobj kVSCR) := vscr_ProtectionTopology (vscr_Spec v);
  crd_FailoverType (v : kobj kVSCR) := vscr_FailoverType (vscr_Spec v);
  crd_set_FailoverType ft (v : kobj kVSCR) :=
    vscr_with v (vscr_PrimaryStorageClass (vscr_Spec v)) ft (vscr_Resync (vscr_Spec v));
  crd_set_Primary p (v : kobj kVSCR) := vscr_with v p (vscr_FailoverType (vscr_Spec v)) (vscr_Resync (vscr_Spec v));
  crd_set_Resync (v : kobj kVSCR) :=
    vscr_with v (vscr_PrimaryStorageClass (vscr_Spec v)) (vscr_FailoverType (vscr_Spec v)) true;
|}.

#[global] Instance vvr_crd : Crd kVVR := {|
  crd_Kind := "VastVolumeReplication";
  crd_short := "vvr";
  crd_get := (GetVastVolumeReplication : string → string → Prog (result (kobj kVVR)));
  crd_delete (v : kobj kVVR) := DeleteVastVolumeReplication v;
  crd_Primary (v : kobj kVVR) := vvr_PrimaryStorageClass (vvr_Spec v);
  crd_Topology (v : kobj kVVR) := vvr_ProtectionTopology (vvr_Spec v);
  crd_FailoverType (v : kobj kVVR) := vvr_FailoverType (vvr_Spec v);
  crd_set_FailoverType ft (v : kobj kVVR) :=
    vvr_with v (vvr_PrimaryStorageClass (vvr_Spec v)) ft (vvr_Resync (vvr_Spec v));
  crd_set_Primary p (v : kobj kVVR) := vvr_with v p (vvr_FailoverType (vvr_Spec v)) (vvr_Resync (vvr_Spec v));
  crd_set_Resync (v : kobj kVVR) :=
    vvr_with v (vvr_PrimaryStorageClass (vvr_Spec v)) (vvr_FailoverType (vvr_Spec v)) true;
|}.

(** ** client.go *)

Definition PatchCRD {k} `{Crd k} (obj : kobj k) (mutate : kobj k → kobj k) : Prog (option error) :=
  r ← call (Patch k obj (mutate obj));
  mret (match r with inl e => Some e | inr _ => None end).

Definition UpdateCRD {k} `{Crd k} (obj : kobj k) (mutate : kobj k → kobj k) : Prog (option error) :=
  r ← call (Update k (mutate obj));
  mret (match r with inl e => Some e | inr _ => None end).

(** [fmt.Errorf("<kind> %s/%s not found: %w", ...)] *)
Definition crd_not_found (k : kind) `{Crd k} (namespace name : string) (e : error) : error :=
  ErrWrap (crd_Kind +:+ " " +:+ namespace +:+ "/" +:+ name +:+ " not found: ") e "".

(** The spec changes of a failover. *)
Definition set_spec {k} `{Crd k} (failoverType : FailoverAction) (primary : string) (o : kobj k) : kobj k :=
  let o1 := if bool_decide (failoverType ≠ FailoverTypeUnset) then crd_set_FailoverType failoverType o else o in
  if bool_decide (primary ≠ "") then crd_set_Primary primary o1 else o1.

(** Read the object and change it; the two cases of each [switch]. *)
Definition change_crd (k : kind) `{Crd k} (name namespace : string)
    (write : kobj k → Prog (option error)) : Prog (option error) :=
  r ← crd_get name namespace;
  match r with
  | inl e => mret (Some (crd_not_found k namespace name e))
  | inr obj => write obj
  end.

Definition no_target : Prog (option error) := mret (Some (ErrNew "must specify --vscr or --vvr")).

Definition PatchReplicationSpec (vscr vvr namespace : string) (failoverType : FailoverAction) (primary : string)
    : Prog (option error) :=
  if bool_decide (vscr ≠ "") then
    change_crd kVSCR vscr namespace (fun obj => PatchCRD obj (set_spec failoverType primary))
  else if bool_decide (vvr ≠ "") then
    change_crd kVVR vvr namespace (fun obj => PatchCRD obj (set_spec failoverType primary))
  else no_target.

Definition PatchReplicationResync (vscr vvr namespace : string) : Prog (option error) :=
  if bool_decide (vscr ≠ "") then
    change_crd kVSCR vscr namespace (fun obj => PatchCRD obj crd_set_Resync)
  else if bool_decide (vvr ≠ "") then
    change_crd kVVR vvr namespace (fun obj => PatchCRD obj crd_set_Resync)
  else no_target.

Definition UpdateReplicationSpec (vscr vvr namespace : string) (failoverType : FailoverAction) (primary : string)
    : Prog (option error) :=
  if bool_decide (vscr ≠ "") then
    change_crd kVSCR vscr namespace (fun obj => UpdateCRD obj (set_spec failoverType primary))
  else if bool_decide (vvr ≠ "") then
    change_crd kVVR vvr namespace (fun obj => UpdateCRD obj (set_spec failoverType primary))
  else no_target.

(** ** failover.go *)

(** [None]: [make] with the capacity [len(all)-1] panics on an empty list. *)
Definition validateFailoverPrimary (primary currentPrimary : string) (all : list string) : option (result unit) :=
  if bool_decide (primary = currentPrimary) then
    Some (Errorf ("cannot failover: " +:+ quote primary +:+ " is already the primary StorageClass"))
  else if bool_decide (primary ∈ all) then Some (mret ())
  else if bool_decide (Z.of_nat (length all) - 1 < 0)%Z then None
  else
    let candidates := filter (fun sc => sc ≠ currentPrimary) all in
    Some (Errorf ("StorageClass " +:+ quote primary +:+ " is not part of the replication topology" +:+ newline +:+
                  "available options: " +:+ DisplayableList_String candidates)).

(** The target flags shared by the actions: exactly one of them is set. *)
Definition check_target (vscrName vvrName : string) : option error :=
  if bool_decide (vscrName = "") && bool_decide (vvrName = "")
  then Some (ErrNew "must specify --vscr <name> or --vvr <name>")
  else if bool_decide (vscrName ≠ "") && bool_decide (vvrName ≠ "")
  then Some (ErrNew "--vscr and --vvr are mutually exclusive")
  else None.

Definition target_kind (vvrName : string) : string := if bool_decide (vvrName ≠ "") then "vvr" else "vscr".
Definition target_name (vscrName vvrName : string) : string :=
  if bool_decide (vvrName ≠ "") then vvrName else vscrName.

Definition arrow : string := "→".
Definition check_mark : string := "✓".

(** Read the object and validate the new primary against it. *)
Definition check_primary (k : kind) `{Crd k} (name namespace primary : string) : Prog (option (result unit)) :=
  r ← crd_get name namespace;
  mret (match r with
        | inl e => Some (inl (crd_not_found k namespace name e))
        | inr obj => validateFailoverPrimary primary (crd_Primary obj) (crd_all obj)
        end).

Definition parse_manner (manner : string) : result FailoverAction :=
  if bool_decide (manner = "") then mret FailoverTypeUnset
  else if bool_decide (manner = "graceful") then mret FailoverTypeGraceful
  else if bool_decide (manner = "ungraceful") then mret FailoverTypeUngraceful
  else Errorf ("--manner must be 'graceful' or 'ungraceful', got " +:+ quote manner).

Definition failover (vscrName vvrName namespace manner primary : string) : CliProg cli_outcome :=
  match check_target vscrName vvrName with
  | Some e => mret (CliReturned (Some e))
  | None =>
      match parse_manner manner with
      | inl e => mret (CliReturned (Some e))
      | inr failoverType =>
          r ← call GetK8sClient;
          match r with
          | inl e => mret (CliReturned (Some e))
          | inr _ =>
              let desc := if bool_decide (manner ≠ "") then manner +:+ " failover" else "primary switch" in
              call (Print (Cyan arrow +:+ " Triggering " +:+ desc +:+ " on " +:+ target_kind vvrName +:+ "/" +:+
                           Bold (target_name vscrName vvrName) +:+ " ..."));;
              checked ← kube (if bool_decide (vscrName ≠ "")
                              then check_primary kVSCR vscrName namespace primary
                              else check_primary kVVR vvrName namespace primary);
              match checked with
              | None => mret CliPanicked
              | Some (inl e) => mret (CliReturned (Some e))
              | Some (inr _) =>
                  err ← kube (PatchReplicationSpec vscrName vvrName namespace failoverType primary);
                  match err with
                  | Some e => mret (CliReturned (Some (ErrWrap "failover failed: " e "")))
                  | None =>
                      let msg := "Primary StorageClass will switch to " +:+ Bold primary +:+
                                 (if bool_decide (failoverType ≠ FailoverTypeUnset)
                                  then "; failoverType set to " +:+ color_FailoverType failoverType else "") in
                      call (Print (Green check_mark +:+ " " +:+ msg));;
                      mret (CliReturned None)
                  end
              end
          end
      end
  end.

(** ** sync.go *)

Definition sync (vscrName vvrName namespace : string) : CliProg cli_outcome :=
  match check_target vscrName vvrName with
  | Some e => mret (CliReturned (Some e))
  | None =>
      r ← call GetK8sClient;
      match r with
      | inl e => mret (CliReturned (Some e))
      | inr _ =>
          let name := target_kind vvrName +:+ "/" +:+ Bold (target_name vscrName vvrName) in
          call (Print (Cyan arrow +:+ " Requesting resync on " +:+ name +:+ " ..."));;
          err ← kube (PatchReplicationResync vscrName vvrName namespace);
          match err with
          | Some e => mret (CliReturned (Some (ErrWrap "sync failed: " e "")))
          | None =>
              call (Print (Green check_mark +:+ " Resync action set on " +:+ name));;
              mret (CliReturned None)
          end
      end
  end.

(** ** delete.go *)

Definition confirms (answer : string) : bool := bool_decide (to_lower (trim_space answer) = "y").

(** The prompt; [true] when the deletion goes on. *)
Definition confirm_deletion (yes : bool) (prompt : string) : CliProg bool :=
  if yes then mret true
  else
    call (Print prompt);;
    answer ← call ReadLine;
    if confirms answer then mret true
    else call (Print "Aborted.");; mret false.

Definition delete_crd (k : kind) `{Crd k} (name namespace : string) : Prog (option error) :=
  change_crd k name namespace crd_delete.

Definition delete (vscrName vvrName namespace : string) (yes : bool) : CliProg cli_outcome :=
  match check_target vscrName vvrName with
  | Some e => mret (CliReturned (Some e))
  | None =>
      r ← call GetK8sClient;
      match r with
      | inl e => mret (CliReturned (Some e))
      | inr _ =>
          let name := target_kind vvrName +:+ "/" +:+ Bold (target_name vscrName vvrName) in
          confirmed ← confirm_deletion yes
            ("Delete " +:+ name +:+ " " +:+ Yellow "(this triggers cleanup of all owned resources)" +:+ "? [y/N] ");
          if negb confirmed then mret (CliReturned None)
          else
            call (Print (Cyan arrow +:+ " Deleting " +:+ name +:+ " ..."));;
            err ← kube (if bool_decide (vscrName ≠ "") then delete_crd kVSCR vscrName namespace
                        else delete_crd kVVR vvrName namespace);
            match err with
            | Some e => mret (CliReturned (Some e))
            | None =>
                call (Print (Green check_mark +:+ " Deletion request accepted for " +:+ name));;
                call (Print "  The object will disappear once the controller finishes cleaning up owned resources.");;
                mret (CliReturned None)
            end
      end
  end.

(** ** list.go *)

Record listRow := mkRow {
  row_kind : string;
  row_namespace : string;
  row_name : string;
  row_scs : string;
  row_primary : string;
  row_action : string;
  row_destVolReclaim : string;
  row_syncStatus : string;
  row_age : string;
}.

Definition actionStr (a : string) : string := if bool_decide (a = "") then "-" else a.

(** The empty policy of the Go type is [DestVolReclaimPolicyRetain]. *)
Definition destVolReclaimStr (p : DestVolReclaimPolicy) : string :=
  match p with DestVolReclaimPolicyRetain => "Retain" | DestVolReclaimPolicyDelete => "Delete" end.

Definition syncStatusStr (s : string) : string := if bool_decide (s = "") then "-" else s.

(** *** age *)

Definition second : Z := 1000000000.
Definition minute : Z := 60 * second.
Definition hour : Z := 60 * minute.
Definition day : Z := 24 * hour.

Definition minDuration : Z := - 2 ^ 63.
Definition maxDuration : Z := 2 ^ 63 - 1.

(** [Time.Sub] saturates. *)
Definition saturate (d : Z) : Z := Z.max minDuration (Z.min maxDuration d).

(** [Duration.Round]: half away from zero, saturating. *)
Definition Duration_Round (d m : Z) : Z :=
  if bool_decide (m ≤ 0)%Z then d
  else
    let r := Z.rem d m in
    if bool_decide (d < 0)%Z then
      let r := (- r)%Z in
      if bool_decide (2 * r < m)%Z then (d + r)%Z
      else let d1 := wrap64 (d - m + r) in if bool_decide (d1 < d)%Z then d1 else minDuration
    else if bool_decide (2 * r < m)%Z then (d - r)%Z
    else let d1 := wrap64 (d + m - r) in if bool_decide (d < d1)%Z then d1 else maxDuration.

(** [t] is the creation time in nanoseconds, [None] the zero time; the float
    conversions of whole seconds truncate like the integer division. *)
Definition age (now : Z) (t : option Z) : string :=
  match t with
  | None => "-"
  | Some t =>
      let d := Duration_Round (saturate (now - t)) second in
      if bool_decide (d < minute)%Z then show_Z (Z.quot d second) +:+ "s"
      else if bool_decide (d < hour)%Z then show_Z (Z.quot d minute) +:+ "m"
      else if bool_decide (d < day)%Z then show_Z (Z.quot d hour) +:+ "h"
      else show_Z (Z.quot d day) +:+ "d"
  end.

Definition shown_primary (st : ReplicationStatus) (primary : string) : string :=
  if bool_decide (CurrentPrimaryStorageClass st = "") then primary else CurrentPrimaryStorageClass st.

(** The creation time of an object. *)
Variable created : ObjectMeta → option Z.

Definition vscrRow (now : Z) (obj : VSCR) : listRow :=
  mkRow "VSCR" (Namespace (vscr_Meta obj)) (Name (vscr_Meta obj))
    (DisplayableList_String (VSCR_AllStorageClasses (vscr_Spec obj)))
    (shown_primary (vscr_Status obj) (vscr_PrimaryStorageClass (vscr_Spec obj)))
    (actionStr (FailoverAction_string (vscr_FailoverType (vscr_Spec obj))))
    (destVolReclaimStr (vscr_DestVolReclaimPolicy (vscr_Spec obj)))
    (syncStatusStr (SyncStatus (vscr_Status obj)))
    (age now (created (vscr_Meta obj))).

Definition vvrRow (now : Z) (obj : VVR) : listRow :=
  mkRow "VVR" (Namespace (vvr_Meta obj)) (Name (vvr_Meta obj))
    (DisplayableList_String (VVR_AllStorageClasses (vvr_Spec obj)))
    (shown_primary (vvr_Status obj) (vvr_PrimaryStorageClass (vvr_Spec obj)))
    (actionStr (FailoverAction_string (vvr_FailoverType (vvr_Spec obj))))
    (destVolReclaimStr (vvr_DestVolReclaimPolicy (vvr_Spec obj)))
    (syncStatusStr (SyncStatus (vvr_Status obj)))
    (age now (created (vvr_Meta obj))).

Definition rowCols (r : listRow) : list string :=
  [row_kind r; row_namespace r; row_name r; row_scs r; row_primary r; row_action r;
   row_destVolReclaim r; row_syncStatus r; row_age r].

(** *** The table *)

Definition headers : list string :=
  ["KIND"; "NAMESPACE"; "NAME"; "STORAGE CLASSES"; "PRIMARY"; "FAILOVER TYPE"; "VOL RECLAIM POLICY";
   "SYNC STATUS"; "AGE"].

Definition gap : Z := 2.

Definition len (s : string) : Z := Z.of_nat (strlen s).

(** [strings.Repeat] panics on a negative count. *)
Definition Repeat (s : string) (count : Z) : option string :=
  if bool_decide (count < 0)%Z then None
  else Some (str (concat (replicate (Z.to_nat count) (chars s)))).

Definition widen (widths : list Z) (cols : list string) : list Z :=
  zip_with (fun w c => if bool_decide (w < len c)%Z then len c else w) widths cols.

Definition table_widths (rows : list listRow) : list Z :=
  foldl (fun widths r => widen widths (rowCols r)) (map len headers) rows.

Definition pad (n : Z) : string :=
  if bool_decide (n ≤ 0)%Z then "" else default "" (Repeat " " n).

(** Cells with padding behind all but the last. *)
Fixpoint plain_cells (widths : list Z) (cols : list string) : string :=
  match cols with
  | [] => ""
  | [c] => c
  | c :: cols' => c +:+ pad (hd 0%Z widths - len c + gap) +:+ plain_cells (tail widths) cols'
  end.

(** The padding of a coloured cell is computed from the plain text. *)
Fixpoint color_cells (widths : list Z) (cols colored : list string) : option string :=
  match cols, colored with
  | c :: _ :: _, x :: colored' =>
      p ← Repeat " " (hd 0%Z widths - len c + gap);
      rest ← color_cells (tail widths) (tail cols) colored';
      mret (x +:+ p +:+ rest)
  | _, x :: _ => mret x
  | _, [] => mret ""
  end.

Definition color_row (r : listRow) : list string :=
  [Bold (row_kind r); row_namespace r; Cyan (row_name r); row_scs r; Green (row_primary r); row_action r;
   row_destVolReclaim r; color_SyncStatus (row_syncStatus r); row_age r].

(** The lines of [printListTable]; [None] when it panics. *)
Definition table_lines (rows : list listRow) : option (list string) :=
  let widths := table_widths rows in
  let totalWidth := foldl Z.add (gap * (Z.of_nat (length headers) - 1))%Z widths in
  rule ← Repeat "─" totalWidth;
  body ← mapM (fun r => color_cells widths (rowCols r) (color_row r)) rows;
  mret (plain_cells widths headers :: rule :: body).

(** The rows read the clock for each object. *)
Fixpoint rows_of {A} (row : Z → A → listRow) (objs : list A) : CliProg (list listRow) :=
  match objs with
  | [] => mret []
  | o :: objs' => now ← kube (call Now); rest ← rows_of row objs'; mret (row now o :: rest)
  end.

Fixpoint print_all (lines : list string) : CliProg unit :=
  match lines with
  | [] => mret ()
  | l :: lines' => call (Print l);; print_all lines'
  end.

Definition printListTable (vscrs : list VSCR) (vvrs : list VVR) : CliProg cli_outcome :=
  rows1 ← rows_of vscrRow vscrs;
  rows2 ← rows_of vvrRow vvrs;
  match table_lines (rows1 ++ rows2) with
  | None => mret CliPanicked
  | Some lines => print_all lines;; mret (CliReturned None)
  end.

Definition list_resources (namespace : string) (allNamespaces : bool) : CliProg cli_outcome :=
  r ← call GetK8sClient;
  match r with
  | inl e => mret (CliReturned (Some e))
  | inr _ =>
      let ns := if allNamespaces then "" else namespace in
      vscrs ← kube (ListVastStorageClassReplications ns);
      match vscrs with
      | inl e => mret (CliReturned (Some e))
      | inr vscrs =>
          vvrs ← kube (ListVastVolumeReplications ns);
          match vvrs with
          | inl e => mret (CliReturned (Some e))
          | inr vvrs =>
              if bool_decide (length vscrs = 0) && bool_decide (length vvrs = 0)
              then call (Print "No resources found.");; mret (CliReturned None)
              else printListTable vscrs vvrs
          end
      end
  end.

(** ** status.go *)

(** [%-28s] of ASCII labels. *)
Definition left (width : nat) (s : string) : string := s +:+ str (replicate (width - strlen s) " "%char).
Definition status_line (label value : string) : string := "  " +:+ left 28 label +:+ " " +:+ value.

Definition action_lines (label action : string) : list string :=
  if bool_decide (action = "") then [] else [status_line (label +:+ ":") action].

Definition sync_status_lines (s : string) : list string :=
  if bool_decide (s = "") then [] else [status_line "Sync Status:" (color_SyncStatus s)].

Definition topology_line (t : ReplicationTarget) : string :=
  "    " +:+ Cyan (Source t) +:+ " → " +:+ Cyan (Destination t) +:+
  (if bool_decide (PeerName t ≠ "") then "  (peer: " +:+ PeerName t +:+ ")" else "").

Definition frame_parts (f : ProtectionPolicyFrame) : string :=
  "every=" +:+ Every f +:+
  (if bool_decide (KeepLocal f ≠ "") then " keepLocal=" +:+ KeepLocal f else "") +:+
  (if bool_decide (KeepRemote f ≠ "") then " keepRemote=" +:+ KeepRemote f else "") +:+
  (if bool_decide (StartAt f ≠ "") then " startAt=" +:+ StartAt f else "").

Definition template_lines (t : ProtectionPolicyTemplate) : list string :=
  ("  " +:+ left 28 "Protection Policy:") ::
  imap (fun i f => "    " +:+ left 24 ("Frame[" +:+ show_nat i +:+ "]:") +:+ " " +:+ frame_parts f) (Params t).

Definition class_list_lines (classes : list string) : list string :=
  if bool_decide (length classes = 0) then []
  else ("  " +:+ left 28 "Storage Classes:") :: map (fun sc => "    - " +:+ sc) classes.

(** A mapping is printed in the order Go iterates over it. *)
Definition mapping_lines (label : string) (entries : list (string * string)) : list string :=
  if bool_decide (0 < length entries)
  then ("  " +:+ left 28 label) ::
       map (fun e => "    " +:+ left 26 (e.1 +:+ ":") +:+ " " +:+ e.2) entries
  else [].

(** The iteration orders of the two mappings. *)
Variable dir_order : gmap string string → list (string * string).
Variable tenant_order : gmap string TenantInfo → list (string * TenantInfo).

Definition rule60 : string := str (concat (replicate 60 (chars "─"))).

(** The part of the output that follows the specification. *)
Definition status_lines (st : ReplicationStatus) : list string :=
  [""; "  " +:+ Bold "Status:"] ++
  (if bool_decide (CurrentPrimaryStorageClass st ≠ "")
   then [status_line "Current Primary:" (color_PrimaryStorageClass (CurrentPrimaryStorageClass st))] else []) ++
  (if bool_decide (PpathName st ≠ "") then [status_line "Ppath Name:" (PpathName st)] else []) ++
  mapping_lines "Ppath Dir Mapping:" (dir_order (PpathDirMapping st)) ++
  mapping_lines "Tenant Mapping:" (map (fun e => (e.1, tenant_Name e.2)) (tenant_order (TenantMapping st))) ++
  action_lines "Last Failover Type" (FailoverAction_string (LastFailoverType st)) ++
  sync_status_lines (SyncStatus st).

Definition topology_lines (topo : list ReplicationTarget) : list string :=
  status_line "Topology:" (show_nat (length (topology_AllStorageClasses topo)) +:+ " cluster(s), " +:+
                           show_nat (length topo) +:+ " target(s)") :: map topology_line topo.

Definition interval_lines (r : result Z) : list string :=
  match r with inr secs => [status_line "Sync Interval:" (show_Z secs +:+ "s")] | inl _ => [] end.

Definition resync_lines (resync : bool) : list string :=
  if resync then [status_line "Resync:" (Yellow "pending")] else [].

Definition printVSCRStatus (obj : VSCR) : list string :=
  let s := vscr_Spec obj in
  [Bold "VastStorageClassReplication" +:+ "  " +:+ Namespace (vscr_Meta obj) +:+ "/" +:+ Cyan (Name (vscr_Meta obj));
   rule60;
   status_line "Primary StorageClass:" (color_PrimaryStorageClass (vscr_PrimaryStorageClass s))] ++
  (if bool_decide (VSCR_PVCNamespace obj ≠ Namespace (vscr_Meta obj))
   then [status_line "Volume Namespace:" (VSCR_PVCNamespace obj)] else []) ++
  action_lines "Failover Type" (FailoverAction_string (vscr_FailoverType s)) ++
  resync_lines (vscr_Resync s) ++
  topology_lines (vscr_ProtectionTopology s) ++
  interval_lines (VSCR_EffectiveSyncIntervalSeconds s) ++
  [status_line "PVC Remap:" (color_Bool (vscr_PVCRemap s));
   status_line "Sync PVC/PV:" (color_Bool (vscr_SyncPVCPV s));
   status_line "Vol Reclaim Policy:" (destVolReclaimStr (vscr_DestVolReclaimPolicy s))] ++
  template_lines (vscr_ProtectionPolicyTemplate s) ++
  class_list_lines (VSCR_AllStorageClasses s) ++
  status_lines (vscr_Status obj).

Definition printVVRStatus (obj : VVR) : list string :=
  let s := vvr_Spec obj in
  [Bold "VastVolumeReplication" +:+ "  " +:+ Namespace (vvr_Meta obj) +:+ "/" +:+ Cyan (Name (vvr_Meta obj));
   rule60;
   status_line "Volume (PVC):" (VVR_PVCNamespace obj +:+ "/" +:+ Bold (vvr_VolumeName s));
   status_line "Storage Classes:" (DisplayableList_String (VVR_AllStorageClasses s));
   status_line "Primary StorageClass:" (color_PrimaryStorageClass (vvr_PrimaryStorageClass s))] ++
  action_lines "Failover Type" (FailoverAction_string (vvr_FailoverType s)) ++
  resync_lines (vvr_Resync s) ++
  topology_lines (vvr_ProtectionTopology s) ++
  interval_lines (VVR_EffectiveSyncIntervalSeconds s) ++
  [status_line "PVC Remap:" (color_Bool (vvr_PVCRemap s));
   status_line "Vol Reclaim Policy:" (destVolReclaimStr (vvr_DestVolReclaimPolicy s))] ++
  template_lines (vvr_ProtectionPolicyTemplate s) ++
  status_lines (vvr_Status obj).

Definition print_crd (k : kind) `{Crd k} (lines : kobj k → list string) (name namespace : string)
    : CliProg cli_outcome :=
  r ← kube (crd_get name namespace);
  match r with
  | inl e => mret (CliReturned (Some (crd_not_found k namespace name e)))
  | inr obj => print_all (lines obj);; mret (CliReturned None)
  end.

Definition status (vscrName vvrName namespace : string) : CliProg cli_outcome :=
  match check_target vscrName vvrName with
  | Some e => mret (CliReturned (Some e))
  | None =>
      r ← call GetK8sClient;
      match r with
      | inl e => mret (CliReturned (Some e))
      | inr _ =>
          if bool_decide (vscrName ≠ "") then print_crd kVSCR printVSCRStatus vscrName namespace
          else print_crd kVVR printVVRStatus vvrName namespace
      end
  end.

(** ** The commands of [NewCLICommand] *)

Inductive Command :=
| CmdList (namespace : string) (allNamespaces : bool)
| CmdFailover (vscr vvr namespace manner primary : string)
| CmdSync (vscr vvr namespace : string)
| CmdStatus (vscr vvr namespace : string)
| CmdDelete (vscr vvr namespace : string) (yes : bool).

Definition run_command (cmd : Command) : CliProg cli_outcome :=
  match cmd with
  | CmdList namespace allNamespaces => list_resources namespace allNamespaces
  | CmdFailover vscr vvr namespace manner primary => failover vscr vvr namespace manner primary
  | CmdSync vscr vvr namespace => sync vscr vvr namespace
  | CmdStatus vscr vvr namespace => status vscr vvr namespace
  | CmdDelete vscr vvr namespace yes => delete vscr vvr namespace yes
  end.

End Actions.

(** ** What a command may write *)

(** A new primary keeps a specification valid when it is a class of the topology. *)
Definition spec_valid `{!Clock} (k : kind) : kobj k → Prop :=
  match k return kobj k → Prop with
  | kVSCR => fun v => VSCR_Validate (vscr_Spec v) = inr ()
  | kVVR => fun v => VVR_Validate (vvr_Spec v) = inr ()
  | _ => fun _ => False
  end.

(** Object [o] is [base] with nothing but primary, failover type or resync changed. *)
Definition only_target_changed (k : kind) : kobj k → kobj k → Prop :=
  match k return kobj k → kobj k → Prop with
  | kVSCR => fun base o => ∃ p ft r, o = vscr_with base p ft r
  | kVVR => fun base o => ∃ p ft r, o = vvr_with base p ft r
  | _ => fun _ _ => False
  end.

Section Guarded.

Context {clk : Clock}.

(** The patch of a failover: the new primary was found in the topology of the
    object and was not its primary; the patch changes a second reading of it. *)
Definition failover_patch (k : kind) `{Crd k} (t : CliTrace) (name namespace manner primary : string)
    (base o : kobj k) : Prop :=
  ∃ failoverType checked,
    parse_manner manner = inr failoverType ∧
    Ev (Kube (Get k name namespace)) (inr checked) ∈ t ∧
    primary ≠ crd_Primary checked ∧ primary ∈ crd_all checked ∧
    Ev (Kube (Get k name namespace)) (inr base) ∈ t ∧
    o = set_spec failoverType primary base ∧ only_target_changed k base o ∧
    (primary ≠ "" → crd_Primary o = primary) ∧
    (failoverType = FailoverTypeUnset → crd_FailoverType o = crd_FailoverType base) ∧
    (primary ≠ "" → crd_Topology base = crd_Topology checked → spec_valid k base → spec_valid k o).

Definition patch_allowed (cmd : Command) (t : CliTrace) (k : kind) `{Crd k} (mine : string → string → bool)
    (pick : string → string → string) (base o : kobj k) : Prop :=
  match cmd with
  | CmdFailover vscr vvr namespace manner primary =>
      mine vscr vvr = true ∧ failover_patch k t (pick vscr vvr) namespace manner primary base o
  | CmdSync vscr vvr namespace =>
      mine vscr vvr = true ∧ Ev (Kube (Get k (pick vscr vvr) namespace)) (inr base) ∈ t ∧
      o = crd_set_Resync base ∧ only_target_changed k base o
  | _ => False
  end.

(** The user said yes, with the flag or at the prompt. *)
Definition confirmed (yes : bool) (t : CliTrace) : Prop :=
  yes = true ∨ ∃ answer, Ev ReadLine answer ∈ t ∧ to_lower (trim_space answer) = "y".

(** The deletion was confirmed, and the object was read. *)
Definition delete_allowed (cmd : Command) (t : CliTrace) (k : kind) `{Crd k} (mine : string → string → bool)
    (pick : string → string → string) (o : kobj k) : Prop :=
  match cmd with
  | CmdDelete vscr vvr namespace yes =>
      mine vscr vvr = true ∧
      confirmed yes t ∧ Ev (Kube (Get k (pick vscr vvr) namespace)) (inr o) ∈ t
  | _ => False
  end.

Definition only_first (a b : string) : bool := bool_decide (a ≠ "") && bool_decide (b = "").
Definition only_second (a b : string) : bool := bool_decide (a = "") && bool_decide (b ≠ "").

Definition cli_allowed (cmd : Command) (t : CliTrace) (c : CliCall) : Prop :=
  match c with
  | Kube (Get _ _ _) | Kube (List _ _ _) | Kube Now | GetK8sClient | ReadLine | Print _ => True
  | Kube (Patch k base o) =>
      match k return kobj k → kobj k → Prop with
      | kVSCR => patch_allowed cmd t kVSCR only_first (fun a _ => a)
      | kVVR => patch_allowed cmd t kVVR only_second (fun _ b => b)
      | _ => fun _ _ => False
      end base o
  | Kube (Delete k o) =>
      match k return kobj k → Prop with
      | kVSCR => delete_allowed cmd t kVSCR only_first (fun a _ => a)
      | kVVR => delete_allowed cmd t kVVR only_second (fun _ b => b)
      | _ => fun _ => False
      end o
  | _ => False
  end.

(** *** Lemmas *)

Lemma set_spec_vscr ft primary (v : VSCR) :
  set_spec (k := kVSCR) ft primary v =
  vscr_with v (if bool_decide (primary ≠ "") then primary else vscr_PrimaryStorageClass (vscr_Spec v))
    (if bool_decide (ft ≠ FailoverTypeUnset) then ft else vscr_FailoverType (vscr_Spec v)) (vscr_Resync (vscr_Spec v)).
Proof. unfold set_spec. destruct v as [m [] st]. by repeat case_bool_decide. Qed.

Lemma set_spec_vvr ft primary (v : VVR) :
  set_spec (k := kVVR) ft primary v =
  vvr_with v (if bool_decide (primary ≠ "") then primary else vvr_PrimaryStorageClass (vvr_Spec v))
    (if bool_decide (ft ≠ FailoverTypeUnset) then ft else vvr_FailoverType (vvr_Spec v)) (vvr_Resync (vvr_Spec v)).
Proof. unfold set_spec. destruct v as [m [] st]. by repeat case_bool_decide. Qed.

(** What the two resources have in common about failover patches. *)
Class CrdLaws (k : kind) `{Crd k} := mkCrdLaws {
  set_spec_only ft primary (o : kobj k) : only_target_changed k o (set_spec ft primary o);
  set_spec_primary ft primary (o : kobj k) : primary ≠ "" → crd_Primary (set_spec ft primary o) = primary;
  set_spec_unset primary (o : kobj k) : crd_FailoverType (set_spec FailoverTypeUnset primary o) = crd_FailoverType o;
  set_spec_valid ft primary (o : kobj k) :
    primary ≠ "" → primary ∈ crd_all o → spec_valid k o → spec_valid k (set_spec ft primary o);
  set_resync_only (o : kobj k) : only_target_changed k o (crd_set_Resync o);
  crd_get_call name ns : crd_get name ns =
    (r ← call (Get k name ns);
     mret (match r with inl e => inl (wrapGetError crd_Kind name ns e) | inr o => inr o end));
}.

#[global] Instance vscr_laws : CrdLaws kVSCR.
Proof.
  split; simpl.
  - intros ft primary o. rewrite set_spec_vscr. eauto.
  - intros ft primary o Hp. rewrite set_spec_vscr. simpl. by rewrite bool_decide_eq_true_2.
  - intros primary o. by rewrite set_spec_vscr.
  - intros ft primary o Hp Hin. rewrite set_spec_vscr, !VSCR_Validate_ok. unfold vscr_ok, topology_ok. simpl.
    rewrite (bool_decide_eq_true_2 (primary ≠ "")) by done. intuition.
  - eauto.
  - done.
Qed.

#[global] Instance vvr_laws : CrdLaws kVVR.
Proof.
  split; simpl.
  - intros ft primary o. rewrite set_spec_vvr. eauto.
  - intros ft primary o Hp. rewrite set_spec_vvr. simpl. by rewrite bool_decide_eq_true_2.
  - intros primary o. by rewrite set_spec_vvr.
  - intros ft primary o Hp Hin. rewrite set_spec_vvr, !VVR_Validate_ok. unfold vvr_ok, topology_ok. simpl.
    rewrite (bool_decide_eq_true_2 (primary ≠ "")) by done. intuition.
  - eauto.
  - done.
Qed.

Lemma validateFailoverPrimary_ok primary current all :
  validateFailoverPrimary primary current all = Some (inr ()) ↔ primary ≠ current ∧ primary ∈ all.
Proof.
  unfold validateFailoverPrimary. repeat case_bool_decide; naive_solver.
Qed.

(** The check panics exactly for an empty topology. *)
Lemma validateFailoverPrimary_panics primary current all :
  validateFailoverPrimary primary current all = None ↔ primary ≠ current ∧ all = [].
Proof.
  unfold validateFailoverPrimary. repeat case_bool_decide.
  - naive_solver.
  - split; [done|]. intros [_ ->]. by apply elem_of_nil in H0.
  - split; [|done]. intros _. split; [done|]. destruct all; [done|]. simpl in *. lia.
  - split; [done|]. by intros [_ ->].
Qed.

Lemma wp_check_primary cmd (k : kind) `{CrdLaws k} name ns primary h
    (Q : CliTrace → option (result unit) → Prop) :
  (∀ h' r, h `prefix_of` h' →
     (r = Some (inr ()) → ∃ checked, Ev (Kube (Get k name ns)) (inr checked) ∈ h' ∧
        primary ≠ crd_Primary checked ∧ primary ∈ crd_all checked) → Q h' r) →
  wp (cli_allowed cmd) (kube (check_primary k name ns primary)) h Q.
Proof.
  intros HQ. unfold check_primary. rewrite crd_get_call. split; [done|]. intros [e|checked]; apply HQ.
  - by apply prefix_app_r.
  - done.
  - by apply prefix_app_r.
  - intros [? ?]%validateFailoverPrimary_ok. exists checked. split; [apply in_snoc|done].
Qed.

Lemma wp_patch cmd (k : kind) `{CrdLaws k} name ns (f : kobj k → kobj k) h (Q : CliTrace → option error → Prop) :
  (∀ obj, cli_allowed cmd (h ++ [Ev (Kube (Get k name ns)) (inr obj)]) (Kube (Patch k obj (f obj)))) →
  (∀ h' r, Q h' r) →
  wp (cli_allowed cmd) (kube (change_crd k name ns (fun obj => PatchCRD obj f))) h Q.
Proof.
  intros Hp HQ. unfold change_crd. rewrite crd_get_call. split; [done|]. intros [e|obj]; [apply HQ|].
  split; [apply Hp|]. intros r. apply HQ.
Qed.

Lemma wp_delete cmd (k : kind) `{CrdLaws k} name ns h (Q : CliTrace → option error → Prop) :
  (∀ obj, wp (cli_allowed cmd) (kube (crd_delete obj)) (h ++ [Ev (Kube (Get k name ns)) (inr obj)]) Q) →
  (∀ h' r, Q h' r) →
  wp (cli_allowed cmd) (kube (delete_crd k name ns)) h Q.
Proof.
  intros Hd HQ. unfold delete_crd, change_crd. rewrite crd_get_call. split; [done|].
  intros [e|obj]; [apply HQ|apply Hd].
Qed.

Lemma check_target_cases a b :
  check_target a b = None → only_first a b = true ∨ only_second a b = true.
Proof.
  unfold check_target, only_first, only_second. repeat case_bool_decide; naive_solver.
Qed.

Lemma only_first_spec a b : only_first a b = true ↔ a ≠ "" ∧ b = "".
Proof. unfold only_first. rewrite andb_true_iff, !bool_decide_eq_true. done. Qed.
Lemma only_second_spec a b : only_second a b = true ↔ a = "" ∧ b ≠ "".
Proof. unfold only_second. rewrite andb_true_iff, !bool_decide_eq_true. done. Qed.

Lemma failover_patch_ok (k : kind) `{CrdLaws k} h name ns manner ft primary checked base :
  parse_manner manner = inr ft →
  Ev (Kube (Get k name ns)) (inr checked) ∈ h → primary ≠ crd_Primary checked → primary ∈ crd_all checked →
  failover_patch k (h ++ [Ev (Kube (Get k name ns)) (inr base)]) name ns manner primary base (set_spec ft primary base).
Proof.
  intros Hm Hc Hne Hin. exists ft, checked. split_and!; try done.
  - apply elem_of_app. by left.
  - apply in_snoc.
  - apply set_spec_only.
  - apply set_spec_primary.
  - intros ->. apply set_spec_unset.
  - intros Hp Ht. apply set_spec_valid; [done|]. unfold crd_all in *. by rewrite Ht.
Qed.

Lemma wp_failover {colors : Colors} vscr vvr ns manner primary h :
  wp (cli_allowed (CmdFailover vscr vvr ns manner primary)) (failover vscr vvr ns manner primary) h (fun _ _ => True).
Proof.
  unfold failover. destruct (check_target vscr vvr) eqn:Ht; [done|].
  destruct (parse_manner manner) as [|ft] eqn:Hm; [done|].
  apply wp_bind_call; [done|]. intros [e|[]]; [done|]. apply wp_bind_call; [done|]. intros ?. apply wp_bind.
  apply check_target_cases in Ht as [Ht|Ht].
  - pose proof Ht as [Hv ->]%only_first_spec. rewrite bool_decide_eq_true_2 by done.
    apply (wp_check_primary _ kVSCR). intros h' [[e|[]]|] _ Hc; [done| |done].
    destruct (Hc eq_refl) as (checked & Hg & Hne & Hin). apply wp_bind.
    unfold PatchReplicationSpec. rewrite bool_decide_eq_true_2 by done.
    apply (wp_patch _ kVSCR); [|by intros h'' [e|]].
    intros base. split; [done|]. exact (failover_patch_ok _ _ _ _ _ _ _ checked base Hm Hg Hne Hin).
  - pose proof Ht as [-> Hv]%only_second_spec. rewrite bool_decide_eq_false_2 by naive_solver.
    apply (wp_check_primary _ kVVR). intros h' [[e|[]]|] _ Hc; [done| |done].
    destruct (Hc eq_refl) as (checked & Hg & Hne & Hin). apply wp_bind.
    unfold PatchReplicationSpec. rewrite bool_decide_eq_false_2, bool_decide_eq_true_2 by naive_solver.
    apply (wp_patch _ kVVR); [|by intros h'' [e|]].
    intros base. split; [done|]. exact (failover_patch_ok _ _ _ _ _ _ _ checked base Hm Hg Hne Hin).
Qed.

Lemma wp_sync {colors : Colors} vscr vvr ns h :
  wp (cli_allowed (CmdSync vscr vvr ns)) (sync vscr vvr ns) h (fun _ _ => True).
Proof.
  unfold sync. destruct (check_target vscr vvr) eqn:Ht; [done|].
  apply wp_bind_call; [done|]. intros [e|[]]; [done|]. apply wp_bind_call; [done|]. intros ?. apply wp_bind.
  unfold PatchReplicationResync. apply check_target_cases in Ht as [Ht|Ht].
  - pose proof Ht as [Hv ->]%only_first_spec. rewrite bool_decide_eq_true_2 by done.
    apply (wp_patch _ kVSCR); [|by intros h'' [e|]].
    intros base. split_and!; [done|apply in_snoc|done|apply set_resync_only].
  - pose proof Ht as [-> Hv]%only_second_spec. rewrite bool_decide_eq_false_2, bool_decide_eq_true_2 by naive_solver.
    apply (wp_patch _ kVVR); [|by intros h'' [e|]].
    intros base. split_and!; [done|apply in_snoc|done|apply set_resync_only].
Qed.

Lemma confirmed_app yes t u : confirmed yes t → confirmed yes (t ++ u).
Proof.
  intros [?|(a & ? & ?)]; [by left|right]. exists a. split; [|done]. apply elem_of_app. by left.
Qed.

Lemma wp_confirm cmd yes prompt h (Q : CliTrace → bool → Prop) :
  (∀ h', Q h' false) →
  (∀ h', confirmed yes h' → Q h' true) →
  wp (cli_allowed cmd) (confirm_deletion yes prompt) h Q.
Proof.
  intros Hf Ht. unfold confirm_deletion. destruct yes; [apply Ht; by left|].
  apply wp_bind_call; [done|]. intros ?. apply wp_bind_call; [done|]. intros answer.
  unfold confirms. case_bool_decide.
  - apply Ht. right. exists answer. split; [apply in_snoc|done].
  - split; [done|]. intros ?. apply Hf.
Qed.

Lemma wp_delete_command {colors : Colors} vscr vvr ns yes h :
  wp (cli_allowed (CmdDelete vscr vvr ns yes)) (delete vscr vvr ns yes) h (fun _ _ => True).
Proof.
  unfold delete. destruct (check_target vscr vvr) eqn:Ht; [done|].
  apply wp_bind_call; [done|]. intros [e|[]]; [done|]. apply wp_bind.
  apply wp_confirm; [done|]. intros h' Hc. apply wp_bind_call; [done|]. intros ?. apply wp_bind.
  apply check_target_cases in Ht as [Ht|Ht].
  - pose proof Ht as [Hv ->]%only_first_spec. rewrite bool_decide_eq_true_2 by done.
    apply (wp_delete _ kVSCR); [|by intros h'' [e|]]. intros obj. split; [|by intros [e|[]]; simpl; repeat case_match].
    split; [done|]. split; [|apply in_snoc]. by do 2 apply confirmed_app.
  - pose proof Ht as [-> Hv]%only_second_spec. rewrite bool_decide_eq_false_2 by naive_solver.
    apply (wp_delete _ kVVR); [|by intros h'' [e|]]. intros obj. split; [|by intros [e|[]]; simpl; repeat case_match].
    split; [done|]. split; [|apply in_snoc]. by do 2 apply confirmed_app.
Qed.

Lemma wp_kube_call cmd c h (Q : CliTrace → resp c → Prop) :
  cli_allowed cmd h (Kube c) → (∀ r : resp c, Q (h ++ [Ev (Kube c) r]) r) →
  wp (cli_allowed cmd) (kube (call c)) h Q.
Proof. by split. Qed.

(** Printing reads nothing but the clock and writes nothing. *)
Lemma wp_rows cmd {A} (row : Z → A → listRow) objs h (Q : CliTrace → list listRow → Prop) :
  (∀ h' rows, Q h' rows) → wp (cli_allowed cmd) (rows_of row objs) h Q.
Proof.
  revert h Q. induction objs as [|o objs IH]; intros h Q HQ; [apply HQ|].
  cbn [rows_of]. apply wp_bind, wp_kube_call; [done|]. intros now. apply wp_bind, IH. intros h' rows. apply HQ.
Qed.

Lemma wp_print cmd lines h (Q : CliTrace → unit → Prop) :
  (∀ h', Q h' ()) → wp (cli_allowed cmd) (print_all lines) h Q.
Proof.
  revert h. induction lines as [|l lines IH]; intros h HQ; [apply HQ|].
  cbn [print_all]. apply wp_bind_call; [done|]. intros ?. by apply IH.
Qed.

Lemma wp_list {colors : Colors} created ns all h :
  wp (cli_allowed (CmdList ns all)) (list_resources created ns all) h (fun _ _ => True).
Proof.
  unfold list_resources. apply wp_bind_call; [done|]. intros [e|[]]; [done|].
  apply wp_bind. split; [done|]. intros [e|vscrs]; [done|].
  apply wp_bind. split; [done|]. intros [e|vvrs]; [done|]. simpl.
  destruct (bool_decide _ && _); [by split|].
  unfold printListTable. apply wp_bind, wp_rows. intros h1 r1. apply wp_bind, wp_rows. intros h2 r2.
  destruct (table_lines _); [|done]. apply wp_bind, wp_print. done.
Qed.

Lemma wp_print_crd cmd (k : kind) `{CrdLaws k} lines name ns h :
  wp (cli_allowed cmd) (print_crd k lines name ns) h (fun _ _ => True).
Proof.
  unfold print_crd. rewrite crd_get_call. apply wp_bind. split; [done|]. intros [e|obj]; [done|].
  simpl. apply wp_bind, wp_print. done.
Qed.

Lemma wp_status {colors : Colors} dirs tenants vscr vvr ns h :
  wp (cli_allowed (CmdStatus vscr vvr ns)) (status dirs tenants vscr vvr ns) h (fun _ _ => True).
Proof.
  unfold status. destruct (check_target vscr vvr); [done|]. apply wp_bind_call; [done|].
  intros [e|[]]; [done|]. case_bool_decide; apply wp_print_crd; apply _.
Qed.


End Guarded.

(** ** The table of [list] *)

(** The column of cell [j] starts here. *)
Definition offset (widths : list Z) (j : nat) : Z :=
  foldr (fun w n => (w + gap + n)%Z) 0%Z (take j widths).

Definition fits (widths : list Z) (cols : list string) : Prop :=
  Forall2 (fun w c => (len c ≤ w)%Z) widths cols.

Lemma len_app a b : len (a +:+ b) = (len a + len b)%Z.
Proof. unfold len, strlen. rewrite chars_app, length_app. lia. Qed.

Lemma len_nonneg s : (0 ≤ len s)%Z.
Proof. unfold len. lia. Qed.

Lemma Repeat_space n : (0 ≤ n)%Z → ∃ p, Repeat " " n = Some p ∧ len p = n.
Proof.
  intros Hn. unfold Repeat. rewrite bool_decide_eq_false_2 by lia. eexists. split; [done|].
  unfold len, strlen. rewrite chars_str.
  assert (∀ k, length (concat (replicate k (chars " "))) = k) as H.
  { induction k as [|k IH]; [done|]. simpl in *. by rewrite IH. }
  rewrite H. lia.
Qed.

(** A cell that fits is padded to its column and the gap. *)
Lemma pad_fits w c : (len c ≤ w)%Z → ∃ p, Repeat " " (w - len c + gap) = Some p ∧
  pad (w - len c + gap) = p ∧ (len c + len p = w + gap)%Z.
Proof.
  intros Hc. unfold gap in *. destruct (Repeat_space (w - len c + 2)) as (p & Hp & Hl); [lia|].
  exists p. split; [done|]. split; [|lia]. unfold pad. rewrite bool_decide_eq_false_2 by lia. by rewrite Hp.
Qed.

Lemma widen_length W cols : length W = length cols → length (widen W cols) = length W.
Proof. intros H. unfold widen. rewrite length_zip_with. lia. Qed.

Lemma widen_fits W cols : length W = length cols → fits (widen W cols) cols.
Proof.
  revert cols. induction W as [|w W IH]; intros [|c cols] H; simplify_eq/=; constructor; [|by apply IH].
  case_bool_decide; lia.
Qed.

Lemma widen_keeps W cols cols' : length W = length cols → fits W cols' → fits (widen W cols) cols'.
Proof.
  intros H Hf. revert cols H. induction Hf as [|w c' W cols' Hw Hf IH]; intros [|c cols] H; simplify_eq/=;
    constructor; [case_bool_decide; lia|by apply IH].
Qed.

Lemma widths_fit rows W :
  length W = length headers →
  let W' := foldl (fun widths r => widen widths (rowCols r)) W rows in
  length W' = length headers ∧ (∀ cols, fits W cols → fits W' cols) ∧ ∀ r, r ∈ rows → fits W' (rowCols r).
Proof.
  revert W. induction rows as [|r rows IH]; intros W HW; simpl.
  { split_and!; [done|done|]. by intros r ?%elem_of_nil. }
  destruct (IH (widen W (rowCols r))) as (Hl & Hk & Hr); [by rewrite widen_length|].
  split_and!; [done| |].
  - intros cols Hf. by apply Hk, widen_keeps.
  - intros r' [->|Hin]%elem_of_cons; [|by apply Hr]. by apply Hk, widen_fits.
Qed.

Lemma table_widths_fit rows :
  length (table_widths rows) = length headers ∧ fits (table_widths rows) headers ∧
  ∀ r, r ∈ rows → fits (table_widths rows) (rowCols r).
Proof.
  destruct (widths_fit rows (map len headers)) as (Hl & Hk & Hr); [done|].
  split_and!; [done| |done]. apply Hk. unfold fits. clear. induction headers; constructor; [lia|done].
Qed.

(** Cells that fit are all printed, whatever their colours. *)
Lemma color_cells_total W cols colored : fits W cols → ∃ line, color_cells W cols colored = Some line.
Proof.
  intros Hf. revert colored. induction Hf as [|w c W cols Hw Hf IH]; intros colored.
  { destruct colored; simpl; eauto. }
  destruct colored as [|x colored]; [destruct cols; simpl; eauto|].
  destruct cols as [|c' cols]; [simpl; eauto|].
  destruct (pad_fits w c Hw) as (p & Hp & _). destruct (IH colored) as [rest Hrest].
  exists (x +:+ p +:+ rest). cbn [color_cells hd tail]. rewrite Hp. simpl in *. by rewrite Hrest.
Qed.

Lemma color_cells_plain W cols : fits W cols → color_cells W cols cols = Some (plain_cells W cols).
Proof.
  induction 1 as [|w c W cols Hw Hf IH]; [done|]. destruct cols as [|c' cols]; [done|].
  destruct (pad_fits w c Hw) as (p & Hp & Hpad & _). cbn [color_cells plain_cells hd tail] in *.
  rewrite Hp, Hpad. simpl in *. by rewrite IH.
Qed.

Lemma plain_cells_aligned W cols j c :
  fits W cols → cols !! j = Some c →
  ∃ pre post, plain_cells W cols = pre +:+ c +:+ post ∧ len pre = offset W j.
Proof.
  intros Hf. revert j. induction Hf as [|w x W cols Hw Hf IH]; intros j Hj; [done|].
  destruct (pad_fits w x Hw) as (p & _ & Hpad & Hlen).
  destruct j as [|j]; simplify_eq/=.
  - exists "". destruct cols as [|c' cols]; [exists ""|eexists]; (split; [|done]).
    + apply (inj chars). rewrite !chars_app. simpl. by rewrite app_nil_r.
    + done.
  - destruct (IH j Hj) as (pre & post & Heq & Hl). destruct cols as [|c' cols]; [done|].
    exists (x +:+ pad (w - len x + gap) +:+ pre), post. cbn [hd tail]. rewrite Heq. split.
    + apply (inj chars). by rewrite !chars_app, <-!app_assoc.
    + rewrite !len_app, Hl. unfold offset. simpl. lia.
Qed.

Lemma total_width_nonneg W n : (0 ≤ n)%Z → Forall (fun w => 0 ≤ w)%Z W → (0 ≤ foldl Z.add n W)%Z.
Proof.
  intros Hn HW. revert n Hn. induction HW as [|w W Hw HW IH]; intros n Hn; [done|]. simpl. apply IH. lia.
Qed.

Lemma fits_nonneg W cols : fits W cols → Forall (fun w => 0 ≤ w)%Z W.
Proof.
  induction 1 as [|w c W cols Hw Hf IH]; constructor; [|done]. pose proof (len_nonneg c). lia.
Qed.

Lemma table_lines_total {colors : Colors} rows : ∃ rule body,
  table_lines rows = Some (plain_cells (table_widths rows) headers :: rule :: body) ∧
  Forall2 (fun r line => color_cells (table_widths rows) (rowCols r) (color_row r) = Some line) rows body.
Proof.
  destruct (table_widths_fit rows) as (_ & Hh & Hr). unfold table_lines.
  assert (0 ≤ foldl Z.add (gap * (Z.of_nat (length headers) - 1)) (table_widths rows))%Z as Hw.
  { apply total_width_nonneg; [unfold gap; simpl; lia|]. by eapply fits_nonneg. }
  unfold Repeat at 1. rewrite bool_decide_eq_false_2 by lia. simpl.
  assert (∃ body, Forall2 (fun r line => color_cells (table_widths rows) (rowCols r) (color_row r) = Some line)
            rows body) as [body Hb].
  { revert Hr. generalize (table_widths rows) as W. clear. induction rows as [|r rows IH]; intros W Hr; [by exists []|].
    destruct (color_cells_total W (rowCols r) (color_row r)) as [line Hl]; [apply Hr; by left|].
    destruct (IH W) as [body Hb]; [intros; apply Hr; by right|]. exists (line :: body). by constructor. }
  eexists _, body. split; [|done].
  rewrite (proj2 (mapM_Some _ rows body)); [done|]. done.
Qed.

(** The table [list] prints: whatever the rows and the colours, no padding is
    negative, so it never panics; without colours every cell of the header and of
    every row starts at the offset of its column. *)
Theorem list_table_aligned (rows : list listRow) :
  (∀ colors : Colors, is_Some (table_lines rows)) ∧
  ∃ header rule body,
    table_lines (colors := plain_colors) rows = Some (header :: rule :: body) ∧
    length body = length rows ∧
    (∀ j c, headers !! j = Some c →
       ∃ pre post, header = pre +:+ c +:+ post ∧ len pre = offset (table_widths rows) j) ∧
    (∀ i r line j c, rows !! i = Some r → body !! i = Some line → rowCols r !! j = Some c →
       ∃ pre post, line = pre +:+ c +:+ post ∧ len pre = offset (table_widths rows) j).
Proof.
  split. { intros colors. destruct (table_lines_total rows) as (rule & body & -> & _). eauto. }
  destruct (table_widths_fit rows) as (_ & Hh & Hr).
  destruct (table_lines_total (colors := plain_colors) rows) as (rule & body & Ht & Hb).
  exists (plain_cells (table_widths rows) headers), rule, body. split_and!; [done| | |].
  - symmetry. by eapply Forall2_length.
  - intros j c Hj. by eapply plain_cells_aligned.
  - intros i r line j c Hi Hl Hj.
    pose proof (Forall2_lookup_lr _ _ _ _ _ _ Hb Hi Hl) as Hc. cbv beta in Hc.
    assert (fits (table_widths rows) (rowCols r)) as Hf by (apply Hr; by eapply list_elem_of_lookup_2).
    assert (color_row (colors := plain_colors) r = rowCols r) as E.
    { unfold color_row, rowCols, color_SyncStatus. simpl. by repeat case_bool_decide. }
    rewrite E, color_cells_plain in Hc by done.
    assert (line = plain_cells (table_widths rows) (rowCols r)) as -> by congruence.
    by apply plain_cells_aligned.
Qed.

(** ** Runs *)

Definition cli_vscr : VSCR := mkVSCR (plain_meta "default" "repl")
  (mkVSCRSpec "sc-a" [mkTarget "sc-a" "sc-b" "" ""] (mkTemplate []) FailoverTypeGraceful false 60 false false
     DestVolReclaimPolicyRetain "")
  (mkStatus FailoverTypeUnset "" "" ∅ ∅ "" "").

Definition cli_answer (c : CliCall) : cresp c :=
  match c return cresp c with
  | Kube c =>
      match c return resp c with
      | Get k name ns => match k return result (kobj k) with
                         | kVSCR => inr cli_vscr
                         | _ => inl (ErrStatus ReasonNotFound "not found")
                         end
      | c => quiet c
      end
  | GetK8sClient => inr ()
  | ReadLine => "Y"
  | Print _ => ()
  end.

Definition cli_handler (c : CliCall) (s : unit) : unit * cresp c := (s, cli_answer c).

Definition cli_demo : Command := CmdFailover "repl" "" "default" "" "sc-b".
Definition cli_demo_run : unit * CliTrace * cli_outcome :=
  exec cli_handler (run_command (colors := plain_colors) (fun _ => None) (fun _ => []) (fun _ => []) cli_demo) ().

(** The patch of the run: the failover type of the last failover stays. *)
Definition cli_demo_patch : CliCall :=
  Kube (Patch kVSCR cli_vscr (vscr_with cli_vscr "sc-b" FailoverTypeGraceful false)).

