(* ===== verification/Events.v ===== *)
(** * Events and request IDs

    [internal/common/events]: recorders ([k8s_recorder.go], [log_recorder.go]),
    reporters and reporters bound to objects ([reporter.go]), the reasons
    ([reasons.go]); and the request IDs of [internal/common/logging/rainbow.go].

    A [BoundReporter] is shared through a pointer and remembers whether a
    warning went through it, while [Bind] and [WithLogger] make new ones: the
    reporters live in a heap, and what the code does with them is a sequence of
    operations on it.  [fmt.Sprintf] has been applied to the messages. *)

From S2P Require Import Prelude GoErrors Topology.
From stdpp Require Import options.

(** ** Recorders *)

Definition EventTypeNormal := "Normal".
Definition EventTypeWarning := "Warning".

(** An object an event is about; [o_client] says whether it is a
    [client.Object], the only ones whose metadata the log recorder can read. *)
Record EventObject := mkEventObject { o_Kind : string; o_Meta : ObjectMeta; o_client : bool }.

Inductive Level := LInfo | LWarn.

(** What leaves the program: a Kubernetes event, a log line for one, or the log
    line for an object without metadata. *)
Inductive Emission :=
| K8sEvent (component : string) (o : EventObject) (eventType reason message : string)
| LogEvent (logger : string) (level : Level) (eventType kind namespace name reason message : string)
| LogNoMetadata (logger : string)
| Stdout (line : string).

(** Loggers are known by name. *)
Inductive Recorder :=
| k8sEventRecorder (component : string)
| logRecorder (logger : string)
| k8sMultiEventRecorder (recorders : list Recorder).

Definition k8sEventRecorder_Event (component : string) (o : EventObject) (eventType reason message : string)
    : list Emission * option error :=
  ([K8sEvent component o eventType reason message], None).

Definition logRecorder_Event (logger : string) (o : EventObject) (eventType reason message : string)
    : list Emission * option error :=
  if negb (o_client o) then ([LogNoMetadata logger], None)
  else
    let level := if bool_decide (eventType = EventTypeWarning) then LWarn else LInfo in
    ([LogEvent logger level eventType (o_Kind o) (Namespace (o_Meta o)) (Name (o_Meta o)) reason message], None).

(** [errors.Join]: nil when there is nothing to join; the joined error unwraps to
    its parts like a [DeferredError]. *)
Definition errors_Join (errs : list error) : option error :=
  if bool_decide (length errs = 0) then None else Some (DeferredError errs).

Fixpoint Recorder_Event (r : Recorder) (o : EventObject) (eventType reason message : string)
    : list Emission * option error :=
  match r with
  | k8sEventRecorder c => k8sEventRecorder_Event c o eventType reason message
  | logRecorder l => logRecorder_Event l o eventType reason message
  | k8sMultiEventRecorder rs =>
      let results := map (fun r => Recorder_Event r o eventType reason message) rs in
      (concat (map fst results), errors_Join (omap snd results))
  end.

(** ** Reporters *)

(** [NewEventReporter]: the first recorder that cannot be made fails the reporter. *)
Fixpoint NewEventReporter (recorderOptions : list (result Recorder)) : result (list Recorder) :=
  match recorderOptions with
  | [] => mret []
  | opt :: opts =>
      rec ← wrap_err "failed to create recorder: " opt;
      recs ← NewEventReporter opts;
      mret (rec :: recs)
  end.

(** [kubernetes.NewForConfig] may fail; neither recorder does. *)
Definition NewEventReporterForManager (newForConfig : result unit) (logger component : string)
    : result (list Recorder) :=
  _ ← wrap_err "failed to create Kubernetes client: " newForConfig;
  NewEventReporter [inr (k8sEventRecorder component); inr (logRecorder logger)].

Definition report_failure (err : option error) : list Emission :=
  match err with
  | Some e => [Stdout ("failed to record event: " +:+ error_msg e)]
  | None => []
  end.

Definition record_one (r : Recorder) (o : EventObject) (eventType reason message : string) : list Emission :=
  let '(out, err) := Recorder_Event r o eventType reason message in out ++ report_failure err.

Definition EventReporter_Event (er : list Recorder) (o : EventObject) (eventType reason message : string)
    : list Emission :=
  concat (map (fun r => record_one r o eventType reason message) er).

Definition is_logRecorder (r : Recorder) : bool := match r with logRecorder _ => true | _ => false end.

Definition eventK8sOnly (er : list Recorder) (o : EventObject) (eventType reason message : string)
    : list Emission :=
  concat (map (fun r => if is_logRecorder r then [] else record_one r o eventType reason message) er).

(** [None] is the no-op logger. *)
Definition EventReporter_Logger (er : list Recorder) : option string :=
  head (omap (fun r => match r with logRecorder l => Some l | _ => None end) er).

Definition withLogger (er : list Recorder) (l : string) : list Recorder :=
  map (fun r => if is_logRecorder r then logRecorder l else r) er.

(** ** Bound reporters *)

Record BoundReporter := mkBound {
  br_er : list Recorder;
  br_objects : list EventObject;
  br_warned : bool;
}.

Definition For (er : list Recorder) (o : EventObject) : BoundReporter := mkBound er [o] false.
Definition WithLogger (br : BoundReporter) (l : string) : BoundReporter :=
  mkBound (withLogger (br_er br) l) (br_objects br) false.
Definition Bind (br : BoundReporter) (parent : EventObject) : BoundReporter :=
  mkBound (br_er br) (br_objects br ++ [parent]) false.

Definition BoundReporter_Event (br : BoundReporter) (eventType reason message : string) : list Emission :=
  match br_objects br with
  | [] => []
  | o :: os =>
      EventReporter_Event (br_er br) o eventType reason message ++
      concat (map (fun o => eventK8sOnly (br_er br) o eventType reason message) os)
  end.

Definition HasWarned (br : BoundReporter) : bool := br_warned br.

(** ** The heap of reporters *)

Record ReporterState := mkReporters {
  rs_heap : list BoundReporter;       (* by address *)
  rs_out : list Emission;
}.

Inductive ReporterOp :=
| OpFor (er : list Recorder) (o : EventObject)
| OpWithLogger (id : nat) (l : string)
| OpBind (id : nat) (parent : EventObject)
| OpEvent (id : nat) (eventType reason message : string)
| OpWarning (id : nat) (reason message : string)
| OpNormal (id : nat) (reason message : string).

Definition alloc (st : ReporterState) (br : BoundReporter) : ReporterState :=
  mkReporters (rs_heap st ++ [br]) (rs_out st).
Definition emit (st : ReporterState) (out : list Emission) : ReporterState :=
  mkReporters (rs_heap st) (rs_out st ++ out).

Definition Warning (st : ReporterState) (id : nat) (br : BoundReporter) (reason message : string) : ReporterState :=
  emit (mkReporters (<[id := mkBound (br_er br) (br_objects br) true]> (rs_heap st)) (rs_out st))
    (BoundReporter_Event br EventTypeWarning reason message).

(** [None]: no reporter at the address. *)
Definition reporter_step (st : ReporterState) (op : ReporterOp) : option ReporterState :=
  match op with
  | OpFor er o => Some (alloc st (For er o))
  | OpWithLogger id l => br ← rs_heap st !! id; Some (alloc st (WithLogger br l))
  | OpBind id parent => br ← rs_heap st !! id; Some (alloc st (Bind br parent))
  | OpEvent id ty reason message => br ← rs_heap st !! id; Some (emit st (BoundReporter_Event br ty reason message))
  | OpWarning id reason message => br ← rs_heap st !! id; Some (Warning st id br reason message)
  | OpNormal id reason message =>
      br ← rs_heap st !! id; Some (emit st (BoundReporter_Event br EventTypeNormal reason message))
  end.

Inductive reporter_runs : list ReporterOp → ReporterState → Prop :=
| reporter_start : reporter_runs [] (mkReporters [] [])
| reporter_next ops st op st' :
    reporter_runs ops st → reporter_step st op = Some st' → reporter_runs (ops ++ [op]) st'.

(** Reporters are made for the two recorders of the manager. *)
Definition manager_op (component : string) (op : ReporterOp) : Prop :=
  match op with OpFor er _ => ∃ l, er = [k8sEventRecorder component; logRecorder l] | _ => True end.

(** ** Lemmas *)

Lemma record_one_k8s c o ty reason msg : record_one (k8sEventRecorder c) o ty reason msg = [K8sEvent c o ty reason msg].
Proof. done. Qed.

(** Recording never fails, so nothing is printed about failures. *)
Lemma Recorder_Event_no_error r o ty reason msg : (Recorder_Event r o ty reason msg).2 = None.
Proof.
  revert r. fix IH 1. intros [c|l|rs]; [done|simpl; unfold logRecorder_Event; by destruct (o_client o)|].
  simpl. unfold errors_Join. rewrite bool_decide_eq_true_2; [done|].
  induction rs as [|r rs IHrs]; [done|]. simpl. rewrite (IH r). apply IHrs.
Qed.

(** *** The reporter of the manager *)

Section ManagerReporter.

Variable component : string.

Definition log_line (l : string) (o : EventObject) (ty reason msg : string) : Emission :=
  if o_client o
  then LogEvent l (if bool_decide (ty = EventTypeWarning) then LWarn else LInfo) ty (o_Kind o)
         (Namespace (o_Meta o)) (Name (o_Meta o)) reason msg
  else LogNoMetadata l.

(** What a bound reporter of the manager looks like, and what it has been used for. *)
Definition reporter_ok (ops : list ReporterOp) (id : nat) (br : BoundReporter) : Prop :=
  (∃ l, br_er br = [k8sEventRecorder component; logRecorder l]) ∧ br_objects br ≠ [] ∧
  (HasWarned br = true ↔ ∃ reason msg, OpWarning id reason msg ∈ ops).

Lemma reporter_ok_more ops op id br :
  (∀ reason msg, op ≠ OpWarning id reason msg) → reporter_ok ops id br → reporter_ok (ops ++ [op]) id br.
Proof.
  intros Hop (Hr & Ho & Hw). split_and!; [done..|]. rewrite Hw.
  split; intros (reason & msg & Hin); exists reason, msg.
  - apply elem_of_app. by left.
  - apply elem_of_app in Hin as [?|[=]%list_elem_of_singleton]; [done|]. by destruct (Hop reason msg).
Qed.

(** No operation has named an address that was not allocated yet. *)
Lemma ops_in_heap ops st :
  reporter_runs ops st → ∀ id reason msg, OpWarning id reason msg ∈ ops → id < length (rs_heap st).
Proof.
  induction 1 as [|ops st op st' Hr IH Hs]; intros id reason msg Hin; [by apply elem_of_nil in Hin|].
  assert (length (rs_heap st) ≤ length (rs_heap st')) as Hle.
  { destruct op; simpl in Hs; repeat (case_match; simplify_eq/=); simplify_option_eq; simpl;
      rewrite ?length_app, ?length_insert; lia. }
  apply elem_of_app in Hin as [Hin|<-%list_elem_of_singleton].
  - apply IH in Hin. lia.
  - simpl in Hs. destruct (rs_heap st !! id) eqn:E; [|done]. apply lookup_lt_Some in E. lia.
Qed.

Lemma withLogger_manager l l' : withLogger [k8sEventRecorder component; logRecorder l] l' =
  [k8sEventRecorder component; logRecorder l'].
Proof. done. Qed.

Lemma reporters_ok ops st :
  reporter_runs ops st → Forall (manager_op component) ops →
  ∀ id br, rs_heap st !! id = Some br → reporter_ok ops id br.
Proof.
  induction 1 as [|ops st op st' Hr IH Hs]; intros Hm id br Hid; [done|].
  apply Forall_app in Hm as [Hm [Hop _]%Forall_cons]. specialize (IH Hm).
  assert (∀ id reason msg, OpWarning id reason msg ∈ ops → id < length (rs_heap st)) as Hlt by (by apply ops_in_heap).
  (* a fresh reporter *)
  assert (∀ br0, (∃ l, br_er br0 = [k8sEventRecorder component; logRecorder l]) → br_objects br0 ≠ [] →
    br_warned br0 = false → st' = alloc st br0 → (∀ id reason msg, op ≠ OpWarning id reason msg) →
    reporter_ok (ops ++ [op]) id br) as Hfresh.
  { intros br0 Her Hobj Hw -> Hnw. simpl in Hid. apply reporter_ok_more; [done|].
    apply lookup_app_Some in Hid as [Hid|[Hge Hid]]; [by apply IH|].
    apply list_lookup_singleton_Some in Hid as [H0 <-]. split_and!; [done..|].
    unfold HasWarned. rewrite Hw. split; [done|]. intros (reason & msg & Hin%Hlt). lia. }
  (* the heap is kept *)
  assert (∀ out, st' = emit st out → (∀ id reason msg, op ≠ OpWarning id reason msg) →
    reporter_ok (ops ++ [op]) id br) as Hkeep.
  { intros out -> Hnw. apply reporter_ok_more; [done|]. by apply IH. }
  destruct op as [er o|i l|i parent|i ty reason msg|i reason msg|i reason msg]; simpl in Hs.
  1: { injection Hs as <-. by apply (Hfresh (For er o)). }
  all: destruct (rs_heap st !! i) as [b|] eqn:Hi; [|done]; injection Hs as <-; pose proof (IH i b Hi) as ([l' Hl] & Ho & Hw).
  - apply (Hfresh (WithLogger b l)); try done. exists l. simpl. by rewrite Hl.
  - apply (Hfresh (Bind b parent)); try done; [by exists l'|]. simpl. by destruct (br_objects b).
  - by eapply Hkeep.
  - simpl in Hid. destruct (decide (id = i)) as [->|Hne].
    + apply lookup_lt_Some in Hi. rewrite list_lookup_insert_eq in Hid by done. injection Hid as <-.
      split_and!; [by exists l'|done|]. split; [|done]. intros _. exists reason, msg. apply elem_of_app. right. by left.
    + rewrite list_lookup_insert_ne in Hid by done. apply reporter_ok_more; [naive_solver|]. by apply IH.
  - by eapply Hkeep.
Qed.


End ManagerReporter.

(** ** Reasons *)

Definition ReasonProvisionSucceeded := "ProvisionSucceeded".
Definition ReasonProvisionFailed := "ProvisionFailed".
Definition ReasonProvisionSkipped := "ProvisionSkipped".
Definition ReasonCleanupSucceeded := "CleanupSucceeded".
Definition ReasonCleanupFailed := "CleanupFailed".
Definition ReasonMirroredObjectPending := "MirroredObjectPending".
Definition ReasonStatusUpdateFailed := "StatusUpdateFailed".
Definition ReasonConfigInvalid := "ConfigInvalid".
Definition ReasonPVCPVCreated := "PVCPVCreated".
Definition ReasonPVCPVPairsComplete := "PVCPVPairsComplete".
Definition ReasonVolumesEnsured := "VolumesEnsured".
Definition ReasonViewCreated := "ViewCreated".
Definition ReasonQuotaCreated := "QuotaCreated".
Definition ReasonReplicationClassEnsured := "ReplicationClassEnsured".
Definition ReasonVolumeReplicationCreated := "VolumeReplicationCreated".
Definition ReasonVolumeGroupReplicationCreated := "VolumeGroupReplicationCreated".
Definition ReasonVolumeReplicationUpdated := "VolumeReplicationUpdated".
Definition ReasonVolumeGroupReplicationUpdated := "VolumeGroupReplicationUpdated".
Definition ReasonVRCCreated := "VRCCreated".
Definition ReasonVRCUpdated := "VRCUpdated".
Definition ReasonPpathNotReady := "PpathNotReady".
Definition ReasonPeerTargetPathCleared := "PeerTargetPathCleared".
Definition ReasonReconcileFailed := "ReconcileFailed".
Definition ReasonPpathDisabled := "PpathDisabled".
Definition ReasonPpathDeleted := "PpathDeleted".
Definition ReasonCleanupStarted := "CleanupStarted".
Definition ReasonVolumeReplicationDeleted := "VolumeReplicationDeleted".
Definition ReasonVolumeGroupReplicationDeleted := "VolumeGroupReplicationDeleted".
Definition ReasonSnapshotsDeleted := "SnapshotsDeleted".
Definition ReasonVASTVolumeDeleted := "VASTVolumeDeleted".
Definition ReasonPVCDeleted := "PVCDeleted".
Definition ReasonPVCDeleteSkipped := "PVCDeleteSkipped".
Definition ReasonPVDeleted := "PVDeleted".
Definition ReasonPrimaryStorageClassChanged := "PrimaryStorageClassChanged".
Definition ReasonActionChanged := "ActionChanged".

Definition event_reasons : list string :=
  [ReasonProvisionSucceeded; ReasonProvisionFailed; ReasonProvisionSkipped;
   ReasonCleanupSucceeded; ReasonCleanupFailed; ReasonMirroredObjectPending;
   ReasonStatusUpdateFailed; ReasonConfigInvalid; ReasonPVCPVCreated;
   ReasonPVCPVPairsComplete; ReasonVolumesEnsured; ReasonViewCreated;
   ReasonQuotaCreated; ReasonReplicationClassEnsured; ReasonVolumeReplicationCreated;
   ReasonVolumeGroupReplicationCreated; ReasonVolumeReplicationUpdated; ReasonVolumeGroupReplicationUpdated;
   ReasonVRCCreated; ReasonVRCUpdated; ReasonPpathNotReady;
   ReasonPeerTargetPathCleared; ReasonReconcileFailed; ReasonPpathDisabled;
   ReasonPpathDeleted; ReasonCleanupStarted; ReasonVolumeReplicationDeleted;
   ReasonVolumeGroupReplicationDeleted; ReasonSnapshotsDeleted; ReasonVASTVolumeDeleted;
   ReasonPVCDeleted; ReasonPVCDeleteSkipped; ReasonPVDeleted;
   ReasonPrimaryStorageClassChanged; ReasonActionChanged].

(** No two reasons look the same on an object. *)
Lemma event_reasons_distinct : NoDup event_reasons.
Proof. apply (bool_decide_unpack _). by vm_compute. Qed.

(** ** Request IDs

    A [uint32] counter, incremented atomically and printed with [0x%08x]. *)

Definition wrap32 (z : Z) : Z := (z mod 2 ^ 32)%Z.

(** [%0<n>x] of a number below [16^n]. *)
Fixpoint hex (n : nat) (z : Z) : list ascii :=
  match n with
  | O => []
  | S n' => hex n' (z / 16) ++ [hex_digit (Z.to_N (z mod 16))]
  end.

(** The ID and the counter behind it. *)
Definition newRequestID (counter : Z) : string * Z :=
  let c := wrap32 (counter + 1) in ("0x" +:+ str (hex 8 c), c).

(** The IDs of consecutive requests. *)
Fixpoint requestIDs (n : nat) (counter : Z) : list string :=
  match n with
  | O => []
  | S n' => let '(id, c) := newRequestID counter in id :: requestIDs n' c
  end.

Definition palette : list string := ["35"; "36"; "90"; "33"; "32"; "34"].
Definition ESC : string := String (ascii_of_nat 27) EmptyString.
Definition ansiWrap (code s : string) : string := "| " +:+ ESC +:+ "[" +:+ code +:+ "m" +:+ s +:+ ESC +:+ "[0m |".

(** The colouring of an instance, and the counter of instances. *)
Definition RainbowLogger_New (devLogging : bool) (colorCounter : Z) : option (string → string) * Z :=
  if devLogging then
    let c := wrap32 (colorCounter + 1) in
    let idx := wrap32 (c - 1) in
    (ansiWrap <$> palette !! Z.to_nat (idx mod Z.of_nat (length palette)), c)
  else (Some id, colorCounter).

(** A colour is always found in the palette. *)
Lemma RainbowLogger_New_total dev c : is_Some (RainbowLogger_New dev c).1.
Proof.
  unfold RainbowLogger_New. destruct dev; [|by eexists]. simpl.
  apply fmap_is_Some, lookup_lt_is_Some.
  change (length palette) with 6. pose proof (Z.mod_pos_bound (wrap32 (wrap32 (c + 1) - 1)) 6). lia.
Qed.

Lemma hex_digit_inj (a b : N) : (a < 16)%N → (b < 16)%N → hex_digit a = hex_digit b → a = b.
Proof.
  intros Ha Hb H. apply (f_equal N_of_ascii) in H. unfold hex_digit in H.
  destruct (N.ltb_spec a 10), (N.ltb_spec b 10); rewrite !N_ascii_embedding in H by lia; lia.
Qed.

Lemma hex_inj n z z' : (0 ≤ z < 16 ^ Z.of_nat n)%Z → (0 ≤ z' < 16 ^ Z.of_nat n)%Z → hex n z = hex n z' → z = z'.
Proof.
  revert z z'. induction n as [|n IH]; intros z z' Hz Hz' H; [simpl in *; lia|].
  cbn [hex] in H. apply app_inj_tail in H as [Hd Hm].
  rewrite Nat2Z.inj_succ, Z.pow_succ_r in Hz, Hz' by lia.
  assert (z / 16 = z' / 16)%Z as Hq.
  { apply IH; [| |done]; split; try (apply Z.div_pos; lia); apply Z.div_lt_upper_bound; lia. }
  pose proof (Z.mod_pos_bound z 16). pose proof (Z.mod_pos_bound z' 16).
  apply hex_digit_inj in Hm; [|lia|lia].
  rewrite (Z.div_mod z 16), (Z.div_mod z' 16) by lia. rewrite Hq. f_equal. lia.
Qed.

Lemma requestIDs_lookup n counter i :
  i < n → requestIDs n counter !! i = Some ("0x" +:+ str (hex 8 (wrap32 (counter + 1 + Z.of_nat i)))).
Proof.
  revert counter i. induction n as [|n IH]; intros counter i Hi; [lia|].
  destruct i as [|i]; [simpl; by rewrite Z.add_0_r|]. cbn [requestIDs newRequestID]. simpl lookup.
  assert (wrap32 (wrap32 (counter + 1) + 1 + Z.of_nat i) = wrap32 (counter + 1 + Z.of_nat (S i))) as E.
  { unfold wrap32. rewrite <-Z.add_assoc, Zplus_mod_idemp_l. f_equal. lia. }
  rewrite IH, E by lia. done.
Qed.

(** Request IDs are unique as long as the counter does not come round: among
    any 2^32 consecutive requests, from any start of the [uint32] counter, no two
    IDs are equal, while the ID after them repeats the first one. *)
Theorem request_ids_unique (counter : Z) (n : nat) :
  (Z.of_nat n ≤ 2 ^ 32)%Z →
  NoDup (requestIDs n counter) ∧ (newRequestID (counter + 2 ^ 32)).1 = (newRequestID counter).1.
Proof.
  intros Hn. split; cycle 1.
  { unfold newRequestID, wrap32. cbn [fst]. do 3 f_equal.
    replace (counter + 2 ^ 32 + 1)%Z with (counter + 1 + 1 * 2 ^ 32)%Z by lia. by rewrite Z.mod_add. }
  apply NoDup_alt. intros i j id Hi Hj.
  assert (∀ k, is_Some (requestIDs n counter !! k) → k < n) as Hlt.
  { assert (length (requestIDs n counter) = n) as Hl by (clear; revert counter; induction n; intros; simpl; by f_equal).
    intros k Hk. apply lookup_lt_is_Some in Hk. lia. }
  assert (i < n) by (apply Hlt; eauto). assert (j < n) by (apply Hlt; eauto).
  rewrite requestIDs_lookup in Hi, Hj by done. rewrite <-Hj in Hi. apply (inj Some) in Hi.
  apply (f_equal chars) in Hi. rewrite !chars_app, !chars_str in Hi. apply app_inv_head, hex_inj in Hi.
  - unfold wrap32 in Hi. set (c := (counter + 1)%Z) in *.
    assert (((c + Z.of_nat i) - (c + Z.of_nat j)) mod 2 ^ 32 = 0)%Z as Hm
      by (rewrite Zminus_mod, Hi, Z.sub_diag; done).
    apply Z.mod_divide in Hm as [q Hq]; [|done]. nia.
  - unfold wrap32. apply Z.mod_pos_bound. lia.
  - unfold wrap32. apply Z.mod_pos_bound. lia.
Qed.

Lemma request_ids_unique_witness :
  (Z.of_nat 3 ≤ 2 ^ 32)%Z ∧ requestIDs 3 (2 ^ 32 - 2) = ["0xffffffff"; "0x00000000"; "0x00000001"] ∧
  NoDup (requestIDs 3 (2 ^ 32 - 2)).
Proof. split; [lia|]. split; [by vm_compute|]. apply (proj1 (request_ids_unique (2 ^ 32 - 2) 3 ltac:(lia))). Defined.

(** ** Runs *)

Definition demo_content : EventObject := mkEventObject "VastReplicationContent" (plain_meta "ns" "vrc") true.
Definition demo_parent : EventObject := mkEventObject "VastStorageClassReplication" (plain_meta "ns" "vscr") true.
Definition demo_ops : list ReporterOp :=
  [OpFor [k8sEventRecorder "vastreplicationcontent"; logRecorder "base"] demo_content;
   OpWithLogger 0 "reconcile"; OpBind 1 demo_parent; OpWarning 2 ReasonProvisionFailed "no such class"].

(** The operations, one after the other. *)
Definition run_ops (ops : list ReporterOp) : option ReporterState :=
  foldl (fun s op => s ≫= fun st => reporter_step st op) (Some (mkReporters [] [])) ops.

Lemma run_ops_runs ops st : run_ops ops = Some st → reporter_runs ops st.
Proof.
  revert st. induction ops as [|op ops IH] using rev_ind; intros st; [intros [= <-]; constructor|].
  unfold run_ops. rewrite foldl_app. simpl. fold (run_ops ops).
  destruct (run_ops ops) as [st0|]; [|done]. intros H. eapply reporter_next; [by apply IH|done].
Qed.

Definition demo_state : option ReporterState := run_ops demo_ops.

