(* ===== verification/VolumeBuilders.v ===== *)
(** * Builders of PersistentVolumes and their claims

    [internal/provisioner/builder]: [object_meta.go],
    [persistent_volume_builder.go] and [persistent_volume_claim_builder.go].
    The objects are kept here with every field a builder method writes: the
    four secret references of a CSI source, the claim reference, the phase,
    the resource version.  The fields no method reads or writes are carried
    along by name, since a builder may start from an existing object.  The
    mirrors of [Mirrors] are shown to be what the two chains of method calls
    in [ensureMirrorPVCPV] build.  A nil map and an empty one are the same
    here, as no method tells them apart. *)

From S2P Require Import Prelude GoErrors Topology Kube Naming PpathDir Programs Api ContentController Client Builders Ppath Mirrors.
From stdpp Require Import options.

(** ** Metadata and its options *)

Record VolumeMeta := mkVolumeMeta {
  vm_Meta : ObjectMeta;
  vm_ResourceVersion : string;
  vm_CreationTimestamp : option Z;               (* None: the zero time *)
}.

Definition fresh_meta (ns name : string) : VolumeMeta :=
  mkVolumeMeta (mkMeta name ns "" ∅ ∅ [] [] 0 false) "" None.

(** What an option does to the metadata of an object: all it can reach
    through the interface [metav1.Object]. *)
Definition ObjectMetaOpt := VolumeMeta → VolumeMeta.

Definition on_common (f : ObjectMeta → ObjectMeta) : ObjectMetaOpt :=
  fun m => mkVolumeMeta (f (vm_Meta m)) (vm_ResourceVersion m) (vm_CreationTimestamp m).

(** Pairs taken off the list until less than two strings are left. *)
Fixpoint set_entries (m : gmap string string) (vals : list string) : gmap string string :=
  match vals with
  | key :: val :: rest => set_entries (<[key := val]> m) rest
  | _ => m
  end.

Definition setMapEntries (m : gmap string string) (vals : list string) : gmap string string :=
  set_entries m (if Nat.odd (length vals) then vals ++ [""] else vals).

Definition opt_WithName (val : string) : ObjectMetaOpt := on_common (fun m => with_name m val).
Definition opt_WithNamespace (val : string) : ObjectMetaOpt := on_common (fun m => with_namespace m val).
Definition opt_WithLabels (vals : list string) : ObjectMetaOpt :=
  on_common (fun m => set_labels m (setMapEntries (Labels m) vals)).
Definition opt_WithLabelsMap (labels : gmap string string) : ObjectMetaOpt :=
  on_common (fun m => set_labels m (labels ∪ Labels m)).
Definition opt_WithAnnotations (vals : list string) : ObjectMetaOpt :=
  on_common (fun m => set_annotations m (setMapEntries (Annotations m) vals)).
Definition opt_WithAnnotationsMap (annotations : gmap string string) : ObjectMetaOpt :=
  on_common (fun m => set_annotations m (annotations ∪ Annotations m)).
Definition opt_WithoutAnnotations (keys : list string) : ObjectMetaOpt :=
  on_common (fun m => set_annotations m (foldl (fun a key => delete key a) (Annotations m) keys)).
Definition opt_ClearAnnotations : ObjectMetaOpt := on_common (fun m => set_annotations m ∅).
Definition opt_ClearLabels : ObjectMetaOpt := on_common (fun m => set_labels m ∅).
Definition opt_WithFinalizers (vals : list string) : ObjectMetaOpt :=
  on_common (fun m => set_finalizers m vals).

(** The finalizers go through a map, whose keys come back in any order. *)
Definition AddFinalizers `{MapOrder} (vals : list string) : ObjectMetaOpt :=
  on_common (fun m =>
    set_finalizers m (map_order "finalizers" (list_to_set (Finalizers m) ∪ list_to_set vals))).

Definition WithoutFinalizers (vals : list string) : ObjectMetaOpt :=
  on_common (fun m =>
    match Finalizers m with
    | [] => m
    | existing => set_finalizers m (filter (fun f => f ∉ (list_to_set vals : gset string)) existing)
    end).

Definition opt_ClearFinalizers : ObjectMetaOpt := on_common (fun m => set_finalizers m []).
Definition opt_WithoutResourceVersion : ObjectMetaOpt :=
  fun m => mkVolumeMeta (vm_Meta m) "" (vm_CreationTimestamp m).
Definition opt_WithoutUID : ObjectMetaOpt := on_common (fun m => with_uid m "").
Definition WithoutCreationTimestamp : ObjectMetaOpt :=
  fun m => mkVolumeMeta (vm_Meta m) (vm_ResourceVersion m) None.

(** ** PersistentVolume *)

Definition SecretReference : Type := string * string.          (* name, namespace *)

Record CSIPersistentVolumeSource := mkCSISource {
  src_Driver : string;
  src_VolumeHandle : string;
  src_VolumeAttributes : gmap string string;
  src_ControllerPublishSecretRef : option SecretReference;
  src_NodeStageSecretRef : option SecretReference;
  src_NodePublishSecretRef : option SecretReference;
  src_ControllerExpandSecretRef : option SecretReference;
  src_Other : gmap string string;
}.

Definition empty_source : CSIPersistentVolumeSource := mkCSISource "" "" ∅ None None None None ∅.

(** A status: its phase, and the other fields by name. *)
Record VolumeStatus := mkVolumeStatus { st_Phase : string; st_Other : gmap string string }.

Definition empty_status : VolumeStatus := mkVolumeStatus "" ∅.

Record PersistentVolume := mkPersistentVolume {
  PV_Meta : VolumeMeta;
  PV_StorageClassName : string;
  PV_ClaimRef : option (string * string);                      (* namespace, name *)
  PV_CSI : option CSIPersistentVolumeSource;
  PV_ReclaimPolicy : string;
  PV_VolumeMode : option string;
  PV_AccessModes : list string;
  PV_Capacity : gmap string string;
  PV_OtherSpec : gmap string string;
  PV_Status : VolumeStatus;
}.

Implicit Types v : PersistentVolume.

Definition NewPersistentVolume (name : string) : PersistentVolume :=
  mkPersistentVolume (fresh_meta "" name) "" None None "" None [] ∅ ∅ empty_status.

Definition pv_on_meta (f : ObjectMetaOpt) v : PersistentVolume :=
  mkPersistentVolume (f (PV_Meta v)) (PV_StorageClassName v) (PV_ClaimRef v) (PV_CSI v)
    (PV_ReclaimPolicy v) (PV_VolumeMode v) (PV_AccessModes v) (PV_Capacity v) (PV_OtherSpec v) (PV_Status v).

Definition pv_ObjectMeta (opts : list ObjectMetaOpt) v : PersistentVolume :=
  foldl (fun v opt => pv_on_meta opt v) v opts.

Definition pv_WithName (name : string) : PersistentVolume → PersistentVolume :=
  pv_on_meta (opt_WithName name).
Definition pv_WithNamespace (ns : string) : PersistentVolume → PersistentVolume :=
  pv_on_meta (opt_WithNamespace ns).
Definition pv_WithAnnotationsMap (annotations : gmap string string) : PersistentVolume → PersistentVolume :=
  pv_on_meta (opt_WithAnnotationsMap annotations).
Definition pv_ClearAnnotations : PersistentVolume → PersistentVolume := pv_on_meta opt_ClearAnnotations.
Definition pv_WithoutAnnotations (keys : list string) : PersistentVolume → PersistentVolume :=
  pv_on_meta (opt_WithoutAnnotations keys).
Definition pv_ClearLabels : PersistentVolume → PersistentVolume := pv_on_meta opt_ClearLabels.
Definition pv_WithLabelsMap (labels : gmap string string) : PersistentVolume → PersistentVolume :=
  pv_on_meta (opt_WithLabelsMap labels).
Definition pv_WithManagedByLabel : PersistentVolume → PersistentVolume :=
  pv_WithLabelsMap {[LabelManagedBy := LabelManagedByValue]}.
Definition pv_ClearFinalizers : PersistentVolume → PersistentVolume := pv_on_meta opt_ClearFinalizers.
Definition pv_WithFinalizers (finalizers : list string) : PersistentVolume → PersistentVolume :=
  pv_on_meta (opt_WithFinalizers finalizers).
Definition pv_WithoutResourceVersion : PersistentVolume → PersistentVolume :=
  pv_on_meta opt_WithoutResourceVersion.
Definition pv_WithoutUID : PersistentVolume → PersistentVolume := pv_on_meta opt_WithoutUID.

Definition pv_WithStorageClass (name : string) v : PersistentVolume :=
  mkPersistentVolume (PV_Meta v) name (PV_ClaimRef v) (PV_CSI v)
    (PV_ReclaimPolicy v) (PV_VolumeMode v) (PV_AccessModes v) (PV_Capacity v) (PV_OtherSpec v) (PV_Status v).

Definition pv_set_claim_ref (ref : option (string * string)) v : PersistentVolume :=
  mkPersistentVolume (PV_Meta v) (PV_StorageClassName v) ref (PV_CSI v)
    (PV_ReclaimPolicy v) (PV_VolumeMode v) (PV_AccessModes v) (PV_Capacity v) (PV_OtherSpec v) (PV_Status v).

Definition pv_WithClaimRef (ns name : string) : PersistentVolume → PersistentVolume :=
  pv_set_claim_ref (Some (ns, name)).
Definition pv_ClearClaimRef : PersistentVolume → PersistentVolume := pv_set_claim_ref None.

Definition pv_set_csi (csi : option CSIPersistentVolumeSource) v : PersistentVolume :=
  mkPersistentVolume (PV_Meta v) (PV_StorageClassName v) (PV_ClaimRef v) csi
    (PV_ReclaimPolicy v) (PV_VolumeMode v) (PV_AccessModes v) (PV_Capacity v) (PV_OtherSpec v) (PV_Status v).

(** The methods that set a field of the CSI source first add one that is
    empty where the volume has none. *)
Definition pv_on_csi (f : CSIPersistentVolumeSource → CSIPersistentVolumeSource) v : PersistentVolume :=
  pv_set_csi (Some (f (default empty_source (PV_CSI v)))) v.

Definition pv_WithVolumeHandle (volumeHandle : string) : PersistentVolume → PersistentVolume :=
  pv_on_csi (fun c => mkCSISource (src_Driver c) volumeHandle (src_VolumeAttributes c)
    (src_ControllerPublishSecretRef c) (src_NodeStageSecretRef c) (src_NodePublishSecretRef c)
    (src_ControllerExpandSecretRef c) (src_Other c)).

Definition pv_WithCSIDriver (driver : string) : PersistentVolume → PersistentVolume :=
  pv_on_csi (fun c => mkCSISource driver (src_VolumeHandle c) (src_VolumeAttributes c)
    (src_ControllerPublishSecretRef c) (src_NodeStageSecretRef c) (src_NodePublishSecretRef c)
    (src_ControllerExpandSecretRef c) (src_Other c)).

Definition src_set_attributes (attrs : gmap string string) (c : CSIPersistentVolumeSource)
    : CSIPersistentVolumeSource :=
  mkCSISource (src_Driver c) (src_VolumeHandle c) attrs
    (src_ControllerPublishSecretRef c) (src_NodeStageSecretRef c) (src_NodePublishSecretRef c)
    (src_ControllerExpandSecretRef c) (src_Other c).

Definition pv_WithVolumeAttributes (attrs : gmap string string) : PersistentVolume → PersistentVolume :=
  pv_on_csi (fun c => src_set_attributes (attrs ∪ src_VolumeAttributes c) c).

(** These two leave a volume without CSI source as it is. *)
Definition pv_ClearVolumeAttributes v : PersistentVolume :=
  pv_set_csi (src_set_attributes ∅ <$> PV_CSI v) v.

Definition pv_WithoutVolumeAttribute (key : string) v : PersistentVolume :=
  pv_set_csi ((fun c => src_set_attributes (delete key (src_VolumeAttributes c)) c) <$> PV_CSI v) v.

Definition pv_WithReclaimPolicy (policy : string) v : PersistentVolume :=
  mkPersistentVolume (PV_Meta v) (PV_StorageClassName v) (PV_ClaimRef v) (PV_CSI v)
    policy (PV_VolumeMode v) (PV_AccessModes v) (PV_Capacity v) (PV_OtherSpec v) (PV_Status v).

Definition pv_WithVolumeMode (volMode : string) v : PersistentVolume :=
  mkPersistentVolume (PV_Meta v) (PV_StorageClassName v) (PV_ClaimRef v) (PV_CSI v)
    (PV_ReclaimPolicy v) (Some volMode) (PV_AccessModes v) (PV_Capacity v) (PV_OtherSpec v) (PV_Status v).

Definition pv_WithAccessModes (modes : list string) v : PersistentVolume :=
  mkPersistentVolume (PV_Meta v) (PV_StorageClassName v) (PV_ClaimRef v) (PV_CSI v)
    (PV_ReclaimPolicy v) (PV_VolumeMode v) modes (PV_Capacity v) (PV_OtherSpec v) (PV_Status v).

Definition pv_WithCapacity (capacity : gmap string string) v : PersistentVolume :=
  mkPersistentVolume (PV_Meta v) (PV_StorageClassName v) (PV_ClaimRef v) (PV_CSI v)
    (PV_ReclaimPolicy v) (PV_VolumeMode v) (PV_AccessModes v) capacity (PV_OtherSpec v) (PV_Status v).

Definition pv_WithControllerPublishSecretRef (ref : option SecretReference)
    : PersistentVolume → PersistentVolume :=
  pv_on_csi (fun c => mkCSISource (src_Driver c) (src_VolumeHandle c) (src_VolumeAttributes c)
    ref (src_NodeStageSecretRef c) (src_NodePublishSecretRef c) (src_ControllerExpandSecretRef c)
    (src_Other c)).

Definition pv_WithNodeStageSecretRef (ref : option SecretReference)
    : PersistentVolume → PersistentVolume :=
  pv_on_csi (fun c => mkCSISource (src_Driver c) (src_VolumeHandle c) (src_VolumeAttributes c)
    (src_ControllerPublishSecretRef c) ref (src_NodePublishSecretRef c) (src_ControllerExpandSecretRef c)
    (src_Other c)).

Definition pv_WithNodePublishSecretRef (ref : option SecretReference)
    : PersistentVolume → PersistentVolume :=
  pv_on_csi (fun c => mkCSISource (src_Driver c) (src_VolumeHandle c) (src_VolumeAttributes c)
    (src_ControllerPublishSecretRef c) (src_NodeStageSecretRef c) ref (src_ControllerExpandSecretRef c)
    (src_Other c)).

Definition pv_WithControllerExpandSecretRef (ref : option SecretReference)
    : PersistentVolume → PersistentVolume :=
  pv_on_csi (fun c => mkCSISource (src_Driver c) (src_VolumeHandle c) (src_VolumeAttributes c)
    (src_ControllerPublishSecretRef c) (src_NodeStageSecretRef c) (src_NodePublishSecretRef c) ref
    (src_Other c)).

Definition pv_set_status (s : VolumeStatus) v : PersistentVolume :=
  mkPersistentVolume (PV_Meta v) (PV_StorageClassName v) (PV_ClaimRef v) (PV_CSI v)
    (PV_ReclaimPolicy v) (PV_VolumeMode v) (PV_AccessModes v) (PV_Capacity v) (PV_OtherSpec v) s.

(** A status without phase is emptied before the phase is set. *)
Definition status_with_phase (phase : string) (s : VolumeStatus) : VolumeStatus :=
  mkVolumeStatus phase (st_Other (if bool_decide (st_Phase s = "") then empty_status else s)).

Definition PV_ClearStatus : PersistentVolume → PersistentVolume := pv_set_status empty_status.
Definition pv_Phase (phase : string) v : PersistentVolume :=
  pv_set_status (status_with_phase phase (PV_Status v)) v.

(** ** PersistentVolumeClaim *)

Record PersistentVolumeClaim := mkPersistentVolumeClaim {
  PVC_Meta : VolumeMeta;
  PVC_VolumeName : string;
  PVC_StorageClassName : option string;
  PVC_VolumeMode : option string;
  PVC_AccessModes : list string;
  PVC_Requests : gmap string string;
  PVC_OtherSpec : gmap string string;
  PVC_Status : VolumeStatus;
}.

Implicit Types c : PersistentVolumeClaim.

Definition NewPersistentVolumeClaim (ns name : string) : PersistentVolumeClaim :=
  mkPersistentVolumeClaim (fresh_meta ns name) "" None None [] ∅ ∅ empty_status.

Definition pvc_on_meta (f : ObjectMetaOpt) c : PersistentVolumeClaim :=
  mkPersistentVolumeClaim (f (PVC_Meta c)) (PVC_VolumeName c) (PVC_StorageClassName c) (PVC_VolumeMode c)
    (PVC_AccessModes c) (PVC_Requests c) (PVC_OtherSpec c) (PVC_Status c).

Definition pvc_ObjectMeta (opts : list ObjectMetaOpt) c : PersistentVolumeClaim :=
  foldl (fun c opt => pvc_on_meta opt c) c opts.

Definition pvc_WithName (name : string) : PersistentVolumeClaim → PersistentVolumeClaim :=
  pvc_on_meta (opt_WithName name).
Definition pvc_WithNamespace (ns : string) : PersistentVolumeClaim → PersistentVolumeClaim :=
  pvc_on_meta (opt_WithNamespace ns).
Definition pvc_WithAnnotationsMap (annotations : gmap string string)
    : PersistentVolumeClaim → PersistentVolumeClaim :=
  pvc_on_meta (opt_WithAnnotationsMap annotations).
Definition pvc_ClearAnnotations : PersistentVolumeClaim → PersistentVolumeClaim :=
  pvc_on_meta opt_ClearAnnotations.
Definition pvc_WithoutAnnotations (keys : list string) : PersistentVolumeClaim → PersistentVolumeClaim :=
  pvc_on_meta (opt_WithoutAnnotations keys).
Definition pvc_ClearLabels : PersistentVolumeClaim → PersistentVolumeClaim := pvc_on_meta opt_ClearLabels.
Definition pvc_WithLabelsMap (labels : gmap string string) : PersistentVolumeClaim → PersistentVolumeClaim :=
  pvc_on_meta (opt_WithLabelsMap labels).
Definition pvc_WithManagedByLabel : PersistentVolumeClaim → PersistentVolumeClaim :=
  pvc_WithLabelsMap {[LabelManagedBy := LabelManagedByValue]}.
Definition pvc_ClearFinalizers : PersistentVolumeClaim → PersistentVolumeClaim :=
  pvc_on_meta opt_ClearFinalizers.
Definition pvc_WithFinalizers (finalizers : list string) : PersistentVolumeClaim → PersistentVolumeClaim :=
  pvc_on_meta (opt_WithFinalizers finalizers).
Definition pvc_WithoutResourceVersion : PersistentVolumeClaim → PersistentVolumeClaim :=
  pvc_on_meta opt_WithoutResourceVersion.
Definition pvc_WithoutUID : PersistentVolumeClaim → PersistentVolumeClaim := pvc_on_meta opt_WithoutUID.

Definition pvc_WithVolumeName (name : string) c : PersistentVolumeClaim :=
  mkPersistentVolumeClaim (PVC_Meta c) name (PVC_StorageClassName c) (PVC_VolumeMode c)
    (PVC_AccessModes c) (PVC_Requests c) (PVC_OtherSpec c) (PVC_Status c).

(** The empty name takes the field away. *)
Definition pvc_WithStorageClass (name : string) c : PersistentVolumeClaim :=
  mkPersistentVolumeClaim (PVC_Meta c) (PVC_VolumeName c)
    (if bool_decide (name = "") then None else Some name) (PVC_VolumeMode c)
    (PVC_AccessModes c) (PVC_Requests c) (PVC_OtherSpec c) (PVC_Status c).

Definition pvc_set_status (s : VolumeStatus) c : PersistentVolumeClaim :=
  mkPersistentVolumeClaim (PVC_Meta c) (PVC_VolumeName c) (PVC_StorageClassName c) (PVC_VolumeMode c)
    (PVC_AccessModes c) (PVC_Requests c) (PVC_OtherSpec c) s.

Definition PVC_ClearStatus : PersistentVolumeClaim → PersistentVolumeClaim := pvc_set_status empty_status.
Definition pvc_WithPhase (phase : string) c : PersistentVolumeClaim :=
  pvc_set_status (status_with_phase phase (PVC_Status c)) c.

Definition pvc_WithVolumeMode (mode : string) c : PersistentVolumeClaim :=
  mkPersistentVolumeClaim (PVC_Meta c) (PVC_VolumeName c) (PVC_StorageClassName c) (Some mode)
    (PVC_AccessModes c) (PVC_Requests c) (PVC_OtherSpec c) (PVC_Status c).

Definition pvc_WithAccessModes (modes : list string) c : PersistentVolumeClaim :=
  mkPersistentVolumeClaim (PVC_Meta c) (PVC_VolumeName c) (PVC_StorageClassName c) (PVC_VolumeMode c)
    modes (PVC_Requests c) (PVC_OtherSpec c) (PVC_Status c).

(** The map made for absent requests is replaced at once. *)
Definition pvc_WithResources (requests : gmap string string) c : PersistentVolumeClaim :=
  mkPersistentVolumeClaim (PVC_Meta c) (PVC_VolumeName c) (PVC_StorageClassName c) (PVC_VolumeMode c)
    (PVC_AccessModes c) requests (PVC_OtherSpec c) (PVC_Status c).

(** ** The chains of [ensureMirrorPVCPV] *)

Definition PersistentVolumeReclaimDelete := "Delete".

Definition with_mode {A} (f : string → A → A) (mode : option string) (a : A) : A :=
  match mode with Some m => f m a | None => a end.

Definition mirror_pv_chain (destPVName : string) (sourcePVC : PVC) (sourcePV : PV)
    (sibSc : StorageClass) (csiDriver mirrorHandle : string) (secretRef : SecretReference)
    : PersistentVolume :=
  NewPersistentVolume destPVName
    |> pv_WithManagedByLabel
    |> pv_WithLabelsMap (mirror_pv_labels sourcePVC)
    |> pv_WithAnnotationsMap {["pv.kubernetes.io/provisioned-by" := csiDriver]}
    |> pv_WithStorageClass (sc_Name sibSc)
    |> pv_WithVolumeHandle mirrorHandle
    |> pv_WithCSIDriver csiDriver
    |> pv_WithVolumeAttributes (nonPrefixed sibSc)
    |> pv_WithReclaimPolicy PersistentVolumeReclaimDelete
    |> pv_WithAccessModes (AccessModes (pv_Shape sourcePV))
    |> pv_WithCapacity (Capacity (pv_Shape sourcePV))
    |> pv_WithControllerPublishSecretRef (Some secretRef)
    |> pv_WithNodeStageSecretRef (Some secretRef)
    |> pv_WithNodePublishSecretRef (Some secretRef)
    |> pv_WithControllerExpandSecretRef (Some secretRef)
    |> with_mode pv_WithVolumeMode (VolumeMode (pv_Shape sourcePV)).

Definition mirror_pvc_chain (b : base) (destPVCName destPVName : string) (sourcePVC : PVC)
    (sourcePV : PV) (sibSc : StorageClass) : PersistentVolumeClaim :=
  NewPersistentVolumeClaim (Namespace (pvc_Meta sourcePVC)) destPVCName
    |> pvc_WithManagedByLabel
    |> pvc_WithLabelsMap (mirror_pvc_labels (rp b) sourcePVC sibSc)
    |> pvc_WithFinalizers [FinalizerPVC]
    |> pvc_WithStorageClass (sc_Name sibSc)
    |> pvc_WithVolumeName destPVName
    |> pvc_WithAccessModes (AccessModes (pv_Shape sourcePV))
    |> pvc_WithResources (Capacity (pv_Shape sourcePV))
    |> with_mode pvc_WithVolumeMode (VolumeMode (pv_Shape sourcePV)).

(** ** The objects the other components see *)

(** A CSI source whose four secret references agree, as one with that
    reference. *)
Definition source_view (c : CSIPersistentVolumeSource) : option CSISource :=
  let ref := src_ControllerPublishSecretRef c in
  if bool_decide (src_NodeStageSecretRef c = ref ∧ src_NodePublishSecretRef c = ref ∧
                  src_ControllerExpandSecretRef c = ref)
  then Some (mkCSI (src_Driver c) (src_VolumeHandle c) (src_VolumeAttributes c) ref)
  else None.

Definition pv_view v : PV :=
  mkPV (vm_Meta (PV_Meta v)) (PV_StorageClassName v) (PV_CSI v ≫= source_view)
    (bool_decide (PV_ReclaimPolicy v = PersistentVolumeReclaimDelete))
    (mkShape (PV_AccessModes v) (PV_Capacity v) (PV_VolumeMode v)).

Definition pvc_view c : PVC :=
  mkPVC (vm_Meta (PVC_Meta c)) (PVC_StorageClassName c) (PVC_VolumeName c)
    (mkShape (PVC_AccessModes c) (PVC_Requests c) (PVC_VolumeMode c)).

(** ** Pairs and finalizers *)

Definition flatten_pairs (kvs : list (string * string)) : list string :=
  kvs ≫= (fun kv => [kv.1; kv.2]).

Lemma length_flatten_pairs kvs : length (flatten_pairs kvs) = 2 * length kvs.
Proof. induction kvs as [|kv kvs IH]; cbn; [done|]. unfold flatten_pairs in IH. lia. Qed.

Lemma set_entries_pairs m kvs : set_entries m (flatten_pairs kvs) = list_to_map (reverse kvs) ∪ m.
Proof.
  revert m. induction kvs as [|[k v] kvs IH]; intros m; cbn.
  { by rewrite (left_id_L ∅ (∪)). }
  change (set_entries (<[k := v]> m) (flatten_pairs kvs) = list_to_map (reverse ((k, v) :: kvs)) ∪ m).
  rewrite IH, reverse_cons, list_to_map_app. cbn.
  rewrite insert_union_singleton_l, insert_empty. by rewrite (assoc_L (∪)).
Qed.

(** The entries of the pairs replace those of the map, and of two pairs with
    one key the later one counts; a key at the end without value gets the
    empty one. *)
Lemma setMapEntries_pairs m kvs :
  setMapEntries m (flatten_pairs kvs) = list_to_map (reverse kvs) ∪ m ∧
  ∀ key, setMapEntries m (flatten_pairs kvs ++ [key]) = <[key := ""]> (list_to_map (reverse kvs) ∪ m).
Proof.
  unfold setMapEntries. split.
  - rewrite length_flatten_pairs, Nat.odd_mul. cbn. apply set_entries_pairs.
  - intros key. rewrite length_app, length_flatten_pairs, Nat.odd_add, Nat.odd_mul. cbn.
    rewrite <- (assoc_L (++)). cbn.
    replace (flatten_pairs kvs ++ [key; ""]) with (flatten_pairs (kvs ++ [(key, "")]))
      by (unfold flatten_pairs; by rewrite bind_app).
    rewrite set_entries_pairs, reverse_snoc. cbn. by rewrite insert_union_l.
Qed.

Definition order_is_iteration (mo : MapOrder) : Prop :=
  ∀ what (X : gset string), @map_order mo what X ≡ₚ elements X.

Lemma AddFinalizers_spec `{mo : MapOrder} vals m (Horder : order_is_iteration mo) :
  let m' := AddFinalizers vals m in
  NoDup (Finalizers (vm_Meta m')) ∧
  (∀ f, f ∈ Finalizers (vm_Meta m') ↔ f ∈ Finalizers (vm_Meta m) ∨ f ∈ vals) ∧
  Labels (vm_Meta m') = Labels (vm_Meta m) ∧ Name (vm_Meta m') = Name (vm_Meta m).
Proof.
  intros m'. subst m'. unfold AddFinalizers, on_common. cbn [vm_Meta Finalizers Labels Name set_finalizers].
  split; [|split; [intros f|done]]; rewrite (Horder _ _); [apply NoDup_elements | set_solver].
Qed.

(** Removing what was added gives back the finalizers the object had, up to
    their order and repetitions. *)
Lemma WithoutFinalizers_AddFinalizers `{mo : MapOrder} vals m (Horder : order_is_iteration mo)
    (Hnew : Finalizers (vm_Meta m) ## vals) (f : string) :
  f ∈ Finalizers (vm_Meta (WithoutFinalizers vals (AddFinalizers vals m))) ↔ f ∈ Finalizers (vm_Meta m).
Proof.
  destruct (AddFinalizers_spec vals m Horder) as (_ & Hin & _). specialize (Hin f).
  revert Hin. generalize (AddFinalizers vals m). intros a Hin. unfold WithoutFinalizers, on_common.
  cbn [vm_Meta]. destruct (Finalizers (vm_Meta a)) as [|g existing] eqn:Ha.
  - rewrite Ha. set_solver.
  - cbn [Finalizers set_finalizers]. rewrite list_elem_of_filter, Hin, elem_of_list_to_set. set_solver.
Qed.

(** ** The mirrors are what the chains build *)

Lemma labels_over_managed (labels : gmap string string) val :
  LabelManagedBy ∈ dom labels → labels ∪ {[LabelManagedBy := val]} = labels.
Proof.
  intros [l Hl]%elem_of_dom. apply map_eq. intros k.
  rewrite lookup_union.
  destruct (decide (k = LabelManagedBy)) as [->|Hk]; [by rewrite Hl, lookup_singleton_eq|].
  rewrite lookup_singleton_ne by done. by destruct (labels !! k).
Qed.

Lemma add_parent_labels_keep w nameLabel nsLabel labels :
  LabelManagedBy ∈ dom labels → LabelManagedBy ∈ dom (add_parent_labels w nameLabel nsLabel labels).
Proof. intros H. unfold add_parent_labels. repeat case_bool_decide; set_solver. Qed.

Lemma mirror_pvc_labels_managed w p sc : LabelManagedBy ∈ dom (mirror_pvc_labels w p sc).
Proof. unfold mirror_pvc_labels. do 2 apply add_parent_labels_keep. set_solver. Qed.

Lemma mirror_pv_labels_managed p : LabelManagedBy ∈ dom (mirror_pv_labels p).
Proof. unfold mirror_pv_labels. set_solver. Qed.

(** Evaluates the methods and leaves the maps alone. *)
Ltac cbn_maps := cbn -[union singletonM insert empty mirror_pv_labels mirror_pvc_labels nonPrefixed bool_decide].

(** The claim's chain with and without a volume mode. *)
Lemma mirror_pvc_chain_view b name pvName p pv sc :
  pvc_view (mirror_pvc_chain b name pvName p pv sc) = mirror_pvc b name pvName p pv sc.
Proof.
  unfold pvc_view, mirror_pvc_chain, mirror_pvc.
  destruct (pv_Shape pv) as [modes capacity [mode|]]; cbn_maps;
    by rewrite !(right_id_L ∅ (∪)), labels_over_managed by apply mirror_pvc_labels_managed.
Qed.

(** The volume's chain: what the other components see of it, and the fields
    they do not see. *)
Lemma mirror_pv_chain_view name p pv sc driver handle ref :
  let v := mirror_pv_chain name p pv sc driver handle ref in
  pv_view v = mirror_pv name p pv sc driver handle ref ∧
  PV_CSI v = Some (mkCSISource driver handle (nonPrefixed sc) (Some ref) (Some ref) (Some ref) (Some ref) ∅) ∧
  PV_ClaimRef v = None ∧ PV_Status v = empty_status ∧ vm_ResourceVersion (PV_Meta v) = "".
Proof.
  unfold pv_view, mirror_pv_chain, mirror_pv.
  destruct (pv_Shape pv) as [modes capacity [mode|]]; cbn_maps;
    rewrite !(right_id_L ∅ (∪)), labels_over_managed by apply mirror_pv_labels_managed;
    unfold source_view; cbn_maps; by rewrite !bool_decide_true by done.
Qed.

(** Mirror objects: the chains of builder calls build the mirror
    PersistentVolume and its claim the rest of the development reasons about.
    Whatever the source and the sibling StorageClass, the labels are those of
    the source with the managed-by label among them, the claim names the
    volume and the volume carries no claim reference, all four secret
    references of the CSI source are the sibling's provisioner secret, the
    reclaim policy is Delete, and modes and capacity are the source's, a
    source without volume mode giving mirrors without one. *)
Theorem mirror_objects_built (b : base) (pvcName pvName : string) (sourcePVC : PVC) (sourcePV : PV)
    (sibSc : StorageClass) (driver handle : string) (ref : SecretReference) :
  let v := mirror_pv_chain pvName sourcePVC sourcePV sibSc driver handle ref in
  let c := mirror_pvc_chain b pvcName pvName sourcePVC sourcePV sibSc in
  pv_view v = mirror_pv pvName sourcePVC sourcePV sibSc driver handle ref ∧
  pvc_view c = mirror_pvc b pvcName pvName sourcePVC sourcePV sibSc ∧
  PVC_VolumeName c = Name (vm_Meta (PV_Meta v)) ∧ PV_ClaimRef v = None ∧
  PV_VolumeMode v = PVC_VolumeMode c ∧
  (src_ControllerPublishSecretRef <$> PV_CSI v) = Some (Some ref) ∧
  (src_NodeStageSecretRef <$> PV_CSI v) = Some (Some ref) ∧
  (src_NodePublishSecretRef <$> PV_CSI v) = Some (Some ref) ∧
  (src_ControllerExpandSecretRef <$> PV_CSI v) = Some (Some ref).
Proof.
  intros v c. destruct (mirror_pv_chain_view pvName sourcePVC sourcePV sibSc driver handle ref)
    as (Hv & Hcsi & Href & _). fold v in Hv, Hcsi, Href.
  pose proof (mirror_pvc_chain_view b pvcName pvName sourcePVC sourcePV sibSc) as Hc. fold c in Hc.
  rewrite Hcsi. split; [done|]. split; [done|].
  assert (Hname := f_equal (Name ∘ pv_Meta) Hv). assert (Hmode := f_equal (VolumeMode ∘ pv_Shape) Hv).
  assert (Hvol := f_equal pvc_VolumeName Hc). assert (Hmode' := f_equal (VolumeMode ∘ pvc_Shape) Hc).
  cbn in *. repeat split; congruence.
Qed.
