(* ===== verification/DeepCopy.v ===== *)
(** * Deep copies of specifications and statuses

    [api/v1alpha1/deepcopy.go], on a store of arrays and maps: a slice or a
    map in a structure is a reference into the store, so that what two copies
    share is visible.  The copies of the three specifications and of the
    status of a VastReplicationContent are shown to be independent of their
    originals; the copies of the other two statuses share their maps. *)

From S2P Require Import Prelude GoErrors Topology.
From stdpp Require Import options.

(** ** The store *)

Inductive cell :=
  | Targets (xs : list ReplicationTarget)
  | Frames (xs : list ProtectionPolicyFrame)
  | Strings (xs : list string)
  | Dirs (m : gmap string string)
  | Tenants (m : gmap string TenantInfo).

Notation Store := (list cell).
Implicit Types h : Store.

(** A slice: its array and its length.  The nil slice and the nil map are
    [None]. *)
Record Slice := mkSlice { slice_array : nat; slice_len : nat }.

(** Element types of the arrays. *)
Class Elem (A : Type) := mkElem {
  to_cell : list A → cell;
  of_cell : cell → option (list A);
  of_to_cell : ∀ xs, of_cell (to_cell xs) = Some xs;
}.

#[export, refine] Instance target_elem : Elem ReplicationTarget :=
  mkElem _ Targets (fun c => match c with Targets xs => Some xs | _ => None end) _.
Proof. done. Defined.
#[export, refine] Instance frame_elem : Elem ProtectionPolicyFrame :=
  mkElem _ Frames (fun c => match c with Frames xs => Some xs | _ => None end) _.
Proof. done. Defined.
#[export, refine] Instance string_elem : Elem string :=
  mkElem _ Strings (fun c => match c with Strings xs => Some xs | _ => None end) _.
Proof. done. Defined.

Definition slice_value {A} `{Elem A} h (s : option Slice) : list A :=
  match s with
  | None => []
  | Some s => take (slice_len s) (default [] (h !! slice_array s ≫= of_cell))
  end.

Definition dirs_value h (r : option nat) : gmap string string :=
  match r ≫= (fun l => h !! l) with Some (Dirs m) => m | _ => ∅ end.
Definition tenants_value h (r : option nat) : gmap string TenantInfo :=
  match r ≫= (fun l => h !! l) with Some (Tenants m) => m | _ => ∅ end.

Definition slice_ref (s : option Slice) : list nat := option_list (slice_array <$> s).

(** [make] with the length of the slice, and [copy]. *)
Definition copy_slice {A} `{Elem A} h (s : option Slice) : option Slice * Store :=
  match s with
  | None => (None, h)
  | Some s' => (Some (mkSlice (length h) (slice_len s')), h ++ [to_cell (slice_value h s)])
  end.

(** ** Structures *)

Record VRCSpecStruct := mkVRCSpecStruct {
  vrcS_StorageClass : string;
  vrcS_ProvisionerType : ProvisionerType;
  vrcS_Kind : string;
  vrcS_SyncPVCPV : bool;
  vrcS_ReplicationPath : string;
  vrcS_ProtectionPolicyNames : option Slice;
  vrcS_ProtectedPathName : string;
  vrcS_PVCs : option Slice;
  vrcS_ReplicationState : string;
}.

Record VSCRSpecStruct := mkVSCRSpecStruct {
  vscrS_PrimaryStorageClass : string;
  vscrS_ProtectionTopology : option Slice;
  vscrS_Params : option Slice;
  vscrS_FailoverType : FailoverAction;
  vscrS_Resync : bool;
  vscrS_SyncIntervalSeconds : Z;
  vscrS_PVCRemap : bool;
  vscrS_SyncPVCPV : bool;
  vscrS_DestVolReclaimPolicy : DestVolReclaimPolicy;
  vscrS_VolumeNamespace : string;
}.

Record VVRSpecStruct := mkVVRSpecStruct {
  vvrS_VolumeName : string;
  vvrS_VolumeNamespace : string;
  vvrS_PrimaryStorageClass : string;
  vvrS_ProtectionTopology : option Slice;
  vvrS_Params : option Slice;
  vvrS_FailoverType : FailoverAction;
  vvrS_Resync : bool;
  vvrS_SyncIntervalSeconds : Z;
  vvrS_PVCRemap : bool;
  vvrS_DestVolReclaimPolicy : DestVolReclaimPolicy;
}.

(** The status of both resources. *)
Record StatusStruct := mkStatusStruct {
  stS_LastFailoverType : FailoverAction;
  stS_CurrentPrimaryStorageClass : string;
  stS_StorageClassesPreview : string;
  stS_PpathDirMapping : option nat;
  stS_TenantMapping : option nat;
  stS_PpathName : string;
  stS_SyncStatus : string;
}.

Record VRCStatusStruct := mkVRCStatusStruct {
  vrcsS_Provisioned : bool;
  vrcsS_ObservedGeneration : Z;
  vrcsS_PVCsPreview : string;
  vrcsS_PVCs : option Slice;
}.

(** What a structure stands for in a store, and the cells it refers to. *)
Class Struct (S V : Type) := mkStruct {
  value : Store → S → V;
  refs : S → list nat;
}.

#[export] Instance vrc_spec_struct : Struct VRCSpecStruct VRCSpec := {|
  value h s := mkVRCSpec (vrcS_StorageClass s) (vrcS_ProvisionerType s) (vrcS_Kind s) (vrcS_SyncPVCPV s)
    (vrcS_ReplicationPath s) (slice_value h (vrcS_ProtectionPolicyNames s)) (vrcS_ProtectedPathName s)
    (slice_value h (vrcS_PVCs s)) (vrcS_ReplicationState s);
  refs s := slice_ref (vrcS_ProtectionPolicyNames s) ++ slice_ref (vrcS_PVCs s);
|}.
#[export] Instance vscr_spec_struct : Struct VSCRSpecStruct VSCRSpec := {|
  value h s := mkVSCRSpec (vscrS_PrimaryStorageClass s) (slice_value h (vscrS_ProtectionTopology s))
    (mkTemplate (slice_value h (vscrS_Params s))) (vscrS_FailoverType s) (vscrS_Resync s)
    (vscrS_SyncIntervalSeconds s) (vscrS_PVCRemap s) (vscrS_SyncPVCPV s) (vscrS_DestVolReclaimPolicy s)
    (vscrS_VolumeNamespace s);
  refs s := slice_ref (vscrS_ProtectionTopology s) ++ slice_ref (vscrS_Params s);
|}.
#[export] Instance vvr_spec_struct : Struct VVRSpecStruct VVRSpec := {|
  value h s := mkVVRSpec (vvrS_VolumeName s) (vvrS_VolumeNamespace s) (vvrS_PrimaryStorageClass s)
    (slice_value h (vvrS_ProtectionTopology s)) (mkTemplate (slice_value h (vvrS_Params s)))
    (vvrS_FailoverType s) (vvrS_Resync s) (vvrS_SyncIntervalSeconds s) (vvrS_PVCRemap s)
    (vvrS_DestVolReclaimPolicy s);
  refs s := slice_ref (vvrS_ProtectionTopology s) ++ slice_ref (vvrS_Params s);
|}.
#[export] Instance status_struct : Struct StatusStruct ReplicationStatus := {|
  value h s := mkStatus (stS_LastFailoverType s) (stS_CurrentPrimaryStorageClass s)
    (stS_StorageClassesPreview s) (dirs_value h (stS_PpathDirMapping s))
    (tenants_value h (stS_TenantMapping s)) (stS_PpathName s) (stS_SyncStatus s);
  refs s := option_list (stS_PpathDirMapping s) ++ option_list (stS_TenantMapping s);
|}.
#[export] Instance vrc_status_struct : Struct VRCStatusStruct VRCStatus := {|
  value h s := mkVRCStatus (vrcsS_Provisioned s) (vrcsS_ObservedGeneration s) (vrcsS_PVCsPreview s)
    (slice_value h (vrcsS_PVCs s));
  refs s := slice_ref (vrcsS_PVCs s);
|}.

(** ** Copies *)

Definition VRCSpec_DeepCopyInto h (s : VRCSpecStruct) : VRCSpecStruct * Store :=
  let '(pvcs, h1) := copy_slice (A := string) h (vrcS_PVCs s) in
  let '(names, h2) := copy_slice (A := string) h1 (vrcS_ProtectionPolicyNames s) in
  (mkVRCSpecStruct (vrcS_StorageClass s) (vrcS_ProvisionerType s) (vrcS_Kind s) (vrcS_SyncPVCPV s)
     (vrcS_ReplicationPath s) names (vrcS_ProtectedPathName s) pvcs (vrcS_ReplicationState s), h2).

Definition VSCRSpec_DeepCopyInto h (s : VSCRSpecStruct) : VSCRSpecStruct * Store :=
  let '(topology, h1) := copy_slice (A := ReplicationTarget) h (vscrS_ProtectionTopology s) in
  let '(params, h2) := copy_slice (A := ProtectionPolicyFrame) h1 (vscrS_Params s) in
  (mkVSCRSpecStruct (vscrS_PrimaryStorageClass s) topology params (vscrS_FailoverType s) (vscrS_Resync s)
     (vscrS_SyncIntervalSeconds s) (vscrS_PVCRemap s) (vscrS_SyncPVCPV s) (vscrS_DestVolReclaimPolicy s)
     (vscrS_VolumeNamespace s), h2).

Definition VVRSpec_DeepCopyInto h (s : VVRSpecStruct) : VVRSpecStruct * Store :=
  let '(topology, h1) := copy_slice (A := ReplicationTarget) h (vvrS_ProtectionTopology s) in
  let '(params, h2) := copy_slice (A := ProtectionPolicyFrame) h1 (vvrS_Params s) in
  (mkVVRSpecStruct (vvrS_VolumeName s) (vvrS_VolumeNamespace s) (vvrS_PrimaryStorageClass s) topology params
     (vvrS_FailoverType s) (vvrS_Resync s) (vvrS_SyncIntervalSeconds s) (vvrS_PVCRemap s)
     (vvrS_DestVolReclaimPolicy s), h2).

(** The two replication statuses: the structure only. *)
Definition Status_DeepCopyInto h (s : StatusStruct) : StatusStruct * Store := (s, h).

Definition VRCStatus_DeepCopyInto h (s : VRCStatusStruct) : VRCStatusStruct * Store :=
  let '(pvcs, h1) := copy_slice (A := string) h (vrcsS_PVCs s) in
  (mkVRCStatusStruct (vrcsS_Provisioned s) (vrcsS_ObservedGeneration s) (vrcsS_PVCsPreview s) pvcs, h1).

(** [DeepCopy]: nil for nil, a new structure otherwise. *)
Definition DeepCopy {S} (into : Store → S → S * Store) h (s : option S) : option S * Store :=
  match s with
  | None => (None, h)
  | Some s => let '(c, h') := into h s in (Some c, h')
  end.

(** ** Independence *)

(** All references of a structure lead into the store. *)
Definition allocated {S V} `{Struct S V} h (s : S) : Prop := ∀ l, l ∈ refs s → l < length h.

(** Anything may have happened to the cells [ls] and new cells may have been
    made; every other cell is as it was. *)
Definition wrote_only (ls : list nat) h h' : Prop := ∀ l, l < length h → l ∉ ls → h' !! l = h !! l.

(** Writes through one structure are not seen through the other. *)
Definition independent {S V} `{Struct S V} h (s c : S) : Prop :=
  (∀ h', wrote_only (refs c) h h' → value h' s = value h s) ∧
  (∀ h', wrote_only (refs s) h h' → value h' c = value h c).

(** The value of a structure is read off its cells. *)
Class Local (S V : Type) `{Struct S V} :=
  value_local : ∀ h h' (s : S), (∀ l, l ∈ refs s → h' !! l = h !! l) → value h' s = value h s.

Lemma slice_value_local {A} `{Elem A} h h' (s : option Slice) :
  (∀ l, l ∈ slice_ref s → h' !! l = h !! l) → slice_value (A := A) h' s = slice_value h s.
Proof. destruct s as [s|]; [|done]. intros Hh. cbn. by rewrite Hh by (cbn; set_solver). Qed.

Lemma map_value_local {M} h h' (r : option nat) (read : option cell → M) :
  (∀ l, l ∈ option_list r → h' !! l = h !! l) →
  read (r ≫= (fun l => h' !! l)) = read (r ≫= (fun l => h !! l)).
Proof. destruct r as [l|]; [|done]. intros Hh. cbn. by rewrite Hh by (cbn; set_solver). Qed.

Ltac solve_local :=
  intros h h' s Hh; cbn in Hh |- *; f_equal;
  first [apply slice_value_local | f_equal; apply slice_value_local | idtac]; intros l Hl; apply Hh; set_solver.

#[export] Instance vrc_spec_local : Local VRCSpecStruct VRCSpec.
Proof. solve_local. Qed.
#[export] Instance vscr_spec_local : Local VSCRSpecStruct VSCRSpec.
Proof. solve_local. Qed.
#[export] Instance vvr_spec_local : Local VVRSpecStruct VVRSpec.
Proof. solve_local. Qed.
#[export] Instance vrc_status_local : Local VRCStatusStruct VRCStatus.
Proof. solve_local. Qed.
#[export] Instance status_local : Local StatusStruct ReplicationStatus.
Proof.
  intros h h' s Hh. cbn in Hh |- *. unfold dirs_value, tenants_value. f_equal.
  - apply (map_value_local h h' _ (fun c => match c with Some (Dirs m) => m | _ => ∅ end)). set_solver.
  - apply (map_value_local h h' _ (fun c => match c with Some (Tenants m) => m | _ => ∅ end)). set_solver.
Qed.

(** What a copy has to achieve: the old store is left alone, the copy has the
    value of the original, and its references lead to new cells. *)
Definition deep_copied {S V} `{Struct S V} h (s : S) (r : S * Store) : Prop :=
  h `prefix_of` r.2 ∧ value r.2 r.1 = value h s ∧ ∀ l, l ∈ refs r.1 → length h ≤ l < length r.2.

Lemma prefix_lookup h h' l : h `prefix_of` h' → l < length h → h' !! l = h !! l.
Proof. intros [t ->] Hl. by apply lookup_app_l. Qed.

Lemma deep_copied_independent {S V} `{Local S V} h (s : S) r :
  allocated h s → deep_copied h s r → value r.2 s = value h s ∧ independent r.2 s r.1.
Proof.
  intros Hs (Hpre & _ & Hfresh). assert (Hlen := prefix_length _ _ Hpre).
  split; [apply value_local; intros l Hl; apply prefix_lookup; auto|].
  split; intros h' Hw; apply value_local; intros l Hl; apply Hw.
  - specialize (Hs l Hl). lia.
  - intros Hc%Hfresh. specialize (Hs l Hl). lia.
  - by apply Hfresh.
  - intros Hc%Hs. specialize (Hfresh l Hl). lia.
Qed.

(** [make] and [copy]. *)
Lemma copy_slice_spec {A} `{Elem A} h (s : option Slice) :
  let r := copy_slice (A := A) h s in
  h `prefix_of` r.2 ∧ slice_value (A := A) r.2 r.1 = slice_value h s ∧
  ∀ l, l ∈ slice_ref r.1 → length h ≤ l < length r.2.
Proof.
  destruct s as [s|];
    [|split; [done|]; split; [done|]; intros l Hl; by apply not_elem_of_nil in Hl].
  split; [by exists [to_cell (slice_value h (Some s))]|].
  cbn [copy_slice fst snd slice_value slice_array slice_len slice_ref]. split.
  - rewrite list_lookup_middle by done. cbn. rewrite of_to_cell. cbn. by rewrite take_take, Nat.min_id.
  - intros l Hl. apply list_elem_of_singleton in Hl. subst l. rewrite length_app. cbn. lia.
Qed.

(** Two copies in a row, of two slices of one structure. *)
Lemma copy_slices_spec {A B} `{Elem A, Elem B} h (s : option Slice) (t : option Slice) :
  (∀ l, l ∈ slice_ref s ++ slice_ref t → l < length h) →
  let r := copy_slice (A := A) h s in
  let r' := copy_slice (A := B) r.2 t in
  h `prefix_of` r'.2 ∧ slice_value (A := A) r'.2 r.1 = slice_value h s ∧
  slice_value (A := B) r'.2 r'.1 = slice_value h t ∧
  ∀ l, l ∈ slice_ref r.1 ++ slice_ref r'.1 → length h ≤ l < length r'.2.
Proof.
  intros Hall r r'. destruct (copy_slice_spec (A := A) h s) as (Hp & Hv & Hf). fold r in Hp, Hv, Hf.
  destruct (copy_slice_spec (A := B) r.2 t) as (Hp' & Hv' & Hf'). fold r' in Hp', Hv', Hf'.
  assert (Hlen := prefix_length _ _ Hp). assert (Hlen' := prefix_length _ _ Hp').
  split; [by trans r.2|]. split; [|split].
  - rewrite <- Hv. apply slice_value_local. intros l Hl. apply prefix_lookup; [done|]. by apply Hf.
  - rewrite Hv'. apply slice_value_local. intros l Hl. apply prefix_lookup; [done|]. apply Hall. set_solver.
  - intros l [Hl|Hl]%elem_of_app; [specialize (Hf l Hl) | specialize (Hf' l Hl)]; lia.
Qed.

Lemma VRCSpec_deep h s : allocated h s → deep_copied h s (VRCSpec_DeepCopyInto h s).
Proof.
  intros Hs. destruct (copy_slices_spec (A := string) (B := string) h (vrcS_PVCs s)
    (vrcS_ProtectionPolicyNames s)) as (Hp & Hv & Hv' & Hf).
  { intros l Hl. apply Hs. cbn. set_solver. }
  unfold VRCSpec_DeepCopyInto. destruct (copy_slice h _) as [pvcs h1]. cbn in *.
  destruct (copy_slice h1 _) as [names h2]. cbn in *. split; [done|]. cbn. split; [by rewrite Hv, Hv'|].
  intros l Hl. apply Hf. set_solver.
Qed.

Lemma VSCRSpec_deep h s : allocated h s → deep_copied h s (VSCRSpec_DeepCopyInto h s).
Proof.
  intros Hs. destruct (copy_slices_spec (A := ReplicationTarget) (B := ProtectionPolicyFrame) h
    (vscrS_ProtectionTopology s) (vscrS_Params s) Hs) as (Hp & Hv & Hv' & Hf).
  unfold VSCRSpec_DeepCopyInto. destruct (copy_slice h _) as [topology h1]. cbn in *.
  destruct (copy_slice h1 _) as [params h2]. cbn in *. split; [done|]. cbn. by rewrite Hv, Hv'.
Qed.

Lemma VVRSpec_deep h s : allocated h s → deep_copied h s (VVRSpec_DeepCopyInto h s).
Proof.
  intros Hs. destruct (copy_slices_spec (A := ReplicationTarget) (B := ProtectionPolicyFrame) h
    (vvrS_ProtectionTopology s) (vvrS_Params s) Hs) as (Hp & Hv & Hv' & Hf).
  unfold VVRSpec_DeepCopyInto. destruct (copy_slice h _) as [topology h1]. cbn in *.
  destruct (copy_slice h1 _) as [params h2]. cbn in *. split; [done|]. cbn. by rewrite Hv, Hv'.
Qed.

Lemma VRCStatus_deep h s : deep_copied h s (VRCStatus_DeepCopyInto h s).
Proof.
  destruct (copy_slice_spec (A := string) h (vrcsS_PVCs s)) as (Hp & Hv & Hf).
  unfold VRCStatus_DeepCopyInto. destruct (copy_slice h _) as [pvcs h1]. cbn in *.
  split; [done|]. cbn. by rewrite Hv.
Qed.

(** A copy that has the value of its original, left the original as it was,
    and is independent of it. *)
Definition faithful_copy {S V} `{Struct S V} h (s : S) (r : option S * Store) : Prop :=
  ∃ c, r.1 = Some c ∧ value r.2 c = value h s ∧ value r.2 s = value h s ∧ independent r.2 s c.

Lemma DeepCopy_faithful {S V} `{Local S V} (into : Store → S → S * Store) h (s : S) :
  allocated h s → deep_copied h s (into h s) → faithful_copy h s (DeepCopy into h (Some s)).
Proof.
  intros Hs Hd. destruct (deep_copied_independent h s _ Hs Hd) as (Hv & Hi). destruct Hd as (_ & Hc & _).
  unfold DeepCopy. destruct (into h s) as [c h']. by exists c.
Qed.

(** ** The statuses that share their maps *)

(** [status.PpathDirMapping = mapping], with a map made for it. *)
Definition assign_dirs h (s : StatusStruct) (m : gmap string string) : StatusStruct * Store :=
  (mkStatusStruct (stS_LastFailoverType s) (stS_CurrentPrimaryStorageClass s) (stS_StorageClassesPreview s)
     (Some (length h)) (stS_TenantMapping s) (stS_PpathName s) (stS_SyncStatus s), h ++ [Dirs m]).

(** [status.PpathDirMapping[key] = dir]. *)
Definition insert_dir h (s : StatusStruct) (key dir : string) : Store :=
  match stS_PpathDirMapping s with
  | Some l => <[l := Dirs (<[key := dir]> (dirs_value h (Some l)))]> h
  | None => h
  end.

(** An entry written through the copy of a status appears in the original;
    a map assigned to the copy does not. *)
Theorem status_copy_shares h (s : StatusStruct) l m (key dir : string) :
  stS_PpathDirMapping s = Some l → h !! l = Some (Dirs m) → allocated h s →
  ∃ c, DeepCopy Status_DeepCopyInto h (Some s) = (Some c, h) ∧
    PpathDirMapping (value (insert_dir h c key dir) s) = <[key := dir]> m ∧
    (let '(c', h') := assign_dirs h c {[key := dir]} in
     PpathDirMapping (value h' c') = {[key := dir]} ∧ value h' s = value h s).
Proof.
  intros Hl Hm Hs. exists s. split; [done|].
  assert (Hdirs : dirs_value h (Some l) = m) by (unfold dirs_value; cbn; by rewrite Hm).
  assert (Hlt : l < length h) by (apply lookup_lt_is_Some; eauto).
  split; [|split].
  - unfold insert_dir. rewrite Hl, Hdirs. cbn [PpathDirMapping value status_struct]. rewrite Hl.
    unfold dirs_value. cbn. by rewrite list_lookup_insert_eq by done.
  - cbn [assign_dirs PpathDirMapping value status_struct stS_PpathDirMapping]. unfold dirs_value.
    cbn. by rewrite list_lookup_middle by done.
  - apply value_local. intros k Hk. apply lookup_app_l. by apply Hs.
Qed.

(** C38. Deep copies: the copies of the three specifications and of the
    status of a VastReplicationContent have the values of their originals and
    share nothing with them: whatever is later written through the copy, the
    original keeps its value, and the other way round, so that an object from
    the cache of the API client can be changed after copying it.  The copy of
    nil is nil. *)
Theorem deep_copies_independent h (vrc : VRCSpecStruct) (vscr : VSCRSpecStruct) (vvr : VVRSpecStruct)
    (st : VRCStatusStruct) (Hvrc : allocated h vrc) (Hvscr : allocated h vscr) (Hvvr : allocated h vvr)
    (Hst : allocated h st) :
  faithful_copy h vrc (DeepCopy VRCSpec_DeepCopyInto h (Some vrc)) ∧
  faithful_copy h vscr (DeepCopy VSCRSpec_DeepCopyInto h (Some vscr)) ∧
  faithful_copy h vvr (DeepCopy VVRSpec_DeepCopyInto h (Some vvr)) ∧
  faithful_copy h st (DeepCopy VRCStatus_DeepCopyInto h (Some st)) ∧
  DeepCopy VRCSpec_DeepCopyInto h None = (None, h) ∧ DeepCopy VSCRSpec_DeepCopyInto h None = (None, h) ∧
  DeepCopy VVRSpec_DeepCopyInto h None = (None, h) ∧ DeepCopy VRCStatus_DeepCopyInto h None = (None, h).
Proof.
  repeat split; apply DeepCopy_faithful;
    auto using VRCSpec_deep, VSCRSpec_deep, VVRSpec_deep, VRCStatus_deep.
Qed.

(** ** An example *)

Definition demo_store : Store :=
  [Targets [mkTarget "a" "b" "" ""]; Frames [mkFrame "1h" "" "" ""]; Strings ["p1"; "p2"]].
Definition demo_vrc_spec : VRCSpecStruct :=
  mkVRCSpecStruct "a" ProvisionerTypeBlock "" true "/x" None "pp" (Some (mkSlice 2 2)) "".
Definition demo_vscr_spec : VSCRSpecStruct :=
  mkVSCRSpecStruct "a" (Some (mkSlice 0 1)) (Some (mkSlice 1 1)) FailoverTypeGraceful false 0 true true
    DestVolReclaimPolicyDelete "".
Definition demo_vvr_spec : VVRSpecStruct :=
  mkVVRSpecStruct "v" "" "a" (Some (mkSlice 0 1)) (Some (mkSlice 1 1)) FailoverTypeGraceful false 0 true
    DestVolReclaimPolicyDelete.
Definition demo_vrc_status : VRCStatusStruct := mkVRCStatusStruct true 1 "p1" (Some (mkSlice 2 1)).

(** The copy lies in two new cells; overwriting its topology is not seen by
    the original. *)
Lemma deep_copies_independent_witness :
  let r := DeepCopy VSCRSpec_DeepCopyInto demo_store (Some demo_vscr_spec) in
  let h' := <[3 := Targets [mkTarget "x" "y" "" ""]]> r.2 in
  faithful_copy demo_store demo_vscr_spec r ∧
  (refs <$> r.1) = Some [3; 4] ∧
  (vscr_ProtectionTopology ∘ value h' <$> r.1) = Some [mkTarget "x" "y" "" ""] ∧
  vscr_ProtectionTopology (value h' demo_vscr_spec) = [mkTarget "a" "b" "" ""].
Proof.
  intros r h'. split; [|repeat split].
  apply (deep_copies_independent demo_store demo_vrc_spec demo_vscr_spec demo_vvr_spec demo_vrc_status);
    intros l Hl; cbn in Hl; repeat (apply elem_of_cons in Hl as [->|Hl]; [cbn; lia|]);
    by apply not_elem_of_nil in Hl.
Defined.
